(* ===== verification/_CoqProject ===== *)
-Q . S2P
Prelude.v
Task.v
WaitingFibers.v
Worker.v
WorkerFrame.v
WorkerLogic.v
WorkerInv.v
WorkerSafety.v
WorkerProps.v
WorkerQueue.v
WorkerSpec.v
Scheduler.v
SchedulerProps.v
Build.v
Threads.v
System.v
SystemInv.v
SystemRuns.v
SystemTasks.v
SystemProps.v
Dag.v
DagProps.v
Vector.v
IntrusiveList.v
Memory.v
MemoryProps.v
Allocators.v
TrackedThreads.v
AffinityVector.v
SchedulerApi.v
OSFiber.v
AsmFiber.v
UContext.v
WorkerFibers.v
UContextFibers.v
AsmFibers.v
AsmDefault.v
Annotations.v
WaitGroup.v
CondVar.v
WaitGroupCV.v
Event.v
EventProps.v
EventAny.v
EventAnyProps.v
EventSignal.v
Parallel.v
DagRun.v
BlockingCall.v
Finally.v
Format.v
Trace.v
Mutex.v
