(* ===== verification/Prelude.v ===== *)
(** * miniMarl: a verification of the fiber scheduler

    miniMarl (src/) is a C++ library that runs tasks on fibers.  A [Scheduler]
    owns worker threads and the workers of the threads bound to it; a [Worker]
    runs tasks on fibers it switches between, so that a task that waits does
    not block its thread; [WaitGroup], [ConditionVariable] and [Event] make
    tasks wait for each other; [DAG] runs a graph of tasks; allocators,
    containers, threads and the switch between stacks are the ground it stands
    on.  This development translates that code to executable definitions and
    proves what makes it correct, and, where it is not, that it is not.

    ** The files

    - Prelude.v: outcomes of C++ code ([Ok], [Fatal], [Undefined]), machine
      integers as [Z] with their wrap-around, automation.
    - Task.v: [marl::Task] (include/marl/task.hpp).
    - WaitingFibers.v: [Scheduler::WaitingFibers] (src/scheduler.cpp), the two
      containers of fibers that wait with a timeout.
    - Worker.v: [Scheduler::Worker] and [Scheduler::Fiber] (src/scheduler.cpp,
      include/marl/scheduler.hpp).  The state of a worker includes, for each
      fiber, the frames live on its stack; the code between two places where
      other threads or fibers can run is one function in a state monad with
      errors and outputs, in which every access to a member that the mutex
      guards asks whether the mutex is held; [exec] runs the function an [Event]
      triggers, [legal] states what the environment guarantees, [reachable] is
      closed under both.
      WorkerFrame.v (what operations leave alone), WorkerLogic.v (weakest
      preconditions for the monad), WorkerInv.v (the invariant and how the
      elementary updates keep it), WorkerSafety.v (every operation keeps it),
      WorkerProps.v (safety), WorkerQueue.v (the task queue), WorkerSpec.v
      (notification, wake-up, timeouts, order, results of waits).
    - Scheduler.v, SchedulerProps.v: [Scheduler] (src/scheduler.cpp): the
      constructor, [bind], [unbind], [enqueue], [stealWork], the generator.
    - Build.v: what the build decides, the sanitizers and the choice of [OSFiber]
      (include/marl/sanitizer.hpp, src/osfiber.hpp, include/marl/tsa.hpp), and
      [bind] with the memory sanitizer.
    - System.v: all threads together.  A step is a step of one worker, an
      [enqueue], a steal (in two steps, as the thief holds the task in between),
      [bind], [unbind], the body of a stop task, or a step of [~Scheduler], whose
      loops stop and join the workers and then destroy them with their queues.
      The accesses to [shutdown], which is shared without a mutex, are recorded,
      and [conflict] says which two of them race.  SystemInv.v (the workers and
      the tasks), SystemRuns.v (the destructor, stop tasks and late tasks),
      SystemTasks.v (where tasks go), SystemProps.v (the theorems).
    - Dag.v, DagProps.v: [DAGBuilder] with all its calls, [addDependency] too, and
      [DAG] (include/marl/dag.hpp); a run
      is a set of activations of [invoke] that interleave, over the count of its
      wait group.  DagRun.v (after WaitGroup.v): the same run over the wait group
      itself.
    - Vector.v, IntrusiveList.v: [containers::vector] and [containers::list]
      (include/marl/containers.hpp), slot by slot and pointer by pointer: sizes wrap
      as [size_t] does, the allocator may refuse, elements are passed by reference,
      also to the vector they are in, and a list frees its blocks along the
      chain that is stored in them.
    - Memory.v, MemoryProps.v, Allocators.v: the [Allocator] interface as a
      type class with its laws, [DefaultAllocator], [TrackedAllocator],
      [create], [destroy], [make_unique], [make_shared], [Deleter],
      [StlAllocator] (include/marl/memory.hpp, src/memory.cpp);
      TrackedThreads.v: a [TrackedAllocator] that threads share.
    - Threads.v: [Thread] and [Thread::Affinity] (src/thread.cpp);
      AffinityVector.v: affinities on their vectors of cores.
    - SchedulerApi.v: [Scheduler::Config] with its defaults and the start of the
      threads it describes, [schedule], and the members of [Fiber] that forward
      to its worker (include/marl/scheduler.hpp, src/scheduler.cpp).
    - OSFiber.v: the x86-64 assembly (src/arch/), an instruction list for a
      small machine; AsmFiber.v: the class [OSFiber] over it
      (src/osfiber_asm.hpp); UContext.v: [OSFiber] over the context functions of
      the C library (src/osfiber_ucontext.hpp), an interface with laws.
    - WorkerFibers.v: the contract of [OSFiber] as a type class, the members of
      [Fiber] that create and switch (src/scheduler.cpp) over it, and that a
      worker runs on it; UContextFibers.v: UContext.v keeps that contract;
      AsmFibers.v: AsmFiber.v keeps it too, down to registers, contexts and the
      words on the stacks.  AsmDefault.v: memory of [DefaultAllocator] is what
      AsmFibers.v asks for ([default_memory_admits]).
    - Annotations.v: the thread safety annotations of [Worker]
      (include/marl/scheduler.hpp), checked against Worker.v.
    - WaitGroup.v: [WaitGroup] with the waits and [notify_all] of
      [ConditionVariable] as it uses them (include/marl/wait_group.hpp).
    - CondVar.v: [ConditionVariable] in full, for any predicate and lock
      (include/marl/condition_variable.hpp); WaitGroupCV.v: the waits of WaitGroup.v
      are calls of it.
    - Event.v, EventProps.v: one [Event] over CondVar.v, with all calls that are
      in progress on it; EventAny.v, EventAnyProps.v: systems of events that
      [any] has linked; EventSignal.v: [signal] as a recursive function, and
      that the system refines it (include/marl/event.hpp).
    - Parallel.v, BlockingCall.v: [parallelize] and [blocking_call] over the
      machine of WaitGroup.v (include/marl/parallelize.hpp,
      include/marl/blocking_call.hpp).
    - Finally.v: [FinallyImpl] and [defer] (include/marl/finally.hpp,
      include/marl/defer.hpp).
    - Mutex.v: [marl::mutex] and [marl::lock] (include/marl/mutex.hpp), any
      number of threads with any locks on one mutex and condition variable.
    - Format.v: the [printf] directives of the sources, [fatal], [warn], the
      macros over them (src/debug.cpp, include/marl/debug.hpp) and the messages
      with arguments; Trace.v: the guards and macros of include/marl/trace.hpp
      and the names of threads.

    ** What the theorems show

    Safety: in every reachable state of a worker, and of the whole system to the
    end of its destructor, no assertion fails and nothing undefined happens
    ([worker_never_aborts], [system_never_aborts]), but for a race on [shutdown]
    when a stop task is stolen; the comments of [Fiber::State] and of [work_.num]
    are invariants ([fiber_state_places], [work_counters_exact]).  Each worker
    of the system behaves as the stand-alone machine
    ([system_workers_reachable]), which carries the worker theorems over.  The
    frames the worker machine keeps for its fibers are what any [OSFiber] that
    keeps its contract saves and goes on with ([worker_runs_on_osfibers]), and on
    x86-64 what the assembly finds in memory ([worker_runs_on_asm]).  The members
    that the mutex of a worker guards are read and written under it only, and its
    functions keep their annotations ([guarded_by_mutex]).

    Nothing is lost: tasks are conserved by enqueueing, running and stealing, and
    only those that came to a worker after its thread had ended are destroyed unrun
    ([system_tasks_conserved], [tasks_fifo], [stealWork_moves_oldest]);
    notifications and wake-ups reach their fiber and worker
    ([notify_reaches_waiter], [sleeping_worker_is_notified],
    [expired_waiters_are_queued], [woken_worker_runs_task]); a worker ends only
    when it has nothing left ([stop_waits_for_everything]); [schedule] and its
    loop end ([schedule_ends], [enqueue_terminates]).

    Synchronisation: a [WaitGroup] releases all its waiters
    ([wait_group_sound], [wait_group_releases_all]), with the waits of its condition
    variable ([wait_group_on_cv]); the signals of an [Event]
    are used once and not lost ([event_signals_accounted], [event_releases]);
    linked events follow each other without deadlock ([signal_calls_end],
    [any_follows_members]), and a [signal] has the effect of its recursive
    function, the closure along the links ([signal_refines_function],
    [signal_is_closure]); [parallelize] and [blocking_call] run everything once
    and return ([parallelize_runs_all], [blocking_call_returns]); a scope guard
    calls its function once ([finally_runs_once]).  Threads that keep the
    discipline of the annotations on a mutex exclude each other and meet no error
    ([lock_discipline_safe]), and all waits return with the mutex held
    ([waits_return_locked]).

    Configuration: a scheduler starts from every configuration with at most 256
    worker threads ([configured_scheduler_starts]); every build binds a thread once
    in the same way ([bind_by_build]).

    Graphs: built graphs are well formed exactly when they have no cycle and only
    the root lacks predecessors; then each node runs once and after its
    predecessors, and runs end ([built_graph_wf], [dag_runs_once_in_order],
    [dag_run_terminates]), with the wait group that [run] waits on and to the last
    step of its tasks ([dag_run_on_wait_group]).

    Ground: the containers refine sequences, a vector as long as it gets the memory
    it asks for and below the wrap-around of its sizes ([vector_refines_list],
    [list_refines]), and affinities on vectors those on lists
    ([affinity_refines_list]); the allocators keep their contract
    ([default_allocator_correct], [create_destroy_roundtrip]) and the statistics
    are exact for one thread and for many ([tracked_stats_exact],
    [tracked_threads_exact]); a switch of stacks looks like a call that
    returns and a new fiber like a call ([swap_returns_to_caller],
    [new_fiber_enters_trampoline], [asm_fiber_runs_function],
    [ucontext_switches]).  Failed assertions print what they should, and no
    message is undefined behaviour itself ([assertions_print]); trace events nest
    ([scoped_events_nest]); worker threads have names of their own
    ([worker_threads_named]).

    Defects, each as a theorem: a stolen stop task makes the destructor hang and
    races with its worker ([stolen_stop_task_hangs], [shutdown_without_notification]); the destructor
    can drop a task, unrun, with its worker ([destructor_drops_late_task]); a timed wait can return
    false although its predicate holds
    ([wait_until_false_with_predicate_true]); more than 256 worker threads
    overrun an array, and threads without an affinity policy are bound to the
    first cores whatever the mask of their creator
    ([configured_scheduler_starts]); a timed wait of a fiber can swallow the
    signal of an [Auto] event for good ([timed_fiber_swallows_signal]);
    repeated [notify_one] wakes one fiber only ([notify_one_wakes_newest]); a
    guard moved from twice calls its function twice ([finally_runs_once]);
    assignment to a vector on the heap
    goes through a null pointer, and to itself reads destroyed elements
    ([vector_assignment]); [push_back] of an own element of a full vector does so
    too, and a resize past the wrap-around writes outside its allocation
    ([vector_refines_list]); the [Deleter] forgets
    the alignment and all objects but the first ([deleter_frees_iff_aligned]);
    [Affinity::remove] skips cores ([affinity_refines_list]); allocators compare
    equal that are not ([stl_equal_not_interchangeable]); a scoped trace event
    uses its name as a format ([scoped_events_nest]); a stack of 4 GiB is cut to
    nothing ([stack_size_truncated]).

    ** Bounds and fuel

    - [enqueueFiberTimeouts] gets one more turn than there are timed waiters,
      and each turn removes one; the proofs show the loop ends.
    - [enqueue_loop] runs as many turns as the list of answers of [try_lock];
      [8 + 2 * count] suffice once one mutex is free: 8 turns empty the slots
      of spinning workers, and two rounds find any worker even where the 32-bit
      index wraps.
    - a run of a graph takes at most [dag_bound] steps; [remove_loop] looks at
      each index once; [walk] follows at most [capacity_] entries.
    - the waiters of an event, [parallelize] and [blocking_call] have measures
      ([ranks], [par_work], [call_work]) that every step decreases, and so has a
      run of a graph over its wait group ([group_work]); the function
      [signal] of EventSignal.v recurses to depth [n - e], as links go from
      older to newer events only.
    - [uint64_t], [uint32_t] and [size_t] counters wrap in the definitions, and
      the theorems show where they do not.  The [int] counters of
      [ConditionVariable] are plain integers.

    ** What the environment is asked for

    The clock, addresses of new objects, the element an unordered set yields
    first, answers of [malloc] and [mmap], and the interleaving are inputs.
    What they must satisfy is stated where they enter: [legal] (Worker.v),
    [sys_legal] (System.v: no call of [enqueue] while the destructor destroys the
    workers, no [bind] after it began to stop them, no [unbind] inside a task, no
    notification of a fiber that is idle or whose worker has ended, from outside
    the workers no [SameThread] task and none without worker threads, no queue that
    outgrows memory), [malloc_ok] and [mmap_ok] (MemoryProps.v),
    [fresh_block] (IntrusiveList.v), [UContextLaws] (UContext.v), [OSFibersLaws]
    (WorkerFibers.v), [Mutex.legal] (the discipline of the users of a mutex).  For
    fibers on the assembly: the allocator gives memory that overlaps no context and
    no stack ([asm_create_admits], which AsmDefault.v derives for
    [DefaultAllocator] from [malloc_ok] and [mmap_ok]), a stack has room for the frames of its fiber
    ([asm_room]), and frames can be read back from what the compiler makes of them.

    ** Not modelled

    The members of [Trace] and the writing of its events, which the sources
    declare and do not define (src/trace.cpp is empty); visibility and deprecation
    macros; debug logging, which is compiled out; members of [StlAllocator] that do
    not reach the allocator; the code of tasks, initializers and guarded functions,
    which is opaque, and so what the compiler makes of it; the memory order of the
    atomics, which are accessed in the order of the steps, and of the race on
    [shutdown], which is reported as a race and not given an effect of its own; the
    destruction of the fibers and maps of a worker, whose queue of tasks is what
    [destroy_worker] gives up.  What is left of the sources beyond that is
    declarations, includes and comments. *)
From stdpp Require Import base numbers strings gmap sorting list.

(** ** Results: how a fragment of the C++ program can end

    [Fatal] is [marl::fatal] (src/src/debug.cpp), reached by [MARL_ASSERT] and
    [MARL_FATAL]; the assertions of this code base are never compiled out.
    [Undefined] is undefined behaviour of the language: a dereferenced null or
    end iterator, an index outside an array, a mutex unlocked by a thread that
    does not hold it. *)
Inductive Result (A : Type) : Type :=
| Ok (a : A)
| Fatal (msg : string)
| Undefined (what : string).
Arguments Ok {A} _.
Arguments Fatal {A} _.
Arguments Undefined {A} _.

Global Instance result_ret : MRet Result := fun A a => Ok a.
Global Instance result_bind : MBind Result := fun A B k r =>
  match r with
  | Ok a => k a
  | Fatal m => Fatal m
  | Undefined m => Undefined m
  end.

Definition fatal {A} (msg : string) : Result A := Fatal msg.

Definition MARL_ASSERT (cond : bool) (msg : string) : Result unit :=
  if cond then Ok () else fatal msg.

(** [assert_has_bound_scheduler]; [bound] tells that [Scheduler::get()] is not
    null. *)
Definition assert_has_bound_scheduler (bound : bool) (feature : string) : Result unit :=
  MARL_ASSERT bound (feature +:+ " requires a marl::Scheduler to be bound").

Definition is_ok {A} (r : Result A) : bool :=
  match r with Ok _ => true | _ => false end.

(** Reading through an optional pointer, iterator or slot. *)
Definition deref {A} (o : option A) (what : string) : Result A :=
  match o with Some a => Ok a | None => Undefined what end.

(** ** Machine integers: a w-bit unsigned value is a [Z] in [[0, 2^w)] *)
Definition u32 (z : Z) : Z := z mod 2 ^ 32.
Definition u64 (z : Z) : Z := z mod 2 ^ 64.

(** The size of a container, as the [size_t] the code computes with. *)
Abbreviation zlen l := (Z.of_nat (length l)).

(** ** Lemmas on results *)
Lemma bind_Ok_inv {A B} (r : Result A) (k : A -> Result B) b :
  (r ≫= k) = Ok b -> exists a, r = Ok a /\ k a = Ok b.
Proof. destruct r; simpl; try discriminate; eauto. Qed.

Lemma assert_true msg c : c = true -> MARL_ASSERT c msg = Ok ().
Proof. by intros ->. Qed.

Lemma assert_Ok_inv msg c u : MARL_ASSERT c msg = Ok u -> c = true.
Proof. by destruct c. Qed.

Lemma is_ok_spec {A} (r : Result A) : is_ok r = true <-> exists a, r = Ok a.
Proof. destruct r; simpl; split; try done; [eauto|by intros []..]. Qed.

Lemma deref_Some {A} (a : A) w : deref (Some a) w = Ok a.
Proof. done. Qed.

(** ** Lemmas on machine integers *)
Lemma u64_range z : (0 <= u64 z < 2 ^ 64)%Z.
Proof. unfold u64. apply Z.mod_pos_bound. lia. Qed.

Lemma u32_range z : (0 <= u32 z < 2 ^ 32)%Z.
Proof. unfold u32. apply Z.mod_pos_bound. lia. Qed.

Lemma u64_small z : (0 <= z < 2 ^ 64)%Z -> u64 z = z.
Proof. intros. by apply Z.mod_small. Qed.

Lemma u32_small z : (0 <= z < 2 ^ 32)%Z -> u32 z = z.
Proof. intros. by apply Z.mod_small. Qed.

Lemma u64_add_idemp a b : u64 (u64 a + b) = u64 (a + b).
Proof. unfold u64. by rewrite Zplus_mod_idemp_l. Qed.

Lemma u64_sub_idemp a b : u64 (u64 a - b) = u64 (a - b).
Proof. unfold u64. by rewrite Zminus_mod_idemp_l. Qed.

Lemma u32_add_idemp a b : u32 (u32 a + b) = u32 (a + b).
Proof. unfold u32. by rewrite Zplus_mod_idemp_l. Qed.

Lemma u32_sub_idemp a b : u32 (u32 a - b) = u32 (a - b).
Proof. unfold u32. by rewrite Zminus_mod_idemp_l. Qed.

(** A sum computed in [uint64_t] is the sum reduced at the end. *)
Lemma foldl_u64_add {A} (f : A -> Z) l a :
  foldl (fun n x => u64 (n + f x)) (u64 a) l = u64 (foldl (fun n x => n + f x)%Z a l).
Proof. revert a. induction l as [|x l IH]; intros a; simpl; [done|]. by rewrite u64_add_idemp, IH. Qed.

(** Reducing a [w]-bit counter modulo a divisor of [2^w] does not see the
    wrap-around of the counter. *)
Lemma u32_mod_pow2 z k : (0 <= k <= 32)%Z -> (u32 z mod 2 ^ k = z mod 2 ^ k)%Z.
Proof.
  intros Hk. unfold u32. apply Z.mod_mod_divide.
  exists (2 ^ (32 - k))%Z. rewrite <- Z.pow_add_r by lia. f_equal. lia.
Qed.

(** ** Automation *)
Create HintDb marl discriminated.
Create Rewrite HintDb width.
#[export] Hint Resolve u64_range u32_range assert_true : marl.
#[export] Hint Rewrite u64_add_idemp u64_sub_idemp u32_add_idemp u32_sub_idemp : width.

(** [inv_ok H] takes apart an [H : (x ← r; k) = Ok b], naming what was bound. *)
Ltac inv_ok H :=
  let a := fresh "a" in let Ha := fresh "E" in
  apply bind_Ok_inv in H; destruct H as (a & Ha & H); try (apply assert_Ok_inv in Ha as Ha).

(** Case analysis on every [match] or [if] of a hypothesis, keeping the
    equations and closing the contradictory cases. *)
Ltac split_match H :=
  repeat (match type of H with
          | context [match ?x with _ => _ end] =>
              first [is_var x; destruct x | destruct x eqn:?]; simplify_eq/=
          end).

(** ** Counting *)
Lemma NoDup_range_length (l : list Z) n :
  NoDup l -> (forall x, x ∈ l -> 0 < x < n)%Z -> (zlen l < Z.max n 1)%Z.
Proof.
  intros Hnd Hl. destruct (decide (n <= 1)%Z) as [Hn|Hn].
  - destruct l as [|x l]; [simpl; lia|]. specialize (Hl x ltac:(left)). lia.
  - assert (l ⊆+ seqZ 1 (n - 1)) as Hsub.
    { apply NoDup_submseteq; [done|]. intros x Hx%Hl. apply elem_of_seqZ. lia. }
    apply submseteq_length in Hsub. rewrite length_seqZ in Hsub. lia.
Qed.

Lemma submseteq_NoDup {A} (l k : list A) : l ⊆+ k -> NoDup k -> NoDup l.
Proof. intros [k' ->]%submseteq_Permutation Hk. by apply NoDup_app in Hk as [? _]. Qed.

(** ** The elements of a list with a property, as the counters of the code
    count them *)
Local Open Scope Z_scope.

Definition b2z (b : bool) : Z := if b then 1 else 0.

Fixpoint cnt {A} (f : A -> bool) (l : list A) : Z :=
  match l with [] => 0 | x :: l => b2z (f x) + cnt f l end.

Lemma cnt_nonneg {A} (f : A -> bool) l : 0 <= cnt f l.
Proof. induction l as [|x l IH]; simpl; [lia|]. destruct (f x); simpl; lia. Qed.

Lemma cnt_insert {A} (f : A -> bool) l i x y :
  l !! i = Some x -> cnt f (<[i := y]> l) = cnt f l - b2z (f x) + b2z (f y).
Proof.
  revert i. induction l as [|z l IH]; intros [|i] Hi; simplify_eq/=; [lia|]. rewrite IH by done. lia.
Qed.

Lemma cnt_lookup {A} (f : A -> bool) l i x : l !! i = Some x -> f x = true -> 0 < cnt f l.
Proof.
  revert i. induction l as [|z l IH]; intros [|i] Hi Hf; simplify_eq/=.
  - rewrite Hf. pose proof (cnt_nonneg f l). simpl. lia.
  - specialize (IH i Hi Hf). destruct (f z); simpl; lia.
Qed.

Lemma cnt_zero {A} (f : A -> bool) l i x : l !! i = Some x -> cnt f l = 0 -> f x = false.
Proof. intros Hi H0. destruct (f x) eqn:E; [|done]. pose proof (cnt_lookup f l i x Hi E). lia. Qed.

Lemma cnt_ext {A} (f : A -> bool) l k :
  length l = length k -> (forall i x y, l !! i = Some x -> k !! i = Some y -> f x = f y) ->
  cnt f l = cnt f k.
Proof.
  revert k. induction l as [|x l IH]; intros [|y k] Hl H; simplify_eq/=; [done|].
  rewrite (H 0%nat x y) by done. f_equal. apply IH; [done|]. intros i. apply (H (S i)).
Qed.

Lemma cnt_ext_fun {A} (f f' : A -> bool) l : (forall x, x ∈ l -> f' x = f x) -> cnt f' l = cnt f l.
Proof.
  induction l as [|x l IH]; simpl; intros H; [done|].
  rewrite (H x) by left. rewrite IH; [done|]. intros y Hy. apply H. by right.
Qed.

Lemma cnt_replicate {A} (f : A -> bool) n x : f x = false -> cnt f (replicate n x) = 0.
Proof. intros Hf. induction n as [|n IH]; simpl; [done|]. rewrite Hf, IH. done. Qed.

Lemma cnt_fmap_zero {A B} (f : B -> bool) (g : A -> B) l :
  (forall x, f (g x) = false) -> cnt f (g <$> l) = 0.
Proof. intros Hf. induction l as [|x l IH]; [done|]. rewrite fmap_cons. simpl. by rewrite Hf, IH. Qed.

Lemma cnt_app {A} (f : A -> bool) l k : cnt f (l ++ k) = cnt f l + cnt f k.
Proof. induction l as [|x l IH]; simpl; [done|]. rewrite IH. lia. Qed.

(** ** Lists updated at one place *)
Lemma lookup_insert_cases {A} (l : list A) i x j y :
  <[i := x]> l !! j = Some y -> (j = i /\ y = x) \/ (j <> i /\ l !! j = Some y).
Proof.
  destruct (decide (j = i)) as [->|Hne]; [|rewrite list_lookup_insert_ne by done; by right].
  intros [(_ & ? & _)|[Hne _]]%list_lookup_insert_Some; [by left|done].
Qed.

Lemma lookup_snoc_cases {A} (l : list A) x j y :
  (l ++ [x]) !! j = Some y -> l !! j = Some y \/ (j = length l /\ y = x).
Proof.
  intros [?|[Hj Hy]]%lookup_app_Some; [by left|right]. destruct (j - length l)%nat eqn:E; simplify_eq/=. split; [lia|done].
Qed.

Lemma insert_self {A} (l : list A) i x : is_Some (l !! i) -> <[i := x]> l !! i = Some x.
Proof. intros [y Hy]. apply list_lookup_insert_eq. by eapply lookup_lt_Some. Qed.

(** ** Sums *)
Lemma sum_insert {A} (f : A -> nat) (l : list A) n w v :
  l !! n = Some w -> (sum_list_with f (<[n := v]> l) + f w = sum_list_with f l + f v)%nat.
Proof.
  revert n. induction l as [|x l IH]; intros [|n] Hn; simplify_eq/=; [lia|]. specialize (IH n Hn). lia.
Qed.

Lemma sum_mono {A} (f g : A -> nat) (l : list A) :
  (forall x, x ∈ l -> f x <= g x)%nat -> (sum_list_with f l <= sum_list_with g l)%nat.
Proof.
  induction l as [|x l IH]; simpl; intros H; [lia|]. specialize (H x ltac:(left)) as Hx.
  specialize (IH (fun y Hy => H y ltac:(by right))). lia.
Qed.

Lemma sum_ext {A} (f g : A -> nat) (l : list A) :
  (forall x, x ∈ l -> f x = g x) -> sum_list_with f l = sum_list_with g l.
Proof. intros H. induction l as [|x l IH]; simpl; [done|]. rewrite (H x) by left. f_equal. apply IH. intros y ?. apply H. by right. Qed.
