(* ===== verification/Task.v ===== *)
(** Tasks: src/include/marl/task.hpp.

    A [marl::Task] is a [std::function<void()>] with flags.  The type [F]
    stands for callable targets; [None] is an empty [std::function]. *)
From stdpp Require Import base strings numbers.
From S2P Require Import Prelude.

(** [Task::Flags] with its enumerator values. *)
Inductive Flags := FlagsNone | SameThread.

Global Instance Flags_eq_dec : EqDecision Flags.
Proof. solve_decision. Defined.

Definition flags_int (f : Flags) : Z :=
  match f with FlagsNone => 0 | SameThread => 1 end.

Record Task (F : Type) := mkTask { function_ : option F; flags_ : Flags }.
Arguments mkTask {F} _ _.
Arguments function_ {F} _.
Arguments flags_ {F} _.

(** The constructors. *)
Definition Task_default {F} : Task F := mkTask None FlagsNone.
Definition Task_make {F} (function : option F) (flags : Flags) : Task F :=
  mkTask function flags.

(** Copy construction and copy assignment of a task. *)
Definition Task_copy {F} (other : Task F) : Task F := mkTask (function_ other) (flags_ other).

(** Move construction and move assignment: the new task, and what is left in
    the moved-from one.  The state of a moved-from [std::function] is
    unspecified: it is the argument [residue].  The flags are copied. *)
Definition Task_move {F} (residue : option F) (other : Task F) : Task F * Task F :=
  (mkTask (function_ other) (flags_ other), mkTask residue (flags_ other)).

(** Assignment from a bare function resets the flags. *)
Definition Task_assign_function {F} (function : option F) : Task F :=
  mkTask function FlagsNone.

(** [operator bool]. *)
Definition Task_bool {F} (t : Task F) : bool :=
  match function_ t with Some _ => true | None => false end.

(** [operator()]: the target that runs; calling an empty [std::function]
    throws [std::bad_function_call], which nothing catches. *)
Definition Task_call {F} (t : Task F) : Result F :=
  match function_ t with
  | Some f => Ok f
  | None => Fatal "std::bad_function_call"
  end.

(** [Task::is]. *)
Definition Task_is {F} (t : Task F) (flag : Flags) : bool :=
  Z.eqb (Z.land (flags_int (flags_ t)) (flags_int flag)) (flags_int flag).

(** [is(SameThread)] reads the flag; [is(None)] holds of every task, because
    the mask [0] is contained in any flags. *)
Lemma Task_is_SameThread {F} (t : Task F) :
  Task_is t SameThread = bool_decide (flags_ t = SameThread).
Proof. by destruct t as [f []]. Qed.

Lemma Task_is_None {F} (t : Task F) : Task_is t FlagsNone = true.
Proof. by destruct t as [f []]. Qed.

Lemma Task_call_ok {F} (t : Task F) : is_ok (Task_call t) = Task_bool t.
Proof. by destruct t as [[] ?]. Qed.
