(* ===== verification/WaitingFibers.v ===== *)
(** The timed waiters of a worker: [Scheduler::WaitingFibers]
    (src/include/marl/scheduler.hpp, src/src/scheduler.cpp).

    A fiber that waits with a timeout is in two containers at once: a
    [std::set] of (timepoint, fiber) pairs ordered by [Timeout::operator<],
    and an [unordered_map] from the fiber to its timepoint.  The set is the
    list of its elements in order, the map a [gmap].  A [Fiber *] is an
    address. *)
From stdpp Require Import base numbers strings gmap sorting relations list.
From S2P Require Import Prelude.

Abbreviation FiberPtr := Z (only parsing).
Abbreviation TimePoint := Z (only parsing).

Record Timeout := mkTimeout { timepoint : TimePoint; fiber : FiberPtr }.

Global Instance Timeout_eq_dec : EqDecision Timeout.
Proof. solve_decision. Defined.

(** [Timeout::operator<]. *)
Definition Timeout_lt (a o : Timeout) : bool :=
  if bool_decide (timepoint a ≠ timepoint o)
  then bool_decide (timepoint a < timepoint o)%Z
  else bool_decide (fiber a < fiber o)%Z.

(** [std::set::emplace] and [std::set::erase(key)] for that order: two keys
    are equivalent when neither is less than the other. *)
Fixpoint set_emplace (x : Timeout) (s : list Timeout) : list Timeout :=
  match s with
  | [] => [x]
  | y :: s' =>
      if Timeout_lt x y then x :: s
      else if Timeout_lt y x then y :: set_emplace x s'
      else s
  end.

Fixpoint set_erase (x : Timeout) (s : list Timeout) : list Timeout * bool :=
  match s with
  | [] => ([], false)
  | y :: s' =>
      if Timeout_lt x y then (s, false)
      else if Timeout_lt y x then let '(s1, b) := set_erase x s' in (y :: s1, b)
      else (s', true)
  end.

Record WaitingFibers := mkWaiting {
  timeouts : list Timeout;
  fibers : gmap FiberPtr TimePoint
}.

Definition WaitingFibers_empty : WaitingFibers := mkWaiting [] ∅.

(** [operator bool]. *)
Definition WaitingFibers_bool (w : WaitingFibers) : bool :=
  negb (bool_decide (fibers w = ∅)).

Definition WaitingFibers_take (timeout : TimePoint) (w : WaitingFibers)
  : Result (option FiberPtr * WaitingFibers) :=
  if negb (WaitingFibers_bool w) then Ok (None, w)
  else
    match timeouts w with
    | [] => Undefined "timeouts.begin() dereferenced at end()"
    | it :: rest =>
        if bool_decide (timeout < timepoint it)%Z then Ok (None, w)
        else
          let deleted := bool_decide (is_Some (fibers w !! fiber it)) in
          _ ← MARL_ASSERT deleted "WaitingFibers::take() maps out of sync";
          Ok (Some (fiber it), mkWaiting rest (delete (fiber it) (fibers w)))
    end.

Definition WaitingFibers_next (w : WaitingFibers) : Result TimePoint :=
  _ ← MARL_ASSERT (WaitingFibers_bool w)
        "WaitingFibers::next() called when there' no waiting fibers";
  match timeouts w with
  | [] => Undefined "timeouts.begin() dereferenced at end()"
  | it :: _ => Ok (timepoint it)
  end.

Definition WaitingFibers_add (timeout : TimePoint) (f : FiberPtr) (w : WaitingFibers)
  : Result WaitingFibers :=
  let added := bool_decide (fibers w !! f = None) in
  _ ← MARL_ASSERT added "WaitingFibers::add() fiber already waiting";
  Ok (mkWaiting (set_emplace (mkTimeout timeout f) (timeouts w))
                (if added then <[f := timeout]> (fibers w) else fibers w)).

Definition WaitingFibers_erase (f : FiberPtr) (w : WaitingFibers) : Result WaitingFibers :=
  match fibers w !! f with
  | Some timeout =>
      let '(timeouts', erased) := set_erase (mkTimeout timeout f) (timeouts w) in
      _ ← MARL_ASSERT erased "WaitingFibers::erase() maps out of sync";
      Ok (mkWaiting timeouts' (delete f (fibers w)))
  | None => Ok w
  end.

Definition WaitingFibers_contains (f : FiberPtr) (w : WaitingFibers) : bool :=
  bool_decide (is_Some (fibers w !! f)).

(** ** The order of the set *)
Definition lt_rel (a b : Timeout) : Prop := Timeout_lt a b = true.

Lemma Timeout_lt_spec a b :
  Timeout_lt a b = true <->
  (timepoint a < timepoint b \/ timepoint a = timepoint b /\ fiber a < fiber b)%Z.
Proof.
  unfold Timeout_lt. case_bool_decide; rewrite bool_decide_eq_true; naive_solver lia.
Qed.

Lemma lt_rel_irrefl a : ~ lt_rel a a.
Proof. unfold lt_rel. rewrite Timeout_lt_spec. lia. Qed.

Lemma lt_rel_trans a b c : lt_rel a b -> lt_rel b c -> lt_rel a c.
Proof. unfold lt_rel. rewrite !Timeout_lt_spec. lia. Qed.

Lemma lt_rel_total a b : Timeout_lt a b = false -> Timeout_lt b a = false -> a = b.
Proof.
  intros Hab Hba. destruct a as [t f], b as [t' f'].
  apply not_true_iff_false in Hab, Hba. rewrite Timeout_lt_spec in Hab, Hba.
  simpl in *. f_equal; lia.
Qed.

(** ** The set operations *)
Lemma set_emplace_elem x y s : x ∈ set_emplace y s <-> x = y \/ x ∈ s.
Proof.
  induction s as [|z s IH]; simpl; [set_solver|].
  destruct (Timeout_lt y z) eqn:E1; [set_solver|].
  destruct (Timeout_lt z y) eqn:E2; [set_solver|].
  rewrite (lt_rel_total _ _ E1 E2). set_solver.
Qed.

Lemma set_emplace_sorted x s :
  StronglySorted lt_rel s -> StronglySorted lt_rel (set_emplace x s).
Proof.
  induction 1 as [|y s Hs IH Hall]; simpl; [repeat constructor|].
  destruct (Timeout_lt x y) eqn:E1.
  - constructor; [by constructor|]. constructor; [done|].
    eapply Forall_impl; [done|]. eauto using lt_rel_trans.
  - destruct (Timeout_lt y x) eqn:E2; [|by constructor].
    constructor; [done|]. apply Forall_forall. intros z.
    rewrite set_emplace_elem. intros [->|Hz]; [done|].
    rewrite Forall_forall in Hall. by apply Hall.
Qed.

Lemma set_erase_spec x s :
  StronglySorted lt_rel s -> x ∈ s ->
  exists s', set_erase x s = (s', true) /\ StronglySorted lt_rel s' /\
             forall z, z ∈ s' <-> z ∈ s /\ z <> x.
Proof.
  induction 1 as [|y s Hs IH Hall]; simpl; [by intros []%not_elem_of_nil|].
  rewrite Forall_forall in Hall. intros Hx.
  destruct (Timeout_lt x y) eqn:E1.
  - exfalso. apply elem_of_cons in Hx as [->|Hx]; [by eapply lt_rel_irrefl|].
    eapply lt_rel_irrefl, lt_rel_trans; [apply E1|by apply Hall].
  - destruct (Timeout_lt y x) eqn:E2.
    + apply elem_of_cons in Hx as [->|Hx]; [by destruct (lt_rel_irrefl y)|].
      destruct (IH Hx) as (s' & -> & Hs' & Hz). exists (y :: s').
      split; [done|]. split.
      * constructor; [done|]. apply Forall_forall. intros z [??]%Hz. by apply Hall.
      * intros z. rewrite !elem_of_cons, Hz. split; [|naive_solver].
        intros [->|?]; [|naive_solver]. split; [by left|].
        intros ->. by eapply lt_rel_irrefl.
    + rewrite (lt_rel_total _ _ E1 E2). exists s. split_and!; [done|done|].
      intros z. rewrite elem_of_cons. split; [|naive_solver].
      intros Hz. split; [by right|]. intros ->. by eapply lt_rel_irrefl, Hall.
Qed.

(** ** The invariant: the two containers describe the same waiters *)
Record WaitingFibers_wf (w : WaitingFibers) : Prop := {
  wf_sorted : StronglySorted lt_rel (timeouts w);
  wf_sync : forall t f, mkTimeout t f ∈ timeouts w <-> fibers w !! f = Some t
}.

Lemma WaitingFibers_empty_wf : WaitingFibers_wf WaitingFibers_empty.
Proof. split; [constructor|]. intros. simpl. rewrite lookup_empty. set_solver. Qed.

Lemma timeouts_nil_iff w : WaitingFibers_wf w -> timeouts w = [] <-> fibers w = ∅.
Proof.
  intros [_ Hs]. split; intros E.
  - apply map_empty. intros f. destruct (fibers w !! f) as [t|] eqn:Hf; [|done].
    apply Hs in Hf. rewrite E in Hf. set_solver.
  - destruct (timeouts w) as [|[t f] ts]; [done|].
    assert (fibers w !! f = Some t) as Hf by (apply Hs; left).
    rewrite E, lookup_empty in Hf. done.
Qed.

Lemma WaitingFibers_bool_true w : WaitingFibers_bool w = true <-> fibers w <> ∅.
Proof. unfold WaitingFibers_bool. rewrite negb_true_iff, bool_decide_eq_false. done. Qed.

(** [add] registers a fiber that is not waiting yet. *)
Lemma WaitingFibers_add_ok t f w :
  WaitingFibers_wf w -> fibers w !! f = None ->
  exists w', WaitingFibers_add t f w = Ok w' /\ WaitingFibers_wf w' /\
             fibers w' = <[f := t]> (fibers w).
Proof.
  intros [Hsort Hsync] Hf. unfold WaitingFibers_add.
  rewrite bool_decide_eq_true_2 by done. simpl. eexists. split; [done|]. split; [|done].
  split; simpl; [by apply set_emplace_sorted|].
  intros t' f'. rewrite set_emplace_elem, lookup_insert_Some, Hsync.
  split; [intros [[= -> ->]|?]|]; [by left| |naive_solver].
  right. split; [congruence|done].
Qed.

(** [erase] removes a fiber from both containers, and is the identity on a
    fiber that does not wait. *)
Lemma WaitingFibers_erase_ok f w :
  WaitingFibers_wf w ->
  exists w', WaitingFibers_erase f w = Ok w' /\ WaitingFibers_wf w' /\
             fibers w' = delete f (fibers w).
Proof.
  intros Hw. unfold WaitingFibers_erase. destruct (fibers w !! f) as [t|] eqn:Hf.
  - destruct (set_erase_spec (mkTimeout t f) (timeouts w)) as (ts & -> & Hts & Hz);
      [apply Hw|by apply Hw|].
    simpl. eexists. split; [done|]. split; [|done]. split; simpl; [done|].
    intros t' f'. rewrite Hz, lookup_delete_Some, (wf_sync _ Hw).
    split; [|naive_solver]. intros [Hf' Hne]. split; [|done]. naive_solver.
  - exists w. by rewrite delete_id.
Qed.

(** The head of the ordered set is the minimum. *)
Lemma timeouts_head_min w t f ts :
  WaitingFibers_wf w -> timeouts w = mkTimeout t f :: ts ->
  fibers w !! f = Some t /\
  (forall f' t', fibers w !! f' = Some t' -> f' <> f ->
     lt_rel (mkTimeout t f) (mkTimeout t' f')).
Proof.
  intros [Hsort Hsync] E. split; [apply Hsync; rewrite E; left|].
  intros f' t' Hf' Hne. apply Hsync in Hf'. rewrite E in Hf', Hsort.
  apply elem_of_cons in Hf' as [[=]|Hf']; [done|].
  inversion_clear Hsort as [|?? _ Hall]. rewrite Forall_forall in Hall. by apply Hall.
Qed.

Lemma timeouts_tail_wf w t f ts :
  WaitingFibers_wf w -> timeouts w = mkTimeout t f :: ts ->
  WaitingFibers_wf (mkWaiting ts (delete f (fibers w))).
Proof.
  intros Hw E. destruct (timeouts_head_min _ _ _ _ Hw E) as [Hf Hmin].
  destruct Hw as [Hsort Hsync]. rewrite E in Hsort.
  inversion_clear Hsort as [|?? Hs Hall]. rewrite Forall_forall in Hall.
  split; simpl; [done|]. intros t' f'.
  rewrite lookup_delete_Some, <- Hsync, E, elem_of_cons.
  split; [|naive_solver]. intros Hin. split; [|by right].
  intros <-. assert (fibers w !! f = Some t') by (apply Hsync; rewrite E; by right).
  simplify_eq. by eapply lt_rel_irrefl, Hall.
Qed.

(** [take now] on a well-formed pair of containers: it never trips its
    assertion; it returns nothing exactly when no timeout has passed, and
    otherwise the waiter with the least (timepoint, fiber). *)
Lemma WaitingFibers_take_ok now w :
  WaitingFibers_wf w ->
  exists o w', WaitingFibers_take now w = Ok (o, w') /\ WaitingFibers_wf w' /\
    match o with
    | None => w' = w /\ forall f t, fibers w !! f = Some t -> (now < t)%Z
    | Some f => exists t,
        timeouts w = mkTimeout t f :: timeouts w' /\ (t <= now)%Z /\
        fibers w !! f = Some t /\ fibers w' = delete f (fibers w) /\
        (forall f' t', fibers w !! f' = Some t' -> f' <> f ->
           lt_rel (mkTimeout t f) (mkTimeout t' f'))
    end.
Proof.
  intros Hw. unfold WaitingFibers_take.
  destruct (WaitingFibers_bool w) eqn:Hb; simpl.
  - destruct (timeouts w) as [|[t f] ts] eqn:E.
    { apply timeouts_nil_iff in E; [|done]. by apply WaitingFibers_bool_true in Hb. }
    destruct (timeouts_head_min _ _ _ _ Hw E) as [Hf Hmin]. simpl.
    case_bool_decide as Hnow.
    + exists None, w. split_and!; [done|done|done|]. intros f' t' Hf'.
      destruct (decide (f' = f)) as [->|Hne]; [by simplify_eq|].
      specialize (Hmin _ _ Hf' Hne). apply Timeout_lt_spec in Hmin. simpl in *. lia.
    + rewrite bool_decide_eq_true_2 by eauto. simpl.
      eexists (Some f), _. split; [done|]. split; [by eapply timeouts_tail_wf|].
      exists t. split_and!; auto with lia.
  - exists None, w. split_and!; [done|done|done|]. intros f t.
    apply not_true_iff_false in Hb. rewrite WaitingFibers_bool_true in Hb.
    apply dec_stable in Hb. by rewrite Hb, lookup_empty.
Qed.

(** [next] is the earliest timepoint of a waiter. *)
Lemma WaitingFibers_next_ok w :
  WaitingFibers_wf w -> WaitingFibers_bool w = true ->
  exists t, WaitingFibers_next w = Ok t /\
    (exists f, fibers w !! f = Some t) /\
    (forall f' t', fibers w !! f' = Some t' -> (t <= t')%Z).
Proof.
  intros Hw Hb. unfold WaitingFibers_next. rewrite Hb. simpl.
  destruct (timeouts w) as [|[t f] ts] eqn:E.
  { apply timeouts_nil_iff in E; [|done]. by apply WaitingFibers_bool_true in Hb. }
  destruct (timeouts_head_min _ _ _ _ Hw E) as [Hf Hmin].
  exists t. split_and!; [done|eauto|]. intros f' t' Hf'.
  destruct (decide (f' = f)) as [->|Hne]; [simplify_eq; lia|].
  specialize (Hmin _ _ Hf' Hne). apply Timeout_lt_spec in Hmin. simpl in *. lia.
Qed.

Lemma Timeout_lt_irrefl x : Timeout_lt x x = false.
Proof. apply not_true_iff_false. apply lt_rel_irrefl. Qed.

Lemma Timeout_lt_asym x y : Timeout_lt x y = true -> Timeout_lt y x = false.
Proof. intros H. apply not_true_iff_false. intros H'. by eapply lt_rel_irrefl, lt_rel_trans. Qed.

(** Erasing an element just inserted gives the set back. *)
Lemma set_erase_emplace x s : x ∉ s -> set_erase x (set_emplace x s) = (s, true).
Proof.
  induction s as [|y s IH]; simpl; intros Hx; [by rewrite Timeout_lt_irrefl|].
  apply not_elem_of_cons in Hx as [Hne Hx].
  destruct (Timeout_lt x y) eqn:E1; simpl; [by rewrite Timeout_lt_irrefl|].
  destruct (Timeout_lt y x) eqn:E2; simpl.
  - by rewrite E1, E2, IH.
  - by destruct Hne; apply lt_rel_total.
Qed.

(** ** Properties *)

(** Registering a fiber with a timeout and erasing it again leaves the
    timed waiters exactly as they were, in both containers. *)
Theorem waiting_add_erase t f w :
  WaitingFibers_wf w -> fibers w !! f = None ->
  (w1 ← WaitingFibers_add t f w; WaitingFibers_erase f w1) = Ok w.
Proof.
  intros Hw Hf. unfold WaitingFibers_add. rewrite bool_decide_eq_true_2 by done. simpl.
  unfold WaitingFibers_erase. simpl. rewrite lookup_insert_eq, set_erase_emplace; simpl.
  - rewrite delete_insert_id by done. by destruct w.
  - intros Hin. apply (wf_sync w Hw) in Hin. congruence.
Qed.

Lemma waiting_add_erase_witness :
  exists w, WaitingFibers_add 3 1 WaitingFibers_empty = Ok w /\
    (w1 ← WaitingFibers_add 5 2 w; WaitingFibers_erase 2 w1) = Ok w.
Proof.
  destruct (WaitingFibers_add_ok 3 1 WaitingFibers_empty) as (w & Hadd & Hwf & Hfib).
  - apply WaitingFibers_empty_wf.
  - reflexivity.
  - exists w. split; [exact Hadd|]. apply (waiting_add_erase 5 2 w Hwf).
    rewrite Hfib. reflexivity.
Defined.

(** [take] on containers in step never fails its assertion: it returns
    nothing exactly when every waiter's timepoint is after [now], and otherwise
    removes, from both containers, the waiter that is least in the order of
    (timepoint, address). *)
Theorem waiting_take_earliest now w :
  WaitingFibers_wf w ->
  exists o w', WaitingFibers_take now w = Ok (o, w') /\ WaitingFibers_wf w' /\
    match o with
    | None => w' = w /\ forall f t, fibers w !! f = Some t -> (now < t)%Z
    | Some f => exists t, fibers w !! f = Some t /\ (t <= now)%Z /\
        fibers w' = delete f (fibers w) /\
        (forall f' t', fibers w !! f' = Some t' -> f' <> f ->
           Timeout_lt (mkTimeout t f) (mkTimeout t' f') = true)
    end.
Proof.
  intros Hw. destruct (WaitingFibers_take_ok now w Hw) as (o & w' & H1 & H2 & H3).
  exists o, w'. split_and!; [done|done|]. destruct o as [f|]; [|done].
  destruct H3 as (t & _ & ? & ? & ? & ?). exists t. by split_and!.
Qed.

Lemma waiting_take_earliest_witness :
  exists w o w', WaitingFibers_add 3 1 WaitingFibers_empty = Ok w /\
    WaitingFibers_take 4 w = Ok (o, w') /\ WaitingFibers_wf w'.
Proof.
  destruct (WaitingFibers_add_ok 3 1 WaitingFibers_empty) as (w & Hadd & Hwf & Hfib).
  - apply WaitingFibers_empty_wf.
  - reflexivity.
  - destruct (waiting_take_earliest 4 w Hwf) as (o & w' & H1 & H2 & _).
    exists w, o, w'. split; [exact Hadd|]. split; [exact H1|exact H2].
Defined.
