(* ===== verification/Worker.v ===== *)
(** One worker: [Scheduler::Worker] and [Scheduler::Fiber]
    (src/include/marl/scheduler.hpp, src/src/scheduler.cpp).

    A worker is one thread that runs many fibers.  Each fiber has a call stack
    of its own; [switchToFiber] saves the stack of the running fiber and
    continues the saved stack of another one.  The model keeps, in every fiber,
    the list of the [Frame]s that are live on its stack: a frame is a place in
    the source where a call returns to.  [pc] is the place the running fiber
    executes next.  The code between two such places is one function below, in
    a state monad over the whole worker with errors and outputs, and [exec]
    runs the function that an [Event] makes the worker run: an internal step,
    a choice the code does not fix (the clock, the address of a new fiber,
    the element an unordered set yields), a call made by the code of a task,
    or an operation of another thread, which needs the worker's mutex. *)
From stdpp Require Import base numbers strings sets gmap list.
From S2P Require Import Prelude Task WaitingFibers.

(** What a task runs: [BStop] is the lambda [Worker::stop] enqueues, which
    sets [shutdown] of the worker with that index; any other code is opaque. *)
Inductive Body := BStop (worker : nat) | BUser (code : nat).
Abbreviation WTask := (Task Body).

Global Instance Body_eq_dec : EqDecision Body.
Proof. solve_decision. Defined.

(** [Fiber::State]. *)
Inductive State := Idle | Yielded | Waiting | Queued | Running.

Global Instance State_eq_dec : EqDecision State.
Proof. solve_decision. Defined.

Definition State_toString (s : State) : string :=
  match s with
  | Idle => "Idle" | Yielded => "Yielded" | Queued => "Queued"
  | Running => "Running" | Waiting => "Waiting"
  end.

(** [Worker::Mode]. *)
Inductive Mode := MultiThreaded | SingleThreaded.

Global Instance Mode_eq_dec : EqDecision Mode.
Proof. solve_decision. Defined.

(** Where a call returns to. *)
Inductive Frame :=
| KThread                            (* run() in the thread body of start() *)
| KStop                              (* runUntilShutdown() in stop() *)
| KFiberStart                        (* entry of a new fiber: run() is its target *)
| KRunWait                           (* work_.wait() in run() *)
| KRunShutdown                       (* runUntilShutdown() in run() *)
| KRunSwitch                         (* switchToFiber(main_fiber_) in run() *)
| KShutdownWait                      (* waitForWork() in runUntilShutdown() *)
| KShutdownIdle                      (* runUntilIdle() in runUntilShutdown() *)
| KWorkWait                          (* work_.wait() in waitForWork() *)
| KIdleSwitch                        (* switchToFiber() in runUntilIdle() *)
| KIdleTask                          (* task() in runUntilIdle() *)
| KSuspendWait                       (* waitForWork() in suspend() *)
| KSuspendSwitch                     (* switchToFiber() in suspend() *)
| KWait (timeout : option TimePoint)     (* suspend() in wait(timeout) *)
| KWaitPred (timeout : option TimePoint). (* suspend() in wait(lock, timeout, pred) *)

Global Instance Frame_eq_dec : EqDecision Frame.
Proof. solve_decision. Defined.

(** The predicates given to [Work::wait]. *)
Inductive WaitFor := ForRun | ForWork.

(** Where the running fiber is. *)
Inductive Pc :=
| PUser                              (* in code of a task or of the bound thread *)
| PThreadStart                       (* the thread of start(), before it locks the mutex *)
| PRun | PRunBody | PRunEnd          (* run() *)
| PShutdownLoop                      (* the test of runUntilShutdown()'s loop *)
| PWaitForWork | PSpin | PSpun | PWorkWait | PWorkDone   (* waitForWork() *)
| PCvEnter (p : WaitFor)             (* Work::wait() *)
| PCvBlocked (p : WaitFor) (deadline : option TimePoint)
| PIdle | PIdleLoop                  (* runUntilIdle() *)
| PSuspend (timeout : option TimePoint) | PSuspendPick   (* suspend() *)
| PWaitEnd (timeout : option TimePoint)                  (* wait(timeout) *)
| PWaitPredEnd (timeout : option TimePoint) | PWaitRelock (timeout : option TimePoint)
| PThreadEnd | PStopEnd | PExited.

(** A [Fiber]; [impl_] is what its [OSFiber] holds, the live frames. *)
Record Fiber := mkFiber { id_ : Z; state_ : State; impl_ : list Frame }.

(** [Worker::Work]; [mutex] tells whether the worker's own thread holds it. *)
Record Work := mkWork {
  num : Z;
  num_blocked_fibers : Z;
  tasks : list WTask;
  fibers : list FiberPtr;
  waiting : WaitingFibers;
  notify_added : bool;
  mutex : bool
}.

Record Worker := mkWorker {
  worker_id : Z;
  mode_ : Mode;
  main_fiber_ : FiberPtr;
  current_fiber_ : FiberPtr;
  work_ : Work;
  idle_fibers_ : gset FiberPtr;
  worker_fibers_ : list FiberPtr;
  shutdown : bool;
  heap : gmap FiberPtr Fiber;
  pc : Pc
}.

(** What the outside sees of a step. *)
Inductive Out :=
| NotifyAdded                        (* work_.added.notify_one() *)
| BeginSpinning                      (* scheduler_->onBeginSpinning(id_) *)
| RunTask (t : WTask)                (* task() *)
| Stolen (t : WTask)                 (* steal() returned true with t *)
| UnlockWaitLock | LockWaitLock      (* the caller's lock in wait(lock, ...) *)
| WaitReturned (b : bool)
| ThreadExit.

(** ** The monad: worker state, outputs, errors *)
Definition M (A : Type) : Type := Worker -> Result (A * Worker * list Out).

Global Instance M_ret : MRet M := fun A a w => Ok (a, w, []).
Global Instance M_bind : MBind M := fun A B k m w =>
  match m w with
  | Ok (a, w1, o1) =>
      match k a w1 with
      | Ok (b, w2, o2) => Ok (b, w2, o1 ++ o2)
      | Fatal e => Fatal e
      | Undefined e => Undefined e
      end
  | Fatal e => Fatal e
  | Undefined e => Undefined e
  end.

Definition get : M Worker := fun w => Ok (w, w, []).
Definition modify (f : Worker -> Worker) : M unit := fun w => Ok ((), f w, []).
Definition lift {A} (r : Result A) : M A := fun w =>
  match r with
  | Ok a => Ok (a, w, [])
  | Fatal e => Fatal e
  | Undefined e => Undefined e
  end.
Definition emit (o : Out) : M unit := fun w => Ok ((), w, [o]).
Definition assert (c : bool) (msg : string) : M unit := lift (MARL_ASSERT c msg).
Definition pass : M unit := mret ().

(** ** Field updates *)
Definition set_num (n : Z) (k : Work) : Work :=
  mkWork n (num_blocked_fibers k) (tasks k) (fibers k) (waiting k) (notify_added k) (mutex k).
Definition set_blocked (n : Z) (k : Work) : Work :=
  mkWork (num k) n (tasks k) (fibers k) (waiting k) (notify_added k) (mutex k).
Definition set_tasks (ts : list WTask) (k : Work) : Work :=
  mkWork (num k) (num_blocked_fibers k) ts (fibers k) (waiting k) (notify_added k) (mutex k).
Definition set_fibers (fs : list FiberPtr) (k : Work) : Work :=
  mkWork (num k) (num_blocked_fibers k) (tasks k) fs (waiting k) (notify_added k) (mutex k).
Definition set_waiting (ws : WaitingFibers) (k : Work) : Work :=
  mkWork (num k) (num_blocked_fibers k) (tasks k) (fibers k) ws (notify_added k) (mutex k).
Definition set_notify (b : bool) (k : Work) : Work :=
  mkWork (num k) (num_blocked_fibers k) (tasks k) (fibers k) (waiting k) b (mutex k).
Definition set_mutex (b : bool) (k : Work) : Work :=
  mkWork (num k) (num_blocked_fibers k) (tasks k) (fibers k) (waiting k) (notify_added k) b.

Definition upd_work (g : Work -> Work) (w : Worker) : Worker :=
  mkWorker (worker_id w) (mode_ w) (main_fiber_ w) (current_fiber_ w) (g (work_ w))
    (idle_fibers_ w) (worker_fibers_ w) (shutdown w) (heap w) (pc w).
Definition upd_current (f : FiberPtr) (w : Worker) : Worker :=
  mkWorker (worker_id w) (mode_ w) (main_fiber_ w) f (work_ w)
    (idle_fibers_ w) (worker_fibers_ w) (shutdown w) (heap w) (pc w).
Definition upd_idle (s : gset FiberPtr) (w : Worker) : Worker :=
  mkWorker (worker_id w) (mode_ w) (main_fiber_ w) (current_fiber_ w) (work_ w)
    s (worker_fibers_ w) (shutdown w) (heap w) (pc w).
Definition upd_worker_fibers (l : list FiberPtr) (w : Worker) : Worker :=
  mkWorker (worker_id w) (mode_ w) (main_fiber_ w) (current_fiber_ w) (work_ w)
    (idle_fibers_ w) l (shutdown w) (heap w) (pc w).
Definition upd_shutdown (b : bool) (w : Worker) : Worker :=
  mkWorker (worker_id w) (mode_ w) (main_fiber_ w) (current_fiber_ w) (work_ w)
    (idle_fibers_ w) (worker_fibers_ w) b (heap w) (pc w).
Definition upd_heap (g : gmap FiberPtr Fiber -> gmap FiberPtr Fiber) (w : Worker) : Worker :=
  mkWorker (worker_id w) (mode_ w) (main_fiber_ w) (current_fiber_ w) (work_ w)
    (idle_fibers_ w) (worker_fibers_ w) (shutdown w) (g (heap w)) (pc w).
Definition upd_pc (p : Pc) (w : Worker) : Worker :=
  mkWorker (worker_id w) (mode_ w) (main_fiber_ w) (current_fiber_ w) (work_ w)
    (idle_fibers_ w) (worker_fibers_ w) (shutdown w) (heap w) p.

(** The members of [work_] that [GUARDED_BY(mutex)] marks, and the states of the
    fibers, are read and written by a thread that holds the mutex.  [work] writes
    such members and [get_locked] is for reading them; [num] is an atomic. *)
Definition guard : M unit :=
  w ← get;
  if mutex (work_ w) then pass else lift (Undefined "guarded member accessed without the mutex").
Definition work (g : Work -> Work) : M unit := guard;; modify (upd_work g).
Definition get_locked : M Worker := guard;; get.
Definition atomic (g : Work -> Work) : M unit := modify (upd_work g).
Definition goto (p : Pc) : M unit := modify (upd_pc p).

(** [++work_.num] and [--work_.num] on [std::atomic<uint64_t>]; the same for
    [num_blocked_fibers]. *)
Definition incr_num (k : Work) : Work := set_num (u64 (num k + 1)) k.
Definition decr_num (k : Work) : Work := set_num (u64 (num k - 1)) k.
Definition incr_blocked (k : Work) : Work := set_blocked (u64 (num_blocked_fibers k + 1)) k.
Definition decr_blocked (k : Work) : Work := set_blocked (u64 (num_blocked_fibers k - 1)) k.

(** [work_.mutex.lock()] and [unlock()] by the worker's thread: the mutex is
    not recursive, and only its holder may unlock it. *)
Definition lock_mutex : M unit :=
  w ← get;
  if mutex (work_ w) then lift (Undefined "mutex locked twice")
  else modify (upd_work (set_mutex true)).
Definition unlock_mutex : M unit :=
  w ← get;
  if mutex (work_ w) then modify (upd_work (set_mutex false))
  else lift (Undefined "mutex unlocked by a thread that does not hold it").

(** ** Fibers and their stacks *)
Definition the_fiber (f : FiberPtr) : M Fiber :=
  w ← get; lift (deref (heap w !! f) "Fiber pointer dereferenced").

Definition put_fiber (f : FiberPtr) (b : Fiber) : M unit := modify (upd_heap <[f := b]>).

Definition set_fiber_state (to : State) (b : Fiber) : Fiber := mkFiber (id_ b) to (impl_ b).

Definition push_frame (k : Frame) : M unit :=
  w ← get; b ← the_fiber (current_fiber_ w);
  put_fiber (current_fiber_ w) (mkFiber (id_ b) (state_ b) (k :: impl_ b)).

Definition pop_frame : M Frame :=
  w ← get; b ← the_fiber (current_fiber_ w);
  match impl_ b with
  | k :: s => put_fiber (current_fiber_ w) (mkFiber (id_ b) (state_ b) s);; mret k
  | [] => lift (Undefined "return from the target of a fiber")
  end.

(** A function returns: the fiber goes on where the call was made. *)
Definition ret : M unit :=
  k ← pop_frame;
  match k with
  | KThread => goto PThreadEnd
  | KStop => goto PStopEnd
  | KRunWait => goto PRunBody
  | KRunShutdown => goto PRunEnd
  | KShutdownWait => push_frame KShutdownIdle;; goto PIdle
  | KShutdownIdle => goto PShutdownLoop
  | KWorkWait => goto PWorkDone
  | KSuspendWait => goto PSuspendPick
  | KWait timeout => goto (PWaitEnd timeout)
  | KWaitPred timeout => goto (PWaitPredEnd timeout)
  | KFiberStart | KRunSwitch | KIdleSwitch | KIdleTask | KSuspendSwitch =>
      lift (Undefined "return to a place that is no call")
  end.

Definition changeFiberState (f : FiberPtr) (from to : State) : M unit :=
  guard;; b ← the_fiber f;
  assert (bool_decide (state_ b = from)) "fiber was in an unexpected state";;
  put_fiber f (set_fiber_state to b).

Definition setFiberState (f : FiberPtr) (to : State) : M unit :=
  guard;; b ← the_fiber f; put_fiber f (set_fiber_state to b).

(** [ASSERT_FIBER_STATE]. *)
Definition assert_fiber_state (f : FiberPtr) (s : State) : M unit :=
  guard;; b ← the_fiber f; assert (bool_decide (state_ b = s)) "fiber was in an unexpected state".

(** [Worker::suspend] after its [switchToFiber] came back. *)
Definition suspend_resumed : M unit :=
  work decr_blocked;;
  w ← get; setFiberState (current_fiber_ w) Running;;
  ret.

(** The running fiber goes on after the switch to it. *)
Definition resume : M unit :=
  k ← pop_frame;
  match k with
  | KFiberStart => goto PRun
  | KSuspendSwitch => suspend_resumed
  | KIdleSwitch =>
      w ← get; changeFiberState (current_fiber_ w) Idle Running;; goto PIdleLoop
  | KRunSwitch => ret
  | _ => lift (Undefined "switch to a fiber that is not switched out")
  end.

(** [Worker::switchToFiber] and [Fiber::switchTo].  The caller has pushed the
    frame it returns to, so that when [to] is the running fiber itself, for
    which [Fiber::switchTo] does nothing, [resume] continues the caller.
    [Fiber::switchTo] also asserts that it runs on the worker's own thread,
    which no step here leaves: [Worker::current] is set before the first fiber
    exists and reset after the last one is gone. *)
Definition switchToFiber (to : FiberPtr) : M unit :=
  w ← get;
  assert (bool_decide (to = main_fiber_ w) || bool_decide (to ∉ idle_fibers_ w))
    "switching to idle fiber";;
  modify (upd_current to);;
  resume.

(** [Worker::createWorkerFiber]; [p] is the address of the new [Fiber]. *)
Definition createWorkerFiber (p : FiberPtr) : M FiberPtr :=
  w ← get;
  put_fiber p (mkFiber (u32 (zlen (worker_fibers_ w) + 1)) Running [KFiberStart]);;
  modify (upd_worker_fibers (worker_fibers_ w ++ [p]));;
  mret p.

(** [containers::take] of a deque. *)
Definition take_front {A} (l : list A) : M (A * list A) :=
  match l with
  | x :: l' => mret (x, l')
  | [] => lift (Undefined "front() of an empty deque")
  end.

(** [containers::take] of an unordered set, whose [begin()] is [it]. *)
Definition take_any (it : FiberPtr) (set : gset FiberPtr) : FiberPtr * gset FiberPtr := (it, set ∖ {[it]}).

(** ** Work::wait *)
Definition wait_pred (p : WaitFor) (w : Worker) : bool :=
  match p with
  | ForRun =>
      bool_decide (num (work_ w) > 0)%Z || WaitingFibers_bool (waiting (work_ w)) || shutdown w
  | ForWork =>
      bool_decide (num (work_ w) > 0)%Z ||
      (shutdown w && bool_decide (num_blocked_fibers (work_ w) = 0)%Z)
  end.

Definition Work_wait (p : WaitFor) : M unit :=
  work (set_notify true);;
  w ← get_locked;
  deadline ← (if WaitingFibers_bool (waiting (work_ w))
              then t ← lift (WaitingFibers_next (waiting (work_ w))); mret (Some t)
              else mret None);
  w ← get_locked;
  if wait_pred p w then work (set_notify false);; ret
  else unlock_mutex;; goto (PCvBlocked p deadline).

(** The condition variable's wait reacquires the mutex: because of
    [added.notify_one()], of the deadline, or spuriously. *)
Definition Work_wake (p : WaitFor) (deadline : option TimePoint) (now : TimePoint) : M unit :=
  lock_mutex;;
  w ← get_locked;
  let timed_out := match deadline with
                   | Some t => bool_decide (t <= now)%Z | None => false end in
  if wait_pred p w || timed_out then work (set_notify false);; ret
  else unlock_mutex.

(** ** waitForWork, enqueueFiberTimeouts *)
Definition waitForWork : M unit :=
  w ← get_locked;
  assert (bool_decide (num (work_ w) = u64 (zlen (fibers (work_ w)) + zlen (tasks (work_ w)))))
    "work.num out of sync";;
  if bool_decide (num (work_ w) > 0)%Z then ret
  else if bool_decide (mode_ w = MultiThreaded)
  then emit BeginSpinning;; unlock_mutex;; goto PSpin
  else goto PWorkWait.

(** [spinForWork] got a task from another worker. *)
Definition spin_stole (t : WTask) : M unit :=
  lock_mutex;;
  w ← get_locked; work (set_tasks (tasks (work_ w) ++ [t]));;
  atomic incr_num;;
  unlock_mutex;;
  goto PSpun.

Definition spin_end : M unit := lock_mutex;; goto PWorkWait.

Definition waitForWork_wait : M unit := push_frame KWorkWait;; goto (PCvEnter ForWork).

Fixpoint enqueueFiberTimeouts (fuel : nat) (now : TimePoint) : M unit :=
  match fuel with
  | O => lift (Undefined "out of fuel")
  | S fuel =>
      w ← get_locked;
      r ← lift (WaitingFibers_take now (waiting (work_ w)));
      work (set_waiting (snd r));;
      match fst r with
      | None => pass
      | Some f =>
          changeFiberState f Waiting Queued;;
          w ← get_locked; work (set_fibers (fibers (work_ w) ++ [f]));;
          atomic incr_num;;
          enqueueFiberTimeouts fuel now
      end
  end.

Definition waitForWork_done (now : TimePoint) : M unit :=
  w ← get_locked;
  (if WaitingFibers_bool (waiting (work_ w))
   then enqueueFiberTimeouts (S (length (timeouts (waiting (work_ w))))) now
   else pass);;
  ret.

(** ** suspend *)
Definition suspend (timeout : option TimePoint) : M unit :=
  w ← get;
  match timeout with
  | Some t =>
      changeFiberState (current_fiber_ w) Running Waiting;;
      w ← get_locked;
      ws ← lift (WaitingFibers_add t (current_fiber_ w) (waiting (work_ w)));
      work (set_waiting ws)
  | None => changeFiberState (current_fiber_ w) Running Yielded
  end;;
  push_frame KSuspendWait;; goto PWaitForWork.

(** What [suspend] switches to.  [begin()] of the unordered set of idle fibers
    is any element of it: [pick]; a new fiber gets an unused address: [pick]. *)
Definition suspend_switch (pick : FiberPtr) : M unit :=
  work incr_blocked;;
  push_frame KSuspendSwitch;;
  w ← get_locked;
  if bool_decide (fibers (work_ w) ≠ []) then
    atomic decr_num;;
    r ← take_front (fibers (work_ w));
    work (set_fibers (snd r));;
    assert_fiber_state (fst r) Queued;;
    switchToFiber (fst r)
  else if bool_decide (idle_fibers_ w ≠ ∅) then
    let r := take_any pick (idle_fibers_ w) in
    modify (upd_idle (snd r));;
    assert_fiber_state (fst r) Idle;;
    switchToFiber (fst r)
  else
    p ← createWorkerFiber pick; switchToFiber p.

(** ** runUntilIdle, runUntilShutdown, run *)
Definition runUntilIdle : M unit :=
  w ← get_locked;
  assert_fiber_state (current_fiber_ w) Running;;
  assert (bool_decide (num (work_ w) = u64 (zlen (fibers (work_ w)) + zlen (tasks (work_ w)))))
    "work.num out of sync";;
  goto PIdleLoop.

(** One turn of its loops: a queued fiber first, then a task. *)
Definition runUntilIdle_loop : M unit :=
  w ← get_locked;
  match fibers (work_ w), tasks (work_ w) with
  | f :: fs, _ =>
      atomic decr_num;;
      work (set_fibers fs);;
      assert (bool_decide (f ∉ idle_fibers_ w)) "dequeued fiber is idle";;
      assert (bool_decide (f ≠ current_fiber_ w)) "dequeued fiber is currently running";;
      assert_fiber_state f Queued;;
      changeFiberState (current_fiber_ w) Running Idle;;
      assert (bool_decide (current_fiber_ w ∉ idle_fibers_ w)) "fiber already idle";;
      modify (upd_idle ({[current_fiber_ w]} ∪ idle_fibers_ w));;
      push_frame KIdleSwitch;;
      switchToFiber f
  | [], t :: ts =>
      atomic decr_num;;
      work (set_tasks ts);;
      unlock_mutex;;
      push_frame KIdleTask;;
      emit (RunTask t);; goto PUser
  | [], [] => ret
  end.

(** [task()] returned in runUntilIdle. *)
Definition task_done : M unit :=
  k ← pop_frame;
  match k with
  | KIdleTask => lock_mutex;; goto PIdleLoop
  | _ => lift (Undefined "no task is running")
  end.

Definition runUntilShutdown : M unit :=
  w ← get_locked;
  if negb (shutdown w) || bool_decide (num (work_ w) > 0)%Z ||
     bool_decide (num_blocked_fibers (work_ w) > 0)%Z
  then push_frame KShutdownWait;; goto PWaitForWork
  else ret.

Definition run : M unit :=
  w ← get;
  if bool_decide (mode_ w = MultiThreaded)
  then push_frame KRunWait;; goto (PCvEnter ForRun)
  else goto PRunBody.

Definition run_body : M unit :=
  w ← get;
  assert_fiber_state (current_fiber_ w) Running;;
  push_frame KRunShutdown;; goto PShutdownLoop.

Definition run_end : M unit :=
  w ← get; push_frame KRunSwitch;; switchToFiber (main_fiber_ w).

(** ** wait *)
Definition wait_begin (timeout : option TimePoint) : M unit :=
  lock_mutex;; push_frame (KWait timeout);; goto (PSuspend timeout).

Definition not_reached (timeout : option TimePoint) (now : TimePoint) : bool :=
  match timeout with None => true | Some t => bool_decide (now < t)%Z end.

Definition wait_end (timeout : option TimePoint) (now : TimePoint) : M unit :=
  unlock_mutex;; emit (WaitReturned (not_reached timeout now));; goto PUser.

(** The loop [while (!pred())] of [wait(lock, timeout, pred)], entered with
    the value of [pred()]. *)
Definition wait_pred_loop (timeout : option TimePoint) (pred : bool) : M unit :=
  if pred then emit (WaitReturned true);; goto PUser
  else
    lock_mutex;; emit UnlockWaitLock;;
    push_frame (KWaitPred timeout);; goto (PSuspend timeout).

Definition wait_pred_suspended (timeout : option TimePoint) : M unit :=
  unlock_mutex;; goto (PWaitRelock timeout).

Definition wait_pred_relock (timeout : option TimePoint) (now : TimePoint) (pred : bool) : M unit :=
  emit LockWaitLock;;
  if negb (not_reached timeout now) then emit (WaitReturned false);; goto PUser
  else wait_pred_loop timeout pred.

(** ** start, stop *)
Definition initial_work : Work := mkWork 0 0 [] [] WaitingFibers_empty true false.

(** [Worker::Worker] and [start()]: the worker when its thread (MultiThreaded)
    or the binding thread (SingleThreaded) has made its main fiber, at
    address [main].  A worker thread is about to lock the mutex and call [run()]. *)
Definition start (id : Z) (mode : Mode) (main : FiberPtr) : Worker :=
  match mode with
  | MultiThreaded =>
      mkWorker id mode main main initial_work ∅ [] false
        {[main := mkFiber 0 Running [KThread]]} PThreadStart
  | SingleThreaded =>
      mkWorker id mode main main initial_work ∅ [] false
        {[main := mkFiber 0 Running []]} PUser
  end.

Definition thread_start : M unit := lock_mutex;; goto PRun.

(** [stop()] of a SingleThreaded worker, on its main fiber. *)
Definition stop_single : M unit :=
  lock_mutex;; modify (upd_shutdown true);; push_frame KStop;; goto PShutdownLoop.

Definition stop_single_end : M unit := unlock_mutex;; goto PExited.

(** The task that [stop()] of a MultiThreaded worker enqueues. *)
Definition stop_task (worker : nat) : WTask := mkTask (Some (BStop worker)) FlagsNone.

(** The end of the thread body of [start()]. *)
Definition thread_end : M unit :=
  unlock_mutex;;
  w ← get; modify (upd_heap (delete (main_fiber_ w)));;
  emit ThreadExit;; goto PExited.

(** ** Operations of other threads, and of tasks, on the worker *)
Definition notify_if (b : bool) : M unit := if b then emit NotifyAdded else pass.

(** [Worker::enqueue] of a fiber, which is [Fiber::notify]. *)
Definition enqueue_fiber (f : FiberPtr) : M unit :=
  lock_mutex;;
  guard;; b ← the_fiber f;
  match state_ b with
  | Running | Queued => unlock_mutex
  | Idle | Yielded | Waiting =>
      (if bool_decide (state_ b = Waiting)
       then w ← get_locked; ws ← lift (WaitingFibers_erase f (waiting (work_ w))); work (set_waiting ws)
       else pass);;
      w ← get_locked;
      let notify := notify_added (work_ w) in
      work (set_fibers (fibers (work_ w) ++ [f]));;
      assert (negb (WaitingFibers_contains f (waiting (work_ w))))
        "fiber is unexpectedly in the waiting list";;
      setFiberState f Queued;;
      atomic incr_num;;
      unlock_mutex;;
      notify_if notify
  end.

(** [tryLock()]. *)
Definition tryLock : M bool :=
  w ← get; if mutex (work_ w) then mret false else lock_mutex;; mret true.

(** [enqueueAndUnlock(Task &&)]. *)
Definition enqueueAndUnlock (t : WTask) : M unit :=
  w ← get_locked;
  let notify := notify_added (work_ w) in
  work (set_tasks (tasks (work_ w) ++ [t]));;
  atomic incr_num;;
  unlock_mutex;;
  notify_if notify.

(** [enqueue(Task &&)]. *)
Definition enqueue_task (t : WTask) : M unit := lock_mutex;; enqueueAndUnlock t.

Definition steal : M bool :=
  w ← get;
  if bool_decide (num (work_ w) = 0)%Z then mret false
  else if mutex (work_ w) then mret false
  else
    lock_mutex;;
    w ← get_locked;
    match tasks (work_ w) with
    | [] => unlock_mutex;; mret false
    | t :: ts =>
        if Task_is t SameThread then unlock_mutex;; mret false
        else
          atomic decr_num;;
          work (set_tasks ts);;
          emit (Stolen t);;
          unlock_mutex;;
          mret true
    end.

(** ** The machine *)
Inductive Event :=
(* the worker's own thread *)
| Tau                                   (* the code runs on *)
| Now (t : TimePoint)                   (* and reads the clock *)
| Pick (f : FiberPtr)                   (* and takes or makes a fiber *)
| SpinEnd | SpinStole (t : WTask)       (* spinForWork ends *)
| Wake (now : TimePoint)                (* the wait on [added] wakes up *)
| TaskDone                              (* a task returns *)
| CallWait (timeout : option TimePoint) (* a task calls wait *)
| CallWaitPred (timeout : option TimePoint) (pred : bool)
| Relock (now : TimePoint) (pred : bool)  (* the waiter has its lock back *)
| CallStop                              (* the bound thread calls unbind *)
(* any thread *)
| EnqueueFiber (f : FiberPtr)
| EnqueueTask (t : WTask)
| Steal
| SetShutdown.                          (* the body of the stop task *)

(** [std::deque<Task>::max_size()] for a 40-byte [Task]: a longer queue makes
    [push_back] throw. *)
Definition max_tasks : Z := (2 ^ 63 - 1) / 40.

Definition code (e : Event) (w : Worker) : option (M unit) :=
  match pc w, e with
  | PUser, TaskDone => Some task_done
  | PUser, CallWait timeout => Some (wait_begin timeout)
  | PUser, CallWaitPred timeout pred => Some (wait_pred_loop timeout pred)
  | PUser, CallStop => Some stop_single
  | PThreadStart, Tau => Some thread_start
  | PRun, Tau => Some run
  | PRunBody, Tau => Some run_body
  | PRunEnd, Tau => Some run_end
  | PShutdownLoop, Tau => Some runUntilShutdown
  | PWaitForWork, Tau => Some waitForWork
  | PSpin, SpinEnd => Some spin_end
  | PSpin, SpinStole t =>
      if bool_decide (zlen (tasks (work_ w)) < max_tasks)%Z then Some (spin_stole t) else None
  | PSpun, Tau => Some spin_end
  | PWorkWait, Tau => Some waitForWork_wait
  | PWorkDone, Now t => Some (waitForWork_done t)
  | PCvEnter p, Tau => Some (Work_wait p)
  | PCvBlocked p d, Wake now => Some (Work_wake p d now)
  | PIdle, Tau => Some runUntilIdle
  | PIdleLoop, Tau => Some runUntilIdle_loop
  | PSuspend timeout, Tau => Some (suspend timeout)
  | PSuspendPick, Pick f => Some (suspend_switch f)
  | PWaitEnd timeout, Now t => Some (wait_end timeout t)
  | PWaitPredEnd timeout, Tau => Some (wait_pred_suspended timeout)
  | PWaitRelock timeout, Relock now pred => Some (wait_pred_relock timeout now pred)
  | PThreadEnd, Tau => Some thread_end
  | PStopEnd, Tau => Some stop_single_end
  | _, EnqueueFiber f => if mutex (work_ w) then None else Some (enqueue_fiber f)
  | _, EnqueueTask t =>
      if negb (mutex (work_ w)) && bool_decide (zlen (tasks (work_ w)) < max_tasks)%Z
      then Some (enqueue_task t) else None
  | _, Steal => Some (_ ← steal; pass)
  | _, SetShutdown => Some (modify (upd_shutdown true))
  | _, _ => None
  end.

(** The outcome of an event, when the worker is at a place where it can
    happen; a thread that finds the mutex taken waits. *)
Definition exec (e : Event) (w : Worker) : option (Result (Worker * list Out)) :=
  match code e w with
  | None => None
  | Some m => Some ('(_, w', o) ← m w; Ok (w', o))
  end.

(** The stack of a fiber. *)
Definition stack (w : Worker) (f : FiberPtr) : list Frame :=
  match heap w !! f with Some b => impl_ b | None => [] end.

Definition fiber_state (w : Worker) (f : FiberPtr) : option State := state_ <$> heap w !! f.

(** What the worker's environment guarantees:
    - addresses of live fibers are distinct, non-null and below [2^62];
    - [containers::take] of an unordered set yields an element of it;
    - only a task that runs returns; only the bound thread, outside any task,
      calls [unbind], once;
    - a fiber is notified by those who know it from its own [wait] call
      ([ConditionVariable] drops it from its list when that call returns), so
      it is a fiber of this worker that is not parked in [runUntilIdle]. *)
Definition legal (e : Event) (w : Worker) : Prop :=
  match e with
  | Pick f =>
      if bool_decide (fibers (work_ w) ≠ []) then True
      else if bool_decide (idle_fibers_ w ≠ ∅) then f ∈ idle_fibers_ w
      else heap w !! f = None /\ (0 < f < 2 ^ 62)%Z
  | TaskDone => exists k, stack w (current_fiber_ w) = KIdleTask :: k
  | CallStop =>
      mode_ w = SingleThreaded /\ current_fiber_ w = main_fiber_ w /\
      stack w (main_fiber_ w) = []
  | EnqueueFiber f =>
      pc w <> PExited /\ exists s, fiber_state w f = Some s /\ s <> Idle
  | SetShutdown => mode_ w = MultiThreaded
  | _ => True
  end.

Inductive step (w w' : Worker) : Prop :=
| step_event e o : legal e w -> exec e w = Some (Ok (w', o)) -> step w w'.

Inductive reachable : Worker -> Prop :=
| reach_start id mode main : (0 < main < 2 ^ 62)%Z -> reachable (start id mode main)
| reach_step w w' : reachable w -> step w w' -> reachable w'.

(** Running a list of events, to try the machine out. *)
Fixpoint exec_all (es : list Event) (w : Worker) : Result (Worker * list Out) :=
  match es with
  | [] => Ok (w, [])
  | e :: es =>
      match exec e w with
      | None => Undefined "event not enabled"
      | Some r =>
          '(w1, o1) ← r; '(w2, o2) ← exec_all es w1; Ok (w2, o1 ++ o2)
      end
  end.

(** [legal], computed. *)
Definition legalb (e : Event) (w : Worker) : bool :=
  match e with
  | Pick f =>
      if bool_decide (fibers (work_ w) ≠ []) then true
      else if bool_decide (idle_fibers_ w ≠ ∅) then bool_decide (f ∈ idle_fibers_ w)
      else bool_decide (heap w !! f = None) && bool_decide (0 < f < 2 ^ 62)%Z
  | TaskDone => match stack w (current_fiber_ w) with KIdleTask :: _ => true | _ => false end
  | CallStop =>
      bool_decide (mode_ w = SingleThreaded) &&
      bool_decide (current_fiber_ w = main_fiber_ w) &&
      bool_decide (stack w (main_fiber_ w) = [])
  | EnqueueFiber f =>
      match pc w with PExited => false | _ => true end &&
      match fiber_state w f with Some s => bool_decide (s ≠ Idle) | None => false end
  | SetShutdown => bool_decide (mode_ w = MultiThreaded)
  | _ => true
  end.

(** The state after a list of legal events. *)
Fixpoint run_events (es : list Event) (w : Worker) : option Worker :=
  match es with
  | [] => Some w
  | e :: es =>
      if legalb e w then
        match exec e w with Some (Ok (w', _)) => run_events es w' | _ => None end
      else None
  end.

Lemma legalb_sound e w : legalb e w = true -> legal e w.
Proof.
  destruct e; simpl; try done; repeat case_bool_decide; simpl; try done.
  - destruct (stack w _) as [|[] ?]; try done. eauto.
  - intros H. apply andb_true_iff in H as [Hp H]. destruct (fiber_state w f) as [s|]; [|done].
    apply bool_decide_eq_true in H. split; [by intros Hpc; rewrite Hpc in Hp|eauto].
Qed.

Lemma run_events_reachable es w w' :
  reachable w -> run_events es w = Some w' -> reachable w'.
Proof.
  revert w. induction es as [|e es IH]; simpl; intros w Hr Hrun; [by simplify_eq|].
  destruct (legalb e w) eqn:Hl; [|done].
  destruct (exec e w) as [[[w1 o]| |]|] eqn:He; try done.
  eapply IH; [|done]. eapply reach_step; [done|]. econstructor; [by apply legalb_sound|done].
Qed.
