(* ===== verification/WorkerFrame.v ===== *)
(** What every fragment of the worker's code leaves alone.

    A relation between the state before, the outputs and the state after is
    [Framing] when it is closed under sequencing and holds of every primitive
    that changes neither the identity of the worker nor its task queue and does
    not end it; it then holds of every fragment but the four that work on the
    task queue and the two that end the worker. *)
From stdpp Require Import base numbers strings sets gmap list.
From S2P Require Import Prelude Task WaitingFibers Worker.

(** The tasks that outputs say have left the queue. *)
Definition consumed_by (o : Out) : list WTask :=
  match o with RunTask t | Stolen t => [t] | _ => [] end.

Definition identity (w : Worker) : Z * Mode * FiberPtr := (worker_id w, mode_ w, main_fiber_ w).

Class Framing (R : Worker -> list Out -> Worker -> Prop) : Prop := {
  framing_app w o1 w1 o2 w2 : R w o1 w1 -> R w1 o2 w2 -> R w (o1 ++ o2) w2;
  framing_state w w' :
    identity w' = identity w -> tasks (work_ w') = tasks (work_ w) ->
    (pc w' = PExited -> pc w = PExited) -> R w [] w';
  framing_out w o : consumed_by o = [] -> R w [o] w
}.

(** Every outcome of [m] is in the relation. *)
Definition respects (R : Worker -> list Out -> Worker -> Prop) {A} (m : M A) : Prop :=
  forall w a w' o, m w = Ok (a, w', o) -> R w o w'.

(** Access under the mutex, where it succeeds. *)
Lemma guard_inv w a w' o : guard w = Ok (a, w', o) -> w' = w /\ o = [] /\ mutex (work_ w) = true.
Proof.
  unfold guard, mbind, M_bind, get. destruct (mutex (work_ w)); [|done]. by intros [= _ <- <-].
Qed.
Lemma get_locked_inv w a w' o : get_locked w = Ok (a, w', o) -> a = w /\ w' = w /\ o = [].
Proof.
  unfold get_locked, guard, mbind, M_bind, get. destruct (mutex (work_ w)); [|done]. by intros [= <- <- <-].
Qed.
Lemma work_inv g w a w' o : work g w = Ok (a, w', o) -> w' = upd_work g w /\ o = [].
Proof.
  unfold work, guard, mbind, M_bind, get. destruct (mutex (work_ w)); [|done]. by intros [= _ <- <-].
Qed.

Create HintDb keeps discriminated.
#[export] Hint Constants Opaque : keeps.

(** Splits a fragment into its primitives. *)
Ltac keeps_tac := repeat progress (simpl; auto 40 with keeps).

Section framing.
Context {R : Worker -> list Out -> Worker -> Prop} `{!Framing R}.

Lemma keeps_bind {A B} (m : M A) (k : A -> M B) :
  respects R m -> (forall a, respects R (k a)) -> respects R (m ≫= k).
Proof.
  intros Hm Hk w b w' o. unfold mbind, M_bind.
  destruct (m w) as [[[a w1] o1]| |] eqn:E1; [|done|done].
  destruct (k a w1) as [[[c w2] o2]| |] eqn:E2; [|done|done]. intros [= <- <- <-].
  eapply framing_app; [by eapply Hm|by eapply Hk].
Qed.

Lemma keeps_get : respects R get.
Proof. intros w a w' o [= <- <- <-]. by apply framing_state. Qed.
Lemma keeps_mret {A} (a : A) : respects R (mret a).
Proof. intros w b w' o [= <- <- <-]. by apply framing_state. Qed.
Lemma keeps_lift {A} (r : Result A) : respects R (lift r).
Proof.
  intros w b w' o. destruct r; [|done|done]. intros [= <- <- <-]. by apply framing_state.
Qed.
Lemma keeps_modify f :
  (forall w, identity (f w) = identity w) -> (forall w, tasks (work_ (f w)) = tasks (work_ w)) ->
  (forall w, pc (f w) = pc w) -> respects R (modify f).
Proof. intros H1 H2 H3 w b w' o [= <- <- <-]. apply framing_state; [done|done|by rewrite H3]. Qed.
Lemma keeps_goto p : p <> PExited -> respects R (goto p).
Proof. intros Hp w b w' o [= <- <- <-]. by apply framing_state. Qed.
Lemma keeps_atomic g : (forall k, tasks (g k) = tasks k) -> respects R (atomic g).
Proof. intros Hg. apply keeps_modify; [done| |done]. intros w. apply Hg. Qed.
Lemma keeps_guard : respects R guard.
Proof. intros w a w' o (-> & -> & _)%guard_inv. by apply framing_state. Qed.
Lemma keeps_get_locked : respects R get_locked.
Proof. intros w a w' o (_ & -> & ->)%get_locked_inv. by apply framing_state. Qed.
Lemma keeps_work g : (forall k, tasks (g k) = tasks k) -> respects R (work g).
Proof. intros Hg w a w' o [-> ->]%work_inv. apply framing_state; [done|simpl; by rewrite Hg|done]. Qed.
Lemma keeps_emit o : consumed_by o = [] -> respects R (emit o).
Proof. intros Ho w b w' o' [= <- <- <-]. by apply framing_out. Qed.

#[local] Hint Resolve keeps_get keeps_mret keeps_lift keeps_guard keeps_get_locked : keeps.
#[local] Hint Extern 1 (respects R (mbind _ _)) => apply keeps_bind; [|intros ?] : keeps.
#[local] Hint Extern 1 (respects R (modify _)) => apply keeps_modify; reflexivity : keeps.
#[local] Hint Extern 1 (respects R (goto _)) => apply keeps_goto; discriminate : keeps.
#[local] Hint Extern 1 (respects R (work _)) => apply keeps_work; reflexivity : keeps.
#[local] Hint Extern 1 (respects R (atomic _)) => apply keeps_atomic; reflexivity : keeps.
#[local] Hint Extern 1 (respects R (emit _)) => apply keeps_emit; reflexivity : keeps.
#[local] Hint Extern 1 (respects R (match ?x with _ => _ end)) => destruct x : keeps.

Lemma keeps_assert c m : respects R (assert c m).
Proof. unfold assert. keeps_tac. Qed.
Lemma keeps_pass : respects R pass.
Proof. unfold pass. keeps_tac. Qed.
Lemma keeps_lock : respects R lock_mutex.
Proof. unfold lock_mutex. keeps_tac. Qed.
Lemma keeps_unlock : respects R unlock_mutex.
Proof. unfold unlock_mutex. keeps_tac. Qed.
Lemma keeps_the_fiber f : respects R (the_fiber f).
Proof. unfold the_fiber. keeps_tac. Qed.
Lemma keeps_put_fiber f b : respects R (put_fiber f b).
Proof. unfold put_fiber. keeps_tac. Qed.
Lemma keeps_take_front {A} (l : list A) : respects R (take_front l).
Proof. unfold take_front. keeps_tac. Qed.
#[local] Hint Resolve keeps_assert keeps_pass keeps_lock keeps_unlock
  keeps_the_fiber keeps_put_fiber keeps_take_front : keeps.

Lemma keeps_push_frame k : respects R (push_frame k).
Proof. unfold push_frame. keeps_tac. Qed.
Lemma keeps_pop_frame : respects R pop_frame.
Proof. unfold pop_frame. keeps_tac. Qed.
Lemma keeps_change f a b : respects R (changeFiberState f a b).
Proof. unfold changeFiberState. keeps_tac. Qed.
Lemma keeps_set_state f s : respects R (setFiberState f s).
Proof. unfold setFiberState. keeps_tac. Qed.
Lemma keeps_assert_state f s : respects R (assert_fiber_state f s).
Proof. unfold assert_fiber_state. keeps_tac. Qed.
Lemma keeps_notify b : respects R (notify_if b).
Proof. unfold notify_if. keeps_tac. Qed.
#[local] Hint Resolve keeps_push_frame keeps_pop_frame keeps_change keeps_set_state
  keeps_assert_state keeps_notify : keeps.

Lemma keeps_ret_frame : respects R ret.
Proof. unfold ret. keeps_tac. Qed.
#[local] Hint Resolve keeps_ret_frame : keeps.
Lemma keeps_resume : respects R resume.
Proof. unfold resume, suspend_resumed. keeps_tac. Qed.
#[local] Hint Resolve keeps_resume : keeps.
Lemma keeps_switch f : respects R (switchToFiber f).
Proof. unfold switchToFiber. keeps_tac. Qed.
#[local] Hint Resolve keeps_switch : keeps.
Lemma keeps_timeouts fuel now : respects R (enqueueFiberTimeouts fuel now).
Proof. induction fuel; simpl; keeps_tac. Qed.
#[local] Hint Resolve keeps_timeouts : keeps.


(** The fragments. *)
Lemma keeps_task_done : respects R task_done.
Proof. unfold task_done. keeps_tac. Qed.
Lemma keeps_wait_begin t : respects R (wait_begin t).
Proof. unfold wait_begin. keeps_tac. Qed.
Lemma keeps_wait_pred_loop t p : respects R (wait_pred_loop t p).
Proof. unfold wait_pred_loop. keeps_tac. Qed.
Lemma keeps_stop_single : respects R stop_single.
Proof. unfold stop_single. keeps_tac. Qed.
Lemma keeps_thread_start : respects R thread_start.
Proof. unfold thread_start. keeps_tac. Qed.
Lemma keeps_run : respects R run.
Proof. unfold run. keeps_tac. Qed.
Lemma keeps_run_body : respects R run_body.
Proof. unfold run_body. keeps_tac. Qed.
Lemma keeps_run_end : respects R run_end.
Proof. unfold run_end. keeps_tac. Qed.
Lemma keeps_runUntilShutdown : respects R runUntilShutdown.
Proof. unfold runUntilShutdown. keeps_tac. Qed.
Lemma keeps_waitForWork : respects R waitForWork.
Proof. unfold waitForWork. keeps_tac. Qed.
Lemma keeps_spin_end : respects R spin_end.
Proof. unfold spin_end. keeps_tac. Qed.
Lemma keeps_waitForWork_wait : respects R waitForWork_wait.
Proof. unfold waitForWork_wait. keeps_tac. Qed.
Lemma keeps_waitForWork_done t : respects R (waitForWork_done t).
Proof. unfold waitForWork_done. keeps_tac. Qed.
Lemma keeps_Work_wait p : respects R (Work_wait p).
Proof. unfold Work_wait. keeps_tac. Qed.
Lemma keeps_Work_wake p d t : respects R (Work_wake p d t).
Proof. unfold Work_wake. keeps_tac. Qed.
Lemma keeps_runUntilIdle : respects R runUntilIdle.
Proof. unfold runUntilIdle. keeps_tac. Qed.
Lemma keeps_suspend t : respects R (suspend t).
Proof. unfold suspend. keeps_tac. Qed.
Lemma keeps_suspend_switch f : respects R (suspend_switch f).
Proof. unfold suspend_switch, createWorkerFiber. keeps_tac. Qed.
Lemma keeps_wait_end t n : respects R (wait_end t n).
Proof. unfold wait_end. keeps_tac. Qed.
Lemma keeps_wait_pred_suspended t : respects R (wait_pred_suspended t).
Proof. unfold wait_pred_suspended. keeps_tac. Qed.
Lemma keeps_wait_pred_relock t n p : respects R (wait_pred_relock t n p).
Proof. unfold wait_pred_relock, wait_pred_loop. keeps_tac. Qed.
Lemma keeps_enqueue_fiber f : respects R (enqueue_fiber f).
Proof. unfold enqueue_fiber. keeps_tac. Qed.
End framing.

#[export] Hint Resolve keeps_get keeps_mret keeps_lift keeps_guard keeps_get_locked keeps_assert keeps_pass keeps_goto
  keeps_lock keeps_unlock keeps_the_fiber keeps_put_fiber keeps_take_front keeps_push_frame
  keeps_pop_frame keeps_change keeps_set_state keeps_assert_state keeps_notify keeps_ret_frame
  keeps_resume keeps_switch keeps_timeouts keeps_task_done keeps_wait_begin
  keeps_wait_pred_loop keeps_stop_single keeps_thread_start keeps_run keeps_run_body
  keeps_run_end keeps_runUntilShutdown keeps_waitForWork keeps_spin_end keeps_waitForWork_wait
  keeps_waitForWork_done keeps_Work_wait keeps_Work_wake keeps_runUntilIdle keeps_suspend
  keeps_suspend_switch keeps_wait_end keeps_wait_pred_suspended keeps_wait_pred_relock
    keeps_enqueue_fiber : keeps.
#[export] Hint Extern 0 (Framing _) => typeclasses eauto : keeps.
#[export] Hint Extern 1 (respects _ (mbind _ _)) => apply keeps_bind; [|intros ?] : keeps.
#[export] Hint Extern 2 (respects _ (modify _)) => apply keeps_modify; reflexivity : keeps.
#[export] Hint Extern 2 (respects _ (goto _)) => apply keeps_goto; discriminate : keeps.
#[export] Hint Extern 2 (respects _ (work _)) => apply keeps_work; reflexivity : keeps.
#[export] Hint Extern 2 (respects _ (atomic _)) => apply keeps_atomic; reflexivity : keeps.
#[export] Hint Extern 2 (respects _ (emit _)) => apply keeps_emit; reflexivity : keeps.
#[export] Hint Extern 1 (respects _ (match ?x with _ => _ end)) => destruct x : keeps.

(** The events of other threads. *)
Definition external (e : Event) : bool :=
  match e with EnqueueFiber _ | EnqueueTask _ | Steal | SetShutdown => true | _ => false end.

Lemma code_external e w :
  external e = true ->
  code e w =
    match e with
    | EnqueueFiber f => if mutex (work_ w) then None else Some (enqueue_fiber f)
    | EnqueueTask t =>
        if negb (mutex (work_ w)) && bool_decide (zlen (tasks (work_ w)) < max_tasks)%Z
        then Some (enqueue_task t) else None
    | Steal => Some (_ ← steal; pass)
    | _ => Some (modify (upd_shutdown true))
    end.
Proof. unfold code. destruct e; try done; by destruct (pc w). Qed.

(** No code changes the identity of the worker. *)
Definition same_identity (w : Worker) (_ : list Out) (w' : Worker) : Prop :=
  identity w' = identity w.

Global Instance same_identity_framing : Framing same_identity.
Proof. split; unfold same_identity; congruence. Qed.

Section identity.
#[local] Hint Extern 1 (respects same_identity (work _)) =>
  intros ? ? ? ? [-> ->]%work_inv; reflexivity : keeps.
#[local] Hint Extern 1 (respects same_identity (emit _)) =>
  intros ? ? ? ? [= <- <- <-]; reflexivity : keeps.
#[local] Hint Extern 1 (respects same_identity (goto _)) =>
  intros ? ? ? ? [= <- <- <-]; reflexivity : keeps.

Lemma identity_thread_end : respects same_identity thread_end.
Proof. unfold thread_end. keeps_tac. Qed.
Lemma identity_stop_single_end : respects same_identity stop_single_end.
Proof. unfold stop_single_end. keeps_tac. Qed.

Lemma identity_idle_loop : respects same_identity runUntilIdle_loop.
Proof. unfold runUntilIdle_loop. keeps_tac. Qed.
Lemma identity_steal : respects same_identity steal.
Proof. unfold steal. keeps_tac. Qed.
Lemma identity_enqueue_task t : respects same_identity (enqueue_task t).
Proof. unfold enqueue_task, enqueueAndUnlock. keeps_tac. Qed.
Lemma identity_spin_stole t : respects same_identity (spin_stole t).
Proof. unfold spin_stole. keeps_tac. Qed.
#[local] Hint Resolve identity_thread_end identity_stop_single_end identity_idle_loop identity_steal identity_enqueue_task
  identity_spin_stole : keeps.

Lemma code_identity e w m : code e w = Some m -> respects same_identity m.
Proof.
  destruct (external e) eqn:He.
  - rewrite code_external by done. destruct e; try done; simpl.
    + destruct (mutex (work_ w)); [done|]. intros [= <-]. auto with keeps.
    + destruct (negb _ && _); [|done]. intros [= <-]. auto with keeps.
    + intros [= <-]. auto with keeps.
    + intros [= <-]. auto with keeps.
  - unfold code. destruct (pc w), e; try done; try case_bool_decide; try done;
      intros [= <-]; auto with keeps.
Qed.
End identity.

Lemma exec_identity e w w' o : exec e w = Some (Ok (w', o)) -> identity w' = identity w.
Proof.
  unfold exec. destruct (code e w) as [m|] eqn:Hc; [|done]. intros [= H].
  destruct (m w) as [[[a w1] o1]| |] eqn:Hm; simplify_eq/=. by eapply (code_identity e w m).
Qed.

(** Only the ends of a worker end it. *)
Definition goes_on (w : Worker) (_ : list Out) (w' : Worker) : Prop :=
  pc w' = PExited -> pc w = PExited.

Global Instance goes_on_framing : Framing goes_on.
Proof. split; unfold goes_on; auto. Qed.

Section goes_on.
#[local] Hint Extern 1 (respects goes_on (work _)) =>
  intros ? ? ? ? [-> ->]%work_inv; unfold goes_on; auto : keeps.
#[local] Hint Extern 1 (respects goes_on (emit _)) =>
  intros ? ? ? ? [= <- <- <-]; unfold goes_on; auto : keeps.

Lemma goes_on_idle_loop : respects goes_on runUntilIdle_loop.
Proof. unfold runUntilIdle_loop. keeps_tac. Qed.
Lemma goes_on_steal : respects goes_on steal.
Proof. unfold steal. keeps_tac. Qed.
Lemma goes_on_enqueue_task t : respects goes_on (enqueue_task t).
Proof. unfold enqueue_task, enqueueAndUnlock. keeps_tac. Qed.
Lemma goes_on_spin_stole t : respects goes_on (spin_stole t).
Proof. unfold spin_stole. keeps_tac. Qed.
#[local] Hint Resolve goes_on_idle_loop goes_on_steal goes_on_enqueue_task
  goes_on_spin_stole : keeps.

Lemma code_goes_on e w m :
  code e w = Some m -> pc w <> PThreadEnd -> pc w <> PStopEnd -> respects goes_on m.
Proof.
  intros Hc H1 H2. destruct (external e) eqn:He.
  - rewrite code_external in Hc by done. destruct e; try done; simpl in Hc.
    + destruct (mutex (work_ w)); [done|]. simplify_eq. auto with keeps.
    + destruct (negb _ && _); [|done]. simplify_eq. auto with keeps.
    + simplify_eq. auto with keeps.
    + simplify_eq. auto with keeps.
  - unfold code in Hc. destruct (pc w), e; try done; try case_bool_decide; try done;
      simplify_eq; auto with keeps.
Qed.
End goes_on.

Lemma exec_goes_on e w w' o :
  exec e w = Some (Ok (w', o)) -> pc w' = PExited ->
  pc w = PThreadEnd \/ pc w = PStopEnd \/ pc w = PExited.
Proof.
  unfold exec. destruct (code e w) as [m|] eqn:Hc; [|done]. intros [= H] Hpc.
  destruct (m w) as [[[a w1] o1]| |] eqn:Hm; simplify_eq/=.
  assert (pc w = PThreadEnd \/ pc w = PStopEnd \/ (pc w <> PThreadEnd /\ pc w <> PStopEnd))
    as [?|[?|[??]]] by (destruct (pc w); auto; right; right; split; congruence); auto.
  right. right. by eapply (code_goes_on e w m).
Qed.

(** Only [steal] announces a stolen task. *)
Definition is_stolen (o : Out) : bool := match o with Stolen _ => true | _ => false end.

Definition no_stolen (w : Worker) (o : list Out) (w' : Worker) : Prop := existsb is_stolen o = false.

Global Instance no_stolen_framing : Framing no_stolen.
Proof.
  split; unfold no_stolen; [|done|].
  - intros w o1 w1 o2 w2 H1 H2. by rewrite existsb_app, H1, H2.
  - intros w o Ho. by destruct o.
Qed.

Section no_stolen.
#[local] Hint Extern 1 (respects no_stolen (work _)) =>
  intros ? ? ? ? [-> ->]%work_inv; reflexivity : keeps.
#[local] Hint Extern 1 (respects no_stolen (goto _)) =>
  intros ? ? ? ? [= <- <- <-]; reflexivity : keeps.
#[local] Hint Extern 1 (respects no_stolen (emit _)) =>
  intros ? ? ? ? [= <- <- <-]; reflexivity : keeps.

Lemma no_stolen_idle_loop : respects no_stolen runUntilIdle_loop.
Proof. unfold runUntilIdle_loop. keeps_tac. Qed.
Lemma no_stolen_enqueue_task t : respects no_stolen (enqueue_task t).
Proof. unfold enqueue_task, enqueueAndUnlock. keeps_tac. Qed.
Lemma no_stolen_spin_stole t : respects no_stolen (spin_stole t).
Proof. unfold spin_stole. keeps_tac. Qed.
Lemma no_stolen_thread_end : respects no_stolen thread_end.
Proof. unfold thread_end. keeps_tac. Qed.
Lemma no_stolen_stop_single_end : respects no_stolen stop_single_end.
Proof. unfold stop_single_end. keeps_tac. Qed.
#[local] Hint Resolve no_stolen_idle_loop no_stolen_enqueue_task no_stolen_spin_stole
  no_stolen_thread_end no_stolen_stop_single_end : keeps.

Lemma code_no_stolen e w m : code e w = Some m -> e <> Steal -> respects no_stolen m.
Proof.
  intros Hc Hne. destruct (external e) eqn:He.
  - rewrite code_external in Hc by done. destruct e; try done; simpl in Hc.
    + destruct (mutex (work_ w)); [done|]. simplify_eq. auto with keeps.
    + destruct (negb _ && _); [|done]. simplify_eq. auto with keeps.
    + simplify_eq. auto with keeps.
  - unfold code in Hc. destruct (pc w), e; try done; try case_bool_decide; try done;
      simplify_eq; auto with keeps.
Qed.
End no_stolen.

Lemma exec_no_stolen e w w' o :
  exec e w = Some (Ok (w', o)) -> e <> Steal -> existsb is_stolen o = false.
Proof.
  unfold exec. destruct (code e w) as [m|] eqn:Hc; [|done]. intros [= H] Hne.
  destruct (m w) as [[[a w1] o1]| |] eqn:Hm; simplify_eq/=. by eapply (code_no_stolen e w m).
Qed.

(** ** Where the worker is *)

(** Other threads do not move it. *)
Definition still {A} (m : M A) : Prop := forall w a w' o, m w = Ok (a, w', o) -> pc w' = pc w.

Lemma still_bind {A B} (m : M A) (k : A -> M B) : still m -> (forall a, still (k a)) -> still (m ≫= k).
Proof.
  intros Hm Hk w b w' o. unfold mbind, M_bind.
  destruct (m w) as [[[a w1] o1]| |] eqn:E1; [|done|done].
  destruct (k a w1) as [[[c w2] o2]| |] eqn:E2; [|done|done]. intros [= <- <- <-].
  by rewrite (Hk _ _ _ _ _ E2), (Hm _ _ _ _ E1).
Qed.
Lemma still_lift {A} (r : Result A) : still (lift r).
Proof. intros w b w' o. destruct r; [|done|done]. by intros [= <- <- <-]. Qed.
Lemma still_modify f : (forall w, pc (f w) = pc w) -> still (modify f).
Proof. intros Hf w b w' o [= <- <- <-]. apply Hf. Qed.
Lemma still_get_locked : still get_locked.
Proof. by intros w b w' o (_ & -> & _)%get_locked_inv. Qed.
Lemma still_guard : still guard.
Proof. by intros w b w' o (-> & _ & _)%guard_inv. Qed.
Lemma still_work g : still (work g).
Proof. by intros w b w' o [-> _]%work_inv. Qed.
Lemma still_plain {A} (f : Worker -> A * list Out) : still (fun w => Ok ((f w).1, w, (f w).2)).
Proof. by intros w b w' o [= <- <- <-]. Qed.

Section still.
#[local] Hint Resolve still_lift still_get_locked still_guard still_work : keeps.
#[local] Hint Extern 1 (still get) => apply (still_plain (fun w => (w, []))) : keeps.
#[local] Hint Extern 1 (still (mret ?a)) => apply (still_plain (fun _ => (a, []))) : keeps.
#[local] Hint Extern 1 (still pass) => apply (still_plain (fun _ => ((), []))) : keeps.
#[local] Hint Extern 1 (still (emit ?x)) => apply (still_plain (fun _ => ((), [x]))) : keeps.
#[local] Hint Extern 1 (still (mbind _ _)) => apply still_bind; [|intros ?] : keeps.
#[local] Hint Extern 1 (still (modify _)) => apply still_modify; reflexivity : keeps.
#[local] Hint Extern 1 (still (atomic _)) => apply still_modify; reflexivity : keeps.
#[local] Hint Extern 1 (still (put_fiber _ _)) => apply still_modify; reflexivity : keeps.
#[local] Hint Extern 2 (still (match ?x with _ => _ end)) => destruct x : keeps.

Lemma still_external e w m : external e = true -> code e w = Some m -> still m.
Proof.
  intros He. rewrite code_external by done. destruct e; try done; simpl.
  - destruct (mutex (work_ w)); [done|]. intros [= <-].
    unfold enqueue_fiber, lock_mutex, unlock_mutex, setFiberState, notify_if, the_fiber, assert. keeps_tac.
  - destruct (negb _ && _); [|done]. intros [= <-].
    unfold enqueue_task, enqueueAndUnlock, lock_mutex, unlock_mutex, notify_if. keeps_tac.
  - intros [= <-]. unfold steal, lock_mutex, unlock_mutex. keeps_tac.
  - intros [= <-]. keeps_tac.
Qed.
End still.

Lemma exec_external_pc e w w' o : external e = true -> exec e w = Some (Ok (w', o)) -> pc w' = pc w.
Proof.
  intros He. unfold exec. destruct (code e w) as [m|] eqn:Hc; [|done]. intros [= H].
  destruct (m w) as [[[a w1] o1]| |] eqn:Hm; simplify_eq/=. by eapply (still_external e w m).
Qed.

(** A worker that runs a task is in the code of the task then. *)
Definition is_run (o : Out) : bool := match o with RunTask _ => true | _ => false end.
Definition no_run (w : Worker) (o : list Out) (w' : Worker) : Prop := existsb is_run o = false.

Global Instance no_run_framing : Framing no_run.
Proof.
  split; unfold no_run; [|done|].
  - intros w o1 w1 o2 w2 H1 H2. by rewrite existsb_app, H1, H2.
  - intros w o Ho. by destruct o.
Qed.

Lemma bind_ends {A} (m : M A) (k : A -> M unit) p :
  (forall a w b w' o, k a w = Ok (b, w', o) -> pc w' = p) ->
  forall w b w' o, (m ≫= k) w = Ok (b, w', o) -> pc w' = p.
Proof.
  intros Hk w b w' o. unfold mbind, M_bind. destruct (m w) as [[[a w1] o1]| |]; [|done|done].
  destruct (k a w1) as [[[c w2] o2]| |] eqn:E; [|done|done]. intros [= <- <- <-]. by eapply Hk.
Qed.

Section no_run.
#[local] Hint Extern 1 (respects no_run (work _)) =>
  intros ? ? ? ? [-> ->]%work_inv; reflexivity : keeps.
#[local] Hint Extern 1 (respects no_run (goto _)) =>
  intros ? ? ? ? [= <- <- <-]; reflexivity : keeps.
#[local] Hint Extern 1 (respects no_run (emit (Stolen _))) =>
  intros ? ? ? ? [= <- <- <-]; reflexivity : keeps.

Lemma idle_loop_run w a w' o :
  runUntilIdle_loop w = Ok (a, w', o) -> existsb is_run o = true -> pc w' = PUser.
Proof.
  unfold runUntilIdle_loop. unfold mbind at 1, M_bind at 1.
  destruct (get_locked w) as [[[v w1] o1]| |] eqn:E; [|done|done]. apply get_locked_inv in E as (-> & -> & ->).
  set (m := match fibers (work_ w) with [] => _ | _ => _ end).
  destruct (m w) as [[[b w2] o2]| |] eqn:Em; [|done|done]. intros [= <- <- <-] Hrun. simpl in Hrun.
  assert (respects no_run m -> pc w2 = PUser) as Hno.
  { intros Hm. apply Hm in Em. unfold no_run in Em. congruence. }
  subst m. destruct (fibers (work_ w)) as [|f fs]; [destruct (tasks (work_ w)) as [|t ts]|].
  - apply Hno. keeps_tac.
  - eapply bind_ends; [|exact Em]. intros ?. do 4 (apply bind_ends; intros ?). by intros w0 b0 w0' o0 [= <- <- <-].
  - apply Hno. keeps_tac.
Qed.

Lemma exec_run_pc e w w' o :
  exec e w = Some (Ok (w', o)) -> existsb is_run o = true -> pc w' = PUser.
Proof.
  unfold exec. destruct (code e w) as [m|] eqn:Hc; [|done]. intros [= H] Hrun.
  destruct (m w) as [[[a w1] o1]| |] eqn:Hm; simplify_eq/=.
  assert (respects no_run m -> pc w' = PUser) as Hno.
  { intros Hr. apply Hr in Hm. unfold no_run in Hm. congruence. }
  destruct (external e) eqn:He.
  - apply Hno. rewrite code_external in Hc by done. destruct e; try done; simpl in Hc.
    + destruct (mutex (work_ w)); [done|]. simplify_eq. auto with keeps.
    + destruct (negb _ && _); [|done]. simplify_eq. unfold enqueue_task, enqueueAndUnlock. keeps_tac.
    + simplify_eq. unfold steal. keeps_tac.
    + simplify_eq. auto with keeps.
  - unfold code in Hc. destruct (pc w), e; try done; try case_bool_decide; try done; simplify_eq;
      try (by eapply idle_loop_run);
      apply Hno; unfold spin_stole, thread_end, stop_single_end; keeps_tac.
Qed.
End no_run.
