(* ===== verification/WorkerLogic.v ===== *)
(** Weakest preconditions for the worker monad, with the rules of its
    primitives: the fragments of Worker.v are verified by running them
    symbolically, [wp_run], against a postcondition on the final state. *)
From stdpp Require Import base numbers strings sets gmap list.
From S2P Require Import Prelude Task WaitingFibers Worker.

(** [m] run in [w] ends without an error, and what it yields satisfies [Q]. *)
Definition wp {A} (m : M A) (w : Worker) (Q : A -> Worker -> list Out -> Prop) : Prop :=
  match m w with
  | Ok (a, w', o) => Q a w' o
  | _ => False
  end.

Lemma wp_exec {A} (m : M A) w Q :
  wp m w Q -> exists a w' o, m w = Ok (a, w', o) /\ Q a w' o.
Proof. unfold wp. destruct (m w) as [[[a w'] o]| |]; [eauto|done|done]. Qed.

Lemma wp_bind {A B} (m : M A) (k : A -> M B) w Q :
  wp m w (fun a w1 o1 => wp (k a) w1 (fun b w2 o2 => Q b w2 (o1 ++ o2))) ->
  wp (m ≫= k) w Q.
Proof.
  unfold wp, mbind, M_bind. destruct (m w) as [[[a w1] o1]| |]; [|done|done].
  by destruct (k a w1) as [[[b w2] o2]| |].
Qed.

Lemma wp_mono {A} (m : M A) w (P Q : A -> Worker -> list Out -> Prop) :
  wp m w P -> (forall a w' o, P a w' o -> Q a w' o) -> wp m w Q.
Proof. unfold wp. destruct (m w) as [[[a w'] o]| |]; auto. Qed.

Lemma wp_ret {A} (a : A) w Q : Q a w [] -> wp (mret a) w Q.
Proof. done. Qed.

Lemma wp_get w Q : Q w w [] -> wp get w Q.
Proof. done. Qed.

Lemma wp_modify f w Q : Q () (f w) [] -> wp (modify f) w Q.
Proof. done. Qed.

Lemma wp_guard w Q : mutex (work_ w) = true -> Q () w [] -> wp guard w Q.
Proof. intros Hm HQ. apply wp_bind, wp_get. cbn beta. by rewrite Hm. Qed.

Lemma wp_work g w Q : mutex (work_ w) = true -> Q () (upd_work g w) [] -> wp (work g) w Q.
Proof. intros Hm HQ. by apply wp_bind, wp_guard. Qed.

Lemma wp_get_locked w Q : mutex (work_ w) = true -> Q w w [] -> wp get_locked w Q.
Proof. intros Hm HQ. by apply wp_bind, wp_guard. Qed.

Lemma get_locked_bind {B} (k : Worker -> M B) w : mutex (work_ w) = true -> (get_locked ≫= k) w = k w w.
Proof.
  intros Hm. unfold get_locked, guard, mbind, M_bind, get. rewrite Hm. simpl. by destruct (k w w) as [[[]]| |].
Qed.

Lemma wp_emit o w Q : Q () w [o] -> wp (emit o) w Q.
Proof. done. Qed.

Lemma wp_lift {A} (r : Result A) a w Q : r = Ok a -> Q a w [] -> wp (lift r) w Q.
Proof. by intros ->. Qed.

Lemma wp_assert c msg w Q : c = true -> Q () w [] -> wp (assert c msg) w Q.
Proof. by intros ->. Qed.

Lemma wp_the_fiber f b w Q : heap w !! f = Some b -> Q b w [] -> wp (the_fiber f) w Q.
Proof. intros Hf HQ. unfold the_fiber. apply wp_bind, wp_get. by rewrite Hf. Qed.

Lemma wp_put_fiber f b w Q : Q () (upd_heap <[f := b]> w) [] -> wp (put_fiber f b) w Q.
Proof. done. Qed.

Lemma wp_assert_fiber_state f s b w Q :
  mutex (work_ w) = true -> heap w !! f = Some b -> state_ b = s -> Q () w [] -> wp (assert_fiber_state f s) w Q.
Proof.
  intros Hm Hf Hs HQ. apply wp_bind, wp_guard; [done|]. eapply wp_bind, wp_the_fiber; [done|]. cbn beta.
  apply wp_assert; [by apply bool_decide_eq_true|done].
Qed.

Lemma wp_setFiberState f to b w Q :
  mutex (work_ w) = true -> heap w !! f = Some b -> Q () (upd_heap <[f := set_fiber_state to b]> w) [] ->
  wp (setFiberState f to) w Q.
Proof. intros Hm Hf HQ. apply wp_bind, wp_guard; [done|]. by eapply wp_bind, wp_the_fiber. Qed.

Lemma wp_changeFiberState f from to b w Q :
  mutex (work_ w) = true -> heap w !! f = Some b -> state_ b = from ->
  Q () (upd_heap <[f := set_fiber_state to b]> w) [] ->
  wp (changeFiberState f from to) w Q.
Proof.
  intros Hm Hf Hs HQ. apply wp_bind, wp_guard; [done|]. eapply wp_bind, wp_the_fiber; [done|]. cbn beta.
  apply wp_bind, wp_assert; [by apply bool_decide_eq_true|done].
Qed.

Lemma wp_push_frame k b w Q :
  heap w !! current_fiber_ w = Some b ->
  Q () (upd_heap <[current_fiber_ w := mkFiber (id_ b) (state_ b) (k :: impl_ b)]> w) [] ->
  wp (push_frame k) w Q.
Proof. intros Hb HQ. apply wp_bind, wp_get. by eapply wp_bind, wp_the_fiber. Qed.

Lemma wp_pop_frame k s b w Q :
  heap w !! current_fiber_ w = Some b -> impl_ b = k :: s ->
  Q k (upd_heap <[current_fiber_ w := mkFiber (id_ b) (state_ b) s]> w) [] ->
  wp pop_frame w Q.
Proof.
  intros Hb Hs HQ. apply wp_bind, wp_get. eapply wp_bind, wp_the_fiber; [done|].
  cbn beta. by rewrite Hs.
Qed.

Lemma wp_lock_mutex w Q :
  mutex (work_ w) = false -> Q () (upd_work (set_mutex true) w) [] -> wp lock_mutex w Q.
Proof. intros Hm HQ. apply wp_bind, wp_get. cbn beta. by rewrite Hm. Qed.

Lemma wp_unlock_mutex w Q :
  mutex (work_ w) = true -> Q () (upd_work (set_mutex false) w) [] -> wp unlock_mutex w Q.
Proof. intros Hm HQ. apply wp_bind, wp_get. cbn beta. by rewrite Hm. Qed.

(** One rule of the calculus, chosen by the head of the program. *)
Ltac wp_rule :=
  lazymatch goal with
  | |- wp (mbind _ _) _ _ => apply wp_bind
  | |- wp (mret _) _ _ => apply wp_ret
  | |- wp pass _ _ => apply wp_ret
  | |- wp (take_front (_ :: _)) _ _ => apply wp_ret
  | |- wp get _ _ => apply wp_get
  | |- wp (modify _) _ _ => apply wp_modify
  | |- wp guard _ _ => apply wp_guard; [try done|]
  | |- wp (work _) _ _ => apply wp_work; [try done|]
  | |- wp get_locked _ _ => apply wp_get_locked; [try done|]
  | |- wp (atomic _) _ _ => apply wp_modify
  | |- wp (goto _) _ _ => apply wp_modify
  | |- wp (emit _) _ _ => apply wp_emit
  | |- wp (lift _) _ _ => eapply wp_lift; [solve [eassumption | reflexivity]|]
  | |- wp (assert _ _) _ _ => apply wp_assert; [try (apply bool_decide_eq_true; try done)|]
  | |- wp (the_fiber _) _ _ => eapply wp_the_fiber; [by simplify_map_eq|]
  | |- wp (put_fiber _ _) _ _ => apply wp_put_fiber
  | |- wp (assert_fiber_state _ _) _ _ =>
      eapply wp_assert_fiber_state; [try done|by simplify_map_eq|try done|]
  | |- wp (setFiberState _ _) _ _ => eapply wp_setFiberState; [try done|by simplify_map_eq|]
  | |- wp (changeFiberState _ _ _) _ _ =>
      eapply wp_changeFiberState; [try done|by simplify_map_eq|try done|]
  | |- wp (push_frame _) _ _ => eapply wp_push_frame; [by simplify_map_eq|]
  | |- wp pop_frame _ _ => eapply wp_pop_frame; [by simplify_map_eq|try done|]
  | |- wp lock_mutex _ _ => apply wp_lock_mutex; [try done|]
  | |- wp unlock_mutex _ _ => apply wp_unlock_mutex; [try done|]
  end; cbn beta.

(** Runs the straight-line part of a fragment. *)
Ltac wp_run := repeat (wp_rule; cbn [fst snd] in * ).
