(* ===== verification/WorkerInv.v ===== *)
(** The invariant of a worker, and that every event preserves it without
    tripping an assertion or undefined behaviour.

    The comments of [Fiber::State] in src/include/marl/scheduler.hpp say where
    a fiber in each state is kept; [Core] states this as an equivalence for
    each state, together with the two counters of [Work].  The shape of the
    fibers' stacks ([at_run], ..., [at_user]) is the call structure of
    src/src/scheduler.cpp. *)
From stdpp Require Import base numbers strings sets gmap list.
From S2P Require Import Prelude Task WaitingFibers Worker WorkerLogic.

(** ** Call stacks *)
Section stacks.
Context (main : FiberPtr) (mode : Mode) (f : FiberPtr).

(** The stack of [f] below the code of [run()]. *)
Inductive at_run : list Frame -> Prop :=
| at_run_main : f = main -> mode = MultiThreaded -> at_run [KThread]
| at_run_fiber : f <> main -> at_run [].

Inductive at_shutdown : list Frame -> Prop :=
| at_shutdown_run s : at_run s -> at_shutdown (KRunShutdown :: s)
| at_shutdown_stop : f = main -> mode = SingleThreaded -> at_shutdown [KStop].

Inductive at_idle : list Frame -> Prop :=
| at_idle_intro s : at_shutdown s -> at_idle (KShutdownIdle :: s).

(** Below the code of a task, or of the thread a SingleThreaded worker is
    bound to. *)
Inductive at_user : list Frame -> Prop :=
| at_user_task s : at_idle s -> at_user (KIdleTask :: s)
| at_user_bound : f = main -> mode = SingleThreaded -> at_user [].

Inductive at_suspend : list Frame -> Prop :=
| at_suspend_wait t s : at_user s -> at_suspend (KWait t :: s)
| at_suspend_pred t s : at_user s -> at_suspend (KWaitPred t :: s).

(** The states of a fiber inside [suspend()]. *)
Definition parked (st : State) : Prop := st = Yielded \/ st = Waiting \/ st = Queued.

Inductive at_wait : list Frame -> State -> Prop :=
| at_wait_shutdown s : at_shutdown s -> at_wait (KShutdownWait :: s) Running
| at_wait_suspend s st : at_suspend s -> parked st -> at_wait (KSuspendWait :: s) st.

Inductive at_cv : WaitFor -> list Frame -> State -> Prop :=
| at_cv_run s : at_run s -> at_cv ForRun (KRunWait :: s) Running
| at_cv_work s st : at_wait s st -> at_cv ForWork (KWorkWait :: s) st.

(** The running fiber at each place of the code. *)
Definition running_at (p : Pc) (s : list Frame) (st : State) : Prop :=
  match p with
  | PUser | PWaitEnd _ | PWaitPredEnd _ | PWaitRelock _ => at_user s /\ st = Running
  | PThreadStart | PRun | PRunBody | PRunEnd => at_run s /\ st = Running
  | PShutdownLoop => at_shutdown s /\ st = Running
  | PWaitForWork | PSpin | PSpun | PWorkWait | PWorkDone => at_wait s st
  | PCvEnter p | PCvBlocked p _ => at_cv p s st
  | PIdle | PIdleLoop => at_idle s /\ st = Running
  | PSuspend _ => at_suspend s /\ st = Running
  | PSuspendPick => at_suspend s /\ parked st
  | PThreadEnd | PStopEnd => s = [] /\ f = main /\ st = Running
  | PExited => False
  end.

(** A fiber that is not running. *)
Inductive switched_out : list Frame -> State -> Prop :=
| out_suspend s st : at_suspend s -> parked st -> switched_out (KSuspendSwitch :: s) st
| out_idle s : at_idle s -> switched_out (KIdleSwitch :: s) Idle.
End stacks.

Create HintDb stacks discriminated.
#[export] Hint Constructors at_run at_shutdown at_idle at_user at_suspend at_wait at_cv
  switched_out : stacks.
#[export] Hint Unfold parked : stacks.

(** The places where the worker's thread holds [work_.mutex]. *)
Definition holds_mutex (p : Pc) : bool :=
  match p with
  | PUser | PThreadStart | PSpin | PSpun | PCvBlocked _ _ | PWaitRelock _ | PExited => false
  | _ => true
  end.

(** The worker sleeps on the condition variable [added]. *)
Definition sleeping (p : Pc) : bool :=
  match p with PCvBlocked _ _ => true | _ => false end.

(** ** Counting the fibers blocked in [suspend()] *)
Definition in_suspend_switch (s : list Frame) : bool :=
  match s with KSuspendSwitch :: _ => true | _ => false end.

Definition is_blocked (b : Fiber) : bool := in_suspend_switch (impl_ b).

Definition blocked_fibers (h : gmap FiberPtr Fiber) : gmap FiberPtr Fiber :=
  filter (fun kv => is_blocked kv.2 = true) h.

Definition nblocked (h : gmap FiberPtr Fiber) : Z := Z.of_nat (size (blocked_fibers h)).

Definition blocked_unit (o : option Fiber) : Z :=
  match o with Some b => if is_blocked b then 1 else 0 | None => 0 end.

Lemma nblocked_insert f b h :
  nblocked (<[f := b]> h) = (nblocked h - blocked_unit (h !! f) + blocked_unit (Some b))%Z.
Proof.
  unfold nblocked, blocked_fibers. rewrite map_filter_insert.
  assert (forall o, h !! f = o ->
    filter (fun kv => is_blocked kv.2 = true) h !! f =
      match o with Some b => if is_blocked b then Some b else None | None => None end) as Hl.
  { intros o Ho. rewrite map_lookup_filter, Ho. destruct o as [c|]; [|done]. simpl.
    destruct (is_blocked c); [by rewrite option_guard_True|by rewrite option_guard_False]. }
  specialize (Hl _ eq_refl). simpl. destruct (h !! f) as [c|] eqn:Hf; simpl.
  - case_decide as Hb.
    + rewrite Hb, map_size_insert, Hl. destruct (is_blocked c); simpl; lia.
    + apply not_true_is_false in Hb. rewrite Hb, map_filter_delete, map_size_delete, Hl.
      destruct (is_blocked c) eqn:Hc; simpl; [|lia].
      assert (size (filter (fun kv => is_blocked kv.2 = true) h) <> 0); [|lia].
      intros Hz%map_size_empty_inv. by rewrite Hz in Hl.
  - case_decide as Hb.
    + rewrite Hb, map_size_insert, Hl. simpl. lia.
    + apply not_true_is_false in Hb. rewrite Hb, map_filter_delete, map_size_delete, Hl.
      simpl. lia.
Qed.

Lemma nblocked_zero h f b : nblocked h = 0%Z -> h !! f = Some b -> is_blocked b = false.
Proof.
  unfold nblocked. intros Hz Hf. apply not_true_iff_false. intros Hb.
  assert (blocked_fibers h = ∅) as He by (apply map_size_empty_inv; lia).
  assert (blocked_fibers h !! f = Some b) as Hl
    by (apply map_lookup_filter_Some; auto).
  by rewrite He in Hl.
Qed.

(** ** The invariant *)
Record Core (w : Worker) : Prop := {
  core_addr : forall f b, heap w !! f = Some b -> (0 < f < 2 ^ 62)%Z;
  core_main : is_Some (heap w !! main_fiber_ w);
  core_num : num (work_ w) = u64 (zlen (fibers (work_ w)) + zlen (tasks (work_ w)));
  core_tasks : (zlen (tasks (work_ w)) <= max_tasks)%Z;
  core_nodup : NoDup (fibers (work_ w));
  core_queued : forall f, f ∈ fibers (work_ w) <-> fiber_state w f = Some Queued;
  core_waiting_wf : WaitingFibers_wf (waiting (work_ w));
  core_waiting : forall f,
    is_Some (WaitingFibers.fibers (waiting (work_ w)) !! f) <-> fiber_state w f = Some Waiting;
  core_idle : forall f, f ∈ idle_fibers_ w <-> fiber_state w f = Some Idle;
  core_blocked : num_blocked_fibers (work_ w) = u64 (nblocked (heap w))
}.

(** Nothing is left to run. *)
Definition quiescent (w : Worker) : Prop :=
  fibers (work_ w) = [] /\ tasks (work_ w) = [] /\ nblocked (heap w) = 0%Z /\ shutdown w = true.

Definition ending (p : Pc) : Prop := p = PRunEnd \/ p = PThreadEnd \/ p = PStopEnd.

Record Inv (w : Worker) : Prop := {
  inv_core :> Core w;
  inv_mutex : mutex (work_ w) = holds_mutex (pc w);
  inv_notify : sleeping (pc w) = true -> notify_added (work_ w) = true;
  inv_current : exists b, heap w !! current_fiber_ w = Some b /\
    running_at (main_fiber_ w) (mode_ w) (current_fiber_ w) (pc w) (impl_ b) (state_ b);
  inv_others : forall f b, f <> current_fiber_ w -> heap w !! f = Some b ->
    switched_out (main_fiber_ w) (mode_ w) f (impl_ b) (state_ b);
  inv_ending : ending (pc w) -> quiescent w
}.

(** The fibers of a worker that is at its end: the main fiber runs and is still in
    the set of idle fibers, the others have run out or are idle. *)
Record Drained (w : Worker) : Prop := {
  drained_idle f : f <> main_fiber_ w -> f ∈ idle_fibers_ w <-> fiber_state w f = Some Idle;
  drained_states f b : heap w !! f = Some b -> state_ b = Idle \/ state_ b = Running;
  drained_waiting f : WaitingFibers.fibers (waiting (work_ w)) !! f = None;
  drained_main : main_fiber_ w ∈ idle_fibers_ w
}.

Lemma drained_run w w' b :
  Drained w -> main_fiber_ w' = main_fiber_ w -> heap w' = <[main_fiber_ w := b]> (heap w) -> state_ b = Running ->
  idle_fibers_ w' = idle_fibers_ w -> waiting (work_ w') = waiting (work_ w) -> Drained w'.
Proof.
  intros [H1 H2 H3 H4] Em Eh Hb Ei Ew. split; rewrite ?Em, ?Eh, ?Ei, ?Ew; try done.
  - intros f Hf. unfold fiber_state. rewrite Eh, lookup_insert_ne by done. by apply H1.
  - intros f c [[<- <-]|[_ Hc]]%lookup_insert_Some; [by right|by eapply H2].
Qed.

(** The end of a worker whose last fiber was not the main one: the main fiber,
    parked in [runUntilIdle], is switched to and returns from there. *)
Record Draining (w : Worker) : Prop := {
  drain_quiescent : quiescent w;
  drain_num : num (work_ w) = 0%Z;
  drain_blocked : num_blocked_fibers (work_ w) = 0%Z;
  drain_mutex : mutex (work_ w) = true;
  drain_current : current_fiber_ w = main_fiber_ w;
  drain_pc : pc w = PIdleLoop \/ pc w = PShutdownLoop \/ ending (pc w);
  drain_main : exists b, heap w !! main_fiber_ w = Some b /\
    running_at (main_fiber_ w) (mode_ w) (main_fiber_ w) (pc w) (impl_ b) (state_ b);
  drain_places : Drained w
}.

Definition Exited (w : Worker) : Prop := pc w = PExited /\ mutex (work_ w) = false.

Definition Good (w : Worker) : Prop := Inv w \/ Draining w \/ Exited w.

(** ** Consequences of the invariant *)
Lemma fiber_state_Some w f s :
  fiber_state w f = Some s <-> exists b, heap w !! f = Some b /\ state_ b = s.
Proof. unfold fiber_state. rewrite fmap_Some. naive_solver. Qed.

Lemma heap_size_bound h :
  (forall f (b : Fiber), h !! f = Some b -> 0 < f < 2 ^ 62)%Z ->
  (Z.of_nat (size (h : gmap FiberPtr Fiber)) < 2 ^ 62)%Z.
Proof.
  intros Ha.
  assert (Z.of_nat (length (map_to_list h).*1) < Z.max (2 ^ 62) 1)%Z as Hb.
  { apply NoDup_range_length; [apply NoDup_fst_map_to_list|].
    intros f ([f' b] & -> & Hfb)%list_elem_of_fmap. by eapply Ha, elem_of_map_to_list. }
  rewrite length_fmap, length_map_to_list in Hb. lia.
Qed.

Lemma core_nblocked_bound w : Core w -> (0 <= nblocked (heap w) < 2 ^ 62)%Z.
Proof.
  intros Hc. unfold nblocked, blocked_fibers.
  assert (size (filter (fun kv => is_blocked kv.2 = true) (heap w)) <= size (heap w)).
  { apply map_subseteq_size, map_filter_subseteq. }
  pose proof (heap_size_bound (heap w) (core_addr w Hc)). lia.
Qed.

Lemma core_fibers_bound w : Core w -> (zlen (fibers (work_ w)) < 2 ^ 62)%Z.
Proof.
  intros Hc.
  assert (zlen (fibers (work_ w)) < Z.max (2 ^ 62) 1)%Z; [|lia].
  apply NoDup_range_length; [apply Hc|]. intros f Hf%(core_queued w Hc).
  apply fiber_state_Some in Hf as (b & Hb & _). by eapply core_addr.
Qed.

(** The counters are exact: no wrap-around is visible. *)
Lemma core_num_exact w :
  Core w -> num (work_ w) = (zlen (fibers (work_ w)) + zlen (tasks (work_ w)))%Z.
Proof.
  intros Hc. rewrite (core_num w Hc). apply u64_small.
  pose proof (core_fibers_bound w Hc). pose proof (core_tasks w Hc).
  assert (max_tasks < 2 ^ 62)%Z by (vm_compute; done). lia.
Qed.

Lemma core_blocked_exact w : Core w -> num_blocked_fibers (work_ w) = nblocked (heap w).
Proof.
  intros Hc. rewrite (core_blocked w Hc). apply u64_small.
  pose proof (core_nblocked_bound w Hc). lia.
Qed.

(** ** How the invariant of the data changes with one fiber

    Every operation changes one fiber at a time and moves it between the
    containers accordingly: the invariant after such a change. *)
Definition moved (P P' : FiberPtr -> Prop) (f : FiberPtr) (here : Prop) : Prop :=
  forall g, P' g <-> (g <> f /\ P g) \/ (g = f /\ here).

Lemma core_update w w' f b :
  Core w ->
  (0 < f < 2 ^ 62)%Z ->
  main_fiber_ w' = main_fiber_ w ->
  heap w' = <[f := b]> (heap w) ->
  num (work_ w') = u64 (zlen (fibers (work_ w')) + zlen (tasks (work_ w'))) ->
  (zlen (tasks (work_ w')) <= max_tasks)%Z ->
  NoDup (fibers (work_ w')) ->
  moved (fun g => g ∈ fibers (work_ w)) (fun g => g ∈ fibers (work_ w')) f (state_ b = Queued) ->
  WaitingFibers_wf (waiting (work_ w')) ->
  moved (fun g => is_Some (WaitingFibers.fibers (waiting (work_ w)) !! g))
        (fun g => is_Some (WaitingFibers.fibers (waiting (work_ w')) !! g))
        f (state_ b = Waiting) ->
  moved (fun g => g ∈ idle_fibers_ w) (fun g => g ∈ idle_fibers_ w') f (state_ b = Idle) ->
  num_blocked_fibers (work_ w') =
    u64 (num_blocked_fibers (work_ w) - blocked_unit (heap w !! f) + blocked_unit (Some b)) ->
  Core w'.
Proof.
  intros Hc Hf Hmain Hheap Hnum Htasks Hnd Hq Hwf Hw Hi Hb.
  assert (forall g s, fiber_state w' g = Some s <->
    (g <> f /\ fiber_state w g = Some s) \/ (g = f /\ state_ b = s)) as Hst.
  { intros g s. unfold fiber_state. rewrite Hheap.
    destruct (decide (g = f)) as [->|Hne].
    - rewrite lookup_insert_eq. simpl. naive_solver.
    - rewrite lookup_insert_ne by done. naive_solver. }
  split.
  - intros g c. rewrite Hheap. intros [[<- _]|[_ Hg]]%lookup_insert_Some; [done|].
    by eapply core_addr.
  - rewrite Hmain, Hheap. apply lookup_insert_is_Some'. right. apply Hc.
  - done.
  - done.
  - done.
  - intros g. rewrite (Hq g), Hst, (core_queued w Hc). done.
  - done.
  - intros g. rewrite (Hw g), Hst, (core_waiting w Hc). done.
  - intros g. rewrite (Hi g), Hst, (core_idle w Hc). done.
  - rewrite Hb, Hheap, nblocked_insert, (core_blocked w Hc). unfold Z.sub at 1.
    rewrite <- Z.add_assoc. autorewrite with width. f_equal. lia.
Qed.

Lemma moved_id (P : FiberPtr -> Prop) f (here : Prop) : (P f <-> here) -> moved P P f here.
Proof. intros H g. destruct (decide (g = f)) as [->|]; naive_solver. Qed.

Lemma core_state_iff w f b :
  Core w -> heap w !! f = Some b ->
  (f ∈ fibers (work_ w) <-> state_ b = Queued) /\
  (is_Some (WaitingFibers.fibers (waiting (work_ w)) !! f) <-> state_ b = Waiting) /\
  (f ∈ idle_fibers_ w <-> state_ b = Idle).
Proof.
  intros Hc Hb.
  rewrite (core_queued w Hc), (core_waiting w Hc), (core_idle w Hc).
  unfold fiber_state. rewrite Hb. simpl. by rewrite !(inj_iff Some).
Qed.

(** The data of [w'] is that of [w]; control, mutex and [notify_added] may
    differ. *)
Definition same_data (w w' : Worker) : Prop :=
  (main_fiber_ w', mode_ w', idle_fibers_ w', num (work_ w'), num_blocked_fibers (work_ w'),
   tasks (work_ w'), fibers (work_ w'), waiting (work_ w')) =
  (main_fiber_ w, mode_ w, idle_fibers_ w, num (work_ w), num_blocked_fibers (work_ w),
   tasks (work_ w), fibers (work_ w), waiting (work_ w)).

Lemma same_data_inv w w' :
  same_data w w' ->
  main_fiber_ w' = main_fiber_ w /\ mode_ w' = mode_ w /\ idle_fibers_ w' = idle_fibers_ w /\
  num (work_ w') = num (work_ w) /\
  num_blocked_fibers (work_ w') = num_blocked_fibers (work_ w) /\
  tasks (work_ w') = tasks (work_ w) /\ fibers (work_ w') = fibers (work_ w) /\
  waiting (work_ w') = waiting (work_ w).
Proof. unfold same_data. intros [=]. by split_and!. Qed.

Lemma core_same w w' : Core w -> same_data w w' -> heap w' = heap w -> Core w'.
Proof.
  intros Hc Hsame Hh. destruct (same_data_inv _ _ Hsame) as (E1&E2&E3&E4&E5&E6&E7&E8).
  split; unfold fiber_state; rewrite ?Hh, ?E1, ?E2, ?E3, ?E4, ?E5, ?E6, ?E7, ?E8; apply Hc.
Qed.

(** A change of the stack of one fiber. *)
Lemma core_frames w w' f b b' :
  Core w -> same_data w w' -> heap w !! f = Some b -> heap w' = <[f := b']> (heap w) ->
  state_ b' = state_ b -> is_blocked b' = is_blocked b -> Core w'.
Proof.
  intros Hc Hsame Hb Hh Hs Hbl.
  destruct (same_data_inv _ _ Hsame) as (E1&E2&E3&E4&E5&E6&E7&E8).
  destruct (core_state_iff w f b Hc Hb) as (Hq & Hw & Hi).
  eapply (core_update w w' f b'); try done; rewrite ?E4, ?E5, ?E6, ?E7, ?E8, ?E3;
    try apply Hc; try (apply moved_id; by rewrite Hs).
  - by eapply core_addr.
  - rewrite Hb. unfold blocked_unit. rewrite Hbl, Z.sub_add, (core_blocked w Hc).
    symmetry. apply u64_small, u64_range.
Qed.

(** The rest of the data, when only some of it changes. *)
Definition same_queues (w w' : Worker) : Prop :=
  main_fiber_ w' = main_fiber_ w /\ num (work_ w') = num (work_ w) /\
  tasks (work_ w') = tasks (work_ w) /\ fibers (work_ w') = fibers (work_ w).

(** The running fiber enters [suspend()]. *)
Lemma core_suspend w w' f b st :
  Core w -> heap w !! f = Some b -> state_ b = Running -> st = Yielded \/ st = Waiting ->
  heap w' = <[f := set_fiber_state st b]> (heap w) ->
  same_queues w w' -> idle_fibers_ w' = idle_fibers_ w ->
  num_blocked_fibers (work_ w') = num_blocked_fibers (work_ w) ->
  WaitingFibers_wf (waiting (work_ w')) ->
  moved (fun g => is_Some (WaitingFibers.fibers (waiting (work_ w)) !! g))
        (fun g => is_Some (WaitingFibers.fibers (waiting (work_ w')) !! g)) f (st = Waiting) ->
  Core w'.
Proof.
  intros Hc Hb Hs Hst Hh (E1 & E2 & E3 & E4) E5 E6 Hwf Hw.
  destruct (core_state_iff w f b Hc Hb) as (Hq & _ & Hi). rewrite Hs in Hq, Hi.
  eapply (core_update w w' f); try done; rewrite ?E1, ?E2, ?E3, ?E4, ?E5, ?E6;
    try apply Hc; try (apply moved_id; simpl; naive_solver).
  - by eapply core_addr.
  - rewrite Hb. simpl. change (is_blocked (set_fiber_state st b)) with (is_blocked b).
    rewrite Z.sub_add, (core_blocked w Hc). symmetry. apply u64_small, u64_range.
Qed.

(** The running fiber is about to be switched out of [suspend()]. *)
Lemma core_block w w' f b :
  Core w -> heap w !! f = Some b -> is_blocked b = false ->
  heap w' = <[f := mkFiber (id_ b) (state_ b) (KSuspendSwitch :: impl_ b)]> (heap w) ->
  same_queues w w' -> idle_fibers_ w' = idle_fibers_ w ->
  waiting (work_ w') = waiting (work_ w) ->
  num_blocked_fibers (work_ w') = u64 (num_blocked_fibers (work_ w) + 1) ->
  Core w'.
Proof.
  intros Hc Hb Hbl Hh (E1 & E2 & E3 & E4) E5 E6 E7.
  destruct (core_state_iff w f b Hc Hb) as (Hq & Hw & Hi).
  eapply (core_update w w' f); try done; rewrite ?E1, ?E2, ?E3, ?E4, ?E5, ?E6;
    try apply Hc; try (apply moved_id; done).
  - by eapply core_addr.
  - rewrite E7, Hb. simpl. rewrite Hbl. f_equal. lia.
Qed.

(** A suspended fiber is queued to run. *)
Lemma core_queue w w' f b :
  Core w -> heap w !! f = Some b -> state_ b = Yielded \/ state_ b = Waiting ->
  heap w' = <[f := set_fiber_state Queued b]> (heap w) ->
  main_fiber_ w' = main_fiber_ w -> tasks (work_ w') = tasks (work_ w) ->
  num (work_ w') = u64 (num (work_ w) + 1) ->
  fibers (work_ w') = fibers (work_ w) ++ [f] ->
  idle_fibers_ w' = idle_fibers_ w ->
  num_blocked_fibers (work_ w') = num_blocked_fibers (work_ w) ->
  WaitingFibers_wf (waiting (work_ w')) ->
  WaitingFibers.fibers (waiting (work_ w')) =
    delete f (WaitingFibers.fibers (waiting (work_ w))) ->
  Core w'.
Proof.
  intros Hc Hb Hs Hh E1 E2 E3 E4 E5 E6 Hwf Hw.
  destruct (core_state_iff w f b Hc Hb) as (Hq & _ & Hi).
  assert (f ∉ fibers (work_ w)) as Hnin by (rewrite Hq; destruct Hs as [-> | ->]; done).
  eapply (core_update w w' f); try done; rewrite ?E1, ?E2, ?E3, ?E4, ?E5, ?E6;
    try apply Hc.
  - by eapply core_addr.
  - rewrite (core_num w Hc), length_app. autorewrite with width. f_equal. simpl. lia.
  - apply NoDup_app. split; [apply Hc|]. split; [|apply NoDup_singleton].
    intros g Hg ->%list_elem_of_singleton. done.
  - intros g. rewrite elem_of_app, list_elem_of_singleton. simpl.
    destruct (decide (g = f)) as [->|]; naive_solver.
  - intros g. rewrite Hw, lookup_delete_is_Some. simpl.
    split; [intros [??]; by left|intros [[??]|[??]]; done].
  - apply moved_id. rewrite Hi. simpl. destruct Hs as [-> | ->]; done.
  - rewrite Hb. simpl. change (is_blocked (set_fiber_state Queued b)) with (is_blocked b).
    rewrite Z.sub_add, (core_blocked w Hc). symmetry. apply u64_small, u64_range.
Qed.

(** A queued fiber is taken from the queue and runs again. *)
Lemma core_dequeue w w' f fs b b' :
  Core w -> fibers (work_ w) = f :: fs -> heap w !! f = Some b ->
  is_blocked b = true -> state_ b' = Running -> is_blocked b' = false ->
  heap w' = <[f := b']> (heap w) ->
  main_fiber_ w' = main_fiber_ w -> tasks (work_ w') = tasks (work_ w) ->
  num (work_ w') = u64 (num (work_ w) - 1) ->
  fibers (work_ w') = fs ->
  idle_fibers_ w' = idle_fibers_ w -> waiting (work_ w') = waiting (work_ w) ->
  num_blocked_fibers (work_ w') = u64 (num_blocked_fibers (work_ w) - 1) ->
  Core w'.
Proof.
  intros Hc Hfs Hb Hbl Hs' Hbl' Hh E1 E2 E3 E4 E5 E6 E7.
  destruct (core_state_iff w f b Hc Hb) as (Hq & Hw & Hi).
  pose proof (core_nodup w Hc) as Hnd. pose proof (core_num w Hc) as Hnum.
  rewrite Hfs in Hnd, Hq, Hnum. apply NoDup_cons in Hnd as [Hnin Hnd].
  assert (state_ b = Queued) as Hs by (apply Hq; left). rewrite Hs in Hw, Hi.
  eapply (core_update w w' f); try done; rewrite ?E1, ?E2, ?E3, ?E4, ?E5, ?E6, ?Hs';
    try apply Hc; try (apply moved_id; naive_solver).
  - by eapply core_addr.
  - rewrite Hnum. autorewrite with width. f_equal. simpl. lia.
  - done.
  - intros g. rewrite Hfs, elem_of_cons. destruct (decide (g = f)) as [->|]; naive_solver.
  - rewrite E7, Hb. unfold blocked_unit. rewrite Hbl, Hbl'. f_equal. lia.
Qed.

(** The running fiber is parked in [runUntilIdle()]. *)
Lemma core_park w w' f b b' :
  Core w -> heap w !! f = Some b -> state_ b = Running -> is_blocked b = false ->
  state_ b' = Idle -> is_blocked b' = false ->
  heap w' = <[f := b']> (heap w) ->
  same_queues w w' -> idle_fibers_ w' = {[f]} ∪ idle_fibers_ w ->
  waiting (work_ w') = waiting (work_ w) ->
  num_blocked_fibers (work_ w') = num_blocked_fibers (work_ w) ->
  Core w'.
Proof.
  intros Hc Hb Hs Hbl Hs' Hbl' Hh (E1 & E2 & E3 & E4) E5 E6 E7.
  destruct (core_state_iff w f b Hc Hb) as (Hq & Hw & Hi). rewrite Hs in Hq, Hw, Hi.
  eapply (core_update w w' f); try done; rewrite ?E1, ?E2, ?E3, ?E4, ?E5, ?E6, ?E7, ?Hs';
    try apply Hc; try (apply moved_id; naive_solver).
  - by eapply core_addr.
  - intros g. rewrite elem_of_union, elem_of_singleton.
    destruct (decide (g = f)) as [->|]; naive_solver.
  - rewrite Hb. unfold blocked_unit. rewrite Hbl, Hbl', (core_blocked w Hc).
    symmetry. rewrite Z.sub_0_r, Z.add_0_r. apply u64_small, u64_range.
Qed.

(** A parked fiber is taken from the idle fibers and runs again. *)
Lemma core_unpark w w' f b b' :
  Core w -> heap w !! f = Some b -> state_ b = Idle -> is_blocked b = false ->
  state_ b' = Running -> is_blocked b' = false ->
  heap w' = <[f := b']> (heap w) ->
  same_queues w w' -> idle_fibers_ w' = idle_fibers_ w ∖ {[f]} ->
  waiting (work_ w') = waiting (work_ w) ->
  num_blocked_fibers (work_ w') = num_blocked_fibers (work_ w) ->
  Core w'.
Proof.
  intros Hc Hb Hs Hbl Hs' Hbl' Hh (E1 & E2 & E3 & E4) E5 E6 E7.
  destruct (core_state_iff w f b Hc Hb) as (Hq & Hw & Hi). rewrite Hs in Hq, Hw, Hi.
  eapply (core_update w w' f); try done; rewrite ?E1, ?E2, ?E3, ?E4, ?E5, ?E6, ?E7, ?Hs';
    try apply Hc; try (apply moved_id; naive_solver).
  - by eapply core_addr.
  - intros g. rewrite elem_of_difference, elem_of_singleton.
    destruct (decide (g = f)) as [->|]; naive_solver.
  - rewrite Hb. unfold blocked_unit. rewrite Hbl, Hbl', (core_blocked w Hc).
    symmetry. rewrite Z.sub_0_r, Z.add_0_r. apply u64_small, u64_range.
Qed.

(** A new fiber. *)
Lemma core_new w w' f b :
  Core w -> heap w !! f = None -> (0 < f < 2 ^ 62)%Z ->
  state_ b = Running -> is_blocked b = false ->
  heap w' = <[f := b]> (heap w) ->
  same_data w w' -> Core w'.
Proof.
  intros Hc Hf Haddr Hs Hbl Hh Hsame.
  destruct (same_data_inv _ _ Hsame) as (E1&E2&E3&E4&E5&E6&E7&E8).
  assert (forall s, fiber_state w f = Some s -> False) as Hno.
  { intros s. unfold fiber_state. by rewrite Hf. }
  eapply (core_update w w' f b); try done; rewrite ?E4, ?E5, ?E6, ?E7, ?E8, ?E3, ?Hs;
    try apply Hc.
  - apply moved_id. rewrite (core_queued w Hc). naive_solver.
  - apply moved_id. rewrite (core_waiting w Hc). naive_solver.
  - apply moved_id. rewrite (core_idle w Hc). naive_solver.
  - rewrite Hf. unfold blocked_unit. rewrite Hbl, (core_blocked w Hc).
    symmetry. rewrite Z.sub_0_r, Z.add_0_r. apply u64_small, u64_range.
Qed.

(** A change of the task queue. *)
Lemma core_tasks_update w w' :
  Core w -> main_fiber_ w' = main_fiber_ w -> heap w' = heap w ->
  fibers (work_ w') = fibers (work_ w) -> waiting (work_ w') = waiting (work_ w) ->
  idle_fibers_ w' = idle_fibers_ w ->
  num_blocked_fibers (work_ w') = num_blocked_fibers (work_ w) ->
  (zlen (tasks (work_ w')) <= max_tasks)%Z ->
  num (work_ w') =
    u64 (num (work_ w) + (zlen (tasks (work_ w')) - zlen (tasks (work_ w)))) ->
  Core w'.
Proof.
  intros Hc E1 E2 E3 E4 E5 E6 Hlen Hnum.
  split; unfold fiber_state; rewrite ?E1, ?E2, ?E3, ?E4, ?E5, ?E6; try apply Hc; [|done].
  rewrite Hnum, (core_num w Hc). autorewrite with width. f_equal. lia.
Qed.

(** ** Moves of the running fiber *)
Lemma running_not_blocked main mode f p s st :
  running_at main mode f p s st -> in_suspend_switch s = false.
Proof.
  destruct p; simpl; intros H; try destruct H as [H _]; try (by destruct H); subst; done.
Qed.

(** Every fiber but the running one is switched out. *)
Definition others_out (w : Worker) : Prop :=
  forall f b, f <> current_fiber_ w -> heap w !! f = Some b ->
    switched_out (main_fiber_ w) (mode_ w) f (impl_ b) (state_ b).

(** The running fiber changes its stack and goes to another place; the data
    stays as it is. *)
Lemma inv_build w w' b b' :
  Core w -> others_out w ->
  heap w !! current_fiber_ w = Some b -> is_blocked b = false ->
  same_data w w' -> current_fiber_ w' = current_fiber_ w ->
  heap w' = <[current_fiber_ w := b']> (heap w) -> state_ b' = state_ b ->
  mutex (work_ w') = holds_mutex (pc w') ->
  (sleeping (pc w') = true -> notify_added (work_ w') = true) ->
  running_at (main_fiber_ w) (mode_ w) (current_fiber_ w) (pc w') (impl_ b') (state_ b') ->
  (ending (pc w') -> quiescent w /\ shutdown w' = shutdown w) ->
  Inv w'.
Proof.
  intros Hc Hothers Hb Hbl Hsame Hcur Hh Hs Hm Hno Hrun Hend.
  destruct (same_data_inv _ _ Hsame) as (E1&E2&E3&E4&E5&E6&E7&E8).
  assert (is_blocked b' = false) as Hbl' by (by eapply running_not_blocked).
  split.
  - eapply core_frames; try done. by rewrite Hbl.
  - done.
  - done.
  - exists b'. rewrite Hcur, E1, E2, Hh, lookup_insert_eq. done.
  - intros f c Hf. rewrite Hcur in Hf. rewrite E1, E2, Hh, lookup_insert_ne by done.
    by apply Hothers.
  - intros ((Hq1 & Hq2 & Hq3 & Hq4) & Hsh)%Hend. unfold quiescent.
    rewrite E6, E7, Hh, nblocked_insert, Hb, Hsh. simpl. rewrite Hbl, Hbl'. by rewrite Hq3.
Qed.

Lemma inv_others_out w : Inv w -> others_out w.
Proof. intros HI. exact (inv_others w HI). Qed.

Lemma inv_not_blocked w b :
  Inv w -> heap w !! current_fiber_ w = Some b -> is_blocked b = false.
Proof.
  intros HI Hb. destruct (inv_current w HI) as (b0 & Hb0 & Hrun). simplify_eq.
  by eapply running_not_blocked.
Qed.

Lemma inv_goto w w' :
  Inv w -> same_data w w' -> current_fiber_ w' = current_fiber_ w -> heap w' = heap w ->
  mutex (work_ w') = holds_mutex (pc w') ->
  (sleeping (pc w') = true -> notify_added (work_ w') = true) ->
  (forall s st,
     running_at (main_fiber_ w) (mode_ w) (current_fiber_ w) (pc w) s st ->
     running_at (main_fiber_ w) (mode_ w) (current_fiber_ w) (pc w') s st) ->
  (ending (pc w') -> quiescent w /\ shutdown w' = shutdown w) ->
  Inv w'.
Proof.
  intros HI Hsame Hcur Hh Hm Hno Hrun Hend.
  destruct (inv_current w HI) as (b & Hb & Hr).
  eapply (inv_build w w' b b); try done; eauto using inv_others_out, inv_not_blocked, inv_core.
  by rewrite insert_id.
Qed.

(** ** Returning from a call *)
Definition frame_ok main mode f (k : Frame) (s : list Frame) (st : State) : Prop :=
  match k with
  | KThread | KStop => s = [] /\ f = main /\ st = Running
  | KRunWait | KRunShutdown => at_run main mode f s /\ st = Running
  | KShutdownWait | KShutdownIdle => at_shutdown main mode f s /\ st = Running
  | KWorkWait => at_wait main mode f s st
  | KSuspendWait => at_suspend main mode f s /\ parked st
  | KWait _ | KWaitPred _ => at_user main mode f s /\ st = Running
  | _ => False
  end.

(** The frames whose return ends the worker. *)
Definition last_frame (k : Frame) : Prop := k = KThread \/ k = KStop \/ k = KRunShutdown.

Lemma ret_inv w b k s :
  Core w -> others_out w -> mutex (work_ w) = true ->
  heap w !! current_fiber_ w = Some b -> impl_ b = k :: s -> is_blocked b = false ->
  frame_ok (main_fiber_ w) (mode_ w) (current_fiber_ w) k s (state_ b) ->
  (last_frame k -> quiescent w) ->
  wp ret w (fun _ w' o => Inv w' /\ o = []).
Proof.
  intros Hc Hothers Hm Hb Hk Hbl Hok Hlast. unfold ret.
  apply wp_bind. eapply wp_pop_frame; [done|done|]. cbn beta. unfold last_frame in Hlast.
  destruct k; simpl in Hok; try done; wp_run; (split; [|done]).
  all: eapply (inv_build w _ b); [done|done|done|done|done|done| | | | | |]; simpl;
    rewrite ?insert_insert_eq; try reflexivity; try done; unfold ending;
    try (split; naive_solver eauto with stacks); naive_solver eauto with stacks.
Qed.
