(* ===== verification/WorkerSafety.v ===== *)
(** Every fragment of the worker's code preserves the invariant of WorkerInv.v
    and runs without failing an assertion. *)
From stdpp Require Import base numbers strings sets gmap list.
From S2P Require Import Prelude Task WaitingFibers Worker WorkerLogic WorkerInv.

(** Opens the invariant at a known place of the code. *)
Ltac open_inv HI Hpc b Hb Hrun :=
  let H := fresh in
  pose proof (inv_current _ HI) as H; rewrite Hpc in H; simpl in H;
  destruct H as (b & Hb & Hrun);
  let Hm := fresh "Hmutex" in
  pose proof (inv_mutex _ HI) as Hm; rewrite Hpc in Hm; simpl in Hm.

(** Closes a goal [Inv w'] where only the stack of the running fiber and the
    control changed. *)
Ltac close_move w b :=
  eapply (inv_build w _ b);
  [by apply inv_core|by apply inv_others_out|done|by eapply inv_not_blocked|done|done|..];
  simpl; rewrite ?insert_insert_eq; try reflexivity; try done; unfold ending;
  try naive_solver eauto with stacks.

(** The same when not even the stack changed. *)
Ltac close_goto Hpc :=
  eapply inv_goto; simpl; try done; [by rewrite Hpc|unfold ending; naive_solver].

Lemma thread_start_inv w :
  Inv w -> pc w = PThreadStart -> wp thread_start w (fun _ w' _ => Inv w').
Proof.
  intros HI Hpc. open_inv HI Hpc b Hb Hrun. unfold thread_start. wp_run. close_goto Hpc.
Qed.

Lemma run_inv w :
  Inv w -> pc w = PRun -> wp run w (fun _ w' _ => Inv w').
Proof.
  intros HI Hpc. open_inv HI Hpc b Hb Hrun. destruct Hrun as [Hrun Hst].
  unfold run. wp_run. case_bool_decide; wp_run.
  - close_move w b. rewrite Hst. eauto with stacks.
  - close_goto Hpc.
Qed.

Lemma run_body_inv w :
  Inv w -> pc w = PRunBody -> wp run_body w (fun _ w' _ => Inv w').
Proof.
  intros HI Hpc. open_inv HI Hpc b Hb Hrun. destruct Hrun as [Hrun Hst].
  unfold run_body. wp_run. close_move w b.
Qed.

Lemma waitForWork_wait_inv w :
  Inv w -> pc w = PWorkWait -> wp waitForWork_wait w (fun _ w' _ => Inv w').
Proof.
  intros HI Hpc. open_inv HI Hpc b Hb Hrun.
  unfold waitForWork_wait. wp_run. close_move w b.
Qed.

Lemma spin_end_inv w :
  Inv w -> pc w = PSpin \/ pc w = PSpun -> wp spin_end w (fun _ w' _ => Inv w').
Proof.
  intros HI [Hpc|Hpc]; open_inv HI Hpc b Hb Hrun; unfold spin_end; wp_run.
  all: close_goto Hpc.
Qed.

Lemma runUntilIdle_inv w :
  Inv w -> pc w = PIdle -> wp runUntilIdle w (fun _ w' _ => Inv w').
Proof.
  intros HI Hpc. open_inv HI Hpc b Hb Hrun. destruct Hrun as [Hrun Hst].
  unfold runUntilIdle. wp_run; [by apply core_num, HI|].
  close_goto Hpc.
Qed.

Lemma wait_begin_inv timeout w :
  Inv w -> pc w = PUser -> wp (wait_begin timeout) w (fun _ w' _ => Inv w').
Proof.
  intros HI Hpc. open_inv HI Hpc b Hb Hrun. destruct Hrun as [Hrun Hst].
  unfold wait_begin. wp_run. close_move w b.
Qed.

Lemma wait_end_inv timeout now w :
  Inv w -> pc w = PWaitEnd timeout -> wp (wait_end timeout now) w (fun _ w' _ => Inv w').
Proof.
  intros HI Hpc. open_inv HI Hpc b Hb Hrun. unfold wait_end. wp_run.
  close_goto Hpc.
Qed.

Lemma wait_pred_loop_inv timeout pred w :
  Inv w -> pc w = PUser \/ (exists t, pc w = PWaitRelock t) ->
  wp (wait_pred_loop timeout pred) w (fun _ w' _ => Inv w').
Proof.
  intros HI [Hpc|[t Hpc]]; open_inv HI Hpc b Hb Hrun; destruct Hrun as [Hrun Hst];
    unfold wait_pred_loop; (destruct pred; wp_run; [close_goto Hpc|close_move w b]).
Qed.

Lemma wait_pred_suspended_inv timeout w :
  Inv w -> pc w = PWaitPredEnd timeout ->
  wp (wait_pred_suspended timeout) w (fun _ w' _ => Inv w').
Proof.
  intros HI Hpc. open_inv HI Hpc b Hb Hrun. unfold wait_pred_suspended. wp_run.
  close_goto Hpc.
Qed.

Lemma wait_pred_relock_inv timeout now pred w :
  Inv w -> pc w = PWaitRelock timeout ->
  wp (wait_pred_relock timeout now pred) w (fun _ w' _ => Inv w').
Proof.
  intros HI Hpc. open_inv HI Hpc b Hb Hrun. unfold wait_pred_relock. wp_run.
  destruct (not_reached timeout now); simpl; [eapply wp_mono; [apply wait_pred_loop_inv; eauto|done]|].
  wp_run. close_goto Hpc.
Qed.

Lemma task_done_inv w :
  Inv w -> pc w = PUser -> legal TaskDone w -> wp task_done w (fun _ w' _ => Inv w').
Proof.
  intros HI Hpc (k & Hk). open_inv HI Hpc b Hb Hrun. destruct Hrun as [Hrun Hst].
  unfold stack in Hk. rewrite Hb in Hk. rewrite Hk in Hrun. inversion Hrun; subst.
  unfold task_done. wp_run. close_move w b.
Qed.

Lemma stop_single_inv w :
  Inv w -> pc w = PUser -> legal CallStop w -> wp stop_single w (fun _ w' _ => Inv w').
Proof.
  intros HI Hpc (Hmode & Hcur & Hk). open_inv HI Hpc b Hb Hrun. destruct Hrun as [Hrun Hst].
  unfold stack in Hk. rewrite <- Hcur, Hb in Hk.
  unfold stop_single. wp_run. close_move w b. rewrite Hk. eauto with stacks.
Qed.

(** The running fiber returns from a call; [w] is the state the invariant was
    opened in, [b] its running fiber. *)
Ltac close_ret w b :=
  eapply wp_mono;
  [eapply (ret_inv _ b);
    [eapply (core_same w); [by apply inv_core|done|done]|by apply (inv_others_out w)
    |done|done|done|by eapply (inv_not_blocked w)|simpl|unfold last_frame]
  |simpl; by intros ??? [? _]];
  try naive_solver eauto with stacks.

Lemma at_wait_frame main mode f s st :
  at_wait main mode f s st ->
  exists k s', s = k :: s' /\ frame_ok main mode f k s' st /\ ~ last_frame k.
Proof.
  unfold last_frame. destruct 1; eexists _, _; (split; [done|]); simpl; naive_solver.
Qed.

Lemma at_cv_frame main mode f p s st :
  at_cv main mode f p s st ->
  exists k s', s = k :: s' /\ frame_ok main mode f k s' st /\ ~ last_frame k.
Proof.
  unfold last_frame. destruct 1; eexists _, _; (split; [done|]); simpl; naive_solver.
Qed.

Lemma waitForWork_inv w :
  Inv w -> pc w = PWaitForWork -> wp waitForWork w (fun _ w' _ => Inv w').
Proof.
  intros HI Hpc. open_inv HI Hpc b Hb Hrun.
  destruct (at_wait_frame _ _ _ _ _ Hrun) as (k & s & Hk & Hok & Hlast).
  unfold waitForWork. wp_run; [by apply core_num, HI|].
  case_bool_decide; [close_ret w b|]. case_bool_decide; wp_run; close_goto Hpc.
Qed.

Lemma Core_idle_queues w :
  Core w -> ~ (num (work_ w) > 0)%Z -> fibers (work_ w) = [] /\ tasks (work_ w) = [].
Proof.
  intros Hc Hnum. rewrite (core_num_exact w Hc) in Hnum.
  destruct (fibers (work_ w)), (tasks (work_ w)); simpl in Hnum; [done|lia..].
Qed.

Lemma runUntilShutdown_inv w :
  Inv w -> pc w = PShutdownLoop -> wp runUntilShutdown w (fun _ w' _ => Inv w').
Proof.
  intros HI Hpc. open_inv HI Hpc b Hb Hrun. destruct Hrun as [Hrun Hst].
  unfold runUntilShutdown. wp_run.
  destruct (negb (shutdown w) || _ || _) eqn:Hcond; wp_run.
  - close_move w b. rewrite Hst. eauto with stacks.
  - apply orb_false_iff in Hcond as [[Hsh Hnum]%orb_false_iff Hnb].
    apply negb_false_iff in Hsh. apply bool_decide_eq_false in Hnum, Hnb.
    destruct (Core_idle_queues w HI Hnum) as [Hf Ht].
    rewrite (core_blocked_exact w HI) in Hnb. pose proof (core_nblocked_bound w HI).
    assert (quiescent w) as Hq by (unfold quiescent; auto with lia).
    inversion Hrun; subst; close_ret w b.
Qed.

Lemma Work_wait_inv p w :
  Inv w -> pc w = PCvEnter p -> wp (Work_wait p) w (fun _ w' _ => Inv w').
Proof.
  intros HI Hpc. open_inv HI Hpc b Hb Hrun.
  destruct (at_cv_frame _ _ _ _ _ _ Hrun) as (k & s & Hk & Hok & Hlast).
  unfold Work_wait. wp_run. apply wp_mono with (P := fun d w' o =>
    w' = upd_work (set_notify true) w).
  - destruct (WaitingFibers_bool _) eqn:Hbool; [|wp_run; done].
    destruct (WaitingFibers_next_ok (waiting (work_ w))) as (t & Ht & _); [apply HI|done|].
    wp_run. done.
  - intros d w' o ->. wp_run. destruct (wait_pred p _); wp_run; [close_ret w b|close_goto Hpc].
Qed.

Lemma Work_wake_inv p d now w :
  Inv w -> pc w = PCvBlocked p d -> wp (Work_wake p d now) w (fun _ w' _ => Inv w').
Proof.
  intros HI Hpc. open_inv HI Hpc b Hb Hrun.
  destruct (at_cv_frame _ _ _ _ _ _ Hrun) as (k & s & Hk & Hok & Hlast).
  unfold Work_wake. wp_run. destruct (_ || _); wp_run; [close_ret w b|].
  eapply inv_goto; simpl; try done; rewrite Hpc; [done| |unfold ending; naive_solver].
  intros _. apply HI. by rewrite Hpc.
Qed.

(** ** Timeouts *)
(** What [enqueueFiberTimeouts] needs of, and keeps for, the worker: it leaves
    control alone and only queues fibers that wait. *)
Definition same_control (w w' : Worker) : Prop :=
  (main_fiber_ w', mode_ w', current_fiber_ w', pc w', mutex (work_ w'), shutdown w',
   notify_added (work_ w')) =
  (main_fiber_ w, mode_ w, current_fiber_ w, pc w, mutex (work_ w), shutdown w,
   notify_added (work_ w)).

(** Every fiber keeps its stack; a waiting fiber may become queued. *)
Definition only_queued (w w' : Worker) : Prop :=
  forall f, heap w' !! f = heap w !! f \/
    exists b, heap w !! f = Some b /\ state_ b = Waiting /\
              heap w' !! f = Some (set_fiber_state Queued b).

Lemma only_queued_trans w1 w2 w3 :
  only_queued w1 w2 -> only_queued w2 w3 -> only_queued w1 w3.
Proof.
  intros H1 H2 f. destruct (H2 f) as [E2|(b & Hb & Hs & E2)], (H1 f) as [E1|(b1 & Hb1 & Hs1 & E1)].
  - left. congruence.
  - right. exists b1. split_and!; congruence.
  - right. exists b. split_and!; congruence.
  - rewrite E1 in Hb. simplify_eq.
Qed.

Lemma enqueueFiberTimeouts_core fuel now w :
  Core w -> mutex (work_ w) = true -> length (timeouts (waiting (work_ w))) < fuel ->
  wp (enqueueFiberTimeouts fuel now) w (fun _ w' o =>
    Core w' /\ same_control w w' /\ only_queued w w' /\ o = [] /\
    (forall f t, WaitingFibers.fibers (waiting (work_ w')) !! f = Some t -> (now < t)%Z) /\
    tasks (work_ w') = tasks (work_ w) /\
    exists ts, timeouts (waiting (work_ w)) = ts ++ timeouts (waiting (work_ w')) /\
      fibers (work_ w') = fibers (work_ w) ++ (fiber <$> ts) /\
      Forall (fun x => (timepoint x <= now)%Z) ts).
Proof.
  revert w. induction fuel as [|fuel IH]; intros w Hc Hm Hlen; [lia|].
  destruct (WaitingFibers_take_ok now (waiting (work_ w))) as (o & ws & Htake & Hwf & Ho);
    [apply Hc|].
  simpl. wp_run.
  destruct o as [f|].
  - destruct Ho as (t & Hts & Hle & Hf & Hdel & Hmin).
    assert (fiber_state w f = Some Waiting) as Hst by (apply (core_waiting w Hc); eauto).
    apply fiber_state_Some in Hst as (b & Hb & Hs). wp_run.
    eapply wp_mono; [eapply IH|].
    + eapply (core_queue w); simpl; try done; eauto.
    + done.
    + simpl. rewrite Hts in Hlen. simpl in Hlen. lia.
    + simpl. intros _ w' o (Hc' & Hctl & Hq & -> & Hnow & Htasks & ts & Hts' & Hfs & Hall).
      split_and!; try done.
      * eapply only_queued_trans; [|done]. intros g. simpl.
        destruct (decide (g = f)) as [->|]; simplify_map_eq; [right|by left]. eauto.
      * exists (mkTimeout t f :: ts). simpl. rewrite Hts, Hts', Hfs, <- app_assoc.
        split_and!; [done|done|by constructor].
  - destruct Ho as [-> Hnow]. wp_run. split_and!; try done.
    + by eapply core_same.
    + intros g. by left.
    + exists []. simpl. rewrite app_nil_r. split_and!; [done|done|constructor].
Qed.

Lemma only_queued_out main mode f b b' :
  switched_out main mode f (impl_ b) (state_ b) -> state_ b = Waiting ->
  b' = set_fiber_state Queued b -> switched_out main mode f (impl_ b') (state_ b').
Proof. intros H Hs ->. rewrite Hs in H. simpl. inversion H; eauto with stacks. Qed.

Lemma waitForWork_done_inv now w :
  Inv w -> pc w = PWorkDone -> wp (waitForWork_done now) w (fun _ w' _ => Inv w').
Proof.
  intros HI Hpc. open_inv HI Hpc b Hb Hrun. unfold waitForWork_done. wp_run.
  apply wp_mono with (P := fun _ w1 _ => Core w1 /\ same_control w w1 /\ only_queued w w1).
  { destruct (WaitingFibers_bool _); wp_run.
    - eapply wp_mono; [apply enqueueFiberTimeouts_core; [apply HI|done|lia]|naive_solver].
    - split_and!; [apply HI|done|intros ?; by left]. }
  intros _ w1 _ (Hc1 & Hctl & Hq). unfold same_control in Hctl.
  injection Hctl as Emain Emode Ecur Epc Em Esh Eno.
  assert (exists b1, heap w1 !! current_fiber_ w1 = Some b1 /\ impl_ b1 = impl_ b /\
    at_wait (main_fiber_ w1) (mode_ w1) (current_fiber_ w1) (impl_ b) (state_ b1))
    as (b1 & Hb1 & Himpl & Hrun1).
  { rewrite Ecur, Emain, Emode.
    destruct (Hq (current_fiber_ w)) as [->|(b0 & Hb0 & Hs & ->)]; [by exists b|].
    simplify_eq. eexists. split_and!; [done|done|]. simpl.
    inversion Hrun; subst; [congruence|eauto with stacks]. }
  destruct (at_wait_frame _ _ _ _ _ Hrun1) as (k & s & Hk & Hok & Hlast).
  eapply wp_mono; [eapply (ret_inv w1 b1); try done; try congruence|].
  - intros f c Hf Hc'. rewrite Emain, Emode. rewrite Ecur in Hf.
    destruct (Hq f) as [E|(b0 & Hb0 & Hs & E)]; rewrite E in Hc'.
    + by apply (inv_others_out w HI).
    + simplify_eq. eapply only_queued_out; [|done|done]. by apply (inv_others_out w HI).
  - unfold is_blocked. rewrite Himpl. by apply (inv_not_blocked w b HI).
  - simpl. by intros ??? [? _].
Qed.

Lemma suspend_inv timeout w :
  Inv w -> pc w = PSuspend timeout -> wp (suspend timeout) w (fun _ w' _ => Inv w').
Proof.
  intros HI Hpc. open_inv HI Hpc b Hb Hrun. destruct Hrun as [Hrun Hst].
  destruct (core_state_iff w _ b HI Hb) as (_ & Hw & _). rewrite Hst in Hw.
  unfold suspend. wp_run.
  apply wp_mono with (P := fun _ w1 _ => exists st, (st = Yielded \/ st = Waiting) /\
    Core w1 /\ heap w1 = <[current_fiber_ w := set_fiber_state st b]> (heap w) /\
    same_control w w1).
  { destruct timeout as [t|]; wp_run.
    - destruct (WaitingFibers_add_ok t (current_fiber_ w) (waiting (work_ w)))
        as (ws & Hadd & Hwf & Hfib); [apply HI| |].
      { apply eq_None_not_Some. naive_solver. }
      wp_run. exists Waiting. split_and!; [by right| |done|done].
      eapply (core_suspend w); simpl; try done; [apply HI|by right|].
      intros g. rewrite Hfib, lookup_insert_is_Some.
      destruct (decide (g = current_fiber_ w)); naive_solver.
    - exists Yielded. split_and!; [by left| |done|done].
      eapply (core_suspend w); simpl; try done; [apply HI|by left|apply HI|].
      apply moved_id. naive_solver. }
  intros _ w1 _ (st & Hst' & Hc1 & Hh1 & Hctl). unfold same_control in Hctl.
  injection Hctl as Emain Emode Ecur Epc Em Esh Eno.
  apply wp_bind. eapply wp_push_frame; [by rewrite Ecur, Hh1, lookup_insert_eq|].
  cbn beta. wp_run. split; simpl.
  - eapply (core_frames w1 _ (current_fiber_ w1) (set_fiber_state st b)); try done.
    + by rewrite Ecur, Hh1, lookup_insert_eq.
    + unfold is_blocked. simpl. symmetry. by apply (inv_not_blocked w b HI).
  - congruence.
  - done.
  - eexists. rewrite lookup_insert_eq. split; [done|]. simpl.
    rewrite Emain, Emode, Ecur. constructor; [done|]. unfold parked. naive_solver.
  - rewrite Emain, Emode, Ecur. intros f c Hf.
    rewrite lookup_insert_ne, Hh1, lookup_insert_ne by done. by apply (inv_others_out w HI).
  - unfold ending. naive_solver.
Qed.

(** ** Switches *)
(** The running fiber has been switched out: all fibers are. *)
Definition all_out (w : Worker) : Prop :=
  forall f b, heap w !! f = Some b ->
    switched_out (main_fiber_ w) (mode_ w) f (impl_ b) (state_ b).

Lemma all_out_insert w w' f b :
  others_out w -> f = current_fiber_ w ->
  main_fiber_ w' = main_fiber_ w -> mode_ w' = mode_ w ->
  heap w' = <[f := b]> (heap w) ->
  switched_out (main_fiber_ w) (mode_ w) f (impl_ b) (state_ b) -> all_out w'.
Proof.
  intros Ho -> Em Emo Hh Hs g c. rewrite Em, Emo, Hh.
  intros [[<- <-]|[Hne Hg]]%lookup_insert_Some; [done|]. apply Ho; congruence.
Qed.

Lemma switched_out_Queued main mode f s :
  switched_out main mode f s Queued ->
  exists k s', s = KSuspendSwitch :: k :: s' /\ (exists t, k = KWait t \/ k = KWaitPred t) /\
               at_user main mode f s'.
Proof. inversion 1 as [? ? Hs|]; subst. inversion Hs; subst; eauto 10. Qed.

(** A switch to the fiber at the head of the queue, just taken from it. *)
Lemma switch_queued w1 w2 f fs :
  Core w1 -> all_out w1 -> fibers (work_ w1) = f :: fs ->
  heap w2 = heap w1 -> main_fiber_ w2 = main_fiber_ w1 -> mode_ w2 = mode_ w1 ->
  idle_fibers_ w2 = idle_fibers_ w1 -> waiting (work_ w2) = waiting (work_ w1) ->
  tasks (work_ w2) = tasks (work_ w1) ->
  num_blocked_fibers (work_ w2) = num_blocked_fibers (work_ w1) ->
  fibers (work_ w2) = fs -> num (work_ w2) = u64 (num (work_ w1) - 1) ->
  mutex (work_ w2) = true ->
  wp (switchToFiber f) w2 (fun _ w' _ => Inv w').
Proof.
  intros Hc Hout Hfs Eh Em Emo Ei Ew Et Eb Ef En Hmu.
  assert (fiber_state w1 f = Some Queued) as Hq by (apply (core_queued w1 Hc); rewrite Hfs; left).
  apply fiber_state_Some in Hq as (b & Hb & Hs).
  pose proof (Hout _ _ Hb) as Ho. rewrite Hs in Ho.
  apply switched_out_Queued in Ho as (k & s & Hk & Hkt & Hus).
  destruct (core_state_iff w1 f b Hc Hb) as (_ & _ & Hi).
  unfold switchToFiber. wp_run.
  { apply orb_true_iff. right. apply bool_decide_eq_true. rewrite Ei, Hi, Hs. done. }
  unfold resume. apply wp_bind. eapply wp_pop_frame; [by simpl; rewrite Eh|done|].
  cbn beta iota. unfold suspend_resumed. wp_run.
  eapply wp_mono; [eapply ret_inv|simpl; by intros ??? [? _]]; simpl; rewrite ?insert_insert_eq.
  - eapply (core_dequeue w1 _ f fs b); simpl; rewrite ?Eh, ?insert_insert_eq; try done; try congruence.
    + unfold is_blocked. by rewrite Hk.
    + done.
    + by destruct Hkt as [t [-> | ->]].
  - intros g c Hg. simpl. rewrite Eh, insert_insert_eq, lookup_insert_ne by done.
    rewrite Em, Emo. apply Hout.
  - done.
  - by rewrite lookup_insert_eq.
  - done.
  - by destruct Hkt as [t [-> | ->]].
  - rewrite Em, Emo. by destruct Hkt as [t [-> | ->]].
  - unfold last_frame. by destruct Hkt as [t [-> | ->]]; naive_solver.
Qed.

(** A switch to a fiber parked in [runUntilIdle()], just taken from the idle
    fibers. *)
Lemma switch_idle w1 w2 f :
  Core w1 -> all_out w1 -> f ∈ idle_fibers_ w1 ->
  heap w2 = heap w1 -> main_fiber_ w2 = main_fiber_ w1 -> mode_ w2 = mode_ w1 ->
  idle_fibers_ w2 = idle_fibers_ w1 ∖ {[f]} -> same_queues w1 w2 ->
  waiting (work_ w2) = waiting (work_ w1) ->
  num_blocked_fibers (work_ w2) = num_blocked_fibers (work_ w1) ->
  mutex (work_ w2) = true ->
  wp (switchToFiber f) w2 (fun _ w' _ => Inv w').
Proof.
  intros Hc Hout Hf Eh Em Emo Ei (Eq1 & Eq2 & Eq3 & Eq4) Ew Eb Hmu.
  apply (core_idle w1 Hc), fiber_state_Some in Hf as (b & Hb & Hs).
  pose proof (Hout _ _ Hb) as Ho. rewrite Hs in Ho.
  inversion Ho as [? ? _ Hp Hk|s Hidle Hk]; subst;
    [unfold parked in Hp; naive_solver|].
  unfold switchToFiber. wp_run.
  { apply orb_true_iff. right. apply bool_decide_eq_true. rewrite Ei. set_solver. }
  unfold resume. apply wp_bind. eapply wp_pop_frame; [by simpl; rewrite Eh|done|].
  cbn beta iota. wp_run. split; simpl; rewrite ?insert_insert_eq.
  - eapply (core_unpark w1 _ f b); simpl; rewrite ?Eh, ?insert_insert_eq; try done; try congruence.
    + unfold is_blocked. by rewrite <- Hk.
    + done.
    + unfold is_blocked. simpl. by inversion Hidle.
  - done.
  - done.
  - eexists. rewrite lookup_insert_eq. split; [done|]. simpl. by rewrite Em, Emo.
  - intros g c Hg. rewrite Eh, lookup_insert_ne, Em, Emo by done. apply Hout.
  - unfold ending. naive_solver.
Qed.

Lemma suspend_switch_inv pick w :
  Inv w -> pc w = PSuspendPick -> legal (Pick pick) w ->
  wp (suspend_switch pick) w (fun _ w' _ => Inv w').
Proof.
  intros HI Hpc Hlegal. open_inv HI Hpc b Hb Hrun. destruct Hrun as [Hrun Hst].
  unfold suspend_switch. simpl in Hlegal. wp_run.
  set (w1 := upd_heap _ (upd_work incr_blocked w)).
  assert (Core w1) as Hc1.
  { eapply (core_block w); try done; [apply HI|by apply (inv_not_blocked w b HI)]. }
  assert (all_out w1) as Hout.
  { eapply (all_out_insert w _ (current_fiber_ w)); try done; [by apply inv_others_out|].
    simpl. eauto with stacks. }
  change (fibers (work_ w1)) with (fibers (work_ w)).
  change (idle_fibers_ w1) with (idle_fibers_ w).
  destruct (bool_decide (fibers (work_ w) ≠ [])) eqn:Hf;
    [apply bool_decide_eq_true in Hf|apply bool_decide_eq_false in Hf].
  - destruct (fibers (work_ w)) as [|f fs] eqn:Hfs; [done|].
    assert (fiber_state w1 f = Some Queued) as (b1 & Hb1 & Hs1)%fiber_state_Some.
    { apply (core_queued w1 Hc1). simpl. rewrite Hfs. left. }
    wp_run. by eapply (switch_queued w1).
  - destruct (bool_decide (idle_fibers_ w ≠ ∅)) eqn:Hi;
      [apply bool_decide_eq_true in Hi|apply bool_decide_eq_false in Hi].
    + assert (fiber_state w1 pick = Some Idle) as (b1 & Hb1 & Hs1)%fiber_state_Some.
      { by apply (core_idle w1 Hc1). }
      wp_run. by eapply (switch_idle w1).
    + destruct Hlegal as [Hfree Haddr]. unfold createWorkerFiber. wp_run.
      assert (pick <> current_fiber_ w) as Hne by congruence.
      unfold switchToFiber. wp_run.
      { apply orb_true_iff. right. apply bool_decide_eq_true. simpl in *.
        apply dec_stable in Hi. rewrite Hi. set_solver. }
      unfold resume. wp_run. split; simpl; rewrite ?insert_insert_eq.
      * eapply (core_new w1 _ pick); try done; simpl; rewrite ?insert_insert_eq; try done.
        all: by try rewrite lookup_insert_ne.
      * done.
      * done.
      * eexists. rewrite lookup_insert_eq. split; [done|]. simpl. split; [|done].
        apply at_run_fiber. intros ->. destruct (core_main w HI) as [? Hm]. congruence.
      * intros g c Hg. rewrite lookup_insert_ne by done. intros Hgc. by apply (Hout g c).
      * unfold ending. naive_solver.
Qed.

Lemma runUntilIdle_loop_inv w :
  Inv w -> pc w = PIdleLoop -> wp runUntilIdle_loop w (fun _ w' _ => Inv w').
Proof.
  intros HI Hpc. open_inv HI Hpc b Hb Hrun. destruct Hrun as [Hrun Hst].
  destruct (core_state_iff w _ b HI Hb) as (Hcq & _ & Hci). rewrite Hst in Hcq, Hci.
  unfold runUntilIdle_loop. wp_run.
  destruct (fibers (work_ w)) as [|f fs] eqn:Hfs; [destruct (tasks (work_ w)) as [|t ts] eqn:Hts|].
  - inversion Hrun; subst. close_ret w b.
  - wp_run.
    set (w1 := upd_work decr_num (upd_work (set_tasks ts) w)).
    eapply (inv_build w1 _ b); simpl; try done; eauto with stacks.
    + eapply (core_tasks_update w); simpl; try done; [apply HI| |].
      * pose proof (core_tasks w HI) as Hlen. rewrite Hts in Hlen. simpl in Hlen. lia.
      * rewrite Hts. f_equal. simpl. lia.
    + by apply (inv_others_out w).
    + by apply (inv_not_blocked w b HI).
    + unfold ending. naive_solver.
  - assert (fiber_state w f = Some Queued) as (c & Hc & Hcs)%fiber_state_Some
      by (apply (core_queued w HI); rewrite Hfs; left).
    destruct (core_state_iff w f c HI Hc) as (_ & _ & Hfi). rewrite Hcs in Hfi.
    assert (f <> current_fiber_ w) as Hne by congruence.
    wp_run; [naive_solver..|].
    set (b' := mkFiber (id_ b) Idle (KIdleSwitch :: impl_ b)).
    set (w1 := upd_idle ({[current_fiber_ w]} ∪ idle_fibers_ w)
                 (upd_heap <[current_fiber_ w := b']> w)).
    eapply (switch_queued w1 _ f fs); simpl; rewrite ?insert_insert_eq; try done.
    + eapply (core_park w _ (current_fiber_ w) b b'); try done; [apply HI|].
      by apply (inv_not_blocked w b HI).
    + eapply (all_out_insert w _ (current_fiber_ w)); try done; [by apply inv_others_out|].
      simpl. eauto with stacks.
Qed.

(** ** The end of the worker *)
Lemma run_end_drained w w' b c m m' :
  Inv w -> nblocked (heap w) = 0%Z -> current_fiber_ w <> main_fiber_ w ->
  heap w !! current_fiber_ w = Some b -> state_ b = Running -> heap w !! main_fiber_ w = Some m -> state_ m = Idle ->
  main_fiber_ w' = main_fiber_ w -> idle_fibers_ w' = idle_fibers_ w -> waiting (work_ w') = waiting (work_ w) ->
  heap w' !! current_fiber_ w = Some c -> state_ c = Running ->
  heap w' !! main_fiber_ w = Some m' -> state_ m' = Running ->
  (forall f, f <> main_fiber_ w -> f <> current_fiber_ w -> heap w' !! f = heap w !! f) -> Drained w'.
Proof.
  intros HI Hz Hcm Hb Hsb Hm Hsm Em Ei Ew Hc Hsc Hm' Hsm' Hrest.
  assert (forall f d, f <> current_fiber_ w -> heap w !! f = Some d -> state_ d = Idle) as Hidle.
  { intros f d Hf Hd. pose proof (nblocked_zero _ _ _ Hz Hd) as Hnb.
    pose proof (inv_others_out w HI f d Hf Hd) as Hout. unfold is_blocked in Hnb.
    inversion Hout as [? ? ? ? Hk|]; [|done]. by rewrite <- Hk in Hnb. }
  split; rewrite ?Em, ?Ei, ?Ew.
  - intros f Hf. rewrite (core_idle w HI). unfold fiber_state. destruct (decide (f = current_fiber_ w)) as [->|Hne].
    + rewrite Hc, Hb. simpl. by rewrite Hsb, Hsc.
    + by rewrite Hrest.
  - intros f d Hd. destruct (decide (f = main_fiber_ w)) as [->|Hfm]; [right; congruence|].
    destruct (decide (f = current_fiber_ w)) as [->|Hne]; [right; congruence|]. left. rewrite Hrest in Hd by done. eauto.
  - intros f. apply eq_None_not_Some. intros (d & Hd & Hst)%(core_waiting w HI)%fiber_state_Some.
    destruct (decide (f = current_fiber_ w)) as [->|Hne]; [congruence|]. rewrite (Hidle f d Hne Hd) in Hst. done.
  - apply (core_idle w HI). unfold fiber_state. rewrite Hm. cbn. congruence.
Qed.

Lemma run_end_good w :
  Inv w -> pc w = PRunEnd -> wp run_end w (fun _ w' _ => Good w').
Proof.
  intros HI Hpc. open_inv HI Hpc b Hb Hrun. destruct Hrun as [Hrun Hst].
  assert (quiescent w) as Hq by (apply HI; rewrite Hpc; by left).
  unfold run_end. wp_run. unfold switchToFiber. wp_run; [by rewrite bool_decide_eq_true_2|].
  unfold resume. inversion Hrun as [Hcur Hmode Hk|Hcur Hk].
  - rewrite <- Hcur. wp_run. unfold ret. wp_run. left.
    eapply (inv_build w _ b); simpl; rewrite ?insert_insert_eq; try done;
      [apply HI|by apply inv_others_out|by apply (inv_not_blocked w b HI)].
  - destruct (core_main w HI) as [m Hm].
    pose proof (inv_others_out w HI _ _ (not_eq_sym Hcur) Hm) as Hout.
    destruct Hq as (Hqf & Hqt & Hqb & Hqs).
    pose proof (nblocked_zero _ _ _ Hqb Hm) as Hnb.
    inversion Hout as [? ? ? ? Hkm|s Hidle Hkm Hsm].
    { unfold is_blocked in Hnb. by rewrite <- Hkm in Hnb. }
    wp_run. right. left. split; simpl; try done.
    + unfold quiescent. simpl. split_and!; try done.
      rewrite !nblocked_insert. simpl. rewrite Hb, lookup_insert_eq. simpl.
      rewrite lookup_insert_ne, Hm by done. simpl.
      rewrite (inv_not_blocked w b HI Hb), Hnb. unfold is_blocked; simpl.
      inversion Hidle; subst. simpl. lia.
    + rewrite (core_num w HI), Hqf, Hqt. done.
    + rewrite (core_blocked w HI), Hqb. done.
    + by left.
    + eexists. rewrite lookup_insert_eq. split; done.
    + eapply (run_end_drained w _ b (mkFiber (id_ b) (state_ b) [KRunSwitch]) m (mkFiber (id_ m) Running s)); simpl; try done.
      * rewrite !lookup_insert_ne by done. apply lookup_insert_eq.
      * apply lookup_insert_eq.
      * intros f H1 H2. by rewrite !lookup_insert_ne.
Qed.

Lemma drain_step w :
  Draining w ->
  (pc w = PIdleLoop -> wp runUntilIdle_loop w (fun _ w' _ => Good w')) /\
  (pc w = PShutdownLoop -> wp runUntilShutdown w (fun _ w' _ => Good w')) /\
  (pc w = PRunEnd -> wp run_end w (fun _ w' _ => Good w')).
Proof.
  intros [(Hqf & Hqt & Hqb & Hqs) Hnum Hblk Hmu Hcur Hpc (b & Hb & Hrun) Hdr].
  assert (heap w !! current_fiber_ w = Some b) as Hb' by congruence.
  assert (forall b', is_blocked b' = false ->
    nblocked (<[current_fiber_ w := b']> (heap w)) = 0%Z) as Hnb.
  { intros b' Hb0. rewrite nblocked_insert, Hqb, Hb'. simpl.
    rewrite Hb0, (nblocked_zero _ _ _ Hqb Hb'). done. }
  split_and!; intros E; rewrite E in Hrun; simpl in Hrun; destruct Hrun as [Hrun Hst].
  - unfold runUntilIdle_loop. wp_run. rewrite Hqf, Hqt. unfold ret.
    inversion Hrun as [s Hs Hk]. wp_run. right. left. split; simpl; try done.
    + unfold quiescent. simpl. split_and!; try done. apply Hnb. by inversion Hs.
    + auto.
    + rewrite Hcur, lookup_insert_eq. eauto.
    + rewrite Hcur. by eapply drained_run.
  - unfold runUntilShutdown. wp_run. rewrite Hqs, Hnum, Hblk. simpl. unfold ret.
    inversion Hrun as [s Hs Hk|Hm Hmode Hk]; wp_run; right; left; split; simpl; try done.
    1,5: unfold quiescent; simpl; split_and!; try done; apply Hnb; by try inversion Hs.
    1,4: unfold ending; auto.
    1,3: rewrite Hcur, lookup_insert_eq; eauto.
    all: rewrite Hcur; by eapply drained_run.
  - unfold run_end. wp_run. unfold switchToFiber. wp_run; [by rewrite bool_decide_eq_true_2|].
    unfold resume. rewrite <- Hcur. wp_run. unfold ret.
    inversion Hrun as [Hm Hmode Hk|]; [|done]. wp_run.
    right. left. split; simpl; rewrite ?insert_insert_eq; try done.
    + unfold quiescent. simpl. rewrite !insert_insert_eq. split_and!; try done. by apply Hnb.
    + unfold ending; auto.
    + rewrite Hcur, lookup_insert_eq. eauto.
    + eapply (drained_run w); simpl; rewrite ?Hcur, ?insert_insert_eq; done.
Qed.

Lemma ends_good w :
  mutex (work_ w) = true ->
  wp thread_end w (fun _ w' _ => Good w') /\ wp stop_single_end w (fun _ w' _ => Good w').
Proof.
  intros Hmu. unfold thread_end, stop_single_end. split; wp_run; right; right; done.
Qed.

(** ** Operations of other threads *)
Lemma at_wait_queued main mode f s st :
  at_wait main mode f s st -> st = Yielded \/ st = Waiting -> at_wait main mode f s Queued.
Proof. intros [] Hst; [by destruct Hst|eauto with stacks]. Qed.

Lemma running_at_queued main mode f p s st :
  running_at main mode f p s st -> st = Yielded \/ st = Waiting ->
  running_at main mode f p s Queued.
Proof.
  intros H Hst. assert (st <> Running) by (destruct Hst as [-> | ->]; done).
  destruct p; simpl in *; try (by destruct_and?); try (by eapply at_wait_queued).
  1,2: destruct H; [done|constructor; by eapply at_wait_queued].
  destruct_and!. eauto with stacks.
Qed.

(** A fiber in [suspend()] is queued, by a notification or by its timeout. *)
Lemma inv_queue w w' f b :
  Inv w -> heap w !! f = Some b -> state_ b = Yielded \/ state_ b = Waiting ->
  heap w' = <[f := set_fiber_state Queued b]> (heap w) -> same_control w w' -> Core w' ->
  fibers (work_ w') <> [] -> ~ ending (pc w) -> Inv w'.
Proof.
  intros HI Hb Hst Hh Hctl Hc' Hne Hend. unfold same_control in Hctl.
  injection Hctl as Emain Emode Ecur Epc Em Esh Eno. split.
  - done.
  - rewrite Em, Epc. apply HI.
  - rewrite Eno, Epc. apply HI.
  - rewrite Ecur, Emain, Emode, Epc, Hh. destruct (inv_current w HI) as (c & Hc & Hrun).
    destruct (decide (current_fiber_ w = f)) as [<-|Hf].
    + rewrite lookup_insert_eq. simplify_eq. eexists. split; [done|]. simpl.
      by eapply running_at_queued.
    + rewrite lookup_insert_ne by done. eauto.
  - intros g c Hg. rewrite Ecur in Hg. rewrite Emain, Emode, Hh.
    intros [[<- <-]|[_ Hc]]%lookup_insert_Some; [|by apply (inv_others_out w HI)].
    pose proof (inv_others_out w HI _ _ Hg Hb) as Ho. simpl.
    inversion Ho; subst; [eauto with stacks|]. destruct Hst; congruence.
  - by rewrite Epc.
Qed.

(** The mutex taken and released: nothing changed. *)
Lemma lock_unlock w :
  mutex (work_ w) = false -> upd_work (set_mutex false) (upd_work (set_mutex true) w) = w.
Proof. intros Hm. destruct w as [? ? ? ? [] ? ? ? ? ?]. simpl in *. by subst. Qed.

(** [enqueue] of a fiber that runs or is queued already does nothing. *)
Lemma enqueue_fiber_skip f b w :
  mutex (work_ w) = false -> heap w !! f = Some b -> state_ b = Running \/ state_ b = Queued ->
  wp (enqueue_fiber f) w (fun _ w' o => w' = w /\ o = []).
Proof.
  intros Hm Hb Hst. unfold enqueue_fiber. wp_run.
  destruct Hst as [-> | ->]; wp_run; by rewrite lock_unlock.
Qed.

(** A fiber inside [suspend()] moves from the waiting fibers to the queue. *)
Definition fiber_queued (w w' : Worker) (f : FiberPtr) (b : Fiber) (ws : WaitingFibers) : Prop :=
  WaitingFibers_wf ws /\
  WaitingFibers.fibers ws = delete f (WaitingFibers.fibers (waiting (work_ w))) /\
  w' = upd_heap <[f := set_fiber_state Queued b]>
         (upd_work (fun k => incr_num (set_waiting ws (set_fibers (fibers k ++ [f]) k))) w).

Lemma enqueue_fiber_queues f b w :
  Core w -> mutex (work_ w) = false ->
  heap w !! f = Some b -> state_ b = Yielded \/ state_ b = Waiting ->
  wp (enqueue_fiber f) w (fun _ w' o =>
    (exists ws, fiber_queued w w' f b ws) /\
    o = if notify_added (work_ w) then [NotifyAdded] else []).
Proof.
  intros Hc Hmu Hb Hst. unfold enqueue_fiber. wp_run.
  destruct (WaitingFibers_erase_ok f (waiting (work_ w))) as (ws & Hws & Hwf & Hdel);
    [apply Hc|].
  destruct (core_state_iff w f b Hc Hb) as (_ & Hw & _).
  set (w0 := upd_work (set_mutex true) w).
  assert (wp (if bool_decide (state_ b = Waiting)
              then w ← get_locked; ws ← lift (WaitingFibers_erase f (waiting (work_ w)));
                   work (set_waiting ws)
              else pass) w0
    (fun _ w1 o => exists ws1, o = [] /\ w1 = upd_work (set_waiting ws1) w0 /\ WaitingFibers_wf ws1 /\
       WaitingFibers.fibers ws1 = delete f (WaitingFibers.fibers (waiting (work_ w)))))
    as Herase.
  { case_bool_decide as E; wp_run.
    - exists ws. done.
    - exists (waiting (work_ w)). split_and!; [done|by destruct w as [? ? ? ? []]|apply Hc|].
      rewrite delete_id; [done|]. apply eq_None_not_Some. by rewrite Hw. }
  assert (forall A (x y : M A), match state_ b with Running | Queued => x | _ => y end = y) as Hsel
    by (intros; destruct Hst as [-> | ->]; done).
  rewrite Hsel. apply wp_bind. eapply wp_mono; [exact Herase|].
  cbn beta. intros _ w1 o1 (ws1 & -> & -> & Hwf1 & Hdel1). wp_run.
  { apply negb_true_iff, bool_decide_eq_false. simpl. rewrite Hdel1, lookup_delete_eq.
    by intros []. }
  unfold notify_if. simpl.
  destruct (notify_added _); wp_run; (split; [exists ws1; unfold fiber_queued|done]);
    (split_and!; [done|done|]); destruct w as [? ? ? ? []]; simpl in *; by subst.
Qed.

Lemma fiber_queued_inv w w' f b ws :
  Inv w -> mutex (work_ w) = false -> heap w !! f = Some b ->
  state_ b = Yielded \/ state_ b = Waiting -> fiber_queued w w' f b ws -> Inv w'.
Proof.
  intros HI Hmu Hb Hst (Hwf & Hdel & ->).
  pose proof (inv_mutex w HI) as Hpm. rewrite Hmu in Hpm.
  eapply (inv_queue w _ f b); try done; simpl.
  - eapply (core_queue w); simpl; try done. apply HI.
  - by destruct (fibers (work_ w)).
  - by intros [E|[E|E]]; rewrite E in Hpm.
Qed.

Lemma enqueue_fiber_inv f w :
  Inv w -> mutex (work_ w) = false -> legal (EnqueueFiber f) w ->
  wp (enqueue_fiber f) w (fun _ w' o => Inv w').
Proof.
  intros HI Hmu (_ & st & (b & Hb & Hst)%fiber_state_Some & Hidle).
  destruct (decide (state_ b = Yielded \/ state_ b = Waiting)) as [Hst'|Hst'].
  - eapply wp_mono; [by apply (enqueue_fiber_queues f b); [apply HI|..]|].
    cbn beta. intros _ w' o [[ws Hws] _]. by eapply fiber_queued_inv.
  - eapply wp_mono; [apply (enqueue_fiber_skip f b); try done; destruct (state_ b); naive_solver|].
    cbn beta. by intros _ w' o [-> _].
Qed.

Lemma core_incr_tasks w w' t :
  Core w -> (zlen (tasks (work_ w)) < max_tasks)%Z ->
  main_fiber_ w' = main_fiber_ w -> heap w' = heap w ->
  fibers (work_ w') = fibers (work_ w) -> waiting (work_ w') = waiting (work_ w) ->
  idle_fibers_ w' = idle_fibers_ w ->
  num_blocked_fibers (work_ w') = num_blocked_fibers (work_ w) ->
  tasks (work_ w') = tasks (work_ w) ++ [t] -> num (work_ w') = u64 (num (work_ w) + 1) ->
  Core w'.
Proof.
  intros Hc Hlen E1 E2 E3 E4 E5 E6 E7 E8.
  eapply (core_tasks_update w); try done; rewrite E7, length_app; simpl; [lia|].
  rewrite E8. f_equal. lia.
Qed.

(** A change of the task queue by a thread that takes the mutex for it. *)
Lemma inv_tasks w w' :
  Inv w -> Core w' -> heap w' = heap w -> same_control w w' -> ~ ending (pc w) -> Inv w'.
Proof.
  intros HI Hc' Hh Hctl Hend. unfold same_control in Hctl.
  injection Hctl as Emain Emode Ecur Epc Em Esh Eno. split; try done.
  - rewrite Em, Epc. apply HI.
  - rewrite Eno, Epc. apply HI.
  - rewrite Ecur, Emain, Emode, Epc, Hh. apply HI.
  - intros f b. rewrite Ecur, Emain, Emode, Hh. apply HI.
  - by rewrite Epc.
Qed.

Lemma inv_free_not_ending w : Inv w -> mutex (work_ w) = false -> ~ ending (pc w).
Proof.
  intros HI Hmu. pose proof (inv_mutex w HI) as Hpm. rewrite Hmu in Hpm.
  by intros [E|[E|E]]; rewrite E in Hpm.
Qed.

Lemma enqueue_task_inv t w :
  Inv w -> mutex (work_ w) = false -> (zlen (tasks (work_ w)) < max_tasks)%Z ->
  wp (enqueue_task t) w (fun _ w' _ => Inv w').
Proof.
  intros HI Hmu Hlen. unfold enqueue_task, enqueueAndUnlock, notify_if. wp_run.
  destruct (notify_added _); wp_run; (eapply (inv_tasks w); try done; simpl;
    [eapply (core_incr_tasks w); simpl; try done; apply HI
    |unfold same_control; simpl; by rewrite Hmu|by apply inv_free_not_ending]).
Qed.

Lemma steal_inv w : Inv w -> wp steal w (fun _ w' _ => Inv w').
Proof.
  intros HI. unfold steal. wp_run. case_bool_decide; wp_run; [done|].
  destruct (mutex (work_ w)) eqn:Hmu; wp_run; [done|].
  assert (forall w', work_ w' = work_ w -> heap w' = heap w -> idle_fibers_ w' = idle_fibers_ w ->
    same_control w w' -> Inv w') as Hsame.
  { intros w' E1 E2 E3 E4. eapply (inv_tasks w); try done; [|by apply inv_free_not_ending].
    unfold same_control in E4. injection E4 as Emain Emode _ _ _ _ _.
    eapply (core_same w); [apply HI| |done]. unfold same_data. by rewrite Emain, Emode, E1, E3. }
  pose proof (lock_unlock w Hmu) as Hid.
  change (tasks (work_ (upd_work (set_mutex true) w))) with (tasks (work_ w)).
  destruct (tasks (work_ w)) as [|t ts] eqn:Hts; wp_run; [by rewrite Hid|].
  destruct (Task_is t SameThread); wp_run; [by rewrite Hid|].
  eapply (inv_tasks w); try done; simpl; [|unfold same_control; simpl; by rewrite Hmu
    |by apply inv_free_not_ending].
  eapply (core_tasks_update w); simpl; try done; [apply HI| |].
  - pose proof (core_tasks w HI) as Hlen. rewrite Hts in Hlen. simpl in Hlen. lia.
  - rewrite Hts. f_equal. simpl. lia.
Qed.

Lemma spin_stole_inv t w :
  Inv w -> pc w = PSpin -> (zlen (tasks (work_ w)) < max_tasks)%Z ->
  wp (spin_stole t) w (fun _ w' _ => Inv w').
Proof.
  intros HI Hpc Hlen. open_inv HI Hpc b Hb Hrun. unfold spin_stole. wp_run.
  set (w1 := upd_work incr_num (upd_work (set_tasks (tasks (work_ w) ++ [t])) w)).
  eapply (inv_goto w1); simpl; try done; [|by rewrite Hpc|unfold ending; naive_solver].
  eapply (inv_tasks w); try done; simpl.
  - eapply (core_incr_tasks w); simpl; try done. apply HI.
  - unfold ending. rewrite Hpc. naive_solver.
Qed.
