(* ===== verification/WorkerProps.v ===== *)
(** What the invariant gives for every reachable state of a worker. *)
From stdpp Require Import base numbers strings sets gmap list.
From S2P Require Import Prelude Task WaitingFibers Worker WorkerFrame WorkerLogic WorkerInv WorkerSafety.

(** ** Preservation *)
Definition good_outcome (r : option (Result (Worker * list Out))) : Prop :=
  match r with
  | None => True
  | Some (Ok (w', _)) => Good w'
  | Some _ => False
  end.

Lemma exec_wp e w m :
  code e w = Some m -> wp m w (fun _ w' _ => Good w') -> good_outcome (exec e w).
Proof.
  intros Hc Hwp. unfold exec, good_outcome. rewrite Hc. unfold wp in Hwp.
  by destruct (m w) as [[[[] w'] o]| |].
Qed.

Lemma wp_good m w : wp m w (fun (_ : unit) w' _ => Inv w') -> wp m w (fun _ w' _ => Good w').
Proof. intros H. eapply wp_mono; [exact H|]. by left. Qed.

Lemma inv_shutdown w : Inv w -> Inv (upd_shutdown true w).
Proof.
  intros HI. split; simpl; try apply HI.
  - by eapply core_same; [apply HI|..].
  - intros (?&?&?&?)%(inv_ending w HI). done.
Qed.

Lemma steal_locked w : mutex (work_ w) = true -> (_ ← steal; pass) w = Ok ((), w, []).
Proof.
  intros Hm. unfold steal, mbind, M_bind, get. cbn beta iota. rewrite Hm.
  by case_bool_decide.
Qed.

Lemma external_good e w :
  external e = true -> Good w -> legal e w -> good_outcome (exec e w).
Proof.
  intros He HG Hl. pose proof (code_external e w He) as Hcode.
  destruct e as [| | | | | | | | | | |f|t| |]; try done.
  - destruct (mutex (work_ w)) eqn:Hm; [by unfold exec; rewrite Hcode|].
    eapply exec_wp; [done|]. apply wp_good. destruct HG as [HI|[HD|HE]].
    + by apply enqueue_fiber_inv.
    + destruct HD. congruence.
    + destruct HE, Hl. done.
  - destruct (mutex (work_ w)) eqn:Hm; [by unfold exec; rewrite Hcode|]. simpl in Hcode.
    case_bool_decide as Hlen; [|by unfold exec; rewrite Hcode].
    eapply exec_wp; [done|]. destruct HG as [HI|[HD|HE]].
    + apply wp_good. by apply enqueue_task_inv.
    + destruct HD. congruence.
    + destruct HE as [Hpc _]. unfold enqueue_task, enqueueAndUnlock, notify_if. wp_run.
      destruct (notify_added _); wp_run; right; right; done.
  - destruct HG as [HI|[HD|HE]].
    + eapply exec_wp; [done|]. apply wp_bind. eapply wp_mono; [by apply steal_inv|].
      cbn beta. intros. wp_run. by left.
    + unfold exec, good_outcome. rewrite Hcode, steal_locked by apply HD. simpl. by right; left.
    + eapply exec_wp; [done|]. destruct HE as [Hpc Hm]. apply wp_bind.
      apply wp_mono with (P := fun _ w' _ => Exited w'); [|intros; wp_run; by right; right].
      unfold steal. wp_run. case_bool_decide; wp_run; [done|]. rewrite Hm. wp_run.
      destruct (tasks (work_ (upd_work (set_mutex true) w))); wp_run; [done|].
      destruct (Task_is _ _); wp_run; done.
  - eapply exec_wp; [done|]. wp_run. destruct HG as [HI|[HD|HE]].
    + left. by apply inv_shutdown.
    + right. left. destruct HD as [(?&?&?&?) ? ? ? ? ? ? []]. by split.
    + right. right. done.
Qed.

(** What WorkerSafety.v shows of each fragment, found by the fragment's name. *)
Create HintDb fragments discriminated.
#[local] Hint Constants Opaque : fragments.
#[local] Hint Resolve thread_start_inv run_inv run_body_inv waitForWork_wait_inv spin_end_inv
  runUntilIdle_inv wait_begin_inv wait_end_inv wait_pred_loop_inv
  wait_pred_suspended_inv wait_pred_relock_inv task_done_inv stop_single_inv
  waitForWork_inv runUntilShutdown_inv Work_wait_inv Work_wake_inv
  waitForWork_done_inv suspend_inv suspend_switch_inv runUntilIdle_loop_inv
  spin_stole_inv : fragments.

(** The code an internal event runs when the invariant holds. *)
Lemma internal_inv_good e w m :
  external e = false -> Inv w -> legal e w -> code e w = Some m ->
  wp m w (fun _ w' _ => Good w').
Proof.
  intros He HI Hl Hcode. unfold code in Hcode.
  assert (ending (pc w) -> mutex (work_ w) = true) as Hm.
  { intros Hend. rewrite (inv_mutex w HI). by destruct Hend as [-> |[-> | ->]]. }
  destruct (pc w) eqn:Hpc, e; try done; try case_bool_decide; simplify_eq;
    try (by apply run_end_good); try (apply ends_good, Hm; unfold ending; by auto);
    apply wp_good.
  all: eauto 3 with fragments.
Qed.

Lemma internal_drain_good e w m :
  external e = false -> Draining w -> code e w = Some m -> wp m w (fun _ w' _ => Good w').
Proof.
  intros He HD Hcode. destruct (drain_step w HD) as (H1 & H2 & H3).
  destruct (ends_good w) as [H4 H5]; [apply HD|].
  unfold code in Hcode. unfold ending in *.
  destruct (drain_pc w HD) as [Hpc|[Hpc|[Hpc|[Hpc|Hpc]]]]; rewrite Hpc in Hcode;
    destruct e; simplify_eq; auto.
Qed.

Lemma good_exec e w : Good w -> legal e w -> good_outcome (exec e w).
Proof.
  intros HG Hl. destruct (external e) eqn:He; [by apply external_good|].
  destruct (code e w) as [m|] eqn:Hcode; [|by unfold exec; rewrite Hcode].
  eapply exec_wp; [done|]. destruct HG as [HI|[HD|[Hpc _]]].
  - by eapply internal_inv_good.
  - by eapply internal_drain_good.
  - unfold code in Hcode. rewrite Hpc in Hcode. by destruct e.
Qed.

Lemma start_good id mode main : (0 < main < 2 ^ 62)%Z -> Good (start id mode main).
Proof.
  intros Hmain. left.
  assert (forall (s : list Frame) w, in_suspend_switch s = false ->
    heap w = {[main := mkFiber 0 Running s]} -> main_fiber_ w = main ->
    idle_fibers_ w = ∅ -> num (work_ w) = 0%Z -> num_blocked_fibers (work_ w) = 0%Z ->
    tasks (work_ w) = [] -> fibers (work_ w) = [] -> waiting (work_ w) = WaitingFibers_empty ->
    Core w) as Hcore.
  { intros s w Hs Hh Em Ei En Eb Et Ef Ew.
    assert (forall f st, fiber_state w f = Some st -> st = Running) as Hst.
    { intros f st (b & Hb & <-)%fiber_state_Some. rewrite Hh in Hb.
      by apply lookup_singleton_Some in Hb as [_ <-]. }
    split; rewrite ?Em, ?Ei, ?En, ?Eb, ?Et, ?Ef, ?Ew; try done.
    - intros f b. rewrite Hh. by intros [<- _]%lookup_singleton_Some.
    - rewrite Hh, lookup_singleton_eq. eauto.
    - constructor.
    - intros f. split; [by intros []%not_elem_of_nil|intros H%Hst; done].
    - apply WaitingFibers_empty_wf.
    - intros f. simpl. rewrite lookup_empty. split; [by intros []|intros H%Hst; done].
    - intros f. split; [set_solver|intros H%Hst; done].
    - rewrite Hh, <- insert_empty, nblocked_insert. simpl. unfold is_blocked. simpl.
      by rewrite Hs. }
  destruct mode; [assert (Core (start id MultiThreaded main)) as Hc by (by apply (Hcore [KThread]))
    |assert (Core (start id SingleThreaded main)) as Hc by (by apply (Hcore []))];
    (split; [exact Hc|done|done| | |]); simpl; try (by intros [[=]|[[=]|[=]]]);
    try (intros f b Hf; by rewrite lookup_singleton_ne).
  all: eexists; rewrite lookup_singleton_eq; split; [done|]; simpl; eauto with stacks.
Qed.

Lemma reachable_good w : reachable w -> Good w.
Proof.
  induction 1 as [id mode main Hmain|w w' Hr IH [e o Hl He]]; [by apply start_good|].
  pose proof (good_exec e w IH Hl) as Hg. rewrite He in Hg. done.
Qed.

(** Until the worker has run out of work for its shutdown, the invariant holds. *)
Lemma reachable_inv w : reachable w -> pc w <> PExited -> ~ quiescent w -> Inv w.
Proof. intros [HI|[HD|[HE _]]]%reachable_good Hpc Hq; [done|by destruct HD|done]. Qed.

Lemma reachable_free w : reachable w -> pc w <> PExited -> mutex (work_ w) = false -> Inv w.
Proof.
  intros [HI|[HD|[HE _]]]%reachable_good Hpc Hm; [done| |done].
  by rewrite (drain_mutex w HD) in Hm.
Qed.

Lemma reachable_asleep w p d : reachable w -> pc w = PCvBlocked p d -> Inv w.
Proof.
  intros [HI|[HD|[HE _]]]%reachable_good Hpc; [done| |congruence].
  pose proof (drain_pc w HD) as H. unfold ending in H. rewrite Hpc in H. naive_solver.
Qed.

(** ** A sample run: a worker thread runs a task, which waits; a second fiber
    is made to run the stop task, during which the first one is notified; it
    finishes and the thread ends. *)
Definition sample_task : WTask := mkTask (Some (BUser 1)) FlagsNone.

Definition sample_events : list Event :=
  [Tau; Tau; Tau; EnqueueTask sample_task; Wake 0; Tau; Tau; Tau; Tau; Tau; CallWait None; Tau; Tau;
   SpinEnd; Tau; Tau; EnqueueTask (stop_task 0); Wake 0; Now 0; Pick 7; Tau; Tau; Tau; Tau; Tau;
   Tau; Tau; SetShutdown; EnqueueFiber 1; TaskDone; Tau; Now 0; TaskDone; Tau; Tau; Tau].

(** The worker after the first event and [n] more. *)
Definition sample (n : nat) : Worker :=
  default (start 0 MultiThreaded 1) (run_events (take (S n) sample_events) (start 0 MultiThreaded 1)).

Lemma sample_reachable n : reachable (sample n).
Proof.
  assert (reachable (start 0 MultiThreaded 1)) as H0 by (apply reach_start; lia).
  unfold sample. destruct (run_events _ _) as [w|] eqn:E; [|done].
  by eapply run_events_reachable.
Qed.

(** ** Properties *)

(** C2. In every state a worker can reach, whatever it does next and whatever
    other threads do to it, no [MARL_ASSERT] of scheduler.cpp fails, no fiber
    is dereferenced that does not exist, no call returns to a place that is no
    call, and the work mutex is neither locked twice nor unlocked by a thread
    that does not hold it. *)
Theorem worker_never_aborts w e :
  reachable w -> legal e w ->
  match exec e w with Some (Fatal _) | Some (Undefined _) => False | _ => True end.
Proof.
  intros Hr Hl. pose proof (good_exec e w (reachable_good w Hr) Hl) as Hg.
  unfold good_outcome in Hg. by destruct (exec e w) as [[[]| |]|].
Qed.

Lemma worker_never_aborts_witness :
  match exec (EnqueueFiber 1) (sample 27) with
  | Some (Fatal _) | Some (Undefined _) => False | _ => True end.
Proof.
  apply worker_never_aborts; [apply sample_reachable|].
  apply legalb_sound. vm_compute. reflexivity.
Defined.

(** C7. The comments of [Fiber::State] hold in every reachable state until the
    thread of the worker has ended: a fiber is [Queued] exactly when it is in the
    work queue, once; [Waiting] exactly when it is registered with a timeout;
    [Idle] exactly when it is in the set of idle fibers; and only the fiber in
    [current_fiber_], which exists, is [Running].  The one exception is the end of
    a worker that was stopped and has nothing left to run: its last fiber switches
    to the main fiber, which is then [Running] though still in the set of idle
    fibers; the other fibers are where their states say. *)
Theorem fiber_state_places w f :
  reachable w -> pc w <> PExited ->
  NoDup (fibers (work_ w)) /\
  (f ∈ fibers (work_ w) <-> fiber_state w f = Some Queued) /\
  (WaitingFibers_contains f (waiting (work_ w)) = true <-> fiber_state w f = Some Waiting) /\
  is_Some (heap w !! current_fiber_ w) /\
  ((f ∈ idle_fibers_ w <-> fiber_state w f = Some Idle) /\
   (fiber_state w f = Some Running -> f = current_fiber_ w) \/
   quiescent w /\ current_fiber_ w = main_fiber_ w /\
   main_fiber_ w ∈ idle_fibers_ w /\ fiber_state w (main_fiber_ w) = Some Running /\
   (f <> main_fiber_ w -> f ∈ idle_fibers_ w <-> fiber_state w f = Some Idle)).
Proof.
  unfold WaitingFibers_contains. rewrite bool_decide_eq_true.
  intros [HI|[HD|[HE _]]]%reachable_good Hpc; [| |done].
  - split_and!; [apply HI|apply HI|apply HI| |left; split; [apply HI|]].
    + destruct (inv_current w HI) as (b & -> & _). eauto.
    + intros (b & Hb & Hs)%fiber_state_Some. destruct (decide (f = current_fiber_ w)) as [|Hne]; [done|].
      pose proof (inv_others w HI f b Hne Hb) as Hout. rewrite Hs in Hout.
      inversion Hout as [? ? ? Hp|]; subst. by destruct Hp as [?|[?|?]].
  - pose proof (drain_places w HD) as HP. destruct (drain_quiescent w HD) as (Hf & _).
    destruct (drain_main w HD) as (m & Hm & Hrun).
    assert (forall s, s <> Idle -> s <> Running -> fiber_state w f = Some s -> False) as Hst.
    { intros s H1 H2 (b & Hb & Hs)%fiber_state_Some. destruct (drained_states w HP f b Hb); congruence. }
    rewrite Hf, (drained_waiting w HP f). split_and!; [constructor| | | |right].
    + split; [by intros ?%elem_of_nil|intros H; by destruct (Hst Queued)].
    + split; [by intros []|intros H; by destruct (Hst Waiting)].
    + rewrite (drain_current w HD), Hm. eauto.
    + split; [apply HD|]. split_and!; [apply HD|apply (drained_main w HP)| |apply (drained_idle w HP)]. unfold fiber_state. rewrite Hm. simpl. f_equal.
      destruct (drain_pc w HD) as [E|[E|[E|[E|E]]]]; rewrite E in Hrun; apply Hrun.
Qed.

Lemma fiber_state_places_witness :
  1%Z ∈ fibers (work_ (sample 28)) <-> fiber_state (sample 28) 1 = Some Queued.
Proof.
  apply (fiber_state_places (sample 28) 1 (sample_reachable 28)). by vm_compute.
Defined.

(** C8. The counters never wrap: until the thread has ended, [work_.num] is the
    number of queued fibers plus the number of queued tasks, and
    [num_blocked_fibers] the number of fibers switched away from inside
    [suspend()]. *)
Theorem work_counters_exact w :
  reachable w -> pc w <> PExited ->
  num (work_ w) = (zlen (fibers (work_ w)) + zlen (tasks (work_ w)))%Z /\
  num_blocked_fibers (work_ w) = Z.of_nat (size (blocked_fibers (heap w))).
Proof.
  intros [HI|[HD|[HE _]]]%reachable_good Hpc; [| |done].
  - split; [by apply core_num_exact, HI|by apply core_blocked_exact, HI].
  - destruct (drain_quiescent w HD) as (-> & -> & Hb & _). split; [apply HD|].
    by rewrite (drain_blocked w HD).
Qed.

Lemma work_counters_exact_witness :
  pc (sample 19) = PRun /\ num_blocked_fibers (work_ (sample 19)) =
    Z.of_nat (size (blocked_fibers (heap (sample 19)))).
Proof.
  split; [by vm_compute|]. apply work_counters_exact; [apply sample_reachable|by vm_compute].
Defined.
