(* ===== verification/WorkerQueue.v ===== *)
(** The task queue of a worker is first in, first out: tasks leave it, to be
    run or to be stolen, in the order in which they were put in, and none is
    lost or duplicated. *)
From stdpp Require Import base numbers strings sets gmap list.
From S2P Require Import Prelude Task WaitingFibers Worker WorkerFrame WorkerLogic WorkerInv WorkerSafety WorkerProps.

(** The tasks an event puts in the queue, and those the outputs say have left. *)
Definition produced (e : Event) : list WTask :=
  match e with EnqueueTask t | SpinStole t => [t] | _ => [] end.

Definition consumed (os : list Out) : list WTask := mjoin (consumed_by <$> os).

Lemma consumed_app o1 o2 : consumed (o1 ++ o2) = consumed o1 ++ consumed o2.
Proof. unfold consumed. by rewrite fmap_app, join_app. Qed.

(** The tasks announced and those left are those that were there, and [ts]. *)
Definition moves (ts : list WTask) (w : Worker) (o : list Out) (w' : Worker) : Prop :=
  consumed o ++ tasks (work_ w') = tasks (work_ w) ++ ts.

Abbreviation queues m ts := (respects (moves ts) m).
Abbreviation keeps m := (queues m []).

Global Instance moves_framing : Framing (moves []).
Proof.
  split; unfold moves.
  - intros w o1 w1 o2 w2. rewrite !app_nil_r, consumed_app. intros H1 H2.
    by rewrite <- app_assoc, H2.
  - intros w w' _ -> _. by rewrite app_nil_r.
  - intros w o Ho. unfold consumed. simpl. by rewrite Ho, !app_nil_r.
Qed.

Lemma keeps_inv {A} (m : M A) w a w' o :
  keeps m -> m w = Ok (a, w', o) -> consumed o ++ tasks (work_ w') = tasks (work_ w).
Proof. intros Hm H%Hm. unfold moves in H. by rewrite app_nil_r in H. Qed.

(** ** The fragments that change the queue

    [m] run in [w] announces the tasks of [r] that it does not leave in the
    queue. *)
Definition tails {A} (m : M A) (w : Worker) (r : list WTask) : Prop :=
  forall a w' o, m w = Ok (a, w', o) -> consumed o ++ tasks (work_ w') = r.

Lemma keeps_tails {A} (m : M A) : (forall w, tails m w (tasks (work_ w))) -> keeps m.
Proof. intros Hm w a w' o H%Hm. unfold moves. by rewrite app_nil_r. Qed.

(** [m] neither changes the queue nor announces a task. *)
Definition silent {A} (m : M A) : Prop :=
  forall w a w' o, m w = Ok (a, w', o) -> tasks (work_ w') = tasks (work_ w) /\ consumed o = [].

Lemma tails_keeps {A} (m : M A) w r : keeps m -> tasks (work_ w) = r -> tails m w r.
Proof. intros Hm <- a w' o. by apply keeps_inv. Qed.

Lemma tails_get {A} (k : Worker -> M A) w r : tails (k w) w r -> tails (get ≫= k) w r.
Proof.
  intros Hk a w' o. unfold mbind, M_bind, get.
  destruct (k w w) as [[[c w2] o2]| |] eqn:E; [|done|done]. intros [= <- <- <-]. by apply Hk in E.
Qed.

Lemma tails_work {A} g (k : unit -> M A) w r :
  tails (k ()) (upd_work g w) r -> tails (work g ≫= k) w r.
Proof.
  intros Hk a w' o. unfold mbind, M_bind. destruct (work g w) as [[[[] w1] o1]| |] eqn:E1; [|done|done].
  apply work_inv in E1 as [-> ->].
  destruct (k () _) as [[[c w2] o2]| |] eqn:E; [|done|done]. intros [= <- <- <-]. by apply Hk in E.
Qed.

Lemma tails_atomic {A} g (k : unit -> M A) w r :
  tails (k ()) (upd_work g w) r -> tails (atomic g ≫= k) w r.
Proof.
  intros Hk a w' o. unfold mbind, M_bind, atomic, modify.
  destruct (k () _) as [[[c w2] o2]| |] eqn:E; [|done|done]. intros [= <- <- <-]. by apply Hk in E.
Qed.

Lemma tails_get_locked {A} (k : Worker -> M A) w r : tails (k w) w r -> tails (get_locked ≫= k) w r.
Proof.
  intros Hk a w' o. unfold mbind, M_bind. destruct (get_locked w) as [[[c w1] o1]| |] eqn:E1; [|done|done].
  apply get_locked_inv in E1 as (-> & -> & ->).
  destruct (k w w) as [[[c w2] o2]| |] eqn:E; [|done|done]. intros [= <- <- <-]. by apply Hk in E.
Qed.

Lemma tails_emit {A} x (k : unit -> M A) w t r :
  consumed_by x = [t] -> tails (k ()) w r -> tails (emit x ≫= k) w (t :: r).
Proof.
  intros Hx Hk a w' o. unfold mbind, M_bind, emit.
  destruct (k () _) as [[[c w2] o2]| |] eqn:E; [|done|done]. intros [= <- <- <-].
  rewrite <- (Hk _ _ _ E). unfold consumed. simpl. by rewrite Hx.
Qed.

Lemma tails_silent {A B} (m : M A) (k : A -> M B) w r :
  silent m -> (forall a w', tasks (work_ w') = tasks (work_ w) -> tails (k a) w' r) ->
  tails (m ≫= k) w r.
Proof.
  intros Hm Hk b w' o. unfold mbind, M_bind.
  destruct (m w) as [[[a w1] o1]| |] eqn:E1; [|done|done].
  destruct (k a w1) as [[[c w2] o2]| |] eqn:E2; [|done|done]. intros [= <- <- <-].
  apply Hm in E1 as [Ht Ho]. rewrite consumed_app, Ho. by apply (Hk a w1 Ht) in E2.
Qed.

Lemma silent_lock : silent lock_mutex.
Proof.
  intros w a w' o. unfold lock_mutex, mbind, M_bind, get.
  by destruct (mutex (work_ w)); [|intros [= <- <- <-]].
Qed.
Lemma silent_unlock : silent unlock_mutex.
Proof.
  intros w a w' o. unfold unlock_mutex, mbind, M_bind, get.
  by destruct (mutex (work_ w)); [intros [= <- <- <-]|].
Qed.
Lemma silent_push_frame k : silent (push_frame k).
Proof.
  intros w a w' o. unfold push_frame, the_fiber, mbind, M_bind, get.
  by destruct (heap w !! _); [intros [= <- <- <-]|].
Qed.

Lemma queues_enqueue_task t : queues (enqueue_task t) [t].
Proof.
  intros w. apply tails_silent; [apply silent_lock|]. intros _ w1 <-.
  apply tails_get_locked, tails_work, tails_keeps; [|done]. keeps_tac.
Qed.

Lemma queues_spin_stole t : queues (spin_stole t) [t].
Proof.
  intros w. apply tails_silent; [apply silent_lock|]. intros _ w1 <-.
  apply tails_get_locked, tails_work, tails_keeps; [|done]. keeps_tac.
Qed.

Lemma keeps_idle_loop : keeps runUntilIdle_loop.
Proof.
  apply keeps_tails. intros w. apply tails_get_locked.
  destruct (fibers (work_ w)); [destruct (tasks (work_ w)) as [|t ts] eqn:Hts|].
  - apply tails_keeps; [keeps_tac|done].
  - apply tails_atomic, tails_work, tails_silent; [apply silent_unlock|]. intros _ w1 E1.
    apply tails_silent; [apply silent_push_frame|]. intros _ w2 E2.
    apply tails_emit, tails_keeps; [done|keeps_tac|]. rewrite E2, E1. done.
  - apply tails_keeps; [keeps_tac|done].
Qed.

Lemma keeps_steal : keeps steal.
Proof.
  apply keeps_tails. intros w. apply tails_get.
  case_bool_decide; [apply tails_keeps; [keeps_tac|done]|].
  destruct (mutex (work_ w)); [apply tails_keeps; [keeps_tac|done]|].
  apply tails_silent; [apply silent_lock|]. intros _ w1 <-. apply tails_get_locked.
  destruct (tasks (work_ w1)) as [|t ts] eqn:Hts; [apply tails_keeps; [keeps_tac|done]|].
  destruct (Task_is t SameThread); [apply tails_keeps; [keeps_tac|done]|].
  apply tails_atomic, tails_work, tails_emit, tails_keeps; [done|keeps_tac|done].
Qed.

(** ** Every event *)
Lemma keeps_goto_any p : keeps (goto p).
Proof. intros w a w' o [= <- <- <-]. unfold moves. simpl. by rewrite app_nil_r. Qed.
#[local] Hint Resolve keeps_goto_any : keeps.
Lemma keeps_thread_end : keeps thread_end.
Proof. unfold thread_end. keeps_tac. Qed.
Lemma keeps_stop_single_end : keeps stop_single_end.
Proof. unfold stop_single_end. keeps_tac. Qed.
#[local] Hint Resolve keeps_thread_end keeps_stop_single_end keeps_idle_loop keeps_steal queues_enqueue_task queues_spin_stole : keeps.

Lemma code_queues e w m : code e w = Some m -> queues m (produced e).
Proof.
  destruct (external e) eqn:He.
  - rewrite code_external by done. destruct e; try done; simpl.
    + destruct (mutex (work_ w)); [done|]. intros [= <-]. auto with keeps.
    + destruct (negb _ && _); [|done]. intros [= <-]. auto with keeps.
    + intros [= <-]. auto with keeps.
    + intros [= <-]. auto with keeps.
  - unfold code. destruct (pc w), e; try done; try case_bool_decide; try done;
      intros [= <-]; simpl produced; auto with keeps.
Qed.

Lemma exec_queues e w w' o :
  exec e w = Some (Ok (w', o)) -> consumed o ++ tasks (work_ w') = tasks (work_ w) ++ produced e.
Proof.
  unfold exec. destruct (code e w) as [m|] eqn:Hc; [|done]. intros [= H].
  destruct (m w) as [[[a w1] o1]| |] eqn:Hm; simplify_eq/=. by eapply code_queues.
Qed.

(** Runs, with what was put in and what came out. *)
Inductive runs : Worker -> list WTask -> list WTask -> Worker -> Prop :=
| runs_nil w : runs w [] [] w
| runs_step w i c w1 e o w2 :
    runs w i c w1 -> legal e w1 -> exec e w1 = Some (Ok (w2, o)) ->
    runs w (i ++ produced e) (c ++ consumed o) w2.

Lemma runs_reachable w i c w' : reachable w -> runs w i c w' -> reachable w'.
Proof. intros Hr. induction 1; [done|]. eapply reach_step; [by apply IHruns|by econstructor]. Qed.

Lemma runs_queue w i c w' : runs w i c w' -> c ++ tasks (work_ w') = tasks (work_ w) ++ i.
Proof.
  induction 1 as [|w i c w1 e o w2 _ IH _ He]; [by rewrite app_nil_r|].
  by rewrite <- app_assoc, (exec_queues _ _ _ _ He), app_assoc, IH, <- app_assoc.
Qed.

(** The tasks of a run, computed. *)
Fixpoint run_tasks (es : list Event) (w : Worker) : option (list WTask * list WTask * Worker) :=
  match es with
  | [] => Some ([], [], w)
  | e :: es =>
      if legalb e w then
        match exec e w with
        | Some (Ok (w1, o)) =>
            '(i, c, w2) ← run_tasks es w1; Some (produced e ++ i, consumed o ++ c, w2)
        | _ => None
        end
      else None
  end.

Lemma run_tasks_runs es w i c w' : run_tasks es w = Some (i, c, w') -> runs w i c w'.
Proof.
  intros H. cut (forall w0 i0 c0, runs w0 i0 c0 w -> runs w0 (i0 ++ i) (c0 ++ c) w').
  { intros Hcut. apply (Hcut w [] []). constructor. }
  revert w i c H. induction es as [|e es IH]; simpl; intros w i c H w0 i0 c0 Hr.
  { simplify_eq. by rewrite !app_nil_r. }
  destruct (legalb e w) eqn:Hl; [|done].
  destruct (exec e w) as [[[w1 o]| |]|] eqn:He; try done.
  destruct (run_tasks es w1) as [[[i1 c1] w2]|] eqn:E; simplify_eq/=.
  rewrite !(assoc_L (++)). eapply IH; [done|]. econstructor; [done|by apply legalb_sound|done].
Qed.

(** ** Properties *)

(** C12. In every run of a worker, the tasks that were run or stolen, in order,
    followed by those still queued, are exactly the tasks put in its queue, in
    the order they were put in: the queue is first in, first out, and no task
    is lost or run twice. *)
Theorem tasks_fifo id mode main i c w :
  runs (start id mode main) i c w -> c ++ tasks (work_ w) = i.
Proof. intros H%runs_queue. by destruct mode. Qed.

(** C11. When a worker's thread is about to end, every task that was ever put
    in its queue has been run or stolen, no fiber is queued, and no fiber is
    left suspended in a wait: [stop()] waits for everything. *)
Theorem stop_waits_for_everything id mode main i c w :
  (0 < main < 2 ^ 62)%Z -> runs (start id mode main) i c w ->
  pc w = PThreadEnd \/ pc w = PStopEnd ->
  c = i /\ fibers (work_ w) = [] /\ shutdown w = true /\
  forall f b, heap w !! f = Some b -> is_blocked b = false.
Proof.
  intros Hmain Hr Hpc.
  assert (quiescent w) as (Hf & Ht & Hb & Hs).
  { assert (Good w) as [HI|[HD|[HE _]]]
      by (eapply reachable_good, runs_reachable; [by apply reach_start|done]).
    - apply HI. unfold ending. tauto.
    - apply HD.
    - rewrite HE in Hpc. naive_solver. }
  apply runs_queue in Hr. rewrite Ht, app_nil_r in Hr.
  split_and!; [by destruct mode|done|done|]. intros f b. by apply nblocked_zero.
Qed.

Lemma sample_runs n :
  match run_tasks (take (S n) sample_events) (start 0 MultiThreaded 1) with
  | Some (i, c, w) => runs (start 0 MultiThreaded 1) i c w
  | None => True
  end.
Proof.
  destruct (run_tasks _ _) as [[[i c] w]|] eqn:E; [by apply run_tasks_runs in E|done].
Qed.

Lemma tasks_fifo_witness :
  exists w, runs (start 0 MultiThreaded 1) [sample_task; stop_task 0] [sample_task] w /\
    [sample_task] ++ tasks (work_ w) = [sample_task; stop_task 0].
Proof.
  eexists. pose proof (sample_runs 16) as H. vm_compute in H.
  split; [exact H|]. apply (tasks_fifo 0 MultiThreaded 1). exact H.
Defined.

Lemma stop_waits_for_everything_witness :
  exists w, runs (start 0 MultiThreaded 1) [sample_task; stop_task 0] [sample_task; stop_task 0] w /\
    pc w = PThreadEnd /\ fibers (work_ w) = [].
Proof.
  eexists. pose proof (sample_runs 35) as H. vm_compute in H.
  split; [exact H|]. split; [reflexivity|].
  apply (stop_waits_for_everything 0 MultiThreaded 1 _ _ _ ltac:(lia) H). by left.
Defined.
