(* ===== verification/WorkerSpec.v ===== *)
(** What the operations of a worker do in every reachable state: notification
    of a waiting fiber, wake-up of a sleeping worker, timeouts, the order of
    the work, and the result of a wait. *)
From stdpp Require Import base numbers strings sets gmap list.
From S2P Require Import Prelude Task WaitingFibers Worker WorkerFrame WorkerLogic WorkerInv WorkerSafety WorkerProps.

Lemma exec_run e w m P :
  code e w = Some m -> wp m w (fun _ w' o => P w' o) ->
  exists w' o, exec e w = Some (Ok (w', o)) /\ P w' o.
Proof.
  intros Hc (a & w' & o & Hm & HP)%wp_exec. exists w', o. unfold exec. by rewrite Hc, Hm.
Qed.

Lemma exec_enqueue_fiber f w :
  mutex (work_ w) = false -> code (EnqueueFiber f) w = Some (enqueue_fiber f).
Proof. intros Hm. rewrite code_external by done. by rewrite Hm. Qed.

(** ** Notification *)

(** The fiber is inside a call of [wait]. *)
Definition wait_frame (k : Frame) : bool :=
  match k with KWait _ | KWaitPred _ => true | _ => false end.

Definition in_wait (w : Worker) (f : FiberPtr) : bool := existsb wait_frame (stack w f).

Section no_wait.
Context (main : FiberPtr) (mode : Mode) (f : FiberPtr).

Lemma at_run_no_wait s : at_run main mode f s -> existsb wait_frame s = false.
Proof. by destruct 1. Qed.
Lemma at_shutdown_no_wait s : at_shutdown main mode f s -> existsb wait_frame s = false.
Proof. destruct 1; simpl; [by apply at_run_no_wait|done]. Qed.
Lemma at_idle_no_wait s : at_idle main mode f s -> existsb wait_frame s = false.
Proof. destruct 1; simpl; by apply at_shutdown_no_wait. Qed.
Lemma at_user_no_wait s : at_user main mode f s -> existsb wait_frame s = false.
Proof. destruct 1; simpl; [by apply at_idle_no_wait|done]. Qed.
Lemma at_wait_parked s st : at_wait main mode f s st -> existsb wait_frame s = true -> parked st.
Proof. destruct 1; simpl; [by rewrite at_shutdown_no_wait|done]. Qed.
End no_wait.

(** When the mutex is free, a fiber inside [wait] is in one of the states from
    which it is, or will be, resumed by a notification. *)
Lemma in_wait_parked w f b :
  Inv w -> mutex (work_ w) = false -> heap w !! f = Some b -> in_wait w f = true ->
  parked (state_ b).
Proof.
  intros HI Hm Hb Ht. unfold in_wait, stack in Ht. rewrite Hb in Ht.
  destruct (decide (f = current_fiber_ w)) as [->|Hne].
  - destruct (inv_current w HI) as (b' & Hb' & Hrun). simplify_eq.
    pose proof (inv_mutex w HI) as Hpm. rewrite Hm in Hpm.
    destruct (pc w); simpl in *; try done;
      try (destruct Hrun as [Hu%at_user_no_wait _]; congruence);
      try (destruct Hrun as [Hu%at_run_no_wait _]; congruence); eauto using at_wait_parked.
    destruct Hrun as [s Hr|s st Hw]; simpl in Ht; [by rewrite (at_run_no_wait _ _ _ _ Hr) in Ht|].
    by eapply at_wait_parked.
  - pose proof (inv_others w HI f b Hne Hb) as Hout.
    inversion Hout as [|s Hidle Hs]; [done|]. rewrite <- Hs in Ht. simpl in Ht.
    by rewrite (at_idle_no_wait _ _ _ _ Hidle) in Ht.
Qed.

(** What is registered after a fiber was taken out of the waiting fibers. *)
Lemma erased_timeouts f ws ws' :
  WaitingFibers_wf ws -> WaitingFibers_wf ws' ->
  WaitingFibers.fibers ws' = delete f (WaitingFibers.fibers ws) ->
  forall t g, mkTimeout t g ∈ timeouts ws' <-> g <> f /\ mkTimeout t g ∈ timeouts ws.
Proof.
  intros H H' E t g. rewrite (wf_sync ws H), (wf_sync ws' H'), E, lookup_delete_Some. naive_solver.
Qed.

(** C9. A notification is never lost: whenever another thread can run
    [Fiber::notify] on a fiber that is inside [wait()], it runs to its end and
    leaves the fiber [Queued], in the work queue exactly once and out of the
    waiting fibers.  If the fiber was queued already, nothing at all changes;
    otherwise its state is set, it is appended to the queue and counted, its
    timeout and no other is taken out, the worker is notified if it sleeps, and
    nothing else of the worker changes. *)
Theorem notify_reaches_waiter w f :
  reachable w -> pc w <> PExited -> mutex (work_ w) = false -> in_wait w f = true ->
  exists w' o, exec (EnqueueFiber f) w = Some (Ok (w', o)) /\
    fiber_state w' f = Some Queued /\ f ∈ fibers (work_ w') /\ NoDup (fibers (work_ w')) /\
    WaitingFibers_contains f (waiting (work_ w')) = false /\
    (fiber_state w f = Some Queued /\ w' = w /\ o = [] \/
     exists b ws, heap w !! f = Some b /\ (f ∉ fibers (work_ w)) /\
       (forall t g, mkTimeout t g ∈ timeouts ws <-> g <> f /\ mkTimeout t g ∈ timeouts (waiting (work_ w))) /\
       WaitingFibers.fibers ws = delete f (WaitingFibers.fibers (waiting (work_ w))) /\
       w' = upd_heap (<[f := set_fiber_state Queued b]>)
              (upd_work (fun k => incr_num (set_waiting ws (set_fibers (fibers k ++ [f]) k))) w) /\
       num (work_ w') = (num (work_ w) + 1)%Z /\
       o = (if notify_added (work_ w) then [NotifyAdded] else [])).
Proof.
  intros Hr Hpc Hm Hin. pose proof (reachable_free w Hr Hpc Hm) as HI.
  destruct (heap w !! f) as [b|] eqn:Hb.
  2: { unfold in_wait, stack in Hin. by rewrite Hb in Hin. }
  assert (fiber_state w f = Some (state_ b)) as Hfs by (unfold fiber_state; by rewrite Hb).
  assert (forall w1, Inv w1 -> fiber_state w1 f = Some Queued -> fiber_state w1 f = Some Queued /\
    f ∈ fibers (work_ w1) /\ NoDup (fibers (work_ w1)) /\
    WaitingFibers_contains f (waiting (work_ w1)) = false) as Hplace.
  { intros w1 HI1 Hq. split_and!; [done|by apply (core_queued w1 HI1)|apply HI1|].
    apply bool_decide_eq_false. rewrite (core_waiting w1 HI1). congruence. }
  destruct (decide (state_ b = Queued)) as [Hs|Hs].
  { edestruct (exec_run (EnqueueFiber f) w) as (w' & o & He & HP);
      [by apply exec_enqueue_fiber|apply (enqueue_fiber_skip f b); auto|].
    cbn beta in HP. destruct HP as [-> ->]. exists w, []. split; [done|]. rewrite Hs in Hfs.
    destruct (Hplace w HI Hfs) as (H1 & H2 & H3 & H4). split_and!; try done. by left. }
  assert (state_ b = Yielded \/ state_ b = Waiting) as Hst
    by (destruct (in_wait_parked w f b HI Hm Hb Hin) as [?|[?|?]]; auto; done).
  edestruct (exec_run (EnqueueFiber f) w) as (w' & o & He & HP);
    [by apply exec_enqueue_fiber|apply (enqueue_fiber_queues f b); auto; apply HI|].
  cbn beta in HP. destruct HP as [[ws Hws] Ho]. exists w', o. split; [done|].
  assert (Inv w') as HI' by (eapply fiber_queued_inv; eauto). pose proof Hws as (Hwf & Hdel & E).
  destruct (Hplace w' HI') as (H1 & H2 & H3 & H4).
  { rewrite E. unfold fiber_state. simpl. by rewrite lookup_insert_eq. }
  split_and!; try done. right. exists b, ws. split_and!; try done.
  - rewrite (core_queued w HI), Hfs. congruence.
  - apply erased_timeouts; [apply HI|done|done].
  - rewrite (core_num_exact w' HI'), (core_num_exact w HI), E. simpl. rewrite length_app. simpl. lia.
Qed.

Lemma notify_reaches_waiter_witness :
  exists w' o, exec (EnqueueFiber 1) (sample 15) = Some (Ok (w', o)) /\
    1%Z ∈ fibers (work_ w').
Proof.
  destruct (notify_reaches_waiter (sample 15) 1 (sample_reachable 15)) as (w' & o & H1 & _ & H2 & _).
  - by vm_compute.
  - by vm_compute.
  - by vm_compute.
  - exists w', o. split; [exact H1|exact H2].
Defined.

(** ** Sleeping and waking *)

(** What an operation of another thread outputs on a worker that is asleep. *)
Lemma asleep_added w p d e w' o :
  Inv w -> pc w = PCvBlocked p d -> external e = true -> e <> SetShutdown -> legal e w ->
  exec e w = Some (Ok (w', o)) ->
  pc w' = PCvBlocked p d /\ mutex (work_ w') = false /\
  (NotifyAdded ∈ o \/ (wait_pred p w' = true -> wait_pred p w = true)).
Proof.
  intros HI Hpc He Hne Hl Hex.
  pose proof (inv_mutex w HI) as Hm. rewrite Hpc in Hm. simpl in Hm.
  assert (notify_added (work_ w) = true) as Hno by (apply HI; by rewrite Hpc).
  destruct (code e w) as [m|] eqn:Hcode; [|by unfold exec in Hex; rewrite Hcode in Hex].
  assert (wp m w (fun _ w1 o1 => pc w1 = PCvBlocked p d /\ mutex (work_ w1) = false /\
    (NotifyAdded ∈ o1 \/ (wait_pred p w1 = true -> wait_pred p w = true)))) as Hwp.
  2: { unfold exec in Hex. rewrite Hcode in Hex. unfold wp in Hwp.
       destruct (m w) as [[[a w1] o1]| |]; by simplify_eq/=. }
  rewrite code_external in Hcode by done.
  destruct e as [| | | | | | | | | | |f|t| |]; try done.
  - rewrite Hm in Hcode. simplify_eq.
    destruct Hl as (_ & st & (b & Hb & Hst)%fiber_state_Some & Hidle).
    destruct (decide (state_ b = Yielded \/ state_ b = Waiting)) as [Hs|Hs].
    + eapply wp_mono; [by apply (enqueue_fiber_queues f b); [apply HI|..]|].
      cbn beta. intros _ w1 o1 [(ws & _ & _ & ->) ->]. rewrite Hno. set_solver.
    + eapply wp_mono; [apply (enqueue_fiber_skip f b); try done; destruct (state_ b); naive_solver|].
      cbn beta. intros _ w1 o1 [-> ->]. auto.
  - rewrite Hm in Hcode. simpl in Hcode. case_bool_decide; simplify_eq.
    unfold enqueue_task, enqueueAndUnlock, notify_if. wp_run.
    replace (notify_added _) with true by (by symmetry). wp_run. set_solver.
  - simplify_eq. unfold steal. wp_run. case_bool_decide; wp_run; [auto|]. rewrite Hm. wp_run.
    pose proof (lock_unlock w Hm) as Hid.
    change (tasks (work_ (upd_work (set_mutex true) w))) with (tasks (work_ w)).
    destruct (tasks (work_ w)) as [|t ts] eqn:Hts; wp_run; [rewrite Hid; auto|].
    destruct (Task_is t SameThread); wp_run; [rewrite Hid; auto|].
    split_and!; [done|done|]. right. destruct p; simpl; intros _; apply orb_true_iff; [rewrite orb_true_iff|];
      [left|]; left; apply bool_decide_eq_true.
    all: rewrite (core_num_exact w HI) in *; lia.
Qed.

Lemma asleep_notified w p d e w' o :
  Inv w -> pc w = PCvBlocked p d -> external e = true -> legal e w -> exec e w = Some (Ok (w', o)) ->
  wait_pred p w = false -> wait_pred p w' = true ->
  pc w' = PCvBlocked p d /\ mutex (work_ w') = false /\ (NotifyAdded ∈ o \/ e = SetShutdown).
Proof.
  intros HI Hpc He Hl Hex Hp Hp'. assert (e = SetShutdown \/ e <> SetShutdown) as [->|Hne] by (destruct e; auto).
  - pose proof (inv_mutex w HI) as Hm. rewrite Hpc in Hm. unfold exec in Hex. rewrite code_external in Hex by done.
    cbn in Hex. simplify_eq. auto.
  - destruct (asleep_added w p d e w' o HI Hpc He Hne Hl Hex) as (? & ? & [?|Hno]); [auto|]. rewrite Hno in Hp; done.
Qed.

(** C10. No wake-up is lost but one: when an operation of another thread on a
    worker that sleeps in [Work::wait] makes the predicate it waits for true,
    the next time the condition variable wakes the worker it leaves the wait, and
    that operation calls [added.notify_one()] unless it is the body of the stop
    task, which writes [shutdown] and notifies nobody. *)
Theorem sleeping_worker_is_notified w p d e w' o now :
  reachable w -> pc w = PCvBlocked p d ->
  external e = true -> legal e w -> exec e w = Some (Ok (w', o)) ->
  wait_pred p w = false -> wait_pred p w' = true ->
  (NotifyAdded ∈ o \/ e = SetShutdown) /\
  exists w'' o', exec (Wake now) w' = Some (Ok (w'', o')) /\ sleeping (pc w'') = false.
Proof.
  intros Hr Hpc He Hl Hex Hp Hp'. pose proof (reachable_asleep w p d Hr Hpc) as HI.
  destruct (asleep_notified w p d e w' o HI Hpc He Hl Hex Hp Hp') as (Hpc' & Hm' & Ho).
  split; [done|].
  assert (Good w') as [HI'|[HD|[HE _]]].
  { apply reachable_good. eapply reach_step; [done|]. by econstructor. }
  2: { by rewrite (drain_mutex w' HD) in Hm'. }
  2: { congruence. }
  destruct (inv_current w' HI') as (b & Hb & Hrun). rewrite Hpc' in Hrun. simpl in Hrun.
  eapply (exec_run (Wake now) w' (Work_wake p d now) (fun w'' _ => sleeping (pc w'') = false)).
  { unfold code. by rewrite Hpc'. }
  unfold Work_wake. wp_run.
  replace (wait_pred p _) with true by (destruct p; exact (eq_sym Hp')). simpl. wp_run.
  unfold ret. apply wp_bind.
  inversion Hrun as [s Hs Hp1 Hk|s st Hs Hp1 Hk]; subst; (eapply wp_pop_frame; [by simplify_map_eq|done|]);
    cbn beta; wp_run; done.
Qed.

Lemma sleeping_worker_is_notified_witness :
  exists w' o, exec (EnqueueTask (stop_task 0)) (sample 15) = Some (Ok (w', o)) /\
    NotifyAdded ∈ o.
Proof.
  destruct (exec (EnqueueTask (stop_task 0)) (sample 15)) as [[[w' o]| |]|] eqn:E; [|vm_compute in E; discriminate..].
  exists w', o. split; [reflexivity|].
  destruct (sleeping_worker_is_notified (sample 15) ForWork None (EnqueueTask (stop_task 0)) w' o 0
    (sample_reachable 15)) as [[H|H] _]; [| | |exact E| | |exact H|discriminate H].
  5: { vm_compute in E. injection E as <- _. reflexivity. }
  all: vm_compute; try reflexivity; exact I.
Defined.

(** The body of the stop task makes a sleeping worker's predicate true
    without a notification: a worker thread can be asleep, with nothing
    queued, its [shutdown] set, and no wake-up on its way. *)
Theorem shutdown_without_notification :
  exists w w' p d, reachable w /\ pc w = PCvBlocked p d /\ legal SetShutdown w /\
    wait_pred p w = false /\ exec SetShutdown w = Some (Ok (w', [])) /\
    wait_pred p w' = true /\ tasks (work_ w') = [] /\ fibers (work_ w') = [].
Proof.
  eexists (sample 2), _, ForRun, None. split; [apply sample_reachable|].
  split_and!; vm_compute; reflexivity.
Qed.

(** ** Timeouts *)
Lemma ret_work w a w' o : ret w = Ok (a, w', o) -> work_ w' = work_ w /\ o = [].
Proof.
  unfold ret, pop_frame, push_frame, the_fiber, put_fiber, goto, mbind, M_bind, mret, M_ret,
    get, modify, lift, deref.
  destruct (heap w !! current_fiber_ w) as [b|]; [|done].
  destruct (impl_ b) as [|k s]; [done|].
  destruct k; simpl; try (by intros [= <- <- <-]); rewrite ?lookup_insert_eq; simpl;
    try done; by intros [= <- <- <-].
Qed.

Lemma reachable_at w p :
  reachable w -> pc w = p -> p <> PExited -> p <> PIdleLoop -> p <> PShutdownLoop ->
  ~ ending p -> Inv w.
Proof.
  intros [HI|[HD|[HE _]]]%reachable_good <- H1 H2 H3 H4; [done| |done].
  destruct (drain_pc w HD) as [?|[?|?]]; done.
Qed.

(** After a worker's wait for work, the fibers whose timeout has passed
    are queued: exactly the waiters with a timepoint not after [now] leave the
    waiting fibers and are appended to the work queue, in the order of their
    timepoints, behind the fibers already queued; every waiter that stays has
    a later timepoint, and the loop of [enqueueFiberTimeouts] ends. *)
Theorem expired_waiters_are_queued w now :
  reachable w -> pc w = PWorkDone ->
  exists w' o, exec (Now now) w = Some (Ok (w', o)) /\
    exists ts, timeouts (waiting (work_ w)) = ts ++ timeouts (waiting (work_ w')) /\
      fibers (work_ w') = fibers (work_ w) ++ (fiber <$> ts) /\
      Forall (fun x => (timepoint x <= now)%Z) ts /\
      Forall (fun x => (now < timepoint x)%Z) (timeouts (waiting (work_ w'))) /\
      tasks (work_ w') = tasks (work_ w).
Proof.
  intros Hr Hpc.
  assert (Inv w) as HI by (eapply reachable_at; eauto; unfold ending; naive_solver).
  destruct (wp_exec _ _ _ (waitForWork_done_inv now w HI Hpc)) as ([] & w' & o & Hex & _).
  exists w', o. split; [unfold exec, code; by rewrite Hpc, Hex|].
  assert (mutex (work_ w) = true) as Hmu by (by rewrite (inv_mutex w HI), Hpc).
  unfold waitForWork_done in Hex. rewrite get_locked_bind in Hex by done.
  set (m := if WaitingFibers_bool _ then _ else _) in Hex.
  assert (wp m w (fun _ w1 _ => exists ts,
    timeouts (waiting (work_ w)) = ts ++ timeouts (waiting (work_ w1)) /\
    fibers (work_ w1) = fibers (work_ w) ++ (fiber <$> ts) /\
    Forall (fun x => (timepoint x <= now)%Z) ts /\
    Forall (fun x => (now < timepoint x)%Z) (timeouts (waiting (work_ w1))) /\
    tasks (work_ w1) = tasks (work_ w))) as Hm.
  { subst m. destruct (WaitingFibers_bool _) eqn:Hb; wp_run.
    - eapply wp_mono; [apply enqueueFiberTimeouts_core; [apply HI|done|lia]|].
      cbn beta. intros _ w1 _ (Hc & _ & _ & _ & Hlate & Htasks & ts & H1 & H2 & H3).
      exists ts. split_and!; try done. apply Forall_forall. intros [t f] Hin.
      apply (Hlate f). by apply (wf_sync _ (core_waiting_wf w1 Hc)).
    - exists []. simpl. rewrite app_nil_r. split_and!; try done.
      assert (timeouts (waiting (work_ w)) = []) as ->; [|done].
      apply timeouts_nil_iff; [apply HI|]. apply not_true_iff_false in Hb.
      rewrite WaitingFibers_bool_true in Hb. by apply dec_stable. }
  apply wp_exec in Hm as ([] & w1 & o1 & Hm & HP). unfold mbind, M_bind in Hex. rewrite Hm in Hex.
  destruct (ret w1) as [[[a w2] o2]| |] eqn:Hret; simplify_eq/=.
  apply ret_work in Hret as [Hw _]. by rewrite Hw.
Qed.

(** ** The order of the work *)

(** [runUntilIdle] takes queued fibers before tasks, and both in order: the
    head of the fiber queue is switched to, the running fiber becoming idle;
    with no fiber queued the head of the task queue is run, with the mutex
    released; it returns only when both queues are empty. *)
Theorem runUntilIdle_order w :
  reachable w -> pc w = PIdleLoop -> ~ quiescent w ->
  exists w' o, exec Tau w = Some (Ok (w', o)) /\
    match fibers (work_ w), tasks (work_ w) with
    | f :: fs, ts =>
        current_fiber_ w' = f /\ fiber_state w' f = Some Running /\ o = [] /\
        fibers (work_ w') = fs /\ tasks (work_ w') = ts /\
        idle_fibers_ w' = {[current_fiber_ w]} ∪ idle_fibers_ w /\
        fiber_state w' (current_fiber_ w) = Some Idle
    | [], t :: ts =>
        current_fiber_ w' = current_fiber_ w /\ o = [RunTask t] /\ pc w' = PUser /\
        fibers (work_ w') = [] /\ tasks (work_ w') = ts /\ mutex (work_ w') = false
    | [], [] => pc w' = PShutdownLoop /\ o = [] /\ work_ w' = work_ w
    end.
Proof.
  intros Hr Hpc Hq. assert (Inv w) as HI by (apply reachable_inv; [done|congruence|done]).
  assert (code Tau w = Some runUntilIdle_loop) as Hcode by (unfold code; by rewrite Hpc).
  eapply exec_run; [done|]. open_inv HI Hpc b Hb Hrun. destruct Hrun as [Hrun Hst].
  destruct (core_state_iff w _ b HI Hb) as (Hcq & _ & Hci). rewrite Hst in Hcq, Hci.
  unfold runUntilIdle_loop. wp_run.
  destruct (fibers (work_ w)) as [|f fs] eqn:Hfs; [destruct (tasks (work_ w)) as [|t ts] eqn:Hts|].
  - inversion Hrun as [s Hs Himpl]. unfold ret. wp_run. done.
  - wp_run. done.
  - assert (fiber_state w f = Some Queued) as Hq' by (apply (core_queued w HI); rewrite Hfs; left).
    apply fiber_state_Some in Hq' as (c & Hc & Hsc).
    assert (f <> current_fiber_ w) as Hne by (intros ->; simplify_eq; congruence).
    assert (f ∉ idle_fibers_ w) as Hni.
    { rewrite (core_idle w HI). unfold fiber_state. rewrite Hc. simpl. congruence. }
    pose proof (inv_others w HI f c Hne Hc) as Hout. rewrite Hsc in Hout.
    destruct (switched_out_Queued _ _ _ _ Hout) as (k & s & Hk & (t & Hkt) & _).
    wp_run; [by intros H%Hci|].
    unfold switchToFiber. wp_run.
    { apply orb_true_iff. right. apply bool_decide_eq_true. simpl. set_solver. }
    unfold resume, suspend_resumed. wp_run.
    unfold ret. destruct Hkt as [-> | ->]; wp_run; simpl;
      unfold fiber_state; simpl; rewrite ?lookup_insert_eq; simplify_map_eq; split_and!; done.
Qed.

(** A second sample: the only fiber waits with a timeout, which passes. *)
Definition sample_timeout : list Event :=
  [Tau; Tau; Tau; EnqueueTask sample_task; Wake 0; Tau; Tau; Tau; Tau; Tau;
   CallWaitPred (Some 10%Z) false; Tau; Tau; SpinEnd; Tau; Tau; Wake 12; Now 12; Pick 1; Tau].

Definition timed (n : nat) : Worker :=
  default (start 0 MultiThreaded 1) (run_events (take (S n) sample_timeout) (start 0 MultiThreaded 1)).

Lemma timed_reachable n : reachable (timed n).
Proof.
  assert (reachable (start 0 MultiThreaded 1)) as H0 by (apply reach_start; lia).
  unfold timed. destruct (run_events _ _) as [w|] eqn:E; [|done].
  by eapply run_events_reachable.
Qed.

Lemma expired_waiters_are_queued_witness :
  timeouts (waiting (work_ (timed 16))) = [mkTimeout 10 1] /\
  exists w' o, exec (Now 12) (timed 16) = Some (Ok (w', o)) /\
    exists ts, [mkTimeout 10 1] = ts ++ timeouts (waiting (work_ w')).
Proof.
  split; [vm_compute; reflexivity|].
  destruct (expired_waiters_are_queued (timed 16) 12 (timed_reachable 16))
    as (w' & o & H & ts & Hts & _); [vm_compute; reflexivity|].
  exists w', o. split; [exact H|]. exists ts. rewrite <- Hts. vm_compute. reflexivity.
Defined.

Lemma runUntilIdle_order_witness :
  pc (sample 29) = PIdleLoop /\
  exists w' o, exec Tau (sample 29) = Some (Ok (w', o)) /\ current_fiber_ w' = 1%Z.
Proof.
  split; [vm_compute; reflexivity|].
  destruct (runUntilIdle_order (sample 29) (sample_reachable 29)) as (w' & o & He & H).
  - vm_compute. reflexivity.
  - intros (H & _). revert H. by vm_compute.
  - exists w', o. split; [exact He|]. change (fibers (work_ (sample 29))) with [1%Z] in H. apply H.
Defined.

(** ** The result of a wait *)

(** [wait(lock, timeout, pred)], once its fiber was resumed and holds the
    caller's lock again, first looks at the clock: if the timeout has passed
    it returns false, whatever the predicate says; otherwise it returns true
    when the predicate holds, and when it does not it goes back to [suspend()]
    with the work mutex taken before the caller's lock is released. *)
Theorem wait_result w timeout now pred :
  reachable w -> pc w = PWaitRelock timeout ->
  exists w' o, exec (Relock now pred) w = Some (Ok (w', o)) /\
    if negb (not_reached timeout now)
    then o = [LockWaitLock; WaitReturned false] /\ pc w' = PUser
    else if pred then o = [LockWaitLock; WaitReturned true] /\ pc w' = PUser
    else o = [LockWaitLock; UnlockWaitLock] /\ pc w' = PSuspend timeout /\
         mutex (work_ w') = true /\ in_wait w' (current_fiber_ w') = true.
Proof.
  intros Hr Hpc.
  assert (Inv w) as HI by (eapply reachable_at; eauto; unfold ending; naive_solver).
  open_inv HI Hpc b Hb Hrun. eapply exec_run; [unfold code; by rewrite Hpc|].
  unfold wait_pred_relock, wait_pred_loop. wp_run.
  destruct (not_reached timeout now); simpl; [destruct pred|]; wp_run; [done| |done].
  split_and!; try done. unfold in_wait, stack. simpl. by rewrite lookup_insert_eq.
Qed.

Lemma wait_result_witness :
  pc (timed 19) = PWaitRelock (Some 10%Z) /\
  exists w', exec (Relock 12 true) (timed 19) = Some (Ok (w', [LockWaitLock; WaitReturned false])).
Proof.
  split; [vm_compute; reflexivity|].
  destruct (wait_result (timed 19) (Some 10%Z) 12 true (timed_reachable 19))
    as (w' & o & He & H); [vm_compute; reflexivity|].
  exists w'. destruct H as [<- _]. exact He.
Defined.

(** The comment of [ConditionVariable::wait_until] promises false only
    when the predicate is still false at the timeout; there is a run in which
    the wait of a fiber returns false although its predicate holds. *)
Theorem wait_until_false_with_predicate_true :
  exists es w' o, run_events es (start 0 MultiThreaded 1) = Some w' /\
    exec (Relock 12 true) w' = Some o /\
    match o with Ok (_, outs) => WaitReturned false ∈ outs | _ => False end.
Proof.
  exists sample_timeout, (timed 19). eexists. split; [vm_compute; reflexivity|].
  split; [vm_compute; reflexivity|]. vm_compute. right. left.
Qed.

(** ** From a sleeping worker to its next task *)

Lemma exec_all_cons e es w m (P : Worker -> list Out -> Prop) :
  code e w = Some m ->
  wp m w (fun _ w1 o1 => exists w' o2, exec_all es w1 = Ok (w', o2) /\ P w' (o1 ++ o2)) ->
  exists w' o, exec_all (e :: es) w = Ok (w', o) /\ P w' o.
Proof.
  intros Hc (a & w1 & o1 & Hm & w' & o2 & He & HP)%wp_exec. exists w', (o1 ++ o2).
  simpl. unfold exec. rewrite Hc, Hm. simpl. by rewrite He.
Qed.

(** No timeout has passed: the loop of [enqueueFiberTimeouts] does nothing. *)
Lemma no_timeout_passed w now :
  mutex (work_ w) = true -> WaitingFibers_wf (waiting (work_ w)) ->
  Forall (fun x => (now < timepoint x)%Z) (timeouts (waiting (work_ w))) ->
  wp (if WaitingFibers_bool (waiting (work_ w))
      then enqueueFiberTimeouts (S (length (timeouts (waiting (work_ w))))) now else pass) w
    (fun _ w' o => w' = w /\ o = []).
Proof.
  intros Hm Hwf Hall. destruct (WaitingFibers_bool _); wp_run; [|done]. simpl. wp_run.
  destruct (WaitingFibers_take_ok now _ Hwf) as (o & ws & Htake & _ & Ho).
  destruct o as [f|].
  - destruct Ho as (t & Hts & Hle & _). rewrite Hts in Hall. inversion Hall; simpl in *. lia.
  - destruct Ho as [-> _]. wp_run. by destruct w as [? ? ? ? []].
Qed.

(** A worker that sleeps in [runUntilShutdown] with a task queued, no
    fiber queued and no timeout passed, runs that task within four steps of
    being woken. *)
Theorem woken_worker_runs_task w d s t ts now :
  reachable w -> pc w = PCvBlocked ForWork d ->
  stack w (current_fiber_ w) = KWorkWait :: KShutdownWait :: s ->
  fibers (work_ w) = [] -> tasks (work_ w) = t :: ts ->
  Forall (fun x => (now < timepoint x)%Z) (timeouts (waiting (work_ w))) ->
  exists w' o, exec_all [Wake now; Now now; Tau; Tau] w = Ok (w', o) /\
    (o = [RunTask t] /\ pc w' = PUser /\ tasks (work_ w') = ts).
Proof.
  intros Hr Hpc Hs Hf Ht Hlate. pose proof (reachable_asleep w _ _ Hr Hpc) as HI.
  open_inv HI Hpc b Hb Hrun. unfold stack in Hs. rewrite Hb in Hs.
  assert (state_ b = Running) as Hst.
  { rewrite Hs in Hrun. inversion Hrun as [|? ? Hw]; subst. by inversion Hw. }
  pose proof (core_num_exact w HI) as Hnum. rewrite Hf, Ht in Hnum. simpl in Hnum.
  eapply exec_all_cons; [unfold code; by rewrite Hpc|]. unfold Work_wake. wp_run.
  replace (wait_pred ForWork _) with true
    by (symmetry; apply orb_true_iff; left; apply bool_decide_eq_true; simpl; lia).
  cbn [orb]. wp_run. unfold ret. wp_run.
  eapply exec_all_cons; [done|]. unfold waitForWork_done. wp_run.
  eapply wp_mono; [apply no_timeout_passed; [done|apply HI|done]|]. cbn beta. intros _ w1 o1 [-> ->].
  unfold ret. wp_run.
  eapply exec_all_cons; [done|]. unfold runUntilIdle. wp_run.
  { simpl. rewrite (core_num w HI). done. }
  eapply exec_all_cons; [done|]. unfold runUntilIdle_loop. wp_run.
  cbn [fibers tasks work_ upd_work upd_heap upd_pc set_notify set_mutex]. rewrite Hf, Ht.
  wp_run. eexists _, _. split; [done|]. done.
Qed.

Lemma woken_worker_runs_task_witness :
  exists w w' o, tasks (work_ w) = [sample_task] /\
    exec_all [Wake 0; Now 0; Tau; Tau] w = Ok (w', o) /\ o = [RunTask sample_task].
Proof.
  set (es := [Tau; Tau; Tau; EnqueueTask sample_task; Wake 0; Tau; Tau; Tau; Tau; Tau; TaskDone; Tau;
              Tau; Tau; SpinEnd; Tau; Tau; EnqueueTask sample_task]).
  destruct (run_events es (start 0 MultiThreaded 1)) as [w|] eqn:E; [|vm_compute in E; discriminate].
  assert (reachable w) as Hr.
  { eapply run_events_reachable; [apply reach_start|exact E]. lia. }
  assert (w = default (start 0 MultiThreaded 1) (run_events es (start 0 MultiThreaded 1))) as Ew
    by (rewrite E; reflexivity).
  clear E. vm_compute in Ew.
  destruct (woken_worker_runs_task w None [KRunShutdown; KThread] sample_task [] 0 Hr)
    as (w' & o & H & Ho & _); rewrite ?Ew; try reflexivity; [constructor|].
  exists w, w', o. split; [rewrite Ew; reflexivity|]. split; [exact H|exact Ho].
Defined.
