(* ===== verification/Scheduler.v ===== *)
(** The scheduler: [marl::Scheduler] (src/src/scheduler.cpp,
    src/include/marl/scheduler.hpp), which owns the worker threads of Worker.v
    and the workers of the threads bound to it, gives them tasks and lets an
    idle worker steal from another one.

    [Scheduler] is its state, and the operations on it are functions.  A
    [System] adds what the threads that call them hold in local variables, and
    its step function interleaves the steps of all threads; the steps of a
    worker are those of Worker.v. *)
From stdpp Require Import base numbers strings sets gmap list.
From S2P Require Import Prelude Task WaitingFibers Worker.

Abbreviation Tid := nat (only parsing).

(** [MaxWorkerThreads], the size of [worker_threads_]. *)
Definition MaxWorkerThreads : Z := 256.

Record Scheduler := mkScheduler {
  count : Z;                            (* cfg_.worker_thread.count *)
  spinning_workers_ : list Z;
  next_spinning_worker_index_ : Z;
  next_enqueue_index_ : Z;
  worker_threads_ : list Worker;
  by_tid : gmap Tid Worker;             (* single_threaded_workers_.by_tid *)
  bound : gset Tid                      (* the threads where [bound] is this *)
}.

(** Which worker: a worker thread, or the worker of a bound thread. *)
Inductive Ref := WT (i : nat) | ST (tid : Tid).

Global Instance Ref_eq_dec : EqDecision Ref.
Proof. solve_decision. Defined.

Definition worker (s : Scheduler) (r : Ref) : option Worker :=
  match r with WT i => worker_threads_ s !! i | ST tid => by_tid s !! tid end.

Definition set_worker (r : Ref) (w : Worker) (s : Scheduler) : Scheduler :=
  match r with
  | WT i => mkScheduler (count s) (spinning_workers_ s) (next_spinning_worker_index_ s)
              (next_enqueue_index_ s) (<[i := w]> (worker_threads_ s)) (by_tid s) (bound s)
  | ST tid => mkScheduler (count s) (spinning_workers_ s) (next_spinning_worker_index_ s)
              (next_enqueue_index_ s) (worker_threads_ s) (<[tid := w]> (by_tid s)) (bound s)
  end.

(** [(int)id]: the value of a [uint32_t] as an [int]. *)
Definition to_int (z : Z) : Z := if bool_decide (z < 2 ^ 31)%Z then z else z - 2 ^ 32.

(** [onBeginSpinning]: the post-increment yields the old index. *)
Definition onBeginSpinning (worker_id : Z) (s : Scheduler) : Scheduler :=
  let idx := (next_spinning_worker_index_ s mod 8)%Z in
  mkScheduler (count s) (<[Z.to_nat idx := worker_id]> (spinning_workers_ s))
    (u32 (next_spinning_worker_index_ s + 1)) (next_enqueue_index_ s)
    (worker_threads_ s) (by_tid s) (bound s).

(** What the outputs of the worker with this [id_] do to the scheduler. *)
Definition apply_out (id : Z) (s : Scheduler) (o : Out) : Scheduler :=
  match o with BeginSpinning => onBeginSpinning (to_int id) s | _ => s end.

(** An event of one worker. *)
Definition on_worker (r : Ref) (e : Event) (s : Scheduler)
  : option (Result (Scheduler * list Out)) :=
  w ← worker s r;
  res ← exec e w;
  Some ('(w', o) ← res; Ok (foldl (apply_out (worker_id w)) (set_worker r w' s) o, o)).

(** ** The constructor *)
Fixpoint start_workers (id : nat) (mains : list FiberPtr) : list Worker :=
  match mains with
  | [] => []
  | main :: mains => start (Z.of_nat id) MultiThreaded main :: start_workers (S id) mains
  end.

(** [Scheduler::Scheduler] for [count] worker threads, whose main fibers get
    the addresses [mains]; [worker_threads_] is an array of fixed size. *)
Definition construct (n : Z) (mains : list FiberPtr) : Result Scheduler :=
  if bool_decide (n <= MaxWorkerThreads)%Z
  then Ok (mkScheduler n (replicate 8 (-1)%Z) (0x8000000) 0
             (start_workers 0 (take (Z.to_nat n) mains)) ∅ ∅)
  else Undefined "worker_threads_ indexed past its end".

(** ** bind, unbind *)
Definition set_bound (b : gset Tid) (m : gmap Tid Worker) (s : Scheduler) : Scheduler :=
  mkScheduler (count s) (spinning_workers_ s) (next_spinning_worker_index_ s)
    (next_enqueue_index_ s) (worker_threads_ s) m b.

Definition bind (tid : Tid) (main : FiberPtr) (s : Scheduler) : Result Scheduler :=
  _ ← MARL_ASSERT (bool_decide (tid ∉ bound s)) "Scheduler already bound";
  Ok (set_bound ({[tid]} ∪ bound s)
        (match by_tid s !! tid with
         | Some _ => by_tid s         (* emplace keeps the old entry *)
         | None => <[tid := start (u32 (-1)) SingleThreaded main]> (by_tid s)
         end) s).

(** [unbind] up to its call of [worker->stop()], which the worker then runs,
    and from its return on; the boolean is [unbind.notify_one()].  A worker of
    a bound thread is named by its thread here, so that the entry found for the
    thread is its worker, which [unbind] asserts. *)
Definition unbind_begin (tid : Tid) (s : Scheduler) : Result (option Scheduler) :=
  _ ← MARL_ASSERT (bool_decide (tid ∈ bound s)) "No scheduler bound";
  match on_worker (ST tid) CallStop s with
  | Some r => '(s', _) ← r; Ok (Some s')
  | None => Ok None
  end.

Definition unbind_end (tid : Tid) (s : Scheduler) : Result (Scheduler * bool) :=
  _ ← MARL_ASSERT (bool_decide (is_Some (by_tid s !! tid))) "singleThreadedWorker not found";
  let m := delete tid (by_tid s) in
  Ok (set_bound (bound s ∖ {[tid]}) m s, bool_decide (m = ∅)).

(** The condition [~Scheduler] waits for first. *)
Definition all_unbound (s : Scheduler) : bool := bool_decide (by_tid s = ∅).

(** ** enqueue *)
Inductive Enqueued :=
| Done (s : Scheduler) (r : Ref) (notified : bool)
| Again (s : Scheduler).

(** [notified] of [enqueueAndUnlock]. *)
Definition notified (o : list Out) : bool := existsb (fun x => match x with NotifyAdded => true | _ => false end) o.

(** [worker->enqueue(task)] and [worker->enqueueAndUnlock(task)]. *)
Definition give (r : Ref) (m : M unit) (s : Scheduler) : Result Enqueued :=
  w ← deref (worker s r) "null Worker";
  '(_, w', o) ← m w;
  Ok (Done (set_worker r w' s) r (notified o)).

(** One turn of the loop of [enqueue]; [busy] tells that some other thread holds
    the mutex of the worker at this moment. *)
Definition enqueue_try (busy : bool) (t : WTask) (s : Scheduler) : Result Enqueued :=
  let nsi := u32 (next_spinning_worker_index_ s - 1) in
  let i := Z.to_nat (nsi mod 8) in
  idx0 ← deref (spinning_workers_ s !! i) "spinning_workers_ index";
  let spinning := <[i := (-1)%Z]> (spinning_workers_ s) in
  let '(idx, nei) :=
    if bool_decide (idx0 < 0)%Z
    then ((next_enqueue_index_ s mod count s)%Z, u32 (next_enqueue_index_ s + 1))
    else (idx0, next_enqueue_index_ s) in
  let s := mkScheduler (count s) spinning nsi nei (worker_threads_ s) (by_tid s) (bound s) in
  w ← deref (worker_threads_ s !! Z.to_nat idx) "worker_threads_ index";
  if busy then Ok (Again s)
  else
    '(locked, w, _) ← tryLock w;
    if (locked : bool) then give (WT (Z.to_nat idx)) (enqueueAndUnlock t) (set_worker (WT (Z.to_nat idx)) w s)
    else Ok (Again s).

(** The loop, for as many turns as [busy] has entries. *)
Fixpoint enqueue_loop (busy : list bool) (t : WTask) (s : Scheduler) : Result Enqueued :=
  match busy with
  | [] => Ok (Again s)
  | b :: busy =>
      r ← enqueue_try b t s;
      match r with
      | Done s r n => Ok (Done s r n)
      | Again s => enqueue_loop busy t s
      end
  end.

(** [enqueue] called where [Worker::getCurrent()] is [cur]. *)
Definition enqueue (cur : option Ref) (busy : list bool) (t : WTask) (s : Scheduler)
  : Result Enqueued :=
  if Task_is t SameThread then
    r ← deref cur "Worker::getCurrent() is null";
    give r (enqueue_task t) s
  else if bool_decide (count s > 0)%Z then enqueue_loop busy t s
  else
    match cur with
    | Some r => give r (enqueue_task t) s
    | None => fatal "singleThreadedWorker not found. Did you forget to call marl::Scheduler::bind()?"
    end.

(** ** stealWork *)
(** [stealWork(thief, from, out)] of worker thread [thief]. *)
Definition stealWork (thief : nat) (from : Z) (s : Scheduler) : Result (option WTask * Scheduler) :=
  if bool_decide (count s > 0)%Z then
    let i := Z.to_nat (u64 from mod count s) in
    w ← deref (worker_threads_ s !! i) "worker_threads_ index";
    if bool_decide (i ≠ thief) then
      '(b, w', o) ← steal w;
      if (b : bool) then
        match o with
        | Stolen t :: _ => Ok (Some t, set_worker (WT i) w' s)
        | _ => Ok (None, set_worker (WT i) w' s)
        end
      else Ok (None, set_worker (WT i) w' s)
    else Ok (None, s)
  else Ok (None, s).

(** [FaskRnd::operator()], a xorshift generator on [uint64_t]. *)
Definition FaskRnd_next (x : Z) : Z :=
  let x := Z.lxor x (u64 (Z.shiftl x 13)) in
  let x := Z.lxor x (Z.shiftr x 7) in
  Z.lxor x (u64 (Z.shiftl x 17)).
