(* ===== verification/SchedulerProps.v ===== *)
(** What holds of the operations of the scheduler by themselves: the indices
    they compute stay in range, the loop of [enqueue] ends, and the generator
    that picks the victims of [stealWork] does not get stuck. *)
From stdpp Require Import base numbers strings sets gmap list.
From S2P Require Import Prelude Task WaitingFibers Worker WorkerLogic Scheduler.

(** ** Well-formed schedulers *)
Record SchedWf (s : Scheduler) : Prop := {
  wf_count : count s = zlen (worker_threads_ s);
  wf_max : (count s <= MaxWorkerThreads)%Z;
  wf_slots : length (spinning_workers_ s) = 8;
  wf_slot : Forall (fun x => -1 <= x < count s)%Z (spinning_workers_ s);
  wf_spin_index : (0 <= next_spinning_worker_index_ s < 2 ^ 32)%Z;
  wf_enqueue_index : (0 <= next_enqueue_index_ s < 2 ^ 32)%Z
}.

(** Changing a worker. *)
Lemma worker_set_eq s r w w' : worker s r = Some w -> worker (set_worker r w' s) r = Some w'.
Proof.
  destruct r as [i|tid]; simpl; [|by rewrite lookup_insert_eq].
  intros H%lookup_lt_Some. by apply list_lookup_insert_eq.
Qed.

Lemma worker_set_ne s r r' w' : r <> r' -> worker (set_worker r w' s) r' = worker s r'.
Proof.
  destruct r as [i|tid], r' as [j|tid']; simpl; intros Hne; try done.
  - apply list_lookup_insert_ne. congruence.
  - apply lookup_insert_ne. congruence.
Qed.

Lemma worker_set_Some s r r' w w' w1 :
  worker s r = Some w -> worker (set_worker r w' s) r' = Some w1 ->
  (r' = r /\ w1 = w') \/ (r' <> r /\ worker s r' = Some w1).
Proof.
  intros Hw H. destruct (decide (r' = r)) as [->|Hne]; [left|right].
  - rewrite (worker_set_eq _ _ w) in H by done. by simplify_eq.
  - rewrite worker_set_ne in H by done. done.
Qed.

Lemma set_worker_wf r w s : SchedWf s -> SchedWf (set_worker r w s).
Proof. intros [H1 H2 H3 H4 H5 H6]. destruct r; split; simpl; rewrite ?length_insert; done. Qed.

Lemma onBeginSpinning_wf i s :
  SchedWf s -> (-1 <= i < count s)%Z -> SchedWf (onBeginSpinning i s).
Proof.
  intros [H1 H2 H3 H4 H5 H6] Hi. split; simpl; rewrite ?length_insert; try done.
  - by apply Forall_insert.
  - apply u32_range.
Qed.

Lemma apply_out_worker id s o r : worker (apply_out id s o) r = worker s r.
Proof. by destruct o, r. Qed.

Lemma apply_outs_worker id o s r : worker (foldl (apply_out id) s o) r = worker s r.
Proof.
  revert s. induction o as [|x o IH]; simpl; intros s; [done|]. by rewrite IH, apply_out_worker.
Qed.

Lemma apply_outs_wf id o s :
  SchedWf s -> (-1 <= to_int id < count s)%Z ->
  SchedWf (foldl (apply_out id) s o) /\ count (foldl (apply_out id) s o) = count s.
Proof.
  revert s. induction o as [|x o IH]; simpl; intros s Hs Hid; [done|].
  assert (count (apply_out id s x) = count s) as Hc by (by destruct x).
  rewrite <- Hc. apply IH; [|by rewrite Hc].
  destruct x; try done. by apply onBeginSpinning_wf.
Qed.

(** ** One turn of [enqueue] *)

(** The worker it tries, and the scheduler it leaves when that one is locked. *)
Definition try_slot (s : Scheduler) : nat :=
  Z.to_nat (u32 (next_spinning_worker_index_ s - 1) mod 8).

Definition try_index (s : Scheduler) : nat :=
  match spinning_workers_ s !! try_slot s with
  | Some idx => if bool_decide (idx < 0)%Z then Z.to_nat (next_enqueue_index_ s mod count s)
                else Z.to_nat idx
  | None => 0
  end.

Definition turn (s : Scheduler) : Scheduler :=
  mkScheduler (count s) (<[try_slot s := (-1)%Z]> (spinning_workers_ s))
    (u32 (next_spinning_worker_index_ s - 1))
    (match spinning_workers_ s !! try_slot s with
     | Some idx => if bool_decide (idx < 0)%Z then u32 (next_enqueue_index_ s + 1)
                   else next_enqueue_index_ s
     | None => next_enqueue_index_ s
     end) (worker_threads_ s) (by_tid s) (bound s).

Lemma try_slot_lt s : (try_slot s < 8)%nat.
Proof. unfold try_slot. pose proof (Z.mod_pos_bound (u32 (next_spinning_worker_index_ s - 1)) 8). lia. Qed.

Lemma slot_Some s : SchedWf s -> exists idx,
  spinning_workers_ s !! try_slot s = Some idx /\ (-1 <= idx < count s)%Z.
Proof.
  intros Hs. destruct (lookup_lt_is_Some_2 (spinning_workers_ s) (try_slot s)) as [idx Hi].
  { rewrite (wf_slots s Hs). apply try_slot_lt. }
  exists idx. split; [done|]. pose proof (wf_slot s Hs) as H. rewrite Forall_lookup in H. eauto.
Qed.

Lemma turn_wf s : SchedWf s -> SchedWf (turn s).
Proof.
  intros Hs. destruct (slot_Some s Hs) as (idx & Hi & Hr).
  split; simpl; rewrite ?length_insert; try apply Hs.
  - apply Forall_insert; [apply Hs|lia].
  - apply u32_range.
  - rewrite Hi. case_bool_decide; [apply u32_range|apply Hs].
Qed.

Lemma try_index_lt s :
  SchedWf s -> (count s > 0)%Z -> (try_index s < length (worker_threads_ s))%nat.
Proof.
  intros Hs Hc. destruct (slot_Some s Hs) as (idx & Hi & Hr). unfold try_index. rewrite Hi.
  pose proof (wf_count s Hs). pose proof (Z.mod_pos_bound (next_enqueue_index_ s) (count s)).
  case_bool_decide; lia.
Qed.

(** [tryLock] and [enqueueAndUnlock] are [enqueue] of the task. *)
Lemma try_give i w t s :
  worker s (WT i) = Some w -> mutex (work_ w) = false ->
  give (WT i) (enqueueAndUnlock t) (set_worker (WT i) (upd_work (set_mutex true) w) s) =
  give (WT i) (enqueue_task t) s.
Proof.
  intros Hw Hm. unfold give. rewrite (worker_set_eq _ _ w) by done. rewrite Hw. simpl.
  unfold enqueue_task, lock_mutex. unfold mbind at 3, M_bind at 1. unfold mbind at 3, M_bind at 1.
  cbn [get]. unfold get. cbn beta iota. rewrite Hm. unfold work, modify.
  destruct (enqueueAndUnlock t (upd_work (set_mutex true) w)) as [[[a w1] o]| |]; [|done|done].
  simpl. by rewrite list_insert_insert_eq.
Qed.

Lemma enqueue_try_spec busy t s :
  SchedWf s -> (count s > 0)%Z ->
  exists w, worker_threads_ s !! try_index s = Some w /\
    enqueue_try busy t s =
      if busy || mutex (work_ w) then Ok (Again (turn s))
      else give (WT (try_index s)) (enqueue_task t) (turn s).
Proof.
  intros Hs Hc. destruct (lookup_lt_is_Some_2 _ _ (try_index_lt s Hs Hc)) as [w Hw].
  exists w. split; [done|]. destruct (slot_Some s Hs) as (idx & Hi & Hr).
  pose proof Hw as Hw'. unfold enqueue_try. fold (try_slot s). rewrite Hi. simpl deref.
  cbn [mbind result_bind].
  unfold try_index in Hw' |- *. unfold turn. rewrite Hi in Hw' |- *.
  case_bool_decide; cbn [mbind result_bind worker_threads_]; rewrite Hw'; simpl deref;
    cbn [mbind result_bind]; (destruct busy; [done|]); unfold tryLock;
    unfold mbind at 2, M_bind at 1, get; simpl (_ || _);
    (destruct (mutex (work_ w)) eqn:Hm; [done|]).
  all: unfold lock_mutex, mbind, M_bind, result_bind, get; rewrite Hm; simpl;
    by rewrite <- (try_give _ w).
Qed.

(** ** The loop of [enqueue] *)
Definition turns (n : nat) (s : Scheduler) : Scheduler := Nat.iter n turn s.

Lemma turns_S n s : turns (S n) s = turn (turns n s).
Proof. done. Qed.

Lemma turns_turn n s : turns n (turn s) = turns (S n) s.
Proof. unfold turns. symmetry. apply Nat.iter_succ_r. Qed.

Lemma turns_wf n s : SchedWf s -> SchedWf (turns n s).
Proof. intros Hs. induction n; [done|]. by apply turn_wf. Qed.

Lemma turns_same n s :
  count (turns n s) = count s /\ worker_threads_ (turns n s) = worker_threads_ s /\
  by_tid (turns n s) = by_tid s.
Proof. induction n; [done|]. by rewrite turns_S. Qed.

Lemma turns_spin_index n s :
  SchedWf s ->
  next_spinning_worker_index_ (turns n s) = u32 (next_spinning_worker_index_ s - Z.of_nat n).
Proof.
  intros Hs. induction n as [|n IH].
  - simpl. rewrite Z.sub_0_r. symmetry. apply u32_small, Hs.
  - rewrite turns_S. simpl. rewrite IH. autorewrite with width. f_equal. lia.
Qed.

(** The slot of turn [k]. *)
Lemma turns_slot k s :
  SchedWf s ->
  try_slot (turns k s) = Z.to_nat ((next_spinning_worker_index_ s - 1 - Z.of_nat k) mod 8).
Proof.
  intros Hs. unfold try_slot. rewrite turns_spin_index by done. autorewrite with width.
  rewrite (u32_mod_pow2 _ 3) by lia. do 2 f_equal. lia.
Qed.

(** After eight turns every slot of the spinning workers has been emptied. *)
Lemma turns_cleared k m s :
  SchedWf s -> (m < k)%nat -> spinning_workers_ (turns k s) !! try_slot (turns m s) = Some (-1)%Z.
Proof.
  intros Hs. induction k as [|k IH]; [lia|]. intros Hm. rewrite turns_S. simpl.
  destruct (decide (try_slot (turns k s) = try_slot (turns m s))) as [E|E].
  - rewrite E. apply list_lookup_insert_eq. rewrite (wf_slots _ (turns_wf k s Hs)). apply try_slot_lt.
  - rewrite list_lookup_insert_ne by done. apply IH.
    destruct (decide (m = k)) as [->|]; [done|lia].
Qed.

Lemma turns_empty k s :
  SchedWf s -> (8 <= k)%nat -> spinning_workers_ (turns k s) !! try_slot (turns k s) = Some (-1)%Z.
Proof.
  intros Hs Hk. set (m := (k mod 8)%nat).
  assert (try_slot (turns k s) = try_slot (turns m s)) as ->.
  { rewrite !turns_slot by done. f_equal. unfold m. rewrite Nat2Z.inj_mod.
    change (Z.of_nat 8) with 8%Z. by rewrite Zminus_mod_idemp_r. }
  apply turns_cleared; [done|]. pose proof (Nat.mod_upper_bound k 8). lia.
Qed.

(** From then on the worker threads are tried in turn. *)
Lemma turns_round_robin m s :
  SchedWf s ->
  next_enqueue_index_ (turns (8 + m) s) = u32 (next_enqueue_index_ (turns 8 s) + Z.of_nat m) /\
  try_index (turns (8 + m) s) =
    Z.to_nat (u32 (next_enqueue_index_ (turns 8 s) + Z.of_nat m) mod count s).
Proof.
  intros Hs.
  assert (next_enqueue_index_ (turns (8 + m) s) = u32 (next_enqueue_index_ (turns 8 s) + Z.of_nat m))
    as Hn.
  { induction m as [|m IH].
    - rewrite Nat.add_0_r, Z.add_0_r. symmetry. apply u32_small, turns_wf, Hs.
    - rewrite Nat.add_succ_r, turns_S. unfold turn. cbn [next_enqueue_index_].
      rewrite (turns_empty (8 + m)) by (done || lia).
      rewrite bool_decide_eq_true_2 by lia. rewrite IH. autorewrite with width. f_equal. lia. }
  split; [done|]. unfold try_index. rewrite (turns_empty (8 + m)) by (done || lia).
  rewrite bool_decide_eq_true_2 by lia. rewrite Hn. by destruct (turns_same (8 + m) s) as (-> & _).
Qed.

(** A counter of 32 bits that wraps still takes every residue modulo [c] within
    [2 * c] steps. *)
Lemma counter_hits c n i :
  (0 < c <= 2 ^ 31)%Z -> (0 <= i < c)%Z -> (0 <= n < 2 ^ 32)%Z ->
  exists m, (0 <= m < 2 * c)%Z /\ (u32 (n + m) mod c = i)%Z.
Proof.
  intros Hc Hi Hn. destruct (decide (n + c <= 2 ^ 32)%Z) as [Hw|Hw].
  - exists ((i - n) mod c)%Z. pose proof (Z.mod_pos_bound (i - n) c).
    split; [lia|]. rewrite u32_small by lia.
    rewrite Zplus_mod_idemp_r. replace (n + (i - n))%Z with i by lia. by apply Z.mod_small.
  - exists (2 ^ 32 - n + i)%Z. split; [lia|].
    replace (n + (2 ^ 32 - n + i))%Z with (i + 1 * 2 ^ 32)%Z by lia.
    unfold u32. rewrite Z.mod_add by lia. rewrite (Z.mod_small i (2 ^ 32)) by lia.
    by apply Z.mod_small.
Qed.

Lemma turns_reach i s :
  SchedWf s -> (i < length (worker_threads_ s))%nat ->
  exists k, (k < 8 + 2 * length (worker_threads_ s))%nat /\ try_index (turns k s) = i.
Proof.
  intros Hs Hi. pose proof (wf_count s Hs) as Hc. pose proof (wf_max s Hs) as Hmax.
  unfold MaxWorkerThreads in Hmax.
  destruct (counter_hits (count s) (next_enqueue_index_ (turns 8 s)) (Z.of_nat i))
    as (m & Hm & E); [lia|lia|apply turns_wf, Hs|].
  exists (8 + Z.to_nat m)%nat. split; [lia|].
  destruct (turns_round_robin (Z.to_nat m) s Hs) as [_ ->]. rewrite Z2Nat.id, E by lia. lia.
Qed.

(** The loop, when turn [k] is the first to find a worker that is not locked. *)
Lemma enqueue_loop_turns k n t s w :
  SchedWf s -> (count s > 0)%Z -> (k < n)%nat ->
  worker_threads_ s !! try_index (turns k s) = Some w -> mutex (work_ w) = false ->
  exists j w', (j <= k)%nat /\ worker_threads_ s !! try_index (turns j s) = Some w' /\
    mutex (work_ w') = false /\
    enqueue_loop (replicate n false) t s =
      give (WT (try_index (turns j s))) (enqueue_task t) (turns (S j) s).
Proof.
  revert k s. induction n as [|n IH]; intros k s Hs Hc Hk Hw Hm; [lia|]. simpl.
  destruct (enqueue_try_spec false t s Hs Hc) as (w0 & Hw0 & ->). simpl.
  destruct (mutex (work_ w0)) eqn:Hm0; simpl.
  - destruct k as [|k]; [simpl in Hw; congruence|].
    destruct (IH k (turn s)) as (j & w' & Hj & H1 & H2 & H3);
      [by apply turn_wf|done|lia|by rewrite turns_turn|done|].
    exists (S j), w'. rewrite !turns_turn in *. split_and!; [lia|done|done|done].
  - exists 0%nat, w0. split_and!; [lia|done|done|].
    unfold give at 1. unfold give. destruct (worker _ _); [|done]. simpl.
    by destruct (enqueue_task t _) as [[[? ?] ?]| |].
Qed.

(** [enqueue] of a task on a worker whose mutex is free. *)
Definition with_task (t : WTask) (w : Worker) : Worker :=
  upd_work (fun k => incr_num (set_tasks (tasks k ++ [t]) k)) w.

Lemma enqueue_task_free t w :
  mutex (work_ w) = false ->
  enqueue_task t w =
    Ok ((), with_task t w, if notify_added (work_ w) then [NotifyAdded] else []).
Proof.
  intros Hm. assert (wp (enqueue_task t) w (fun _ w' o => w' = with_task t w /\
    o = if notify_added (work_ w) then [NotifyAdded] else [])) as H.
  { unfold enqueue_task, enqueueAndUnlock, notify_if. wp_run. simpl.
    destruct (notify_added (work_ w)); wp_run; (split; [|done]);
      destruct w as [? ? ? ? [] ? ? ? ? ?]; simpl in *; by subst. }
  apply wp_exec in H as ([] & w' & o & -> & -> & ->). done.
Qed.

Lemma give_free r t s w :
  worker s r = Some w -> mutex (work_ w) = false ->
  give r (enqueue_task t) s = Ok (Done (set_worker r (with_task t w) s) r (notify_added (work_ w))).
Proof.
  intros Hw Hm. unfold give. rewrite Hw. simpl. rewrite enqueue_task_free by done. simpl.
  by destruct (notify_added (work_ w)).
Qed.

(** ** The random generator *)
Lemma lxor_zero_eq x y : Z.lxor x y = 0%Z -> x = y.
Proof. apply Z.lxor_eq. Qed.

Lemma xorshift_left_zero k x :
  (0 < k)%Z -> (0 <= x < 2 ^ 64)%Z -> Z.lxor x (u64 (Z.shiftl x k)) = 0%Z -> x = 0%Z.
Proof.
  intros Hk Hx E%lxor_zero_eq.
  assert (forall n : nat, forall i, (0 <= i < Z.of_nat n)%Z -> Z.testbit x i = false) as Hbits.
  { induction n as [|n IH]; intros i Hi; [lia|].
    destruct (decide (i < 64)%Z) as [H64|H64].
    - rewrite E. unfold u64. rewrite Z.mod_pow2_bits_low, Z.shiftl_spec by lia.
      destruct (decide (i < k)%Z); [apply Z.testbit_neg_r; lia|]. apply IH. lia.
    - apply Z.bits_above_log2; [lia|].
      destruct (decide (x = 0)%Z) as [->|]; [simpl; lia|]. apply Z.log2_lt_pow2; [lia|].
      assert (2 ^ 64 <= 2 ^ i)%Z by (apply Z.pow_le_mono_r; lia). lia. }
  apply Z.bits_inj_0. intros i. destruct (decide (i < 0)%Z); [by apply Z.testbit_neg_r|].
  apply (Hbits (S (Z.to_nat i))). lia.
Qed.

Lemma xorshift_right_zero k x : (0 < k)%Z -> (0 <= x)%Z -> Z.lxor x (Z.shiftr x k) = 0%Z -> x = 0%Z.
Proof.
  intros Hk Hx E%lxor_zero_eq. rewrite Z.shiftr_div_pow2 in E by lia.
  assert (2 <= 2 ^ k)%Z by (change 2%Z with (2 ^ 1)%Z at 1; apply Z.pow_le_mono_r; lia).
  assert (x = x / 2 ^ k)%Z as E' by done.
  pose proof (Z.mul_div_le x (2 ^ k)). nia.
Qed.

Lemma lxor_range x y : (0 <= x < 2 ^ 64)%Z -> (0 <= y < 2 ^ 64)%Z -> (0 <= Z.lxor x y < 2 ^ 64)%Z.
Proof.
  intros Hx Hy. assert (0 <= Z.lxor x y)%Z as H0 by (apply Z.lxor_nonneg; lia). split; [done|].
  assert (forall z, (0 <= z < 2 ^ 64)%Z -> (Z.log2 z < 64)%Z) as Hl.
  { intros z Hz. destruct (decide (z = 0)%Z) as [->|]; [simpl; lia|]. apply Z.log2_lt_pow2; lia. }
  destruct (decide (Z.lxor x y = 0)%Z) as [->|]; [lia|]. apply Z.log2_lt_pow2; [lia|].
  pose proof (Z.log2_lxor x y). pose proof (Hl x Hx). pose proof (Hl y Hy). lia.
Qed.

Lemma shiftr_range x k : (0 <= k)%Z -> (0 <= x < 2 ^ 64)%Z -> (0 <= Z.shiftr x k < 2 ^ 64)%Z.
Proof.
  intros Hk Hx. rewrite Z.shiftr_div_pow2 by lia. assert (0 < 2 ^ k)%Z by (apply Z.pow_pos_nonneg; lia).
  split; [apply Z.div_pos; lia|]. pose proof (Z.div_le_upper_bound x (2 ^ k) x). nia.
Qed.

Lemma FaskRnd_step x :
  (0 <= x < 2 ^ 64)%Z -> (0 <= FaskRnd_next x < 2 ^ 64)%Z /\ (x <> 0 -> FaskRnd_next x <> 0)%Z.
Proof.
  intros Hx. unfold FaskRnd_next.
  set (a := Z.lxor x (u64 (Z.shiftl x 13))).
  assert (0 <= a < 2 ^ 64)%Z as Ha by (apply lxor_range; [done|apply u64_range]).
  set (b := Z.lxor a (Z.shiftr a 7)).
  assert (0 <= b < 2 ^ 64)%Z as Hb by (apply lxor_range; [done|by apply shiftr_range]).
  split; [apply lxor_range; [done|apply u64_range]|]. intros Hne E.
  apply xorshift_left_zero in E; [|lia|done]. apply xorshift_right_zero in E; [|lia|lia].
  apply xorshift_left_zero in E; [done|lia|done].
Qed.

(** ** The constructor *)
Lemma start_workers_length id mains : length (start_workers id mains) = length mains.
Proof. revert id. induction mains; intros id; simpl; auto. Qed.

Lemma start_workers_lookup id mains i w :
  start_workers id mains !! i = Some w ->
  exists main, mains !! i = Some main /\ w = start (Z.of_nat (id + i)) MultiThreaded main.
Proof.
  revert id i. induction mains as [|m mains IH]; intros id i; [done|]. destruct i as [|i]; simpl.
  - intros [= <-]. exists m. by rewrite Nat.add_0_r.
  - intros (main & H1 & ->)%IH. exists main. split; [done|]. by rewrite Nat.add_succ_r.
Qed.

Lemma construct_wf n mains s :
  (0 <= n)%Z -> length mains = Z.to_nat n -> construct n mains = Ok s -> SchedWf s.
Proof.
  intros Hn Hm. unfold construct. case_bool_decide as Hmax; [|done]. intros [= <-].
  split; simpl; try done.
  - rewrite start_workers_length, length_take. lia.
  - repeat constructor; lia.
Qed.

(** A scheduler of two worker threads, for the examples. *)
Definition two_workers : Scheduler :=
  mkScheduler 2 (replicate 8 (-1)%Z) 0x8000000 0
    [start 0 MultiThreaded 1; start 1 MultiThreaded 2] ∅ ∅.

(** ** Properties *)

(** The loop of [Scheduler::enqueue] ends: whenever some worker thread's
    mutex is free and stays so, at most [8 + 2 * count] turns suffice, however
    the spinning slots are filled and even where the 32-bit enqueue index wraps
    around.  The task then is at the back of the queue of one worker thread
    whose mutex was free, and every index used was in range. *)
Theorem enqueue_terminates s t i w :
  SchedWf s -> worker s (WT i) = Some w -> mutex (work_ w) = false ->
  exists s' j wj,
    enqueue_loop (replicate (Z.to_nat (8 + 2 * count s)) false) t s =
      Ok (Done s' (WT j) (notify_added (work_ wj))) /\
    worker s (WT j) = Some wj /\ mutex (work_ wj) = false /\
    worker s' (WT j) = Some (with_task t wj) /\
    forall r, r <> WT j -> worker s' r = worker s r.
Proof.
  intros Hs Hw Hm.
  assert (i < length (worker_threads_ s))%nat as Hi by (by eapply lookup_lt_Some).
  pose proof (wf_count s Hs) as Hc.
  destruct (turns_reach i s Hs Hi) as (k & Hk & Ek).
  destruct (enqueue_loop_turns k (Z.to_nat (8 + 2 * count s)) t s w)
    as (j & wj & Hj & Hwj & Hmj & ->); [done|lia|lia|by rewrite Ek|done|].
  destruct (turns_same (S j) s) as (_ & Hsame & Hsame').
  assert (worker (turns (S j) s) (WT (try_index (turns j s))) = Some wj) as Hwt
    by (unfold worker; by rewrite Hsame).
  eexists _, _, wj. split; [by apply give_free|]. split_and!; [done|done| |].
  - by eapply worker_set_eq.
  - intros r Hr. rewrite worker_set_ne by done. unfold worker. rewrite Hsame, Hsame'. done.
Qed.

Lemma enqueue_terminates_witness :
  exists s' j wj,
    enqueue_loop (replicate 12 false) (mkTask (Some (BUser 1)) FlagsNone) two_workers =
      Ok (Done s' (WT j) (notify_added (work_ wj))) /\ mutex (work_ wj) = false.
Proof.
  assert (SchedWf two_workers) as Hs.
  { split; try reflexivity; simpl; try lia; [vm_compute; discriminate|repeat constructor; lia]. }
  destruct (enqueue_terminates two_workers (mkTask (Some (BUser 1)) FlagsNone) 0
    (start 0 MultiThreaded 1) Hs) as (s' & j & wj & H1 & _ & H2 & _);
    [reflexivity|reflexivity|].
  exists s', j, wj. split; [exact H1|exact H2].
Defined.

(** The generator behind the choice of the worker to steal from stays a
    64-bit value and never reaches zero, where it would stay, from a seed that
    is not zero. *)
Theorem FaskRnd_never_zero n x :
  (0 < x < 2 ^ 64)%Z -> (0 < Nat.iter n FaskRnd_next x < 2 ^ 64)%Z.
Proof.
  intros Hx. induction n as [|n IH]; [done|].
  cbn [Nat.iter nat_rect]. change (nat_rect _ x _ n) with (Nat.iter n FaskRnd_next x).
  destruct (FaskRnd_step (Nat.iter n FaskRnd_next x)) as [H1 H2]; [lia|]. lia.
Qed.

Lemma FaskRnd_never_zero_witness : (0 < Nat.iter 3 FaskRnd_next 12345 < 2 ^ 64)%Z.
Proof. apply FaskRnd_never_zero. lia. Defined.

(** The constructor writes past the end of [worker_threads_] when it is
    asked for more than 256 worker threads, and makes a well-formed scheduler
    otherwise. *)
Theorem construct_bounds n mains :
  (0 <= n)%Z -> length mains = Z.to_nat n ->
  if bool_decide (n <= MaxWorkerThreads)%Z
  then exists s, construct n mains = Ok s /\ SchedWf s /\ count s = n
  else is_ok (construct n mains) = false.
Proof.
  intros Hn Hm. case_bool_decide as Hmax.
  - destruct (construct n mains) as [s| |] eqn:E.
    + exists s. split; [done|]. split; [by eapply construct_wf|].
      unfold construct in E. rewrite bool_decide_eq_true_2 in E by done. by simplify_eq.
    + unfold construct in E. by case_bool_decide.
    + unfold construct in E. by case_bool_decide.
  - unfold construct. by rewrite bool_decide_eq_false_2.
Qed.

Lemma construct_bounds_witness : is_ok (construct 300 (replicate 300 1%Z)) = false.
Proof. apply (construct_bounds 300); [lia|reflexivity]. Defined.

(** [bind] and [unbind] of a thread: a thread that is bound cannot bind
    again, one that is not bound cannot unbind, and unbinding a thread that
    has bound itself leaves the scheduler as it was before, telling the
    destructor when no thread is left. *)
Theorem bind_unbind tid main s :
  by_tid s !! tid = None ->
  (tid ∈ bound s -> is_ok (bind tid main s) = false) /\
  (tid ∉ bound s ->
   is_ok (unbind_begin tid s) = false /\
   exists s', bind tid main s = Ok s' /\ is_ok (bind tid main s') = false /\
     all_unbound s' = false /\ unbind_end tid s' = Ok (s, all_unbound s)).
Proof.
  intros Htid. split; intros Hb.
  - unfold bind. by rewrite bool_decide_eq_false_2 by auto.
  - split; [unfold unbind_begin; by rewrite bool_decide_eq_false_2|].
    unfold bind. rewrite bool_decide_eq_true_2 by done. simpl. rewrite Htid.
    eexists. split; [done|]. split_and!.
    + simpl. rewrite bool_decide_eq_false_2; [done|]. set_solver.
    + unfold all_unbound. simpl. rewrite bool_decide_eq_false_2; [done|]. apply insert_non_empty.
    + unfold unbind_end, all_unbound. simpl.
      rewrite (bool_decide_eq_true_2 (is_Some _)) by (rewrite lookup_insert_eq; eauto). simpl.
      rewrite delete_insert_id by done.
      replace (({[tid]} ∪ bound s) ∖ {[tid]}) with (bound s) by set_solver.
      unfold set_bound. by destruct s.
Qed.

Lemma bind_unbind_witness :
  exists s', bind 3 7 two_workers = Ok s' /\ unbind_end 3 s' = Ok (two_workers, true).
Proof.
  destruct (bind_unbind 3 7 two_workers eq_refl) as [_ H].
  destruct H as (_ & s' & H1 & _ & _ & H2); [by vm_compute|].
  exists s'. split; [exact H1|exact H2].
Defined.
