(* ===== verification/Build.v ===== *)
(** What the build decides: the sanitizers (src/include/marl/sanitizer.hpp), the
    implementation of [OSFiber] and the guards of its stacks (src/src/osfiber.hpp),
    the attributes of the thread safety analysis (src/include/marl/tsa.hpp), and
    the one place where a sanitizer changes what the code does,
    [Scheduler::bind] (src/src/scheduler.cpp).

    A [Build] is what the preprocessor finds defined. *)
From stdpp Require Import base numbers strings sets gmap list.
From S2P Require Import Prelude WaitingFibers Worker Scheduler.

(** The sanitizers of [-fsanitize]. *)
Inductive Sanitizer := Address | Memory | Thread.

Record Build := mkBuild {
  clang : bool;                        (* __clang__ *)
  swig : bool;                         (* SWIG *)
  sanitize : Sanitizer -> bool;        (* __SANITIZE_ADDRESS__ and so on *)
  has_feature : Sanitizer -> bool;     (* __has_feature(address_sanitizer) and so on *)
  fibers_use_ucontext : bool;          (* MARL_FIBERS_USE_UCONTEXT *)
  fiber_stack_guards : option bool     (* MARL_USE_FIBER_STACK_GUARDS, if given *)
}.

Definition ADDRESS_SANITIZER_ENABLED (b : Build) : bool :=
  if sanitize b Address then true else if clang b then has_feature b Address else false.
Definition ADDRESS_SANITIZER_ONLY (b : Build) {A} (x : list A) : list A :=
  if ADDRESS_SANITIZER_ENABLED b then x else [].

Definition MEMORY_SANITIZER_ENABLED (b : Build) : bool :=
  if sanitize b Memory then true else if clang b then has_feature b Memory else false.
Definition MEMORY_SANITIZER_ONLY (b : Build) {A} (x : list A) : list A :=
  if MEMORY_SANITIZER_ENABLED b then x else [].

Definition THREAD_SANITIZER_ENABLED (b : Build) : bool :=
  if sanitize b Thread then true else if clang b then has_feature b Thread else false.
Definition THREAD_SANITIZER_ONLY (b : Build) {A} (x : list A) : list A :=
  if THREAD_SANITIZER_ENABLED b then x else [].

(** Attributes, as the words that are left of the macro. *)
Definition CLANG_NO_SANITIZE_MEMORY (b : Build) : list string :=
  if clang b then ["no_sanitize_memory"] else [].
Definition THREAD_ANNOTATION_ATTRIBUTE (b : Build) (x : string) : list string :=
  if clang b && negb (swig b) then [x] else [].

(** The macros of the thread safety analysis, with their arguments. *)
Inductive TsaMacro :=
| M_CAPABILITY (x : string) | M_SCOPED_CAPABILITY | M_GUARDED_BY (x : string) | M_PT_GUARDED_BY (x : string)
| M_ACQUIRED_BEFORE (x : string) | M_ACQUIRED_AFTER (x : string)
| M_REQUIRES (x : string) | M_REQUIRES_SHARED (x : string)
| M_ACQUIRE (x : string) | M_ACQUIRE_SHARED (x : string)
| M_RELEASE (x : string) | M_RELEASE_SHARED (x : string)
| M_TRY_ACQUIRE (x : string) | M_TRY_ACQUIRE_SHARED (x : string)
| M_EXCLUDES (x : string) | M_ASSERT_CAPABILITY (x : string) | M_ASSERT_SHARED_CAPABILITY (x : string)
| M_RETURN_CAPABILITY (x : string) | M_NO_THREAD_SAFETY_ANALYSIS.

Definition tsa_attribute (m : TsaMacro) : string :=
  let call name x := name +:+ "(" +:+ x +:+ ")" in
  match m with
  | M_CAPABILITY x => call "capability" x
  | M_SCOPED_CAPABILITY => "scoped_lockable"
  | M_GUARDED_BY x => call "guarded_by" x
  | M_PT_GUARDED_BY x => call "pt_guarded_by" x
  | M_ACQUIRED_BEFORE x => call "acquired_before" x
  | M_ACQUIRED_AFTER x => call "acquired_after" x
  | M_REQUIRES x => call "requires_capability" x
  | M_REQUIRES_SHARED x => call "requires_shared_capability" x
  | M_ACQUIRE x => call "acquire_capability" x
  | M_ACQUIRE_SHARED x => call "acquire_shared_capability" x
  | M_RELEASE x => call "release_capability" x
  | M_RELEASE_SHARED x => call "release_shared_capability" x
  | M_TRY_ACQUIRE x => call "try_acquire_capability" x
  | M_TRY_ACQUIRE_SHARED x => call "try_acquire_shared_capability" x
  | M_EXCLUDES x => call "locks_excluded" x
  | M_ASSERT_CAPABILITY x => call "assert_capability" x
  | M_ASSERT_SHARED_CAPABILITY x => call "assert_shared_capability" x
  | M_RETURN_CAPABILITY x => call "lock_returned" x
  | M_NO_THREAD_SAFETY_ANALYSIS => "no_thread_safety_analysis"
  end.

Definition expand_tsa (b : Build) (m : TsaMacro) : list string := THREAD_ANNOTATION_ATTRIBUTE b (tsa_attribute m).

Inductive OSFiberKind := UContextFiber | AsmFiberKind.

Definition osfiber_kind (b : Build) : OSFiberKind := if fibers_use_ucontext b then UContextFiber else AsmFiberKind.
Definition MARL_USE_FIBER_STACK_GUARDS (b : Build) : bool := default true (fiber_stack_guards b).

(** What the compilers define, for the sanitizers they are called with: gcc the
    macros, clang the features; gcc has no memory sanitizer. *)
Definition gcc_build (on : Sanitizer -> bool) : Build := mkBuild false false on (fun _ => false) false None.
Definition clang_build (on : Sanitizer -> bool) : Build := mkBuild true false (fun _ => false) on false None.

(** Each macro is on exactly where the project was built with its sanitizer, as
    the comments say. *)
Lemma sanitizers_detected on b :
  b = clang_build on \/ b = gcc_build on /\ on Memory = false ->
  ADDRESS_SANITIZER_ENABLED b = on Address /\ MEMORY_SANITIZER_ENABLED b = on Memory /\
  THREAD_SANITIZER_ENABLED b = on Thread.
Proof.
  unfold ADDRESS_SANITIZER_ENABLED, MEMORY_SANITIZER_ENABLED, THREAD_SANITIZER_ENABLED.
  intros [->|[-> Hm]]; cbn; [done|]. rewrite Hm. by destruct (on Address), (on Thread).
Qed.

(** Only clang sees the annotations. *)
Lemma annotations_for_clang b m : expand_tsa b m = [] <-> clang b = false \/ swig b = true.
Proof. unfold expand_tsa, THREAD_ANNOTATION_ATTRIBUTE. destruct (clang b), (swig b); naive_solver. Qed.

(** ** bind *)

(** The scheduler, and the threads whose [Worker::current] points to a worker that
    was destroyed. *)
Record Binding := mkBinding { scheduler : Scheduler; dangling : gset nat }.

(** [Scheduler::bind].  The new worker becomes [Worker::current] in its [start()];
    where the thread has an entry in [by_tid] already, [emplace] keeps that, and the
    new worker is destroyed. *)
Definition bind_in (b : Build) (tid : nat) (main : FiberPtr) (y : Binding) : Result Binding :=
  let s := scheduler y in
  _ ← (if negb (MEMORY_SANITIZER_ENABLED b)
       then MARL_ASSERT (bool_decide (tid ∉ bound s)) "Scheduler already bound" else Ok ());
  Ok (match by_tid s !! tid with
      | Some _ => mkBinding (set_bound ({[tid]} ∪ bound s) (by_tid s) s) ({[tid]} ∪ dangling y)
      | None =>
          mkBinding (set_bound ({[tid]} ∪ bound s) (<[tid := start (u32 (-1)) SingleThreaded main]> (by_tid s)) s)
            (dangling y ∖ {[tid]})
      end).

(** [Scheduler::unbind] up to its call of [worker->stop()]. *)
Definition unbind_in (tid : nat) (y : Binding) : Result (option Scheduler) :=
  _ ← MARL_ASSERT (bool_decide (tid ∈ bound (scheduler y))) "No scheduler bound";
  if bool_decide (tid ∈ dangling y) then Undefined "Worker::current points to a destroyed worker"
  else unbind_begin tid (scheduler y).

(** The sanitizer makes no difference to a thread that binds once: every build then
    does what [bind] of Scheduler.v does.  A second [bind] of a thread fails its
    assertion; in a build with the memory sanitizer, which leaves the assertion
    out, it leaves the thread with a destroyed worker, and [unbind] goes through
    the pointer to it. *)
Theorem bind_by_build b tid main y :
  (tid ∉ bound (scheduler y) -> (y' ← bind_in b tid main y; Ok (scheduler y')) = bind tid main (scheduler y)) /\
  (tid ∈ bound (scheduler y) -> is_Some (by_tid (scheduler y) !! tid) ->
   if MEMORY_SANITIZER_ENABLED b
   then exists y', bind_in b tid main y = Ok y' /\ by_tid (scheduler y') = by_tid (scheduler y) /\
          unbind_in tid y' = Undefined "Worker::current points to a destroyed worker"
   else bind_in b tid main y = Fatal "Scheduler already bound").
Proof.
  unfold bind_in, bind. split.
  - intros Hb. rewrite bool_decide_eq_true_2 by done. destruct (MEMORY_SANITIZER_ENABLED b); cbn;
      by destruct (by_tid (scheduler y) !! tid).
  - intros Hb [w Hw]. rewrite bool_decide_eq_false_2 by (intros Hn; by apply Hn).
    destruct (MEMORY_SANITIZER_ENABLED b); [|done]. rewrite Hw. eexists. split; [reflexivity|]. split; [done|].
    unfold unbind_in. cbn. rewrite !bool_decide_eq_true_2 by set_solver. done.
Qed.
