(* ===== verification/Threads.v ===== *)
(** Threads and their affinity: [marl::Thread] (src/include/marl/thread.hpp,
    src/src/thread.cpp).

    A [Core] is its 16-bit [pthread.index], on which its comparisons are
    defined; an [Affinity] is the contents of its vector of cores.  The answers
    of the operating system are inputs. *)
From stdpp Require Import base numbers strings gmap sorting list.
From S2P Require Import Prelude.

Abbreviation Core := Z (only parsing).
Abbreviation Affinity := (list Z) (only parsing).

(** ** Affinity *)

(** [std::sort] with [Core::operator<]. *)
Definition sort (cores : Affinity) : Affinity := merge_sort Z.le cores.

(** [Affinity::all]; [cpu_set] is the mask of the calling thread, if it can be
    read. *)
Definition Affinity_all (cpu_set : option (gset Z)) : Affinity :=
  match cpu_set with
  | Some s => (fun i => i mod 2 ^ 16)%Z <$> seqZ 0 (Z.of_nat (size s))
  | None => []
  end.

Definition Affinity_count (cores : Affinity) : nat := length cores.

Definition Affinity_index (cores : Affinity) (index : nat) : Result Core :=
  match cores !! index with Some c => Ok c | None => fatal "index exceeds vector size" end.

(** [Policy::get] of [anyOf] and [oneOf]. *)
Definition anyOf_get (affinity : Affinity) (thread_id : Z) : Result Affinity := Ok affinity.

Definition oneOf_get (affinity : Affinity) (thread_id : Z) : Result Affinity :=
  let count := Affinity_count affinity in
  if bool_decide (count = 0) then Ok affinity
  else
    c ← Affinity_index affinity (Z.to_nat (thread_id mod Z.of_nat count));
    Ok [c].

(** [add]: the set holds the cores before the loop. *)
Definition Affinity_add (other cores : Affinity) : Affinity :=
  sort (cores ++ filter (fun c => c ∉ cores) other).

(** The loop of [remove] from index [i] on; it looks at each index at most
    once, so [length cores] turns are enough. *)
Fixpoint remove_loop (fuel i : nat) (other cores : Affinity) : Result Affinity :=
  match fuel with
  | O => Ok cores
  | S fuel =>
      match cores !! i with
      | None => Ok cores
      | Some c =>
          if bool_decide (c ∈ other) then
            b ← deref (last cores) "back() of an empty vector";
            remove_loop fuel (S i) other (take (length cores - 1) (<[i := b]> cores))
          else remove_loop fuel (S i) other cores
      end
  end.

Definition Affinity_remove (other cores : Affinity) : Result Affinity :=
  cores ← remove_loop (length cores) 0 other cores; Ok (sort cores).

(** [Impl::setAffinity]: the mask given to [pthread_setaffinity_np], if it is
    called.  [CPU_SET] ignores cores beyond the 1024 of a [cpu_set_t]. *)
Definition setAffinity (cores : Affinity) : option (gset Z) :=
  if bool_decide (Affinity_count cores = 0) then None
  else Some (list_to_set (filter (fun c => c < 1024)%Z cores)).

(** ** Thread *)

(** What the thread of an [Impl] does: it binds itself, if there is an affinity,
    before it calls the function. *)
Inductive ThreadAction := BindTo (mask : gset Z) | CallFunc.

Definition Impl_thread (affinity_ : Affinity) : list ThreadAction :=
  match setAffinity affinity_ with Some mask => [BindTo mask; CallFunc] | None => [CallFunc] end.

(** [impl]: null, or an [Impl] whose [std::thread] is joinable or not. *)
Abbreviation Thread := (option bool).

Definition Thread_new : Thread := Some true.

(** [delete impl]: destroying a joinable [std::thread] terminates. *)
Definition delete_impl (joinable : bool) : Result unit :=
  if joinable then fatal "std::terminate" else Ok ().

Definition Thread_move (other : Thread) : Thread * Thread := (other, None).

Definition Thread_assign (rhs self : Thread) : Result (Thread * Thread) :=
  _ ← match self with Some j => delete_impl j | None => Ok () end;
  Ok (rhs, None).

Definition Thread_dtor (self : Thread) : Result unit :=
  MARL_ASSERT (bool_decide (self = None)) "Thread::join() was not called before destruction".

Definition Thread_join (self : Thread) : Result Thread :=
  match self with
  | None => Undefined "null impl"
  | Some false => fatal "std::system_error"
  | Some true => _ ← delete_impl false; Ok None
  end.

(** A thread that is started, moved and joined can be destroyed; one that was
    not joined can neither be destroyed nor assigned to. *)
Lemma Thread_joined (other : Thread) :
  let '(t, old) := Thread_move Thread_new in
  (t ← Thread_join t; Thread_dtor t) = Ok () /\ Thread_dtor old = Ok () /\
  is_ok (Thread_dtor t) = false /\ is_ok (Thread_assign other t) = false.
Proof. simpl. done. Qed.

(** ** Lemmas on affinities *)
Global Instance Zle_decision (x y : Z) : Decision (x <= y)%Z := Z_le_dec x y.

Lemma sort_perm l : sort l ≡ₚ l.
Proof. apply merge_sort_Permutation. Qed.
Lemma sort_sorted l : Sorted Z.le (sort l).
Proof. apply Sorted_merge_sort. intros x y. lia. Qed.

(** Sorting forgets the order. *)
Lemma sort_unique l k : l ≡ₚ k -> sort l = sort k.
Proof.
  intros HP. apply (Sorted_unique Z.le); [apply sort_sorted..|]. by rewrite !sort_perm.
Qed.

Lemma filter_all {A} (P : A -> Prop) `{!forall x, Decision (P x)} (l : list A) :
  Forall P l -> filter P l = l.
Proof. induction 1 as [|x l Hx _ IH]; [done|]. by rewrite filter_cons_True, IH. Qed.

Lemma filter_none {A} (P : A -> Prop) `{!forall x, Decision (P x)} (l : list A) :
  Forall (fun x => ~ P x) l -> filter P l = [].
Proof. induction 1 as [|x l Hx _ IH]; [done|]. by rewrite filter_cons_False, IH. Qed.

Lemma last_snoc_inv {A} (l : list A) i c :
  l !! i = Some c -> exists k b, l = k ++ [b] /\ last l = Some b /\ (i < length k \/ i = length k /\ c = b).
Proof.
  intros Hi. destruct l as [|b k] using rev_ind; [done|]. exists k, b. rewrite last_snoc. split_and!; try done.
  apply lookup_lt_Some in Hi as Hlt. rewrite length_app in Hlt. simpl in Hlt.
  destruct (decide (i < length k)) as [|Hge]; [by left|right]. assert (i = length k) as -> by lia.
  rewrite lookup_app_r, Nat.sub_diag in Hi by lia. by simplify_eq/=.
Qed.

(** One removal takes the element at [i] out and puts the last one there. *)
Lemma swap_remove (cores : list Z) i c :
  cores !! i = Some c ->
  exists b cores', last cores = Some b /\ cores' = take (length cores - 1) (<[i := b]> cores) /\
    cores ≡ₚ c :: cores' /\ length cores = S (length cores').
Proof.
  intros Hi. destruct (last_snoc_inv cores i c Hi) as (k & b & -> & Hlast & Hcase).
  exists b. eexists. split; [done|]. split; [done|]. rewrite length_app, Nat.add_sub.
  destruct Hcase as [Hlt|[-> ->]].
  - rewrite insert_app_l by done. rewrite take_app_length' by (by rewrite length_insert).
    rewrite lookup_app_l in Hi by done. split; [|rewrite length_insert; simpl; lia].
    rewrite <- (take_drop_middle k i c Hi) at 1. rewrite (insert_take_drop k i b Hlt).
    rewrite <- app_assoc. simpl. rewrite <- Permutation_middle. constructor.
    apply Permutation_app_head. by rewrite (Permutation_app_comm _ [b]).
  - rewrite insert_app_r_alt, Nat.sub_diag by done. simpl.
    rewrite take_app_length. split; [by rewrite Permutation_app_comm|simpl; lia].
Qed.

Lemma remove_loop_spec fuel : forall i other cores,
  exists r gone, remove_loop fuel i other cores = Ok r /\ cores ≡ₚ gone ++ r /\
    Forall (fun c => c ∈ other) gone.
Proof.
  induction fuel as [|fuel IH]; intros i other cores; simpl.
  { by exists cores, []. }
  destruct (cores !! i) as [c|] eqn:Hi; [|by exists cores, []].
  case_bool_decide as Hc.
  - destruct (swap_remove cores i c Hi) as (b & cores' & -> & -> & HP & _). cbn [deref mbind result_bind].
    destruct (IH (S i) other (take (length cores - 1) (<[i := b]> cores))) as (r & gone & -> & HP' & Hg).
    exists r, (c :: gone). split_and!; [done| |by constructor]. rewrite HP at 1. by rewrite HP'.
  - apply IH.
Qed.

(** The loop from [i] on, when no core before [i] and at most one from there on
    is to go. *)
Lemma remove_loop_single fuel : forall i other cores r,
  length cores - i <= fuel -> Forall (fun c => c ∉ other) (take i cores) ->
  length (filter (fun c => c ∈ other) cores) <= 1 ->
  remove_loop fuel i other cores = Ok r -> Forall (fun c => c ∉ other) r.
Proof.
  induction fuel as [|fuel IH]; intros i other cores r Hf Hbefore Hone; simpl.
  { intros [= <-]. by rewrite take_ge in Hbefore by lia. }
  destruct (cores !! i) as [c|] eqn:Hi.
  2: { intros [= <-]. apply lookup_ge_None in Hi. by rewrite take_ge in Hbefore. }
  case_bool_decide as Hc.
  - destruct (swap_remove cores i c Hi) as (b & cores' & -> & -> & HP & _). cbn [deref mbind result_bind].
    intros Hr. destruct (remove_loop_spec fuel (S i) other (take (length cores - 1) (<[i := b]> cores)))
      as (r' & gone & Hr' & HP' & _). rewrite Hr in Hr'. injection Hr' as <-.
    rewrite HP, HP' in Hone. rewrite filter_cons_True in Hone by done. simpl in Hone.
    rewrite filter_app, length_app in Hone.
    assert (filter (fun c => c ∈ other) r = []) as Hnil by (apply length_zero_iff_nil; lia).
    apply Forall_forall. intros x Hx Hxo. apply (elem_of_nil x). rewrite <- Hnil.
    by apply list_elem_of_filter.
  - apply IH; [lia| |done]. rewrite (take_S_r _ _ c Hi). apply Forall_app. split; [done|by constructor].
Qed.

(** [Affinity::add] yields the sorted union, without duplicates when
    neither side has any.  [Affinity::remove] always runs to its end, keeps
    every core that is not to be removed, drops only cores that are, and its
    result is sorted; it is exact when at most one core is to go.  In general
    it is not: the core swapped in from the back is not looked at, and removing
    the cores 10 and 20 from themselves leaves 20. *)
Lemma affinity_add_remove other cores :
  (Sorted Z.le (Affinity_add other cores) /\
   (forall c, c ∈ Affinity_add other cores <-> c ∈ cores \/ c ∈ other) /\
   (NoDup cores -> NoDup other -> NoDup (Affinity_add other cores))) /\
  (exists r gone, Affinity_remove other cores = Ok r /\ Sorted Z.le r /\
     cores ≡ₚ gone ++ r /\ Forall (fun c => c ∈ other) gone /\
     (length (filter (fun c => c ∈ other) cores) <= 1 -> r = sort (filter (fun c => c ∉ other) cores))) /\
  Affinity_remove [10; 20]%Z [10; 20]%Z = Ok [20%Z].
Proof.
  split; [|split; [|vm_compute; reflexivity]].
  - unfold Affinity_add. split_and!; [apply sort_sorted|..].
    + intros c. rewrite sort_perm, elem_of_app, list_elem_of_filter.
      destruct (decide (c ∈ cores)); naive_solver.
    + intros H1 H2. rewrite sort_perm. apply NoDup_app. split_and!; [done| |by apply NoDup_filter].
      intros c Hc [Hn _]%list_elem_of_filter. done.
  - unfold Affinity_remove.
    destruct (remove_loop_spec (length cores) 0 other cores) as (r & gone & E & HP & Hg).
    rewrite E. exists (sort r), gone. split_and!; [done|apply sort_sorted|by rewrite sort_perm|done|].
    intros Hone. apply sort_unique.
    pose proof (remove_loop_single (length cores) 0 other cores r ltac:(lia) ltac:(constructor) Hone E) as Hr.
    rewrite HP, filter_app, (filter_none _ gone), (filter_all _ r); [done|done|].
    eapply Forall_impl; [exact Hg|]. intros x Hx Hn. by apply Hn.
Qed.

(** [Affinity::all] counts the cores of the mask and names the first ones,
    whatever the mask says. *)
Lemma Affinity_all_ignores_mask : Affinity_all (Some {[2%Z; 3%Z]}) = [0%Z; 1%Z].
Proof. vm_compute. reflexivity. Qed.

(** [oneOf] never indexes out of range, and gives one core of the affinity. *)
Lemma oneOf_get_ok affinity thread_id :
  affinity <> [] -> exists c, oneOf_get affinity thread_id = Ok [c] /\ c ∈ affinity.
Proof.
  intros Hne. unfold oneOf_get, Affinity_count. assert (length affinity <> 0) as Hl by (by destruct affinity).
  rewrite bool_decide_eq_false_2 by done. unfold Affinity_index.
  destruct (affinity !! Z.to_nat (thread_id mod Z.of_nat (length affinity))) as [c|] eqn:E.
  - exists c. split; [done|]. by eapply list_elem_of_lookup_2.
  - apply lookup_ge_None in E. pose proof (Z.mod_pos_bound thread_id (Z.of_nat (length affinity))). lia.
Qed.
