(* ===== verification/System.v ===== *)
(** The whole scheduler as a machine: the threads of the workers, the threads
    bound to it, any other thread that enqueues tasks or notifies fibers, and
    the thread that destroys it, with their steps in any order.

    An [SEvent] is one step of one thread.  [sys_act] runs it with the
    operations of Scheduler.v, Worker.v and Threads.v; [sys_exec] also records
    who accesses [shutdown], the one member that threads share without a mutex or
    an atomic; [sys_legal] is what the threads guarantee. *)
From stdpp Require Import base numbers strings sets gmap list.
From S2P Require Import Prelude Task WaitingFibers Worker WorkerFrame WorkerLogic WorkerInv WorkerSafety WorkerProps WorkerQueue Scheduler Threads.

Record System := mkSystem {
  sched : Scheduler;
  stolen : gmap nat WTask;     (* [stolen] in spinForWork(), between stealWork() and the push *)
  stopping : gmap nat nat;     (* the worker threads inside the stop task of a worker *)
  to_stop : nat;               (* ~Scheduler has called stop() of the workers from here on *)
  threads : list Thread;       (* [thread_] of the workers *)
  to_destroy : nat             (* and destroyed them from here on *)
}.

Inductive SEvent :=
| SWorker (r : Ref) (e : Event)                 (* the thread of a worker *)
| SSteal (i : nat) (rnd : Z)                    (* spinForWork calls stealWork *)
| SPutStolen (i : nat)                          (* and pushes what it stole *)
| SEnqueue (cur : option Ref) (busy : bool) (t : WTask)  (* one turn of enqueue *)
| SNotify (r : Ref) (f : FiberPtr)              (* Fiber::notify *)
| SStop (i : nat)                               (* ~Scheduler: stop() of a worker enqueues its task *)
| SJoin (i : nat)                               (* and joins its thread *)
| SDestroy (i : nat)                            (* ~Scheduler destroys a worker *)
| SShutdown (i : nat)                           (* the body of the stop task *)
| SBind (tid : nat) (main : FiberPtr)
| SUnbindBegin (tid : nat)
| SUnbindEnd (tid : nat).

(** An access to the member [shutdown] of a worker: which thread makes it, whether
    it writes, and whether the thread holds the mutex of that worker. *)
Record Access := mkAccess { by_ : Ref; of_ : Ref; writes : bool; locked : bool }.

(** What a step does that other threads see: the outputs of a worker; a task that
    is now in a queue, [late] if the thread of that worker has ended; a task taken
    by a thief; a task destroyed with its queue; and the accesses to [shutdown]. *)
Inductive SOut :=
| FromWorker (r : Ref) (o : Out)
| Accepted (t : WTask) (late : bool)
| Took (i : nat) (t : WTask)
| Dropped (t : WTask)
| Touched (a : Access).

Definition with_sched (s : Scheduler) (y : System) : System :=
  mkSystem s (stolen y) (stopping y) (to_stop y) (threads y) (to_destroy y).

Definition exited (w : Worker) : bool := match pc w with PExited => true | _ => false end.

(** The stop task of [j] starts to run on worker thread [i]. *)
Definition note_stop (r : Ref) (m : gmap nat nat) (o : Out) : gmap nat nat :=
  match r, o with
  | WT i, RunTask (mkTask (Some (BStop j)) _) => <[i := j]> m
  | _, _ => m
  end.

Definition lift_worker (r : Ref) (e : Event) (y : System)
  : option (Result (System * list SOut)) :=
  res ← on_worker r e (sched y);
  Some ('(s, o) ← res;
        Ok (mkSystem s (stolen y) (foldl (note_stop r) (stopping y) o) (to_stop y) (threads y) (to_destroy y),
            FromWorker r <$> o)).

(** The same through a pointer to the worker that a thread has kept. *)
Definition on_live (r : Ref) (e : Event) (y : System) : option (Result (System * list SOut)) :=
  match worker (sched y) r with
  | Some _ => lift_worker r e y
  | None => Some (Undefined "Worker used after its destruction")
  end.

(** [enqueue] returned, having put [t] in a queue, or its loop goes on. *)
Definition enqueue_result (t : WTask) (y : System) (r : Result Enqueued)
  : Result (System * list SOut) :=
  e ← r;
  match e with
  | Done s r n =>
      Ok (with_sched s y,
          Accepted t (match worker (sched y) r with Some w => exited w | None => false end) ::
          if n : bool then [FromWorker r NotifyAdded] else [])
  | Again s => Ok (with_sched s y, [])
  end.

(** [cfg_.allocator->destroy(worker_threads_[i])]: its pointer dangles. *)
Definition destroy_worker (i : nat) (s : Scheduler) : Scheduler :=
  mkScheduler (count s) (spinning_workers_ s) (next_spinning_worker_index_ s)
    (next_enqueue_index_ s) (take i (worker_threads_ s)) (by_tid s) (bound s).

Definition sys_act (e : SEvent) (y : System) : option (Result (System * list SOut)) :=
  match e with
  | SWorker r e => lift_worker r e y
  | SSteal i rnd =>
      Some ('(o, s) ← stealWork i rnd (sched y);
            Ok (match o with
                | Some t => (mkSystem s (<[i := t]> (stolen y)) (stopping y) (to_stop y) (threads y) (to_destroy y), [Took i t])
                | None => (with_sched s y, [])
                end))
  | SPutStolen i =>
      t ← stolen y !! i;
      res ← on_live (WT i) (SpinStole t) y;
      Some ('(y', o) ← res;
            Ok (mkSystem (sched y') (delete i (stolen y')) (stopping y') (to_stop y') (threads y') (to_destroy y'), o))
  | SEnqueue cur busy t => Some (enqueue_result t y (enqueue cur [busy] t (sched y)))
  | SNotify r f => on_live r (EnqueueFiber f) y
  | SStop i =>
      Some ('(y', o) ← enqueue_result (stop_task i) y (give (WT i) (enqueue_task (stop_task i)) (sched y));
            Ok (mkSystem (sched y') (stolen y') (stopping y') i (threads y') (to_destroy y'), o))
  | SJoin i =>
      (* join() returns when the thread has ended *)
      w ← worker (sched y) (WT i);
      if exited w then
        Some (t ← deref (threads y !! i) "worker_threads_ index";
              t ← Thread_join t;
              Ok (mkSystem (sched y) (stolen y) (stopping y) (to_stop y) (<[i := t]> (threads y)) (to_destroy y), []))
      else None
  | SDestroy i =>
      Some (w ← deref (worker (sched y) (WT i)) "Worker destroyed twice";
            t ← deref (threads y !! i) "worker_threads_ index";
            _ ← Thread_dtor t;
            Ok (mkSystem (destroy_worker i (sched y)) (stolen y) (stopping y) (to_stop y) (threads y) i,
                Dropped <$> tasks (work_ w)))
  | SShutdown i =>
      j ← stopping y !! i;
      res ← on_live (WT j) SetShutdown y;
      Some ('(y', o) ← res;
            Ok (mkSystem (sched y') (stolen y') (delete i (stopping y')) (to_stop y') (threads y') (to_destroy y'), o))
  | SBind tid main => Some (s ← bind tid main (sched y); Ok (with_sched s y, []))
  | SUnbindBegin tid =>
      match unbind_begin tid (sched y) with
      | Ok (Some s) => Some (Ok (with_sched s y, []))
      | Ok None => None
      | Fatal m => Some (Fatal m)
      | Undefined m => Some (Undefined m)
      end
  | SUnbindEnd tid => Some ('(s, _) ← unbind_end tid (sched y); Ok (with_sched s y, []))
  end.

(** The places where a worker reads its [shutdown], with its mutex held: the
    loop of [runUntilShutdown] and the predicates given to [Work::wait]. *)
Definition reads_shutdown (p : Pc) : bool :=
  match p with PShutdownLoop | PCvEnter _ | PCvBlocked _ _ => true | _ => false end.

(** [stop()] of a single threaded worker writes it with the mutex held, the task
    of the other [stop()] without. *)
Definition accesses (e : SEvent) (y : System) : list Access :=
  match e with
  | SWorker r _ =>
      match worker (sched y) r with
      | Some w => if reads_shutdown (pc w) then [mkAccess r r false true] else []
      | None => []
      end
  | SUnbindBegin tid => [mkAccess (ST tid) (ST tid) true true]
  | SShutdown i =>
      match stopping y !! i with Some j => [mkAccess (WT i) (WT j) true false] | None => [] end
  | _ => []
  end.

Definition sys_exec (e : SEvent) (y : System) : option (Result (System * list SOut)) :=
  res ← sys_act e y; Some ('(y', o) ← res; Ok (y', (Touched <$> accesses e y) ++ o)).

(** Accesses by two threads, one of which writes, that the mutex does not order. *)
Definition conflict (a b : Access) : Prop :=
  of_ a = of_ b /\ by_ a <> by_ b /\ (writes a || writes b) = true /\ (locked a && locked b) = false.

(** The steps of a worker's own thread that are no system events of their own. *)
Definition own_event (e : Event) : bool :=
  negb (external e) && match e with SpinStole _ | CallStop => false | _ => true end.

(** The worker that a stop task stops. *)
Definition stop_of (t : WTask) : option nat :=
  match function_ t with Some (BStop j) => Some j | _ => None end.

Definition not_stop (t : WTask) : bool :=
  match function_ t with Some (BStop _) => false | _ => true end.

Definition room (w : Worker) : Prop := (zlen (tasks (work_ w)) < max_tasks)%Z.

(** [~Scheduler] has not come to destroying the workers. *)
Definition alive (y : System) : Prop := to_destroy y = length (threads y).

(** What the threads guarantee:
    - a worker's thread does one thing at a time: while it has a stolen task in
      hand, or is in the body of the stop task, it does nothing else;
    - the events of a worker are legal for it (Worker.v);
    - code that calls [enqueue] runs in a task, or in no worker at all, holds
      no work mutex, does not make stop tasks, and does not use the scheduler when
      its destructor has stopped the workers and destroys them; no queue outgrows
      memory;
    - [~Scheduler] runs its loops: it stops the worker threads from the last to the
      first, each after [stop()] of the one before has returned, once every bound
      thread is unbound, and waits for the work mutex; then it destroys them;
    - a thread binds once, before the destructor stops workers, and unbinds outside
      any task. *)
Definition sys_legal (e : SEvent) (y : System) : Prop :=
  match e with
  | SWorker r e =>
      own_event e = true /\
      (forall i, r = WT i -> stolen y !! i = None /\ stopping y !! i = None) /\
      forall w, worker (sched y) r = Some w -> legal e w
  | SSteal i _ =>
      stolen y !! i = None /\ exists w, worker (sched y) (WT i) = Some w /\ pc w = PSpin
  | SPutStolen i => True
  | SEnqueue cur _ t =>
      alive y /\ not_stop t = true /\
      (forall i w, worker_threads_ (sched y) !! i = Some w -> room w) /\
      match cur with
      | Some r => exists w, worker (sched y) r = Some w /\ pc w = PUser /\ room w
      | None => Task_is t SameThread = false /\ (count (sched y) > 0)%Z
      end
  | SNotify r f => exists w, worker (sched y) r = Some w /\ legal (EnqueueFiber f) w
  | SStop i =>
      by_tid (sched y) = ∅ /\ to_stop y = S i /\
      (S i < length (threads y) -> threads y !! (S i) = Some None) /\
      exists w, worker (sched y) (WT i) = Some w /\ mutex (work_ w) = false /\ room w
  | SJoin i => to_stop y = i /\ threads y !! i = Some Thread_new
  | SDestroy i => to_stop y = 0 /\ threads y !! 0 = Some None /\ to_destroy y = S i
  | SShutdown i => True
  | SBind tid main =>
      to_stop y = length (threads y) /\
      (tid ∉ bound (sched y)) /\ by_tid (sched y) !! tid = None /\ (0 < main < 2 ^ 62)%Z
  | SUnbindBegin tid =>
      tid ∈ bound (sched y) /\
      exists w, worker (sched y) (ST tid) = Some w /\ pc w = PUser /\ legal CallStop w
  | SUnbindEnd tid =>
      tid ∈ bound (sched y) /\ exists w, worker (sched y) (ST tid) = Some w /\ pc w = PExited
  end.

Definition sys_start (n : Z) (mains : list FiberPtr) (s : Scheduler) : Prop :=
  construct n mains = Ok s /\ (0 <= n)%Z /\ length mains = Z.to_nat n /\
  Forall (fun m => 0 < m < 2 ^ 62)%Z mains.

(** Runs, with the outputs. *)
Inductive sys_runs : System -> list SOut -> System -> Prop :=
| sys_runs_nil y : sys_runs y [] y
| sys_runs_step y o1 y1 e o2 y2 :
    sys_runs y o1 y1 -> sys_legal e y1 -> sys_exec e y1 = Some (Ok (y2, o2)) ->
    sys_runs y (o1 ++ o2) y2.

(** The tasks that were accepted, those accepted too late, those that were run and
    those that were destroyed, in order. *)
Definition accepted_in (o : SOut) : list WTask := match o with Accepted t _ => [t] | _ => [] end.
Definition late_in (o : SOut) : list WTask := match o with Accepted t true => [t] | _ => [] end.
Definition ran_in (o : SOut) : list WTask :=
  match o with FromWorker _ (RunTask t) => [t] | _ => [] end.
Definition dropped_in (o : SOut) : list WTask := match o with Dropped t => [t] | _ => [] end.
Definition accepted (os : list SOut) : list WTask := mjoin (accepted_in <$> os).
Definition late (os : list SOut) : list WTask := mjoin (late_in <$> os).
Definition ran (os : list SOut) : list WTask := mjoin (ran_in <$> os).
Definition dropped (os : list SOut) : list WTask := mjoin (dropped_in <$> os).

(** A worker has stolen the stop task of worker [j]. *)
Definition stole (j : nat) (os : list SOut) : Prop := exists i t, Took i t ∈ os /\ stop_of t = Some j.

(** The workers when the constructor has started their threads. *)
Definition initial (s : Scheduler) : System :=
  let n := length (worker_threads_ s) in mkSystem s ∅ ∅ n (replicate n Thread_new) n.
