(* ===== verification/SystemInv.v ===== *)
(** The workers of the whole scheduler: each behaves as Worker.v says, whatever
    the other threads do, and tasks are neither lost nor duplicated on their way
    through the queues, as long as the destructor has not come to destroying the
    workers. *)
From stdpp Require Import base numbers strings sets gmap list.
From S2P Require Import Prelude Task WaitingFibers Worker WorkerFrame WorkerLogic WorkerInv WorkerSafety WorkerProps WorkerQueue Scheduler SchedulerProps Threads System.

Record SysInv (s : Scheduler) : Prop := {
  si_wf : SchedWf s;
  si_reach : forall r w, worker s r = Some w -> reachable w;
  si_wt : forall i w, worker s (WT i) = Some w ->
    worker_id w = Z.of_nat i /\ mode_ w = MultiThreaded;
  si_st : forall tid w, worker s (ST tid) = Some w ->
    worker_id w = u32 (-1) /\ mode_ w = SingleThreaded /\
    (pc w = PExited -> tasks (work_ w) = [])
}.

(** The workers of a scheduler, when one of them takes a step. *)
Lemma inv_set_worker s r w w' :
  SysInv s -> worker s r = Some w -> reachable w' -> identity w' = identity w ->
  (forall tid, r = ST tid -> pc w' = PExited -> tasks (work_ w') = []) ->
  SysInv (set_worker r w' s).
Proof.
  intros HS Hw Hr Hid Hex. unfold identity in Hid. injection Hid as E1 E2 _. split.
  - apply set_worker_wf, HS.
  - intros r' w1 [[-> ->]|[_ H]]%(worker_set_Some _ _ _ _ _ _ Hw); [done|by eapply HS].
  - intros i w1 [[<- ->]|[_ H]]%(worker_set_Some _ _ _ _ _ _ Hw); [|by eapply HS].
    rewrite E1, E2. by apply (si_wt s HS).
  - intros tid w1 [[<- ->]|[_ H]]%(worker_set_Some _ _ _ _ _ _ Hw); [|by eapply HS].
    rewrite E1, E2. destruct (si_st s HS tid w Hw) as (? & ? & _).
    split_and!; [done|done|by apply (Hex tid)].
Qed.

(** The scheduler differs in its indices and slots only. *)
Lemma inv_same_workers s s' :
  SysInv s -> SchedWf s' -> (forall r, worker s' r = worker s r) -> SysInv s'.
Proof.
  intros HS Hwf E. split; [done|..]; intros ? ?; rewrite E; apply HS.
Qed.

Lemma worker_id_index s r w :
  SysInv s -> worker s r = Some w -> (-1 <= to_int (worker_id w) < count s)%Z.
Proof.
  intros HS Hw. pose proof (si_wf s HS) as Hwf. pose proof (wf_count s Hwf).
  pose proof (wf_max s Hwf). unfold MaxWorkerThreads in *. destruct r as [i|tid].
  - destruct (si_wt s HS i w Hw) as [-> _].
    assert (i < length (worker_threads_ s))%nat by (by eapply lookup_lt_Some).
    unfold to_int. case_bool_decide; lia.
  - destruct (si_st s HS tid w Hw) as [-> _]. change (to_int (u32 (-1))) with (-1)%Z. lia.
Qed.

(** A worker's step keeps the exit condition of the workers of bound threads. *)
Lemma exec_exit_tasks e w w' o :
  reachable w -> exec e w = Some (Ok (w', o)) -> produced e = [] ->
  (pc w = PExited -> tasks (work_ w) = []) -> pc w' = PExited -> tasks (work_ w') = [].
Proof.
  intros Hr He Hp Hw Hpc.
  assert (tasks (work_ w) = []) as Ht.
  { destruct (exec_goes_on e w w' o He Hpc) as [E|[E|E]]; [| |by apply Hw].
    all: destruct (reachable_good w Hr) as [HI|[HD|[HE _]]]; [| |congruence];
      [apply (inv_ending w HI)|apply (drain_quiescent w HD)]; unfold ending; auto. }
  apply exec_queues in He. rewrite Ht, Hp in He. by apply app_eq_nil in He as [_ ?].
Qed.

(** An event of one worker of the system. *)
Lemma on_worker_ok r e s w :
  SysInv s -> worker s r = Some w -> legal e w ->
  match on_worker r e s with
  | None => True
  | Some (Ok (s', o)) => exists w',
      exec e w = Some (Ok (w', o)) /\ s' = foldl (apply_out (worker_id w)) (set_worker r w' s) o /\
      (produced e = [] \/ (exists i, r = WT i) \/ pc w <> PExited -> SysInv s')
  | Some _ => False
  end.
Proof.
  intros HS Hw Hl. unfold on_worker. rewrite Hw. simpl.
  pose proof (si_reach s HS r w Hw) as Hr.
  pose proof (good_exec e w (reachable_good w Hr) Hl) as Hg.
  destruct (exec e w) as [[[w' o]| |]|] eqn:He; simpl; [|done..].
  exists w'. split_and!; [done|done|]. intros Hcase.
  assert (reachable w') as Hr' by (eapply reach_step; [done|by econstructor]).
  pose proof (exec_identity _ _ _ _ He) as Hid.
  assert (SysInv (set_worker r w' s)) as HS'.
  { eapply inv_set_worker; try done. intros tid -> Hpc.
    destruct (si_st s HS tid w Hw) as (_ & _ & Hex).
    destruct Hcase as [Hp|[[i [=]]|Hne]]; [by apply (exec_exit_tasks e w w' o)|].
    destruct (exec_goes_on e w w' o He Hpc) as [E|[E|E]]; [| |done].
    all: destruct e; simpl in *; try (by eapply (exec_exit_tasks _ w w' o)); unfold exec, code in He;
      rewrite E in He; try done.
    all: destruct (reachable_good w Hr) as [HI|[HD|[HE _]]]; [| |congruence].
    all: try (pose proof (inv_mutex w HI) as Hm; rewrite E in Hm; simpl in Hm; by rewrite Hm in He).
    all: by rewrite (drain_mutex w HD) in He. }
  eapply (inv_same_workers (set_worker r w' s)); [done| |].
  - apply apply_outs_wf; [apply HS'|]. pose proof (worker_id_index s r w HS Hw). by destruct r.
  - intros r'. apply apply_outs_worker.
Qed.

(** ** Giving a task to a worker *)
Lemma exec_enqueue_task t w :
  mutex (work_ w) = false -> room w ->
  exec (EnqueueTask t) w =
    Some (Ok (with_task t w, if notify_added (work_ w) then [NotifyAdded] else [])).
Proof.
  intros Hm Hroom. unfold exec. rewrite code_external by done. rewrite Hm. simpl.
  rewrite bool_decide_eq_true_2 by done. rewrite enqueue_task_free by done. done.
Qed.

Lemma give_inv r t s w :
  SysInv s -> worker s r = Some w -> mutex (work_ w) = false -> room w ->
  (forall tid, r = ST tid -> pc w <> PExited) ->
  SysInv (set_worker r (with_task t w) s).
Proof.
  intros HS Hw Hm Hroom Hst. pose proof (exec_enqueue_task t w Hm Hroom) as He.
  eapply inv_set_worker; try done.
  - eapply reach_step; [by eapply HS|]. by eapply (step_event _ _ (EnqueueTask t)).
  - intros tid E Hpc. by destruct (Hst tid).
Qed.

Lemma user_mutex w : reachable w -> pc w = PUser -> mutex (work_ w) = false.
Proof.
  intros [HI|[HD|[HE _]]]%reachable_good Hpc; [|pose proof (drain_pc w HD) as H|congruence].
  - rewrite (inv_mutex w HI). by rewrite Hpc.
  - unfold ending in H. rewrite Hpc in H. naive_solver.
Qed.

(** ** Stealing *)
Lemma steal_spec w :
  mutex (work_ w) = false ->
  steal w =
    match tasks (work_ w) with
    | t :: ts =>
        if bool_decide (num (work_ w) = 0)%Z || Task_is t SameThread then Ok (false, w, [])
        else Ok (true, upd_work (fun k => decr_num (set_tasks ts k)) w, [Stolen t])
    | [] => Ok (false, w, [])
    end.
Proof.
  intros Hm. destruct w as [? ? ? ? [n nb ts fs ws na mu] ? ? ? ? ?]. simpl in Hm. subst mu.
  unfold steal, unlock_mutex, lock_mutex, get_locked, guard, work, atomic, mbind, M_bind, get, modify, emit, mret, M_ret.
  simpl. destruct ts as [|t ts]; case_bool_decide; simpl; try done. by destruct (Task_is t SameThread).
Qed.

Lemma steal_held w : mutex (work_ w) = true -> steal w = Ok (false, w, []).
Proof.
  intros Hm. unfold steal, mbind, M_bind, get, mret, M_ret. by case_bool_decide; rewrite ?Hm.
Qed.

Lemma stealWork_spec i rnd s :
  SysInv s ->
  exists o s', stealWork i rnd s = Ok (o, s') /\ SysInv s' /\
    (s' = s /\ o = None \/
     exists j w w' t, j <> i /\ worker s (WT j) = Some w /\ s' = set_worker (WT j) w' s /\
       o = Some t /\ Task_is t SameThread = false /\ pc w' = pc w /\
       tasks (work_ w) = t :: tasks (work_ w')).
Proof.
  intros HS. unfold stealWork. case_bool_decide as Hc; [|eauto 10].
  pose proof (si_wf s HS) as Hwf. pose proof (wf_count s Hwf) as Hcount.
  destruct (lookup_lt_is_Some_2 (worker_threads_ s) (Z.to_nat (u64 rnd mod count s))) as [w Hw].
  { pose proof (Z.mod_pos_bound (u64 rnd) (count s)). lia. }
  rewrite Hw. cbn [deref mbind result_bind]. case_bool_decide as Hne; [|eauto 10].
  set (j := Z.to_nat (u64 rnd mod count s)) in *.
  assert (worker s (WT j) = Some w) as Hw' by done.
  assert (set_worker (WT j) w s = s) as Hid.
  { unfold set_worker. rewrite list_insert_id by done. by destruct s. }
  destruct (mutex (work_ w)) eqn:Hm.
  { rewrite steal_held by done. cbn [mbind result_bind]. rewrite Hid. eauto 10. }
  rewrite steal_spec by done. destruct (tasks (work_ w)) as [|t ts] eqn:Hts;
    cbn [mbind result_bind]; [rewrite Hid; eauto 10|].
  destruct (bool_decide _ || _) eqn:Hb; cbn [mbind result_bind]; [rewrite Hid; eauto 10|].
  apply orb_false_iff in Hb as [Hnum Hflag].
  eexists _, _. split; [done|]. split.
  - eapply inv_set_worker; try done. eapply reach_step; [by eapply HS|].
    eapply (step_event _ _ Steal); [done|]. unfold exec. rewrite code_external by done.
    unfold mbind at 2, M_bind at 1. rewrite steal_spec by done. rewrite Hts, Hnum, Hflag. done.
  - right. eexists j, w, _, t. split_and!; try done.
Qed.

(** ** Where the tasks are *)
Definition queued (w : Worker) : list WTask := tasks (work_ w).

Definition held (s : Scheduler) : list WTask :=
  mjoin (queued <$> worker_threads_ s) ++ mjoin (queued <$> (map_to_list (by_tid s)).*2).

(** The tasks in a queue, or in the hand of a worker that has just stolen one. *)
Definition pending (y : System) : list WTask := held (sched y) ++ (map_to_list (stolen y)).*2.

Lemma held_list (f : Worker -> list WTask) l i (w w' : Worker) :
  l !! i = Some w ->
  exists rest, mjoin (f <$> l) ≡ₚ f w ++ rest /\
               mjoin (f <$> <[i := w']> l) ≡ₚ f w' ++ rest.
Proof.
  intros Hi. exists (mjoin (f <$> (take i l ++ drop (S i) l))).
  pose proof (lookup_lt_Some _ _ _ Hi).
  rewrite insert_take_drop by done. rewrite <- (take_drop_middle l i w Hi) at 1.
  rewrite !fmap_app, !join_app, !fmap_cons. simpl. split; solve_Permutation.
Qed.

Lemma held_map (m : gmap nat Worker) i w :
  m !! i = Some w ->
  mjoin (queued <$> (map_to_list m).*2) ≡ₚ
    queued w ++ mjoin (queued <$> (map_to_list (delete i m)).*2).
Proof.
  intros Hi. rewrite <- (insert_delete_id m i w Hi) at 1.
  rewrite map_to_list_insert by apply lookup_delete_eq. done.
Qed.

Lemma held_set_worker s r w w' :
  worker s r = Some w ->
  exists rest, held s ≡ₚ queued w ++ rest /\ held (set_worker r w' s) ≡ₚ queued w' ++ rest.
Proof.
  destruct r as [i|tid]; simpl; intros Hw; unfold held; simpl.
  - destruct (held_list queued _ _ _ w' Hw) as (rest & H1 & H2).
    exists (rest ++ mjoin (queued <$> (map_to_list (by_tid s)).*2)).
    rewrite H1, H2, <- !app_assoc. done.
  - exists (mjoin (queued <$> worker_threads_ s) ++
            mjoin (queued <$> (map_to_list (delete tid (by_tid s))).*2)).
    rewrite (held_map (by_tid s) tid w) by done.
    rewrite (held_map (<[tid := w']> (by_tid s)) tid w') by apply lookup_insert_eq.
    rewrite delete_insert_eq. split; solve_Permutation.
Qed.

Lemma held_same s s' : worker_threads_ s' = worker_threads_ s -> by_tid s' = by_tid s -> held s' = held s.
Proof. unfold held. by intros -> ->. Qed.

Lemma held_apply_outs id o s : held (foldl (apply_out id) s o) = held s.
Proof.
  revert s. induction o as [|x o IH]; intros s; simpl; [done|]. rewrite IH.
  by apply held_same; destruct x.
Qed.

Lemma ran_consumed r o :
  existsb is_stolen o = false -> ran (FromWorker r <$> o) = consumed o.
Proof.
  induction o as [|x o IH]; [done|]. cbn [existsb]. intros [Hx Ho]%orb_false_iff.
  specialize (IH Ho). destruct x; try exact IH; [|done].
  exact (f_equal (cons t) IH).
Qed.

Lemma accepted_worker r o : accepted (FromWorker r <$> o) = [].
Proof. unfold accepted. induction o as [|x o IH]; [done|]. simpl. exact IH. Qed.

(** The outcome of a step: no error, the invariant, and the tasks that are
    pending with those just run are those that were pending and those just
    accepted. *)
Definition step_ok (y : System) (r : option (Result (System * list SOut))) : Prop :=
  match r with
  | None => True
  | Some (Ok (y', o)) =>
      SysInv (sched y') /\ accepted o ++ pending y ≡ₚ ran o ++ pending y'
  | Some _ => False
  end.

(** A step of one worker inside the system. *)
Definition worker_step_ok (e : Event) (y : System) (r : option (Result (System * list SOut))) : Prop :=
  match r with
  | None => True
  | Some (Ok (y', o)) =>
      SysInv (sched y') /\ stolen y' = stolen y /\ accepted o = [] /\
      produced e ++ held (sched y) ≡ₚ ran o ++ held (sched y')
  | Some _ => False
  end.

Lemma lift_worker_ok r e y :
  SysInv (sched y) -> (forall w, worker (sched y) r = Some w -> legal e w) -> e <> Steal ->
  produced e = [] \/ (exists i, r = WT i) ->
  worker_step_ok e y (lift_worker r e y).
Proof.
  intros HS Hl Hne Hp. unfold lift_worker.
  destruct (worker (sched y) r) as [w|] eqn:Hw.
  2: { unfold on_worker. by rewrite Hw. }
  pose proof (on_worker_ok r e (sched y) w HS Hw (Hl w eq_refl)) as Hok.
  destruct (on_worker r e (sched y)) as [[[s o]| |]|]; simpl; try done.
  destruct Hok as (w' & He & -> & Hinv). split_and!; [|done|apply accepted_worker|].
  - apply Hinv. naive_solver.
  - rewrite held_apply_outs, ran_consumed by (by eapply exec_no_stolen).
    destruct (held_set_worker (sched y) r w w' Hw) as (rest & -> & ->).
    rewrite (app_assoc (consumed o)). unfold queued. rewrite (exec_queues _ _ _ _ He).
    solve_Permutation.
Qed.

Lemma worker_step_pending e y r :
  produced e = [] -> worker_step_ok e y r -> step_ok y r.
Proof.
  destruct r as [[[y' o]| |]|]; simpl; try done. intros -> (HS & Hst & Ha & Hh).
  split; [done|]. unfold pending. rewrite Ha, Hst. simpl in *. by rewrite Hh, app_assoc.
Qed.

(** A task given to a worker. *)
Lemma give_ok r t y s w :
  SysInv s -> held s = held (sched y) -> worker s r = Some w -> mutex (work_ w) = false -> room w ->
  (forall tid, r = ST tid -> pc w <> PExited) ->
  step_ok y (Some (enqueue_result t y (Ok (Done (set_worker r (with_task t w) s) r (notify_added (work_ w)))))).
Proof.
  intros HS Hh Hw Hm Hroom Hst. simpl.
  split; [by apply give_inv|]. unfold pending. simpl. rewrite <- Hh.
  destruct (held_set_worker s r w (with_task t w) Hw) as (rest & -> & ->).
  unfold queued. simpl.
  destruct (notify_added (work_ w)); simpl; solve_Permutation.
Qed.

Lemma turn_inv s : SysInv s -> SysInv (turn s).
Proof. intros HS. eapply inv_same_workers; [done|apply turn_wf, HS|done]. Qed.

(** What a turn of [enqueue] does: the scheduler is left with other indices, and
    perhaps with the task in the queue of a worker. *)
Definition same_workers (s s1 : Scheduler) : Prop :=
  worker_threads_ s1 = worker_threads_ s /\ by_tid s1 = by_tid s.

Lemma same_worker s s1 r : same_workers s s1 -> worker s1 r = worker s r.
Proof. intros [E1 E2]. destruct r; simpl; congruence. Qed.

Definition can_take (r : Ref) (w : Worker) : Prop :=
  mutex (work_ w) = false /\ room w /\ forall tid, r = ST tid -> pc w <> PExited.

Lemma enqueue_outcome cur busy t y :
  SysInv (sched y) -> sys_legal (SEnqueue cur busy t) y ->
  exists s1, same_workers (sched y) s1 /\ SysInv s1 /\
    (enqueue cur [busy] t (sched y) = Ok (Again s1) \/
     exists r w, worker (sched y) r = Some w /\ can_take r w /\
       enqueue cur [busy] t (sched y) = Ok (Done (set_worker r (with_task t w) s1) r (notify_added (work_ w)))).
Proof.
  intros HS (_ & _ & Hrooms & Hcur). unfold enqueue.
  assert (forall r w, worker (sched y) r = Some w -> pc w = PUser -> room w ->
    exists s1, same_workers (sched y) s1 /\ SysInv s1 /\
      (give r (enqueue_task t) (sched y) = Ok (Again s1) \/
       exists r' w', worker (sched y) r' = Some w' /\ can_take r' w' /\
         give r (enqueue_task t) (sched y) =
           Ok (Done (set_worker r' (with_task t w') s1) r' (notify_added (work_ w'))))) as Hgive.
  { intros r w Hw Hpc Hroom. assert (mutex (work_ w) = false) as Hm by (apply user_mutex; [by eapply HS|done]).
    exists (sched y). split_and!; [done|done|]. right. exists r, w. rewrite (give_free r t _ w) by done.
    split_and!; [done| |done]. split_and!; [done|done|]. by rewrite Hpc. }
  destruct (Task_is t SameThread) eqn:Hflag.
  { destruct cur as [r|]; [|naive_solver]. destruct Hcur as (w & Hw & Hpc & Hroom). by apply (Hgive r w). }
  case_bool_decide as Hc.
  2: { destruct cur as [r|]; [|naive_solver]. destruct Hcur as (w & Hw & Hpc & Hroom). by apply (Hgive r w). }
  cbn [enqueue_loop]. destruct (enqueue_try_spec busy t (sched y)) as (w & Hw & ->); [apply HS|done|].
  exists (turn (sched y)). split; [done|]. split; [by apply turn_inv|].
  destruct (busy || mutex (work_ w)) eqn:Hb; [by left|right].
  apply orb_false_iff in Hb as [_ Hm]. exists (WT (try_index (sched y))), w.
  rewrite (give_free _ t _ w) by done. split_and!; [done| |done]. split_and!; [done|by eapply Hrooms|done].
Qed.

Lemma enqueue_ok cur busy t y :
  SysInv (sched y) -> sys_legal (SEnqueue cur busy t) y ->
  step_ok y (sys_act (SEnqueue cur busy t) y).
Proof.
  intros HS Hl. simpl.
  destruct (enqueue_outcome cur busy t y HS Hl) as (s1 & Hs & HS1 & [->|(r & w & Hw & (Hm & Hroom & Hst) & ->)]).
  - simpl. split; [done|]. unfold pending. simpl. by rewrite (held_same _ _ (proj1 Hs) (proj2 Hs)).
  - apply (give_ok r t y s1 w); try done; [by apply held_same; apply Hs|]. by rewrite (same_worker _ _ _ Hs).
Qed.

Lemma steal_ok i rnd y :
  SysInv (sched y) -> sys_legal (SSteal i rnd) y -> step_ok y (sys_act (SSteal i rnd) y).
Proof.
  intros HS (Hst & _). simpl.
  destruct (stealWork_spec i rnd (sched y) HS) as (o & s' & -> & HS' & Hcase). simpl.
  destruct Hcase as [[-> ->]|(j & w & w' & t & _ & Hw & -> & -> & _ & _ & Ht)]; simpl; [done|].
  split; [done|]. unfold pending. simpl.
  destruct (held_set_worker (sched y) (WT j) w w' Hw) as (rest & -> & ->).
  rewrite (map_to_list_insert (stolen y) i t Hst). unfold queued. rewrite Ht. simpl.
  solve_Permutation.
Qed.

(** The same step through a kept pointer, to a worker that exists. *)
Lemma on_live_ok r e y w : worker (sched y) r = Some w -> on_live r e y = lift_worker r e y.
Proof. intros Hw. unfold on_live. by rewrite Hw. Qed.

Lemma put_stolen_ok i y :
  SysInv (sched y) -> (forall t, stolen y !! i = Some t -> is_Some (worker (sched y) (WT i))) ->
  step_ok y (sys_act (SPutStolen i) y).
Proof.
  intros HS Hlive. simpl. destruct (stolen y !! i) as [t|] eqn:Hst; simpl; [|done].
  destruct (Hlive t eq_refl) as [w Hw]. rewrite (on_live_ok _ _ _ _ Hw).
  pose proof (lift_worker_ok (WT i) (SpinStole t) y HS ltac:(done) ltac:(done) ltac:(eauto)) as Hok.
  destruct (lift_worker _ _ _) as [[[y' o]| |]|]; simpl in *; try done.
  destruct Hok as (HS' & Hsto & Ha & Hh). split; [done|]. unfold pending. simpl.
  rewrite Ha, Hsto, (app_assoc (ran o)), <- Hh. simpl.
  rewrite <- (insert_delete_id (stolen y) i t Hst) at 1.
  rewrite map_to_list_insert by apply lookup_delete_eq. simpl. solve_Permutation.
Qed.

Lemma shutdown_ok i y :
  SysInv (sched y) -> (forall j, stopping y !! i = Some j -> is_Some (worker (sched y) (WT j))) ->
  step_ok y (sys_act (SShutdown i) y).
Proof.
  intros HS Hlive. simpl. destruct (stopping y !! i) as [j|]; simpl; [|done].
  destruct (Hlive j eq_refl) as [v Hv]. rewrite (on_live_ok _ _ _ _ Hv).
  assert (worker_step_ok SetShutdown y (lift_worker (WT j) SetShutdown y)) as Hok.
  { apply lift_worker_ok; [done| |done|by left]. intros w Hw. by apply (si_wt _ HS j). }
  apply worker_step_pending in Hok; [|done].
  by destruct (lift_worker _ _ _) as [[[y' o]| |]|].
Qed.

Lemma start_reachable_ok tid main s :
  SysInv s -> by_tid s !! tid = None -> (0 < main < 2 ^ 62)%Z ->
  SysInv (set_bound ({[tid]} ∪ bound s)
    (<[tid := start (u32 (-1)) SingleThreaded main]> (by_tid s)) s).
Proof.
  intros HS Htid Hmain. split.
  - destruct (si_wf s HS). by split.
  - intros [i|t] w Hw; simpl in Hw; [by apply (si_reach s HS (WT i))|].
    apply lookup_insert_Some in Hw as [[<- <-]|[_ Hw]]; [by apply (reach_start _ SingleThreaded)|].
    by apply (si_reach s HS (ST t)).
  - intros i w Hw. by apply (si_wt s HS).
  - intros t w Hw. simpl in Hw.
    apply lookup_insert_Some in Hw as [[<- <-]|[_ Hw]]; [done|]. by apply (si_st s HS t).
Qed.

Lemma bind_ok tid main y :
  SysInv (sched y) -> sys_legal (SBind tid main) y -> step_ok y (sys_act (SBind tid main) y).
Proof.
  intros HS (_ & Hb & Htid & Hmain). simpl. unfold bind.
  rewrite bool_decide_eq_true_2 by done. simpl. rewrite Htid.
  split; [by apply start_reachable_ok|]. unfold pending, held. simpl.
  rewrite map_to_list_insert by done. done.
Qed.

Lemma unbind_begin_ok tid y :
  SysInv (sched y) -> sys_legal (SUnbindBegin tid) y -> step_ok y (sys_act (SUnbindBegin tid) y).
Proof.
  intros HS (Hb & w & Hw & Hpc & Hl). simpl. unfold unbind_begin.
  rewrite bool_decide_eq_true_2 by done. simpl.
  pose proof (on_worker_ok (ST tid) CallStop (sched y) w HS Hw Hl) as Hok.
  destruct (on_worker _ _ _) as [[[s o]| |]|]; simpl; try done.
  destruct Hok as (w' & He & -> & Hinv). split; [apply Hinv; by left|].
  unfold pending. simpl. rewrite held_apply_outs.
  destruct (held_set_worker (sched y) (ST tid) w w' Hw) as (rest & -> & Hh).
  rewrite Hh. assert (queued w' = queued w) as ->; [|done].
  pose proof (exec_queues _ _ _ _ He) as Hq. simpl in Hq. rewrite app_nil_r in Hq.
  unfold queued. rewrite <- Hq. unfold exec, code in He. rewrite Hpc in He.
  unfold stop_single, lock_mutex, push_frame, the_fiber, mbind, M_bind, get in He.
  rewrite (user_mutex w) in He by (done || by eapply HS). simpl in He.
  by destruct (heap w !! current_fiber_ w); simplify_eq/=.
Qed.

Lemma unbind_end_ok tid y :
  SysInv (sched y) -> sys_legal (SUnbindEnd tid) y -> step_ok y (sys_act (SUnbindEnd tid) y).
Proof.
  intros HS (Hb & w & Hw & Hpc). simpl. unfold unbind_end. simpl in Hw.
  rewrite (bool_decide_eq_true_2 (is_Some _)) by (by exists w). simpl. split.
  - split.
    + destruct (si_wf _ HS). by split.
    + intros [i|t] w1 Hw1; [by apply (si_reach _ HS (WT i))|]. simpl in Hw1.
      apply lookup_delete_Some in Hw1 as [_ Hw1]. by apply (si_reach _ HS (ST t)).
    + intros i w1 Hw1. by apply (si_wt _ HS).
    + intros t w1 Hw1. simpl in Hw1. apply lookup_delete_Some in Hw1 as [_ Hw1].
      by apply (si_st _ HS t).
  - unfold pending, held. simpl. rewrite (held_map (by_tid (sched y)) tid w Hw).
    destruct (si_st _ HS tid w Hw) as (_ & _ & Ht). unfold queued at 2. by rewrite Ht.
Qed.
