(* ===== verification/SystemRuns.v ===== *)
(** Runs of the whole scheduler, from its construction through its destructor:
    what the threads have in hand, what the destructor has done, and where stop
    tasks and tasks that come too late are. *)
From stdpp Require Import base numbers strings sets gmap list.
From S2P Require Import Prelude Task WaitingFibers Worker WorkerFrame WorkerLogic WorkerInv WorkerSafety WorkerProps WorkerQueue Scheduler SchedulerProps Threads System SystemInv.

(** ** Steps of one worker inside the system *)
Lemma apply_outs_fields id o s :
  worker_threads_ (foldl (apply_out id) s o) = worker_threads_ s /\
  by_tid (foldl (apply_out id) s o) = by_tid s.
Proof.
  revert s. induction o as [|x o IH]; intros s; [done|]. cbn [foldl]. destruct (IH (apply_out id s x)) as [-> ->].
  by destruct x.
Qed.

Lemma set_worker_fields r w w' s :
  worker s r = Some w ->
  length (worker_threads_ (set_worker r w' s)) = length (worker_threads_ s) /\
  (by_tid s = ∅ -> by_tid (set_worker r w' s) = ∅).
Proof.
  destruct r as [i|tid]; simpl; intros Hw; [by rewrite length_insert|]. split; [done|].
  intros E. by rewrite E, lookup_empty in Hw.
Qed.

(** [y'] is [y] after worker [r] has moved from [w] to [w']. *)
Record moved (r : Ref) (w w' : Worker) (y y' : System) : Prop := {
  mv_before : worker (sched y) r = Some w;
  mv_after r' v : worker (sched y') r' = Some v ->
    (r' = r /\ v = w') \/ (r' <> r /\ worker (sched y) r' = Some v);
  mv_here : worker (sched y') r = Some w';
  mv_there r' : r' <> r -> worker (sched y') r' = worker (sched y) r';
  mv_length : length (worker_threads_ (sched y')) = length (worker_threads_ (sched y));
  mv_unbound : by_tid (sched y) = ∅ -> by_tid (sched y') = ∅
}.

Lemma moved_set r w w' s y y' :
  worker (sched y) r = Some w -> same_workers (set_worker r w' s) (sched y') -> same_workers (sched y) s ->
  moved r w w' y y'.
Proof.
  intros Hw [E1 E2] Hs. assert (worker s r = Some w) as Hw' by (by rewrite (same_worker _ _ r Hs)).
  assert (forall r', worker (sched y') r' = worker (set_worker r w' s) r') as E by (intros r'; by apply same_worker).
  destruct (set_worker_fields r w w' s Hw') as [F1 F2]. destruct Hs as [G1 G2]. split.
  - done.
  - intros r' v Hv. rewrite E in Hv. apply (worker_set_Some s r r' w) in Hv as [?|[? Hv]]; [by left| |done].
    right. split; [done|]. by rewrite <- (same_worker (sched y) s).
  - rewrite E. by apply (worker_set_eq s r w).
  - intros r' Hne. rewrite E, worker_set_ne by done. by apply same_worker.
  - by rewrite E1, F1, G1.
  - rewrite E2, <- G2. exact F2.
Qed.

(** The stop tasks that start to run. *)
Lemma note_stops r o m i j :
  foldl (note_stop r) m o !! i = Some j ->
  m !! i = Some j \/ r = WT i /\ exists t, RunTask t ∈ o /\ stop_of t = Some j.
Proof.
  revert m. induction o as [|x o IH]; intros m; cbn [foldl]; [by left|]. intros [H|(-> & t & Ht & E)]%IH.
  - destruct r as [k|tid]; [|by left]. destruct x as [| |[[[k'|]|] ?]| | | | |]; simpl in H; try (by left).
    apply lookup_insert_Some in H as [[-> ->]|[_ H]]; [right|by left].
    split; [done|]. eexists. split; [left|done].
  - right. split; [done|]. exists t. split; [by right|done].
Qed.

Lemma lift_worker_inv r e y y' o :
  lift_worker r e y = Some (Ok (y', o)) ->
  exists w w' o', exec e w = Some (Ok (w', o')) /\ o = FromWorker r <$> o' /\ moved r w w' y y' /\
    stolen y' = stolen y /\ to_stop y' = to_stop y /\ threads y' = threads y /\ to_destroy y' = to_destroy y /\
    stopping y' = foldl (note_stop r) (stopping y) o'.
Proof.
  unfold lift_worker, on_worker. destruct (worker (sched y) r) as [w|] eqn:Hw; [|done]. simpl.
  destruct (exec e w) as [[[w' o']| |]|] eqn:He; simpl; [|done..]. intros [= <- <-].
  exists w, w', o'. split_and!; try done. eapply (moved_set r w w' (sched y)); [done| |done].
  destruct (apply_outs_fields (worker_id w) o' (set_worker r w' (sched y))) as [E1 E2]. by split.
Qed.

(** ** What the threads have in hand and what the destructor has done *)
Definition stop_below (n : nat) (t : WTask) : Prop := forall j, stop_of t = Some j -> j < n.

Record SysCtl (y : System) : Prop := {
  ct_workers : length (worker_threads_ (sched y)) = to_destroy y;
  ct_threads : to_destroy y <= length (threads y);
  ct_stolen i t : stolen y !! i = Some t -> exists w, worker (sched y) (WT i) = Some w /\ pc w = PSpin;
  ct_stopping i j : stopping y !! i = Some j ->
    (exists w, worker (sched y) (WT i) = Some w /\ pc w = PUser) /\ j < length (threads y);
  ct_thread i t : threads y !! i = Some t -> t = Thread_new \/ t = None;
  ct_joined i w : threads y !! i = Some None -> worker (sched y) (WT i) = Some w -> pc w = PExited;
  ct_loop j : to_stop y < j -> j < length (threads y) -> threads y !! j = Some None;
  ct_unbound : to_stop y < length (threads y) -> by_tid (sched y) = ∅;
  ct_stops : Forall (stop_below (length (threads y))) (pending y);
  ct_dead : ~ alive y -> to_stop y = 0 /\ threads y !! 0 = Some None
}.

(** When the destructor destroys workers, all their threads have ended. *)
Lemma dead_all_joined y :
  SysCtl y -> to_stop y = 0 -> threads y !! 0 = Some None -> 0 < length (threads y) ->
  (forall i t, threads y !! i = Some t -> t = None) /\
  (forall i w, worker (sched y) (WT i) = Some w -> pc w = PExited) /\
  stolen y = ∅ /\ stopping y = ∅ /\ by_tid (sched y) = ∅.
Proof.
  intros HC Hs H0 Hlen. assert (forall i t, threads y !! i = Some t -> t = None) as Hall.
  { intros i t Ht. destruct (decide (i = 0)) as [->|Hi]; [congruence|].
    pose proof (ct_loop y HC i) as H. rewrite Ht in H. specialize (H ltac:(lia) (lookup_lt_Some _ _ _ Ht)). congruence. }
  assert (forall i w, worker (sched y) (WT i) = Some w -> pc w = PExited) as Hex.
  { intros i w Hw. apply (ct_joined y HC i w); [|done]. pose proof (lookup_lt_Some _ _ _ Hw) as Hi.
    rewrite (ct_workers y HC) in Hi. pose proof (ct_threads y HC).
    destruct (lookup_lt_is_Some_2 (threads y) i) as [t Ht]; [lia|]. by rewrite Ht, (Hall i t Ht). }
  split_and!; [done|done|..].
  - apply map_empty. intros i. destruct (stolen y !! i) as [t|] eqn:E; [|done].
    destruct (ct_stolen y HC i t E) as (w & Hw & Hp). rewrite (Hex i w Hw) in Hp. done.
  - apply map_empty. intros i. destruct (stopping y !! i) as [j|] eqn:E; [|done].
    destruct (ct_stopping y HC i j E) as [(w & Hw & Hp) _]. rewrite (Hex i w Hw) in Hp. done.
  - apply (ct_unbound y HC). lia.
Qed.

Lemma dead_all_ended y :
  SysCtl y -> ~ alive y ->
  (forall i t, threads y !! i = Some t -> t = None) /\
  (forall i w, worker (sched y) (WT i) = Some w -> pc w = PExited) /\
  stolen y = ∅ /\ stopping y = ∅ /\ by_tid (sched y) = ∅.
Proof.
  intros HC Hd. destruct (ct_dead y HC Hd) as [Hs H0]. apply dead_all_joined; try done.
  by eapply lookup_lt_Some.
Qed.

(** A step that leaves the destructor where it is. *)
Lemma ctl_keep y y' :
  SysCtl y -> threads y' = threads y -> to_stop y' = to_stop y -> to_destroy y' = to_destroy y ->
  length (worker_threads_ (sched y')) = length (worker_threads_ (sched y)) ->
  (to_stop y < length (threads y) -> by_tid (sched y) = ∅ -> by_tid (sched y') = ∅) ->
  (forall i t, stolen y' !! i = Some t -> exists w, worker (sched y') (WT i) = Some w /\ pc w = PSpin) ->
  (forall i j, stopping y' !! i = Some j ->
     (exists w, worker (sched y') (WT i) = Some w /\ pc w = PUser) /\ j < length (threads y)) ->
  (forall i w', worker (sched y') (WT i) = Some w' ->
     exists w, worker (sched y) (WT i) = Some w /\ (pc w = PExited -> pc w' = PExited)) ->
  Forall (stop_below (length (threads y))) (pending y') ->
  SysCtl y'.
Proof.
  intros HC E1 E2 E3 E4 E5 H1 H2 H3 H4. split; rewrite ?E1, ?E2, ?E3, ?E4; try (apply HC); try done.
  - intros i w' Ht Hw'. destruct (H3 i w' Hw') as (w & Hw & Hex). apply Hex. by eapply (ct_joined y HC).
  - intros Hlt. apply E5; [done|]. by apply (ct_unbound y HC).
  - unfold alive. rewrite E1, E3. apply HC.
Qed.

(** One worker moves. *)
Lemma moved_ctl r w w' y y' :
  SysCtl y -> moved r w w' y y' -> threads y' = threads y -> to_stop y' = to_stop y -> to_destroy y' = to_destroy y ->
  (forall i t, stolen y' !! i = Some t -> if decide (WT i = r) then pc w' = PSpin else
     exists v, worker (sched y) (WT i) = Some v /\ pc v = PSpin) ->
  (forall i j, stopping y' !! i = Some j -> j < length (threads y) /\
     if decide (WT i = r) then pc w' = PUser else exists v, worker (sched y) (WT i) = Some v /\ pc v = PUser) ->
  (pc w = PExited -> pc w' = PExited) ->
  Forall (stop_below (length (threads y))) (pending y') -> SysCtl y'.
Proof.
  intros HC HM E1 E2 E3 H1 H2 H3 H4. eapply (ctl_keep y); try done.
  - by eapply mv_length.
  - intros _. by eapply mv_unbound.
  - intros i t Ht. specialize (H1 i t Ht). destruct (decide (WT i = r)) as [<-|Hne].
    + exists w'. split; [by eapply mv_here|done].
    + destruct H1 as (v & Hv & Hp). exists v. by rewrite (mv_there _ _ _ _ _ HM).
  - intros i j Hj. destruct (H2 i j Hj) as [Hlt H]. split; [|done]. destruct (decide (WT i = r)) as [<-|Hne].
    + exists w'. split; [by eapply mv_here|done].
    + destruct H as (v & Hv & Hp). exists v. by rewrite (mv_there _ _ _ _ _ HM).
  - intros i v Hv. destruct (mv_after _ _ _ _ _ HM _ _ Hv) as [[<- ->]|[_ Hv']]; [|by exists v].
    exists w. split; [by eapply mv_before|done].
Qed.

(** The tasks that run, and those still pending, are among the old ones. *)
Lemma step_tasks (P : WTask -> Prop) y y' o :
  Forall P (pending y) -> Forall P (accepted o) -> accepted o ++ pending y ≡ₚ ran o ++ pending y' ->
  Forall P (ran o) /\ Forall P (pending y').
Proof. intros H1 H2 Hp. apply Forall_app. rewrite <- Hp. by apply Forall_app. Qed.

Lemma ran_elem r t o : RunTask t ∈ o -> t ∈ ran (FromWorker r <$> o).
Proof.
  intros Ht. unfold ran. apply list_elem_of_join. exists [t]. split; [left|].
  apply list_elem_of_fmap. exists (FromWorker r (RunTask t)). split; [done|]. by apply list_elem_of_fmap_2.
Qed.

Lemma exited_own e w : pc w = PExited -> own_event e = true -> exec e w = None.
Proof. intros Hp He. unfold exec, code. rewrite Hp. by destruct e. Qed.

(** The outcome of a step. *)
Definition SysOk (y : System) : Prop := SysCtl y /\ (alive y -> SysInv (sched y)).

Definition act_ok (y : System) (r : option (Result (System * list SOut))) : Prop :=
  match r with
  | None => True
  | Some (Ok (y', o)) =>
      SysOk y' /\ accepted o ++ pending y ≡ₚ ran o ++ dropped o ++ pending y' /\ (alive y' -> dropped o = [])
  | Some _ => False
  end.

Lemma dropped_worker r o : dropped (FromWorker r <$> o) = [].
Proof. unfold dropped. induction o as [|x o IH]; [done|]. exact IH. Qed.

(** A step that is [step_ok] and keeps control. *)
Lemma step_act_ok y r :
  step_ok y r ->
  (forall y' o, r = Some (Ok (y', o)) -> SysInv (sched y') -> accepted o ++ pending y ≡ₚ ran o ++ pending y' ->
     SysCtl y' /\ dropped o = []) ->
  act_ok y r.
Proof.
  destruct r as [[[y' o]| |]|]; simpl; try done. intros [HS Hp] H. destruct (H y' o eq_refl HS Hp) as [HC Hd].
  rewrite Hd. split_and!; [by split|done|done].
Qed.

(** A step of one worker: of its own thread, or of another one. *)
Lemma lift_ctl r e y y' o :
  SysCtl y -> lift_worker r e y = Some (Ok (y', o)) ->
  (external e = true \/ own_event e = true /\ forall i, r = WT i -> stolen y !! i = None /\ stopping y !! i = None) ->
  Forall (stop_below (length (threads y))) (ran o) -> Forall (stop_below (length (threads y))) (pending y') ->
  SysCtl y' /\ dropped o = [] /\ accepted o = [].
Proof.
  intros HC HL He Hran Hpen.
  destruct (lift_worker_inv r e y y' o HL) as (w & w' & o' & Hex & -> & HM & E1 & E2 & E3 & E4 & E5).
  split; [|split; [apply dropped_worker|apply accepted_worker]].
  assert (forall i j, stopping y' !! i = Some j -> stopping y !! i = Some j \/
    WT i = r /\ pc w' = PUser /\ j < length (threads y)) as Hstop.
  { intros i j. rewrite E5. intros [?|(-> & t & Ht & Hj)]%note_stops; [by left|right]. split_and!; [done| |].
    - apply (exec_run_pc _ _ _ _ Hex). apply existsb_exists. exists (RunTask t). split; [by apply list_elem_of_In|done].
    - rewrite Forall_forall in Hran. by apply (Hran t (ran_elem _ _ _ Ht)). }
  apply (moved_ctl r w w' y y' HC HM); try done.
  - intros i t. rewrite E1. intros Ht. case_decide as Hr; [|by apply (ct_stolen y HC i t)].
    destruct He as [He|[_ He]]; [|subst r; by destruct (He i eq_refl) as [? _]; simplify_eq].
    rewrite (exec_external_pc _ _ _ _ He Hex). destruct (ct_stolen y HC i t Ht) as (v & Hv & Hp).
    subst r. by rewrite (mv_before _ _ _ _ _ HM) in Hv; simplify_eq.
  - intros i j Hj. destruct (Hstop i j Hj) as [Hj'|(Hr & Hp & Hlt)].
    2: { split; [done|]. by case_decide. }
    destruct (ct_stopping y HC i j Hj') as [(v & Hv & Hp) Hlt]. split; [done|]. case_decide as Hr; [|eauto].
    destruct He as [He|[_ He]]; [|subst r; by destruct (He i eq_refl) as [_ ?]; simplify_eq].
    rewrite (exec_external_pc _ _ _ _ He Hex). subst r. by rewrite (mv_before _ _ _ _ _ HM) in Hv; simplify_eq.
  - intros Hp. destruct He as [He|[He _]]; [by rewrite (exec_external_pc _ _ _ _ He Hex)|].
    by rewrite (exited_own e w Hp He) in Hex.
Qed.

(** ** Every event, while the workers exist *)
Section alive.
Context (y : System) (HC : SysCtl y) (HS : SysInv (sched y)).

Lemma worker_act r e :
  sys_legal (SWorker r e) y -> act_ok y (lift_worker r e y).
Proof.
  intros (Hown & Hidle & Hl). assert (produced e = []) as Hp by (by destruct e).
  assert (step_ok y (lift_worker r e y)) as Hok.
  { apply (worker_step_pending e); [done|]. apply lift_worker_ok; try done; [|by left]. by intros ->. }
  apply step_act_ok; [done|]. intros y' o E HS' Heq.
  assert (accepted o = []) as Ha by (destruct (lift_worker_inv r e y y' o E) as (? & ? & ? & _ & -> & _); apply accepted_worker).
  destruct (step_tasks (stop_below (length (threads y))) y y' o (ct_stops y HC)) as [H1 H2]; [by rewrite Ha; constructor|done|].
  destruct (lift_ctl r e y y' o HC E) as (H3 & H4 & _); auto.
Qed.

Lemma external_act r e w :
  worker (sched y) r = Some w -> legal e w -> external e = true -> e <> Steal -> produced e = [] ->
  act_ok y (on_live r e y).
Proof.
  intros Hw Hl He Hne Hp. rewrite (on_live_ok r e y w Hw).
  assert (step_ok y (lift_worker r e y)) as Hok.
  { apply (worker_step_pending e); [done|]. apply lift_worker_ok; try done; [|by left]. intros v Hv. by simplify_eq. }
  apply step_act_ok; [done|]. intros y' o E HS' Heq.
  assert (accepted o = []) as Ha by (destruct (lift_worker_inv r e y y' o E) as (? & ? & ? & _ & -> & _); apply accepted_worker).
  destruct (step_tasks (stop_below (length (threads y))) y y' o (ct_stops y HC)) as [H1 H2]; [by rewrite Ha; constructor|done|].
  destruct (lift_ctl r e y y' o HC E) as (H3 & H4 & _); auto.
Qed.

Lemma live_below j : alive y -> j < length (threads y) -> is_Some (worker (sched y) (WT j)).
Proof. intros Ha Hj. apply lookup_lt_is_Some_2. by rewrite (ct_workers y HC), Ha. Qed.

Lemma shutdown_act i : alive y -> act_ok y (sys_act (SShutdown i) y).
Proof.
  intros Ha. assert (forall j, stopping y !! i = Some j -> is_Some (worker (sched y) (WT j))) as Hlive.
  { intros j Hj. apply live_below; [done|]. by apply (ct_stopping y HC i). }
  simpl. destruct (stopping y !! i) as [j|] eqn:Hi; simpl; [|done].
  destruct (Hlive j eq_refl) as [w Hw].
  pose proof (external_act (WT j) SetShutdown w Hw ltac:(by apply (si_wt _ HS j)) eq_refl ltac:(done) eq_refl) as Hok.
  destruct (on_live (WT j) SetShutdown y) as [[[y' o]| |]|]; simpl in *; try done.
  destruct Hok as ([HC' HS'] & Heq & Hd). split_and!; [|done|done]. split; [|done].
  destruct HC' as [C1 C2 C3 C4 C5 C6 C7 C8 C9 C10]. split; try done.
  intros k j' Hk. simpl in Hk. apply lookup_delete_Some in Hk as [_ Hk]. by apply C4.
Qed.

Lemma put_stolen_act i : act_ok y (sys_act (SPutStolen i) y).
Proof.
  apply step_act_ok.
  { apply put_stolen_ok; [done|]. intros t Ht. destruct (ct_stolen y HC i t Ht) as (w & Hw & _). by exists w. }
  intros y' o. cbn [sys_act]. destruct (stolen y !! i) as [t|] eqn:Hst; [|done].
  destruct (ct_stolen y HC i t Hst) as (w0 & Hw0 & Hp0). cbn [mbind option_bind]. rewrite (on_live_ok _ _ _ _ Hw0).
  destruct (lift_worker (WT i) (SpinStole t) y) as [[[y1 o1]| |]|] eqn:HL; simpl; [|done..]. intros [= <- <-] HS' Heq.
  destruct (lift_worker_inv _ _ _ _ _ HL) as (w & w' & o' & Hex & -> & HM & E1 & E2 & E3 & E4 & E5).
  pose proof (mv_before _ _ _ _ _ HM) as Hw. assert (w0 = w) as -> by congruence. split; [|apply dropped_worker].
  destruct (step_tasks (stop_below (length (threads y))) _ _ _ (ct_stops y HC)
    ltac:(rewrite accepted_worker; constructor) Heq) as [H1 H2].
  eapply (moved_ctl (WT i) w w' y); try done; simpl.
  - destruct HM. by split.
  - intros k t'. rewrite E1. intros [Hne Hk]%lookup_delete_Some. case_decide as Hd; [congruence|by apply (ct_stolen y HC k t')].
  - intros k j. rewrite E5. intros [Hk|(Hk & t' & Ht' & Hj)]%note_stops.
    + destruct (ct_stopping y HC k j Hk) as [(v & Hv & Hp) Hlt]. split; [done|]. case_decide as Hd; [|eauto].
      injection Hd as ->. congruence.
    + rewrite Forall_forall in H1. split; [by apply (H1 t' (ran_elem _ _ _ Ht'))|]. injection Hk as ->.
      rewrite decide_True by done. apply (exec_run_pc _ _ _ _ Hex). apply existsb_exists. exists (RunTask t').
      split; [by apply list_elem_of_In|done].
  - congruence.
Qed.

Lemma steal_act i rnd : sys_legal (SSteal i rnd) y -> act_ok y (sys_act (SSteal i rnd) y).
Proof.
  intros Hl. apply step_act_ok; [by apply steal_ok|]. destruct Hl as [Hnone (w0 & Hw0 & Hp0)].
  intros y' o. cbn [sys_act]. destruct (stealWork_spec i rnd (sched y) HS) as (r & s' & -> & HS' & Hcase). simpl.
  destruct Hcase as [[-> ->]|(j & w & w' & t & Hne & Hw & -> & -> & _ & Hpc & _)]; intros [= <- <-] _ Heq.
  - split; [|done]. by destruct y.
  - split; [|done]. destruct (step_tasks (stop_below (length (threads y))) _ _ [Took i t] (ct_stops y HC)
      ltac:(constructor) Heq) as [_ H2].
    eapply (moved_ctl (WT j) w w' y); try done; simpl.
    + eapply moved_set; [done| |]; done.
    + intros k t' Hk. case_decide as Hd.
      * injection Hd as ->. rewrite lookup_insert_ne in Hk by congruence.
        destruct (ct_stolen y HC j t' Hk) as (v & Hv & Hp). simplify_eq. congruence.
      * apply lookup_insert_Some in Hk as [[<- _]|[_ Hk]]; [eauto|by apply (ct_stolen y HC k t')].
    + intros k j' Hk. destruct (ct_stopping y HC k j' Hk) as [(v & Hv & Hp) Hlt]. split; [done|].
      case_decide as Hd; [|eauto]. injection Hd as ->. simplify_eq. congruence.
    + congruence.
Qed.

(** A task is put in the queue of worker [r]. *)
Lemma give_ctl r t s1 w o :
  worker (sched y) r = Some w -> same_workers (sched y) s1 -> stop_below (length (threads y)) t ->
  accepted o = [t] ->
  accepted o ++ pending y ≡ₚ ran o ++ pending (with_sched (set_worker r (with_task t w) s1) y) ->
  SysCtl (with_sched (set_worker r (with_task t w) s1) y).
Proof.
  intros Hw Hs Ht Ha Heq.
  eapply step_tasks in Heq as [_ H2]; [|apply HC|rewrite Ha; by repeat constructor].
  assert (moved r w (with_task t w) y (with_sched (set_worker r (with_task t w) s1) y)) as HM
    by (by eapply moved_set).
  eapply (moved_ctl r w (with_task t w) y); try done; simpl.
  - intros i t' Hi. destruct (ct_stolen y HC i t' Hi) as (v & Hv & Hp). case_decide as Hd; [|eauto].
    subst r. simplify_eq. done.
  - intros i j Hi. destruct (ct_stopping y HC i j Hi) as [(v & Hv & Hp) Hlt]. split; [done|].
    case_decide as Hd; [|eauto]. subst r. simplify_eq. done.
Qed.

Lemma not_stop_below n t : not_stop t = true -> stop_below n t.
Proof. unfold not_stop, stop_below, stop_of. by destruct (function_ t) as [[]|]. Qed.

Lemma enqueue_act cur busy t :
  sys_legal (SEnqueue cur busy t) y -> act_ok y (sys_act (SEnqueue cur busy t) y).
Proof.
  intros Hl. apply step_act_ok; [by apply enqueue_ok|]. intros y' o. cbn [sys_act].
  destruct (enqueue_outcome cur busy t y HS Hl) as (s1 & Hs & HS1 & [->|(r & w & Hw & _ & ->)]); simpl.
  - intros [= <- <-] _ Heq. split; [|done].
    apply (step_tasks (stop_below (length (threads y))) _ _ []) in Heq as [_ H2]; [|apply HC|constructor].
    assert (forall r, worker s1 r = worker (sched y) r) as E by (intros r; by apply same_worker).
    eapply (ctl_keep y); try done; cbn [sched stolen stopping with_sched].
    + by rewrite (proj1 Hs).
    + by rewrite (proj2 Hs).
    + intros i t' Hi. rewrite E. by apply (ct_stolen y HC i t').
    + intros i j Hi. rewrite E. by apply (ct_stopping y HC i j).
    + intros i v. rewrite E. eauto.
  - intros [= <- <-] _ Heq. split; [|by destruct (notify_added _)].
    eapply give_ctl; [done|done| | |exact Heq]; [|by destruct (notify_added _)].
    apply not_stop_below. apply Hl.
Qed.

Lemma stop_act i : sys_legal (SStop i) y -> act_ok y (sys_act (SStop i) y).
Proof.
  intros (Hb & Hi & Hprev & w & Hw & Hm & Hroom). cbn [sys_act].
  pose proof (give_ok (WT i) (stop_task i) y (sched y) w HS eq_refl Hw Hm Hroom ltac:(done)) as Hok.
  rewrite (give_free _ _ _ w Hw Hm). cbn [enqueue_result mbind result_bind].
  cbn [enqueue_result mbind result_bind step_ok] in Hok. destruct Hok as [HS' Heq].
  assert (i < length (threads y)) as Hlt.
  { pose proof (lookup_lt_Some _ _ _ Hw) as H. rewrite (ct_workers y HC) in H. pose proof (ct_threads y HC). lia. }
  assert (SysCtl (with_sched (set_worker (WT i) (with_task (stop_task i) w) (sched y)) y)) as HC'.
  { eapply give_ctl; [done|done| | |exact Heq]; [by intros j [= <-]|by destruct (notify_added _)]. }
  set (s' := set_worker (WT i) _ _) in *. cbn [act_ok]. split; [|split; [|by destruct (notify_added _)]].
  - split; [|done]. destruct HC' as [C1 C2 C3 C4 C5 C6 C7 C8 C9 C10]. split; try done.
    + intros j Hj Hlj. cbn [to_stop threads] in *. destruct (decide (j = S i)) as [->|]; [by apply Hprev|].
      apply C7; [|done]. cbn. lia.
    + intros Hd. destruct (C10 Hd) as [Hz _]. cbn in Hz. lia.
  - destruct (notify_added (work_ w)); exact Heq.
Qed.

Lemma join_act i : sys_legal (SJoin i) y -> act_ok y (sys_act (SJoin i) y).
Proof.
  intros [Hi Ht]. cbn [sys_act]. destruct (worker (sched y) (WT i)) as [w|] eqn:Hw; [|done]. cbn [mbind option_bind].
  destruct (exited w) eqn:He; [|done]. rewrite Ht. cbn. assert (pc w = PExited) as Hp by (unfold exited in He; by destruct (pc w)).
  split_and!; [|done|done]. split; [|by unfold alive; cbn; rewrite length_insert; intros Ha].
  destruct HC as [C1 C2 C3 C4 C5 C6 C7 C8 C9 C10]. split; cbn; rewrite ?length_insert; try done.
  - intros k t [(<- & <- & _)|[_ Hk]]%list_lookup_insert_Some; [by right|by apply (C5 k)].
  - intros k v. rewrite list_lookup_insert_Some. intros [(<- & _)|[_ Hk]] Hv; [cbn in *; congruence|by apply (C6 k)].
  - intros k Hk Hlk. destruct (decide (k = i)) as [->|]; [lia|]. rewrite list_lookup_insert_ne by done. by apply C7.
  - unfold alive. cbn. rewrite length_insert. intros Hd. destruct (C10 Hd) as [Hz H0].
    assert (i = 0) as Hi0 by lia. rewrite Hi0, H0 in Ht. discriminate.
Qed.

Lemma single_act s' :
  SysInv s' -> worker_threads_ s' = worker_threads_ (sched y) -> held s' ≡ₚ held (sched y) ->
  (to_stop y < length (threads y) -> by_tid (sched y) = ∅ -> by_tid s' = ∅) ->
  act_ok y (Some (Ok (with_sched s' y, []))).
Proof.
  intros HS' Ew Hh Hb. assert (pending (with_sched s' y) ≡ₚ pending y) as Hp by (unfold pending; cbn; by rewrite Hh).
  cbn. split_and!; [|by rewrite Hp|done]. split; [|done].
  eapply (ctl_keep y); try done; cbn [sched stolen stopping with_sched worker]; rewrite ?Ew; try done.
  - apply (ct_stolen y HC).
  - apply (ct_stopping y HC).
  - eauto.
  - rewrite Hp. apply HC.
Qed.

Lemma bind_act tid main : sys_legal (SBind tid main) y -> act_ok y (sys_act (SBind tid main) y).
Proof.
  intros (Hstop & Hl). pose proof (bind_ok tid main y HS (conj Hstop Hl)) as Hok. destruct Hl as (Hb & Htid & Hmain).
  cbn [sys_act] in *. unfold bind in *. rewrite bool_decide_eq_true_2 in * by done. cbn [MARL_ASSERT mbind result_bind] in *.
  rewrite Htid in *. destruct Hok as [HS' Heq]. apply single_act; try done.
  - unfold held. cbn. rewrite map_to_list_insert by done. done.
  - lia.
Qed.

Lemma unbind_begin_act tid : sys_legal (SUnbindBegin tid) y -> act_ok y (sys_act (SUnbindBegin tid) y).
Proof.
  intros Hl. pose proof (unbind_begin_ok tid y HS Hl) as Hok. destruct Hl as (Hb & w & Hw & _). cbn [sys_act] in *.
  destruct (unbind_begin tid (sched y)) as [[s'|]| |] eqn:E; try done. destruct Hok as [HS' Heq].
  unfold unbind_begin in E. rewrite bool_decide_eq_true_2 in E by done. cbn [MARL_ASSERT mbind result_bind] in E.
  unfold on_worker in E. rewrite Hw in E. cbn [mbind option_bind] in E.
  destruct (exec CallStop w) as [[[w' o]| |]|]; cbn in E; simplify_eq.
  destruct (apply_outs_fields (worker_id w) o (set_worker (ST tid) w' (sched y))) as [E1 E2].
  apply single_act; [done|exact E1| |].
  - unfold pending in Heq. cbn in Heq. by apply (Permutation_app_inv_r ((map_to_list (stolen y)).*2)).
  - intros _ E. cbn in Hw. by rewrite E, lookup_empty in Hw.
Qed.

Lemma unbind_end_act tid : sys_legal (SUnbindEnd tid) y -> act_ok y (sys_act (SUnbindEnd tid) y).
Proof.
  intros Hl. pose proof (unbind_end_ok tid y HS Hl) as Hok. destruct Hl as (Hb & w & Hw & _). cbn [sys_act] in *.
  unfold unbind_end in *. rewrite (bool_decide_eq_true_2 (is_Some (by_tid (sched y) !! tid))) in Hok |- * by (by exists w). cbn [MARL_ASSERT mbind result_bind] in *.
  destruct Hok as [HS' Heq]. apply single_act; try done.
  - unfold pending in Heq. cbn in Heq. by apply (Permutation_app_inv_r ((map_to_list (stolen y)).*2)).
  - intros _ E. cbn in Hw. by rewrite E, lookup_empty in Hw.
Qed.
End alive.

(** ** Every event *)
Lemma take_all {A} (l : list A) i x : l !! i = Some x -> length l = S i -> l = take i l ++ [x].
Proof. intros Hx Hl. by rewrite <- (take_S_r l i x Hx), take_ge by lia. Qed.

Lemma dropped_tasks ts : dropped (Dropped <$> ts) = ts /\ accepted (Dropped <$> ts) = [] /\ ran (Dropped <$> ts) = [].
Proof.
  unfold dropped, accepted, ran. induction ts as [|t ts (IH1 & IH2 & IH3)]; [done|].
  split_and!; [exact (f_equal (cons t) IH1)|exact IH2|exact IH3].
Qed.

(** The destructor destroys a worker: its thread was joined, and what is in its
    queue is lost. *)
Lemma destroy_act i y : SysCtl y -> sys_legal (SDestroy i) y -> act_ok y (sys_act (SDestroy i) y).
Proof.
  intros HC (Hs & H0 & Hd). pose proof (ct_workers y HC) as Hlen. pose proof (ct_threads y HC) as Hle. rewrite Hd in *.
  destruct (dead_all_joined y HC Hs H0 ltac:(lia)) as (Hall & Hex & E1 & E2 & E3).
  destruct (lookup_lt_is_Some_2 (worker_threads_ (sched y)) i) as [w Hw]; [lia|].
  destruct (lookup_lt_is_Some_2 (threads y) i) as [t Ht]; [lia|].
  cbn [sys_act worker]. rewrite Hw, Ht, (Hall i t Ht). cbn [deref mbind result_bind].
  change (Thread_dtor None) with (@Ok unit ()). cbn [mbind result_bind act_ok].
  destruct (dropped_tasks (tasks (work_ w))) as (-> & -> & ->). cbn [app].
  set (y' := mkSystem _ _ _ _ _ _).
  assert (pending y ≡ₚ tasks (work_ w) ++ pending y') as Hpen.
  { unfold pending, held, y'. cbn. rewrite (take_all _ i w Hw Hlen) at 1. rewrite fmap_app, join_app. cbn.
    rewrite app_nil_r. unfold queued at 2. solve_Permutation. }
  assert (~ alive y') as Hna by (unfold alive, y'; cbn; lia).
  split_and!; [|done|done]. split; [|done]. split; cbn; try done; try apply HC.
  - rewrite length_take. lia.
  - lia.
  - rewrite E1. by intros k t'; rewrite lookup_empty.
  - rewrite E2. by intros k j; rewrite lookup_empty.
  - intros k v Hk Hv. rewrite lookup_take in Hv. case_decide; [|done]. by eapply Hex.
  - pose proof (ct_stops y HC) as Hf. rewrite Hpen in Hf. by apply Forall_app in Hf as [_ Hf].
Qed.

(** When it destroys them, nothing else happens. *)
Lemma dead_only_destroys e y :
  SysCtl y -> to_destroy y <> length (threads y) -> sys_legal e y -> (forall i, e <> SDestroy i) -> sys_act e y = None.
Proof.
  intros HC Hd Hl Hnd. destruct (dead_all_ended y HC Hd) as (Hall & Hex & E1 & E2 & E3). destruct (ct_dead y HC Hd) as [Hs H0].
  assert (forall tid w, worker (sched y) (ST tid) = Some w -> False) as Hst.
  { intros tid w. cbn. by rewrite E3, lookup_empty. }
  destruct e as [r e|i rnd|i|cur busy t|r f|i|i|i|i|tid main|tid|tid]; cbn [sys_legal] in Hl.
  - cbn [sys_act]. unfold lift_worker, on_worker. destruct (worker (sched y) r) as [w|] eqn:Hw; [|done].
    cbn [mbind option_bind]. destruct r as [i|tid]; [|by destruct (Hst tid w)].
    by rewrite (exited_own e w (Hex i w Hw)) by apply Hl.
  - destruct Hl as (_ & w & Hw & Hp). rewrite (Hex i w Hw) in Hp. done.
  - cbn [sys_act]. by rewrite E1, lookup_empty.
  - by destruct Hl.
  - destruct Hl as (w & Hw & Hp & _). destruct r as [i|tid]; [|by destruct (Hst tid w)]. by destruct (Hp (Hex i w Hw)).
  - destruct Hl as (_ & Hi & _). congruence.
  - destruct Hl as [_ Ht]. by pose proof (Hall i _ Ht).
  - by destruct (Hnd i).
  - cbn [sys_act]. by rewrite E2, lookup_empty.
  - destruct Hl as (Ht & _). apply lookup_lt_Some in H0. lia.
  - destruct Hl as (_ & w & Hw & _). by destruct (Hst tid w).
  - destruct Hl as (_ & w & Hw & _). by destruct (Hst tid w).
Qed.

Lemma sys_act_ok e y : SysOk y -> sys_legal e y -> act_ok y (sys_act e y).
Proof.
  intros [HC HS] Hl. destruct (decide (to_destroy y = length (threads y))) as [Ha|Hd].
  { specialize (HS Ha). destruct e as [r e|i rnd|i|cur busy t|r f|i|i|i|i|tid main|tid|tid].
    - by apply worker_act.
    - by apply steal_act.
    - by apply put_stolen_act.
    - by apply enqueue_act.
    - destruct Hl as (w & Hw & Hl). by eapply external_act.
    - by apply stop_act.
    - by apply join_act.
    - by apply destroy_act.
    - by apply shutdown_act.
    - by apply bind_act.
    - by apply unbind_begin_act.
    - by apply unbind_end_act. }
  destruct e; try (by apply destroy_act). all: rewrite (dead_only_destroys _ y HC Hd Hl) by done; exact I.
Qed.

(** With the accesses, which are no tasks. *)
Lemma touched_nothing l o :
  accepted ((Touched <$> l) ++ o) = accepted o /\ late ((Touched <$> l) ++ o) = late o /\
  ran ((Touched <$> l) ++ o) = ran o /\ dropped ((Touched <$> l) ++ o) = dropped o.
Proof. induction l as [|a l IH]; [done|exact IH]. Qed.

Lemma sys_exec_ok e y : SysOk y -> sys_legal e y -> act_ok y (sys_exec e y).
Proof.
  intros HO Hl. pose proof (sys_act_ok e y HO Hl) as Hok. unfold sys_exec.
  destruct (sys_act e y) as [[[y' o]| |]|]; try done. cbn in *.
  destruct (touched_nothing (accesses e y) o) as (-> & _ & -> & ->). exact Hok.
Qed.

(** ** Runs *)
Lemma construct_inv n mains s : sys_start n mains s -> SysInv s.
Proof.
  intros (Hc & Hn & Hlen & Hmains). split; [by eapply construct_wf|..].
  all: unfold construct in Hc; case_bool_decide; [|done]; simplify_eq.
  all: assert (take (Z.to_nat n) mains = mains) as Et by (apply take_ge; lia).
  - intros [i|tid] w Hw; simpl in Hw; [|by rewrite lookup_empty in Hw].
    rewrite Et in Hw. apply start_workers_lookup in Hw as (main & Hm & ->).
    apply (reach_start _ MultiThreaded). rewrite Forall_lookup in Hmains. by eapply Hmains.
  - intros i w Hw. simpl in Hw. rewrite Et in Hw.
    by apply start_workers_lookup in Hw as (main & Hm & ->).
  - intros tid w Hw. simpl in Hw. by rewrite lookup_empty in Hw.
Qed.

(** What the constructor leaves. *)
Lemma construct_fresh n mains s :
  sys_start n mains s -> by_tid s = ∅ /\ forall i w, worker s (WT i) = Some w -> queued w = [] /\ pc w <> PExited.
Proof.
  intros (Hc & Hn & Hlen & _). unfold construct in Hc. case_bool_decide; [|done]. simplify_eq. split; [done|].
  intros i w Hw. cbn in Hw. by apply start_workers_lookup in Hw as (main & Hm & ->).
Qed.

Lemma pending_initial n mains s : sys_start n mains s -> pending (initial s) = [].
Proof.
  intros Hs. destruct (construct_fresh n mains s Hs) as [Hb Hq]. unfold pending, held. cbn.
  rewrite Hb, !map_to_list_empty. cbn. rewrite !app_nil_r.
  assert (forall w, w ∈ worker_threads_ s -> queued w = []) as H.
  { intros w [i Hi]%list_elem_of_lookup. by apply (Hq i). }
  induction (worker_threads_ s) as [|w l IH]; [done|]. cbn. rewrite (H w) by left. apply IH. intros v Hv. apply H. by right.
Qed.

Lemma initial_ok n mains s : sys_start n mains s -> SysOk (initial s).
Proof.
  intros Hs. destruct (construct_fresh n mains s Hs) as [Hb Hq]. split; [|intros _; by eapply construct_inv].
  split; cbn; rewrite ?length_replicate; try done.
  - intros i t [-> _]%lookup_replicate. by left.
  - intros i w [Hn _]%lookup_replicate. done.
  - lia.
  - rewrite (pending_initial n mains s Hs). constructor.
  - intros Ha. destruct Ha. unfold alive. cbn. by rewrite length_replicate.
Qed.

Lemma sys_runs_ok y o y' : SysOk y -> sys_runs y o y' -> SysOk y'.
Proof.
  intros HS. induction 1 as [|y o1 y1 e o2 y2 _ IH Hl He]; [done|].
  pose proof (sys_exec_ok e y1 (IH HS) Hl) as Hok. rewrite He in Hok. apply Hok.
Qed.

Lemma accepted_app o1 o2 : accepted (o1 ++ o2) = accepted o1 ++ accepted o2.
Proof. unfold accepted. by rewrite fmap_app, join_app. Qed.
Lemma late_app o1 o2 : late (o1 ++ o2) = late o1 ++ late o2.
Proof. unfold late. by rewrite fmap_app, join_app. Qed.
Lemma ran_app o1 o2 : ran (o1 ++ o2) = ran o1 ++ ran o2.
Proof. unfold ran. by rewrite fmap_app, join_app. Qed.
Lemma dropped_app o1 o2 : dropped (o1 ++ o2) = dropped o1 ++ dropped o2.
Proof. unfold dropped. by rewrite fmap_app, join_app. Qed.

Lemma sys_runs_tasks y o y' :
  SysOk y -> sys_runs y o y' -> accepted o ++ pending y ≡ₚ ran o ++ dropped o ++ pending y'.
Proof.
  intros HS. induction 1 as [|y o1 y1 e o2 y2 Hr IH Hl He]; [done|].
  pose proof (sys_exec_ok e y1 (sys_runs_ok _ _ _ HS Hr) Hl) as Hok. rewrite He in Hok.
  destruct Hok as (_ & Hok & _). rewrite accepted_app, ran_app, dropped_app.
  trans (accepted o2 ++ (accepted o1 ++ pending y)); [solve_Permutation|].
  rewrite (IH HS). trans (ran o1 ++ dropped o1 ++ (accepted o2 ++ pending y1)); [solve_Permutation|].
  rewrite Hok. solve_Permutation.
Qed.

(** The destructor does not go back. *)
Lemma act_fields e y y' o :
  sys_legal e y -> sys_act e y = Some (Ok (y', o)) ->
  length (threads y') = length (threads y) /\ to_destroy y' <= to_destroy y.
Proof.
  assert (forall r ev y1 o1, lift_worker r ev y = Some (Ok (y1, o1)) ->
    threads y1 = threads y /\ to_destroy y1 = to_destroy y) as Hlift.
  { intros r ev y1 o1 (? & ? & ? & _ & _ & _ & _ & _ & ? & ? & _)%lift_worker_inv. done. }
  assert (forall r ev y1 o1, on_live r ev y = Some (Ok (y1, o1)) ->
    threads y1 = threads y /\ to_destroy y1 = to_destroy y) as Hlive.
  { intros r ev y1 o1. unfold on_live. destruct (worker (sched y) r); [by apply Hlift|done]. }
  assert (forall t r y1 o1, enqueue_result t y r = Ok (y1, o1) ->
    threads y1 = threads y /\ to_destroy y1 = to_destroy y) as Henq.
  { intros t r y1 o1. unfold enqueue_result. destruct r as [[s r n|s]| |]; cbn; by try intros [= <- _]. }
  intros Hl H. destruct e as [r e|i rnd|i|cur busy t|r f|i|i|i|i|tid main|tid|tid]; cbn [sys_act] in H.
  - destruct (Hlift _ _ _ _ H) as [E1 E2]. cbn. rewrite E1, E2. by split; [|lia].
  - destruct (stealWork i rnd (sched y)) as [[[t|] s']| |]; cbn in H; simplify_eq; by split; [|cbn; lia].
  - destruct (stolen y !! i); [|done]. cbn in H. destruct (on_live _ _ y) as [[[y1 o1]| |]|] eqn:E; cbn in H; simplify_eq.
    destruct (Hlive _ _ _ _ E) as [E1 E2]. cbn. rewrite E1, E2. by split; [|lia].
  - injection H as H. destruct (Henq _ _ _ _ H) as [E1 E2]. cbn. rewrite E1, E2. by split; [|lia].
  - destruct (Hlive _ _ _ _ H) as [E1 E2]. cbn. rewrite E1, E2. by split; [|lia].
  - destruct (enqueue_result _ _ _) as [[y1 o1]| |] eqn:E; cbn in H; simplify_eq. destruct (Henq _ _ _ _ E) as [E1 E2]. cbn. rewrite E1, E2. by split; [|lia].
  - destruct (worker (sched y) (WT i)) as [w|]; [|done]. cbn in H. destruct (exited w); [|done].
    destruct (threads y !! i) as [t|]; [|done]. cbn in H. destruct (Thread_join t); cbn in H; simplify_eq.
    cbn. rewrite length_insert. by split; [|lia].
  - destruct (worker (sched y) (WT i)); [|done]. destruct (threads y !! i) as [t|]; [|done]. cbn in H.
    destruct (Thread_dtor t); cbn in H; simplify_eq. cbn. destruct Hl as (_ & _ & ->). split; [done|lia].
  - destruct (stopping y !! i); [|done]. cbn in H. destruct (on_live _ _ y) as [[[y1 o1]| |]|] eqn:E; cbn in H; simplify_eq.
    destruct (Hlive _ _ _ _ E) as [E1 E2]. cbn. rewrite E1, E2. by split; [|lia].
  - destruct (bind tid main (sched y)); cbn in H; simplify_eq. by split; [|cbn; lia].
  - destruct (unbind_begin tid (sched y)) as [[s'|]| |]; cbn in H; simplify_eq. by split; [|cbn; lia].
  - destruct (unbind_end tid (sched y)) as [[s' b]| |]; cbn in H; simplify_eq. by split; [|cbn; lia].
Qed.

Lemma exec_act e y y' o :
  sys_exec e y = Some (Ok (y', o)) -> exists o', sys_act e y = Some (Ok (y', o')) /\ o = (Touched <$> accesses e y) ++ o'.
Proof. unfold sys_exec. destruct (sys_act e y) as [[[y1 o1]| |]|]; cbn; [|done..]. intros [= -> <-]. eauto. Qed.

(** Nothing is lost before the destructor destroys the workers. *)
Lemma sys_runs_dropped y o y' : SysOk y -> sys_runs y o y' -> alive y' -> alive y /\ dropped o = [].
Proof.
  intros HS. induction 1 as [|y o1 y1 e o2 y2 Hr IH Hl He]; [done|]. intros Ha.
  pose proof (sys_runs_ok _ _ _ HS Hr) as HO. pose proof (sys_exec_ok e y1 HO Hl) as Hok. rewrite He in Hok.
  destruct Hok as (_ & _ & Hd). destruct (exec_act _ _ _ _ He) as (o' & Hact & _).
  destruct (act_fields _ _ _ _ Hl Hact) as [E1 E2]. destruct (IH HS) as [Hy Hd1].
  { pose proof (ct_threads y1 (proj1 HO)). unfold alive in *. lia. }
  split; [done|]. by rewrite dropped_app, Hd1, (Hd Ha).
Qed.
