(* ===== verification/SystemTasks.v ===== *)
(** Where tasks go in runs of the whole scheduler: a task is lost only if it was put
    in the queue of a worker whose thread had ended, and the stop task of a worker
    runs on that worker's thread unless it is stolen. *)
From stdpp Require Import base numbers strings sets gmap list.
From S2P Require Import Prelude Task WaitingFibers Worker WorkerFrame WorkerLogic WorkerInv WorkerSafety WorkerProps WorkerQueue Scheduler SchedulerProps Threads System SystemInv SystemRuns.

(** ** What a step does to the queues *)

(** [y'] is [y] with tasks taken from the queue of [r], and those in [extra] put at
    its end. *)
Record flow (r : Ref) (extra : list WTask) (w w' : Worker) (y y' : System) : Prop := {
  fl_moved :> moved r w w' y y';
  fl_queue : exists gone, gone ++ queued w' = queued w ++ extra;
  fl_exit : pc w' = PExited -> pc w = PExited \/ queued w' = []
}.

(** The queues of bound threads lose tasks, or are new. *)
Definition singles_shrink (y y' : System) : Prop :=
  forall tid w', worker (sched y') (ST tid) = Some w' -> forall t, t ∈ queued w' ->
    exists w, worker (sched y) (ST tid) = Some w /\ t ∈ queued w.

Inductive queues_step (y y' : System) : list SOut -> Prop :=
| qs_worker r w w' o :
    flow r [] w w' y y' -> stolen y' = stolen y -> stopping y' = foldl (note_stop r) (stopping y) o ->
    (forall t, RunTask t ∈ o -> t ∈ queued w) -> queues_step y y' (FromWorker r <$> o)
| qs_put i t w w' o :
    stolen y !! i = Some t -> pc w = PSpin -> flow (WT i) [t] w w' y y' -> stolen y' = delete i (stolen y) ->
    stopping y' = foldl (note_stop (WT i)) (stopping y) o -> (forall t', RunTask t' ∈ o -> t' ∈ queued w ++ [t]) ->
    queues_step y y' (FromWorker (WT i) <$> o)
| qs_take i j t w w' :
    flow (WT j) [] w w' y y' -> t ∈ queued w -> stolen y' = <[i := t]> (stolen y) -> stopping y' = stopping y ->
    queues_step y y' [Took i t]
| qs_give r t w o :
    flow r [t] w (with_task t w) y y' -> stolen y' = stolen y -> stopping y' = stopping y ->
    (stop_of t = None \/ exists i, r = WT i /\ t = stop_task i) ->
    (forall x, x ∈ o -> exists r', x = FromWorker r' NotifyAdded) ->
    queues_step y y' (Accepted t (exited w) :: o)
| qs_same o :
    worker_threads_ (sched y') = worker_threads_ (sched y) -> singles_shrink y y' ->
    stolen y' = stolen y -> stopping y' = stopping y -> o = [] -> queues_step y y' o
| qs_shutdown i j w w' o :
    flow (WT j) [] w w' y y' -> stolen y' = stolen y ->
    stopping y' = delete i (foldl (note_stop (WT j)) (stopping y) o) -> (forall t, RunTask t ∈ o -> t ∈ queued w) ->
    queues_step y y' (FromWorker (WT j) <$> o)
| qs_destroy i w :
    worker (sched y) (WT i) = Some w -> pc w = PExited -> length (worker_threads_ (sched y)) = S i ->
    worker_threads_ (sched y') = take i (worker_threads_ (sched y)) -> by_tid (sched y') = ∅ ->
    stolen y' = stolen y -> stopping y' = stopping y -> queues_step y y' (Dropped <$> queued w).

Lemma consumed_elem t o : RunTask t ∈ o -> t ∈ consumed o.
Proof.
  unfold consumed. induction o as [|x o IH]; [by intros ?%elem_of_nil|]. intros [<-|H]%elem_of_cons; cbn; [left|].
  apply elem_of_app. right. by apply IH.
Qed.

Lemma lift_flow r e y y' o :
  SysInv (sched y) -> lift_worker r e y = Some (Ok (y', o)) ->
  (produced e = [] \/ forall w, worker (sched y) r = Some w -> pc w = PSpin) ->
  exists w w' o', o = FromWorker r <$> o' /\ flow r (produced e) w w' y y' /\
    (forall t, RunTask t ∈ o' -> t ∈ queued w ++ produced e) /\
    stolen y' = stolen y /\ stopping y' = foldl (note_stop r) (stopping y) o'.
Proof.
  intros HS (w & w' & o' & Hex & -> & HM & E1 & _ & _ & _ & E5)%lift_worker_inv Hp.
  pose proof (mv_before _ _ _ _ _ HM) as Hw. pose proof (exec_queues _ _ _ _ Hex) as Hq.
  exists w, w', o'. split_and!; [done| | |done|done].
  - split; [done|by exists (consumed o')|]. intros Hexit.
    destruct (decide (exited w = true)) as [He|He]; [left; unfold exited in He; by destruct (pc w)|right].
    assert (pc w <> PExited) as Hne by (intros H; apply He; unfold exited; by rewrite H).
    destruct Hp as [Hp|Hp].
    + eapply (exec_exit_tasks e w w' o'); [by eapply HS|done|done|done|done].
    + destruct (exec_goes_on _ _ _ _ Hex Hexit) as [H|[H|H]]; rewrite (Hp w Hw) in H; done.
  - intros t Ht. unfold queued. rewrite <- Hq. apply elem_of_app. left. by apply consumed_elem.
Qed.

(** Putting a task in a queue. *)
Lemma give_flow r t w s1 y y' :
  worker (sched y) r = Some w -> same_workers (sched y) s1 -> sched y' = set_worker r (with_task t w) s1 ->
  flow r [t] w (with_task t w) y y'.
Proof.
  intros Hw Hs E. split; [eapply moved_set; [done|rewrite E; done|done]|by exists []|by left].
Qed.

Lemma same_sched_queues y y' o :
  sched y' = sched y -> stolen y' = stolen y -> stopping y' = stopping y -> o = [] -> queues_step y y' o.
Proof. intros E1 E2 E3 ->. apply qs_same; try done; [by rewrite E1|]. intros tid w'. rewrite E1. eauto. Qed.

Lemma act_queues_alive e y y' o :
  SysCtl y -> SysInv (sched y) -> sys_legal e y -> (forall i, e <> SDestroy i) ->
  sys_act e y = Some (Ok (y', o)) -> queues_step y y' o.
Proof.
  intros HC HS Hl Hnd H.
  assert (forall r ev y1 o1, on_live r ev y = Some (Ok (y1, o1)) -> lift_worker r ev y = Some (Ok (y1, o1))) as Hlive.
  { intros r ev y1 o1. unfold on_live. by destruct (worker (sched y) r). }
  assert (forall r ev y1 o1, produced ev = [] -> lift_worker r ev y = Some (Ok (y1, o1)) -> queues_step y y1 o1) as Hlift.
  { intros r ev y1 o1 Hp (w & w' & o' & -> & HF & Hr & E1 & E2)%lift_flow; [|done|by left].
    rewrite Hp in *. eapply qs_worker; [done|done|done|]. intros t. specialize (Hr t). by rewrite app_nil_r in Hr. }
  destruct e as [r e|i rnd|i|cur busy t|r f|i|i|i|i|tid main|tid|tid]; cbn [sys_act] in H.
  - destruct Hl as [Hown _]. eapply Hlift; [|exact H]. by destruct e.
  - destruct (stealWork_spec i rnd (sched y) HS) as (x & s' & E & _ & Hcase). rewrite E in H. cbn in H.
    destruct Hcase as [[-> ->]|(j & w & w' & t & _ & Hw & -> & -> & _ & Hpc & Hq)]; cbn in H; simplify_eq.
    + by apply same_sched_queues.
    + eapply qs_take; [split; [by eapply moved_set| |by left; congruence]| |done|done]; unfold queued; rewrite Hq; [|left].
      exists [t]. by rewrite app_nil_r.
  - destruct (stolen y !! i) as [t|] eqn:Ht; [|done]. cbn in H. destruct (ct_stolen y HC i t Ht) as (w0 & Hw0 & Hp0).
    destruct (on_live (WT i) (SpinStole t) y) as [[[y1 o1]| |]|] eqn:E; cbn in H; simplify_eq. apply Hlive in E.
    apply lift_flow in E as (w & w' & o' & -> & HF & Hr & E1 & E2); [|done|right; intros v Hv; congruence].
    assert (pc w = PSpin) as Hp by (pose proof (mv_before _ _ _ _ _ HF); congruence).
    eapply (qs_put _ _ i t w w'); try done; cbn; [|by rewrite E1]. destruct HF as [[] ? ?]. by repeat split.
  - destruct (enqueue_outcome cur busy t y HS Hl) as (s1 & Hs & _ & [E|(r & w & Hw & (_ & _ & Hst) & E)]);
      rewrite E in H; cbn in H; simplify_eq.
    + apply qs_same; try done; [apply Hs|]. intros tid w'. cbn [sched with_sched]. rewrite (same_worker _ _ _ Hs). eauto.
    + rewrite Hw. apply (qs_give _ _ r); try done; [by eapply give_flow| |].
      * left. destruct Hl as (_ & Hns & _). unfold not_stop, stop_of in *. by destruct (function_ t) as [[]|].
      * intros x. destruct (notify_added _); [|by intros ?%elem_of_nil]. rewrite list_elem_of_singleton. eauto.
  - eapply Hlift; [|by apply Hlive]. done.
  - destruct Hl as (_ & _ & _ & w & Hw & Hm & _). rewrite (give_free _ _ _ w Hw Hm) in H. cbn in H. simplify_eq. cbn in Hw.
    rewrite Hw. apply (qs_give _ _ (WT i)); try done; [by eapply give_flow|eauto|].
    intros x. destruct (notify_added _); [|by intros ?%elem_of_nil]. rewrite list_elem_of_singleton. eauto.
  - destruct (worker (sched y) (WT i)) as [w|]; [|done]. cbn in H. destruct (exited w); [|done].
    destruct (threads y !! i) as [t|]; [|done]. cbn in H. destruct (Thread_join t); cbn in H; simplify_eq.
    by apply same_sched_queues.
  - by destruct (Hnd i).
  - destruct (stopping y !! i) as [j|] eqn:Hj; [|done]. cbn in H.
    destruct (on_live (WT j) SetShutdown y) as [[[y1 o1]| |]|] eqn:E; cbn in H; simplify_eq. apply Hlive in E.
    apply lift_flow in E as (w & w' & o' & -> & HF & Hr & E1 & E2); [|done|by left]. cbn in HF, Hr.
    eapply (qs_shutdown _ _ i j w w'); try done; cbn; [|by rewrite E2|].
    + destruct HF as [[] ? ?]. by repeat split.
    + intros t. specialize (Hr t). by rewrite app_nil_r in Hr.
  - destruct Hl as (_ & Hb & Htid & _). unfold bind in H. rewrite bool_decide_eq_true_2 in H by done. cbn in H.
    rewrite Htid in H. simplify_eq. apply qs_same; try done. intros t w'. cbn.
    rewrite lookup_insert_Some. intros [[<- <-]|[_ Hw]] x Hx; [by apply elem_of_nil in Hx|eauto].
  - destruct Hl as (Hb & w & Hw & _). unfold unbind_begin in H. rewrite bool_decide_eq_true_2 in H by done. cbn [MARL_ASSERT mbind result_bind] in H.
    unfold on_worker in H. rewrite Hw in H. cbn [mbind option_bind] in H.
    destruct (exec CallStop w) as [[[w' o1]| |]|] eqn:Hex; cbn in H; simplify_eq.
    destruct (apply_outs_fields (worker_id w) o1 (set_worker (ST tid) w' (sched y))) as [E1 E2]. cbn in E1, E2.
    apply qs_same; try done. intros t v. cbn [sched with_sched worker]. rewrite E2.
    rewrite lookup_insert_Some. intros [[<- <-]|[_ Hv]] x Hx; [|eauto]. exists w. split; [done|].
    pose proof (exec_queues _ _ _ _ Hex) as Hq. cbn in Hq. rewrite app_nil_r in Hq. unfold queued in *. rewrite <- Hq.
    apply elem_of_app. by right.
  - unfold unbind_end in H. destruct (MARL_ASSERT _ _); cbn in H; simplify_eq. apply qs_same; try done.
    intros t w'. cbn. rewrite lookup_delete_Some. intros [_ Hw] x Hx. eauto.
Qed.

Lemma act_queues e y y' o :
  SysOk y -> sys_legal e y -> sys_act e y = Some (Ok (y', o)) -> queues_step y y' o.
Proof.
  intros [HC HS] Hl H. assert (forall i, e = SDestroy i -> queues_step y y' o) as Hdestroy.
  { intros i ->. destruct Hl as (Hs & H0 & Hd). pose proof (ct_workers y HC) as Hlen. rewrite Hd in Hlen.
    destruct (dead_all_joined y HC Hs H0 ltac:(by eapply lookup_lt_Some)) as (Hall & Hex & _ & _ & E3). cbn [sys_act] in H.
    destruct (worker (sched y) (WT i)) as [w|] eqn:Hw; [|done]. destruct (threads y !! i) as [t|]; [|done]. cbn in H.
    destruct (Thread_dtor t); cbn in H; simplify_eq. by apply (qs_destroy _ _ i); try done; eapply Hex. }
  destruct (decide (to_destroy y = length (threads y))) as [Ha|Hd].
  { destruct e; try (eapply act_queues_alive; [done|by apply HS|done|done|done]). by eapply Hdestroy. }
  destruct e; try (by eapply Hdestroy). all: rewrite (dead_only_destroys _ y HC Hd Hl) in H by done; discriminate.
Qed.

(** ** Tasks that come too late *)

(** The queue of a worker whose thread has ended. *)
Definition left_behind (w : Worker) : list WTask := if exited w then queued w else [].
Definition left_tasks (y : System) : list WTask := mjoin (left_behind <$> worker_threads_ (sched y)).

Lemma moved_threads r w w' y y' :
  moved r w w' y y' ->
  worker_threads_ (sched y') = match r with WT i => <[i := w']> (worker_threads_ (sched y)) | ST _ => worker_threads_ (sched y) end.
Proof.
  intros [H1 _ H2 H3 H4 _]. destruct r as [i|tid]; apply list_eq; intros k.
  - destruct (decide (k = i)) as [->|Hk].
    + rewrite list_lookup_insert_eq by (by eapply lookup_lt_Some). exact H2.
    + rewrite list_lookup_insert_ne by done. apply (H3 (WT k)). congruence.
  - by apply (H3 (WT k)).
Qed.

Lemma flow_left r extra w w' y y' :
  flow r extra w w' y y' -> left_behind w' ⊆+ left_behind w ++ (if exited w then extra else []).
Proof.
  intros [_ [gone Hq] Hx]. unfold left_behind. destruct (exited w') eqn:E'; [|apply submseteq_nil_l].
  destruct Hx as [Hp|E]; [unfold exited in E'; by destruct (pc w')| |rewrite E; apply submseteq_nil_l].
  assert (exited w = true) as -> by (unfold exited; by rewrite Hp). rewrite <- Hq. by apply submseteq_inserts_l.
Qed.

Lemma flow_left_tasks r extra w w' y y' :
  flow r extra w w' y y' -> left_tasks y' ⊆+ left_tasks y ++ (if exited w then extra else []).
Proof.
  intros HF. unfold left_tasks. rewrite (moved_threads _ _ _ _ _ (fl_moved _ _ _ _ _ _ HF)).
  destruct r as [i|tid]; [|by apply submseteq_inserts_r].
  destruct (held_list left_behind _ i w w' (mv_before _ _ _ _ _ (fl_moved _ _ _ _ _ _ HF))) as (rest & -> & ->).
  rewrite <- app_assoc, (Permutation_app_comm rest), app_assoc. apply submseteq_skips_r. by eapply flow_left.
Qed.

Lemma late_worker r o : late (FromWorker r <$> o) = [].
Proof. unfold late. induction o as [|x o IH]; [done|]. exact IH. Qed.
Lemma late_dropped ts : late (Dropped <$> ts) = [].
Proof. unfold late. induction ts as [|x o IH]; [done|]. exact IH. Qed.

(** What an ended worker leaves behind was put there after it ended. *)
Lemma queues_left y y' o :
  queues_step y y' o -> left_tasks y' ++ dropped o ⊆+ left_tasks y ++ late o.
Proof.
  intros [r w w' o' HF _ _ _|i t w w' o' _ Hp HF _ _ _|i j t w w' HF _ _ _|r t w o' HF _ _ _ Ho|o' E _ _ _ ->
    |i j w w' o' HF _ _ _|i w Hw Hp Hlen E _ _ _].
  all: try apply flow_left_tasks in HF.
  - rewrite dropped_worker, late_worker, app_nil_r. by destruct (exited w).
  - rewrite dropped_worker, late_worker, app_nil_r. unfold exited in HF. by rewrite Hp in HF.
  - cbn. rewrite app_nil_r. by destruct (exited w).
  - assert (late o' = [] /\ dropped o' = []) as [E1 E2].
    { clear HF. induction o' as [|x o' IH]; [done|]. destruct (Ho x) as [r' ->]; [left|]. apply IH. intros z Hz. apply Ho. by right. }
    change (dropped (_ :: o')) with (dropped o'). rewrite E2, app_nil_r.
    change (Accepted t (exited w) :: o') with ([Accepted t (exited w)] ++ o'). rewrite (late_app [Accepted t (exited w)] o'), E1, app_nil_r.
    by destruct (exited w).
  - unfold left_tasks. by rewrite E.
  - rewrite dropped_worker, late_worker, app_nil_r. by destruct (exited w).
  - rewrite late_dropped, app_nil_r. destruct (dropped_tasks (queued w)) as [-> _]. unfold left_tasks.
    rewrite E. rewrite (take_all _ i w Hw Hlen) at 2. rewrite fmap_app, join_app. cbn. unfold left_behind at 3, exited.
    by rewrite Hp, app_nil_r.
Qed.

Lemma runs_left y o y' :
  SysOk y -> sys_runs y o y' -> left_tasks y' ++ dropped o ⊆+ left_tasks y ++ late o.
Proof.
  intros HS. induction 1 as [|y o1 y1 e o2 y2 Hr IH Hl He]; [done|].
  destruct (exec_act _ _ _ _ He) as (o' & Hact & ->).
  pose proof (queues_left _ _ _ (act_queues e y1 y2 o' (sys_runs_ok _ _ _ HS Hr) Hl Hact)) as Hq. specialize (IH HS).
  rewrite late_app, dropped_app. destruct (touched_nothing (accesses e y1) o') as (_ & -> & _ & ->).
  trans ((left_tasks y2 ++ dropped o') ++ dropped o1); [apply Permutation_submseteq; solve_Permutation|].
  etrans; [exact (submseteq_skips_r _ _ _ Hq)|]. trans ((left_tasks y1 ++ dropped o1) ++ late o'); [apply Permutation_submseteq; solve_Permutation|].
  rewrite (app_assoc (left_tasks y)). by apply submseteq_skips_r.
Qed.

Lemma runs_dropped_late y o y' : SysOk y -> left_tasks y = [] -> sys_runs y o y' -> dropped o ⊆+ late o.
Proof.
  intros HS E Hr. pose proof (runs_left y o y' HS Hr) as H. rewrite E in H. etrans; [|exact H]. by apply submseteq_inserts_l.
Qed.

Lemma initial_left n mains s : sys_start n mains s -> left_tasks (initial s) = [].
Proof.
  intros Hs. destruct (construct_fresh n mains s Hs) as [_ Hq]. unfold left_tasks. cbn.
  assert (forall w, w ∈ worker_threads_ s -> left_behind w = []) as H.
  { intros w [i Hi]%list_elem_of_lookup. unfold left_behind. rewrite (proj1 (Hq i w Hi)). by destruct (exited w). }
  induction (worker_threads_ s) as [|w l IH]; [done|]. cbn. rewrite (H w) by left. apply IH. intros v Hv. apply H. by right.
Qed.

(** ** Where stop tasks are *)

(** In a queue every stop task is at home, or was stolen. *)
Definition at_home (o : list SOut) (r : Ref) (t : WTask) : Prop :=
  forall j, stop_of t = Some j -> r = WT j \/ (exists i, r = WT i) /\ stole j o.

Record Homes (o : list SOut) (y : System) : Prop := {
  hm_queue r w t : worker (sched y) r = Some w -> t ∈ queued w -> at_home o r t;
  hm_stolen i t j : stolen y !! i = Some t -> stop_of t = Some j -> stole j o;
  hm_stopping i j : stopping y !! i = Some j -> i = j \/ stole j o
}.

Lemma stole_app j o1 o2 : stole j o1 -> stole j (o1 ++ o2).
Proof. intros (i & t & Ht & Hj). exists i, t. split; [|done]. apply elem_of_app. by left. Qed.

Lemma homes_app o1 o2 y : Homes o1 y -> Homes (o1 ++ o2) y.
Proof.
  intros [H1 H2 H3]. split.
  - intros r w t Hw Ht j Hj. destruct (H1 r w t Hw Ht j Hj) as [?|[? ?]]; [by left|right]. eauto using stole_app.
  - eauto using stole_app.
  - intros i j Hj. destruct (H3 i j Hj); eauto using stole_app.
Qed.

Lemma flow_home o r extra w w' y y' :
  flow r extra w w' y y' -> Homes o y -> (forall t, t ∈ extra -> at_home o r t) ->
  forall r' v t, worker (sched y') r' = Some v -> t ∈ queued v -> at_home o r' t.
Proof.
  intros [HM [gone Hq] _] Hh He r' v t Hv Ht. destruct (mv_after _ _ _ _ _ HM r' v Hv) as [[-> ->]|[_ Hv']]; [|by eapply Hh].
  assert (t ∈ queued w ++ extra) as [H|H]%elem_of_app by (rewrite <- Hq; apply elem_of_app; by right); [|by apply He].
  by eapply hm_queue, H; [|apply HM].
Qed.

(** The stop tasks that a step starts. *)
Lemma started_home o r (ts : list WTask) m o' :
  (forall i j, m !! i = Some j -> i = j \/ stole j o) -> (forall t, t ∈ ts -> at_home o r t) ->
  (forall t, RunTask t ∈ o' -> t ∈ ts) ->
  forall i j, foldl (note_stop r) m o' !! i = Some j -> i = j \/ stole j o.
Proof.
  intros Hm Hts Hr i j [H|(-> & t & Ht & Hj)]%note_stops; [by apply Hm|].
  destruct (Hts t (Hr t Ht) j Hj) as [[= ->]|[_ ?]]; [by left|by right].
Qed.

Lemma nothing_home o r t : t ∈ @nil WTask -> at_home o r t.
Proof. by intros ?%elem_of_nil. Qed.

Lemma queues_homes o y y' o2 : Homes o y -> queues_step y y' o2 -> Homes (o ++ o2) y'.
Proof.
  intros HH%(homes_app _ o2) Hs0. revert HH.
  destruct Hs0 as [r w w' o' HF E1 E2 Hr|i t w w' o' Ht Hp HF E1 E2 Hr|i j t w w' HF Ht E1 E2|r t w o' HF E1 E2 Ht Ho|o' E Hs E1 E2 _
    |i j w w' o' HF E1 E2 Hr|i w Hw Hp Hlen E Eb E1 E2]; intros HH.
  all: match type of HH with Homes ?x _ => set (os := x) in * end.
  all: assert (forall r w t, worker (sched y) r = Some w -> t ∈ queued w -> at_home os r t) as Hq by apply HH.
  all: split; rewrite ?E1, ?E2; try apply HH.
  - eapply flow_home; [done..|]. intros t. apply nothing_home.
  - eapply started_home; [apply HH| |exact Hr]. intros t. eapply Hq, HF.
  - eapply flow_home; [done..|]. intros t' ->%list_elem_of_singleton j Hj. right. split; [by exists i|]. by eapply HH.
  - intros k t' j [_ H]%lookup_delete_Some. by eapply HH.
  - eapply started_home; [apply HH| |exact Hr]. intros t' [H|E%list_elem_of_singleton]%elem_of_app; [by eapply Hq, H; apply HF|].
    subst t'. intros j Hj. right. split; [by exists i|]. by eapply HH.
  - eapply flow_home; [done..|]. intros t'. apply nothing_home.
  - intros k t' j' [[<- <-]|[_ H]]%lookup_insert_Some Hj; [|by eapply HH]. exists i, t. split; [|done].
    apply elem_of_app. right. left.
  - eapply flow_home; [done..|]. intros t' ->%list_elem_of_singleton j Hj.
    destruct Ht as [Ht|(i & -> & ->)]; [congruence|]. left. cbn in Hj. congruence.
  - intros [i|tid] w' t' Hw' Ht'; [eapply Hq, Ht'; cbn in *; by rewrite <- E|].
    destruct (Hs tid w' Hw' t' Ht') as (v & Hv & Hin). by eapply Hq.
  - eapply flow_home; [done..|]. intros t'. apply nothing_home.
  - intros k j' [_ H]%lookup_delete_Some. revert k j' H.
    eapply started_home; [apply HH| |exact Hr]. intros t. eapply Hq, HF.
  - intros [k|tid] v t Hv Ht; cbn in Hv; [|by rewrite Eb, lookup_empty in Hv].
    rewrite E, lookup_take in Hv. case_decide; [|done]. by eapply (Hq (WT k)).
Qed.

(** Who accesses [shutdown]. *)
Lemma accesses_home o e y a :
  Homes o y -> a ∈ accesses e y -> by_ a = of_ a \/ exists j, of_ a = WT j /\ stole j o.
Proof.
  intros HH. destruct e as [r e|i rnd|i|cur busy t|r f|i|i|i|i|tid main|tid|tid]; cbn; try by intros ?%elem_of_nil.
  - destruct (worker (sched y) r) as [w|]; [|by intros ?%elem_of_nil].
    destruct (reads_shutdown (pc w)); [|by intros ?%elem_of_nil]. intros ->%list_elem_of_singleton. by left.
  - destruct (stopping y !! i) as [j|] eqn:Hj; [|by intros ?%elem_of_nil]. intros ->%list_elem_of_singleton. cbn.
    destruct (hm_stopping o y HH i j Hj) as [->|?]; [by left|right; eauto].
  - intros ->%list_elem_of_singleton. by left.
Qed.

Definition accesses_at_home (o : list SOut) : Prop :=
  forall a, Touched a ∈ o -> by_ a = of_ a \/ exists j, of_ a = WT j /\ stole j o.

Lemma act_touches e y y' o a : sys_act e y = Some (Ok (y', o)) -> SysOk y -> sys_legal e y -> Touched a ∉ o.
Proof.
  intros Hact HO Hl Ha. destruct (act_queues e y y' o HO Hl Hact) as [| |i j t| r t w o' _ _ _ _ Ho| | |].
  all: try (apply list_elem_of_fmap in Ha as (? & ? & _); discriminate).
  - by apply list_elem_of_singleton in Ha.
  - apply elem_of_cons in Ha as [?|[r' ?]%Ho]; discriminate.
  - subst. by apply elem_of_nil in Ha.
Qed.

Lemma runs_homes y o y' :
  SysOk y -> Homes [] y -> sys_runs y o y' -> Homes o y' /\ accesses_at_home o.
Proof.
  intros HS HH. induction 1 as [|y o1 y1 e o2 y2 Hr IH Hl He]; [by split; [|intros a ?%elem_of_nil]|].
  destruct (IH HS HH) as [H1 H2]. destruct (exec_act _ _ _ _ He) as (o' & Hact & ->).
  pose proof (sys_runs_ok _ _ _ HS Hr) as HO. split.
  - rewrite app_assoc. eapply queues_homes; [by apply homes_app|]. by eapply act_queues.
  - intros a [Ha|[Ha|Ha]%elem_of_app]%elem_of_app.
    + destruct (H2 a Ha) as [?|(j & ? & ?)]; eauto using stole_app.
    + apply list_elem_of_fmap in Ha as (a' & [= <-] & Ha).
      destruct (accesses_home o1 e y1 a H1 Ha) as [?|(j & ? & ?)]; eauto using stole_app.
    + by destruct (act_touches e y1 y2 o' a Hact HO Hl Ha).
Qed.

(** A race on [shutdown] needs a stolen stop task. *)
Lemma conflict_stolen o a b :
  accesses_at_home o -> Touched a ∈ o -> Touched b ∈ o -> conflict a b -> exists j, of_ a = WT j /\ stole j o.
Proof.
  intros Hh Ha Hb (Hof & Hby & _). destruct (Hh a Ha) as [Ea|?]; [|done]. destruct (Hh b Hb) as [Eb|(j & Ej & ?)]; [|exists j; by rewrite Hof].
  congruence.
Qed.

Lemma initial_homes n mains s : sys_start n mains s -> Homes [] (initial s).
Proof.
  intros Hs. destruct (construct_fresh n mains s Hs) as [Hb Hq]. split; cbn; try done.
  intros [i|tid] w t Hw Ht; cbn in *; [|by rewrite Hb in Hw]. rewrite (proj1 (Hq i w Hw)) in Ht. by apply elem_of_nil in Ht.
Qed.
