(* ===== verification/SystemProps.v ===== *)
(** The whole scheduler in every run: no assertion fails, no worker is used after
    its destruction, [shutdown] is raced on only when a stop task was stolen,
    and what becomes of every task that [enqueue] accepted. *)
From stdpp Require Import base numbers strings sets gmap list.
From S2P Require Import Prelude Task WaitingFibers Worker WorkerFrame WorkerLogic WorkerInv WorkerSafety WorkerProps WorkerQueue Scheduler SchedulerProps Threads System SystemInv SystemRuns SystemTasks.

(** ** Trying runs out *)
Definition roomb (w : Worker) : bool := bool_decide (zlen (tasks (work_ w)) < max_tasks)%Z.

(** [sys_legal], computed, for the events of the samples. *)
Definition sys_legalb (e : SEvent) (y : System) : bool :=
  match e with
  | SWorker r e =>
      own_event e &&
      match r with
      | WT i => bool_decide (stolen y !! i = None) && bool_decide (stopping y !! i = None)
      | ST _ => true
      end &&
      match worker (sched y) r with Some w => legalb e w | None => true end
  | SSteal i _ =>
      bool_decide (stolen y !! i = None) &&
      match worker (sched y) (WT i) with
      | Some w => match pc w with PSpin => true | _ => false end
      | None => false
      end
  | SPutStolen _ | SShutdown _ => true
  | SEnqueue cur _ t =>
      bool_decide (to_destroy y = length (threads y)) && not_stop t && forallb roomb (worker_threads_ (sched y)) &&
      match cur with
      | Some r =>
          match worker (sched y) r with
          | Some w => match pc w with PUser => true | _ => false end && roomb w
          | None => false
          end
      | None => negb (Task_is t SameThread) && bool_decide (count (sched y) > 0)%Z
      end
  | SStop i =>
      bool_decide (by_tid (sched y) = ∅) && bool_decide (to_stop y = S i) &&
      match worker (sched y) (WT i) with
      | Some w => negb (mutex (work_ w)) && roomb w
      | None => false
      end &&
      (bool_decide (length (threads y) <= S i) || bool_decide (threads y !! S i = Some None))
  | SJoin i => bool_decide (to_stop y = i) && bool_decide (threads y !! i = Some Thread_new)
  | SDestroy i =>
      bool_decide (to_stop y = 0) && bool_decide (threads y !! 0 = Some None) && bool_decide (to_destroy y = S i)
  | _ => false
  end.

Lemma sys_legalb_sound e y : sys_legalb e y = true -> sys_legal e y.
Proof.
  destruct e as [r e|i rnd|i|cur busy t|r f|i|i|i|i|tid main|tid|tid]; simpl; try done.
  - intros [[H1 H2]%andb_true_iff H3]%andb_true_iff. split_and!; [done| |].
    + intros i ->. apply andb_true_iff in H2 as [?%bool_decide_eq_true ?%bool_decide_eq_true]. done.
    + intros w Hw. rewrite Hw in H3. by apply legalb_sound.
  - intros [H1%bool_decide_eq_true H2]%andb_true_iff. split; [done|].
    destruct (worker_threads_ (sched y) !! i) as [w|]; [|done]. exists w.
    split; [done|]. by destruct (pc w).
  - intros [[[H0%bool_decide_eq_true H1]%andb_true_iff H2]%andb_true_iff H3]%andb_true_iff. split_and!; [done|done| |].
    { intros i w Hw. apply forallb_forall with (x := w) in H2; [by apply bool_decide_eq_true in H2|].
      apply list_elem_of_In. by eapply list_elem_of_lookup_2. }
    destruct cur as [r|].
    + destruct (worker (sched y) r) as [w|]; [|done]. exists w.
      apply andb_true_iff in H3 as [H3 H4%bool_decide_eq_true]. by destruct (pc w).
    + by apply andb_true_iff in H3 as [?%negb_true_iff ?%bool_decide_eq_true].
  - intros [[[H1%bool_decide_eq_true H2%bool_decide_eq_true]%andb_true_iff H3]%andb_true_iff H4]%andb_true_iff.
    split_and!; [done|done| |].
    + intros Hlt. apply orb_true_iff in H4 as [H4%bool_decide_eq_true|H4%bool_decide_eq_true]; [lia|done].
    + destruct (worker_threads_ (sched y) !! i) as [w|]; [|done]. exists w.
      apply andb_true_iff in H3 as [?%negb_true_iff ?%bool_decide_eq_true]. done.
  - by intros [?%bool_decide_eq_true ?%bool_decide_eq_true]%andb_true_iff.
  - by intros [[?%bool_decide_eq_true ?%bool_decide_eq_true]%andb_true_iff ?%bool_decide_eq_true]%andb_true_iff.
Qed.

Fixpoint sys_run (es : list SEvent) (y : System) : option (list SOut * System) :=
  match es with
  | [] => Some ([], y)
  | e :: es =>
      if sys_legalb e y then
        match sys_exec e y with
        | Some (Ok (y1, o1)) => '(o2, y2) ← sys_run es y1; Some (o1 ++ o2, y2)
        | _ => None
        end
      else None
  end.

Lemma sys_runs_trans y o1 y1 o2 y2 : sys_runs y o1 y1 -> sys_runs y1 o2 y2 -> sys_runs y (o1 ++ o2) y2.
Proof.
  intros H1. induction 1 as [|y1 o y2 e o' y3 _ IH Hl He]; [by rewrite app_nil_r|].
  rewrite app_assoc. econstructor; [by apply IH|done|done].
Qed.

Lemma sys_run_runs es y o y' : sys_run es y = Some (o, y') -> sys_runs y o y'.
Proof.
  revert y o. induction es as [|e es IH]; simpl; intros y o H; [simplify_eq; constructor|].
  destruct (sys_legalb e y) eqn:Hl; [|done].
  destruct (sys_exec e y) as [[[y1 o1]| |]|] eqn:He; try done.
  destruct (sys_run es y1) as [[o2 y2]|] eqn:E; simplify_eq/=.
  eapply sys_runs_trans; [|by apply IH].
  apply (sys_runs_step y [] y e o1 y1); [constructor|by apply sys_legalb_sound|done].
Qed.

(** Two worker threads.  The first runs a task and then spins for work; the
    destructor stops the second one, whose stop task the first one steals. *)
Definition sample_sys_task : WTask := mkTask (Some (BUser 1)) FlagsNone.

Definition hang_begin : list SEvent :=
  (SWorker (WT 1) <$> [Tau; Tau; Tau]) ++ (SWorker (WT 0) <$> [Tau; Tau; Tau]) ++
  [SEnqueue None false sample_sys_task] ++
  (SWorker (WT 0) <$> [Wake 0; Tau; Tau; Tau; Tau; Tau; TaskDone; Tau; Tau; Tau]) ++
  [SStop 1; SSteal 0 1; SWorker (WT 1) (Wake 0)].

Definition hang_end : list SEvent :=
  [SPutStolen 0] ++ (SWorker (WT 0) <$> [Tau; Tau; Tau; Now 0; Tau; Tau]) ++ [SShutdown 0] ++
  (SWorker (WT 0) <$> [TaskDone; Tau; Tau; Tau; SpinEnd; Tau; Tau]).

Definition y_start : System := initial two_workers.

Lemma two_workers_start : sys_start 2 [1%Z; 2%Z] two_workers.
Proof. split; [reflexivity|]. split_and!; [lia|reflexivity|]. repeat constructor; lia. Qed.

Definition y_hang1 : System := match sys_run hang_begin y_start with Some (_, y) => y | None => y_start end.
Definition y_hang2 : System := match sys_run hang_end y_hang1 with Some (_, y) => y | None => y_start end.

Definition asleep (w : Worker) : bool := match pc w with PCvBlocked _ None => true | _ => false end.

Definition notifies_1 (o : SOut) : bool :=
  match o with FromWorker (WT 1) NotifyAdded => true | _ => false end.

Lemma asleep_own e w : asleep w = true -> own_event e = true -> is_Some (exec e w) -> exists now, e = Wake now.
Proof.
  unfold asleep, exec, code. destruct (pc w) as [| | | | | | | | | | |?|? [|]| | | | | | | | | |];
    try done. intros _ He [r Hr]. destruct e; try done. eauto.
Qed.

Lemma worker_of_two s w0 w1 r w :
  worker_threads_ s = [w0; w1] -> by_tid s = ∅ -> worker s r = Some w -> w = w0 \/ w = w1.
Proof.
  intros E1 E2. destruct r as [i|tid]; simpl; [rewrite E1|rewrite E2].
  - destruct i as [|[|i]]; naive_solver.
  - by rewrite lookup_empty.
Qed.

(** ** Properties *)



(** Every worker of the scheduler, in every run of the whole system, is in
    a state that Worker.v can reach by itself: the operations of the other
    threads are events of its machine, so every theorem about a reachable
    worker holds of the workers of the system, until the destructor destroys
    them.  The worker threads keep their ids, and the slots of spinning workers
    hold only ids of worker threads. *)
Theorem system_workers_reachable n mains s o y :
  sys_start n mains s -> sys_runs (initial s) o y -> alive y ->
  (forall r w, worker (sched y) r = Some w -> reachable w) /\
  (forall i w, worker (sched y) (WT i) = Some w -> worker_id w = Z.of_nat i) /\
  Forall (fun x => -1 <= x < count (sched y))%Z (spinning_workers_ (sched y)).
Proof.
  intros Hs Hr Ha. pose proof (proj2 (sys_runs_ok _ _ _ (initial_ok _ _ _ Hs) Hr) Ha) as HS.
  split_and!; [apply HS| |apply HS]. intros i w Hw. by apply (si_wt _ HS i).
Qed.

Lemma system_workers_reachable_witness :
  exists w, worker (sched y_hang2) (WT 1) = Some w /\ shutdown w = true /\ reachable w.
Proof.
  destruct (sys_run (hang_begin ++ hang_end) y_start) as [[o y]|] eqn:E; [|vm_compute in E; discriminate].
  destruct (system_workers_reachable 2 [1%Z; 2%Z] two_workers o y two_workers_start) as (H & _).
  { apply (sys_run_runs (hang_begin ++ hang_end)). exact E. }
  { vm_compute in E. injection E as _ <-. reflexivity. }
  assert (sched y_hang2 = sched y) as Ey.
  { transitivity (match sys_run (hang_begin ++ hang_end) y_start with
                  | Some (_, y) => sched y | None => two_workers end); [|rewrite E; reflexivity].
    vm_compute. reflexivity. }
  destruct (worker (sched y_hang2) (WT 1)) as [w|] eqn:Hw; [|vm_compute in Hw; discriminate].
  exists w. split; [reflexivity|]. split.
  - vm_compute in Hw. injection Hw as <-. reflexivity.
  - apply (H (WT 1)). rewrite <- Ey. exact Hw.
Defined.

(** C6. What becomes of tasks: in every run of the whole system, the destructor
    included, the tasks that [enqueue] has accepted, and the stop tasks, are those
    that have been run, those destroyed with the queue of their worker, and
    those still in the queue of some worker or in the hands of a worker that has
    just stolen one; none is run twice.  Only a task that was put in the queue of a
    worker whose thread had ended can be destroyed, and only by the last loop
    of the destructor. *)
Theorem system_tasks_conserved n mains s o y :
  sys_start n mains s -> sys_runs (initial s) o y ->
  accepted o ≡ₚ ran o ++ dropped o ++ pending y /\ dropped o ⊆+ late o /\ (alive y -> dropped o = []).
Proof.
  intros Hs Hr. pose proof (initial_ok _ _ _ Hs) as HO. pose proof (sys_runs_tasks _ _ _ HO Hr) as H.
  rewrite (pending_initial n mains s Hs), app_nil_r in H. split_and!; [done| |].
  - by eapply runs_dropped_late; [|eapply initial_left|].
  - intros Ha. by eapply sys_runs_dropped.
Qed.

Lemma system_tasks_conserved_witness :
  exists o, accepted o = [sample_sys_task; stop_task 1] /\ accepted o ≡ₚ ran o ++ dropped o ++ pending y_hang1.
Proof.
  destruct (sys_run hang_begin y_start) as [[o y]|] eqn:E; [|vm_compute in E; discriminate].
  exists o. split.
  - vm_compute in E. injection E as <- _. reflexivity.
  - apply (system_tasks_conserved 2 [1%Z; 2%Z] two_workers); [apply two_workers_start|].
    apply (sys_run_runs hang_begin). unfold y_hang1. rewrite E. exact E.
Defined.

(** Stealing never moves a task with the [SameThread] flag, never takes
    from the thief itself, and takes the oldest task of its victim; a steal
    that finds nothing changes nothing. *)
Theorem stealWork_moves_oldest i rnd n mains s0 o y :
  sys_start n mains s0 -> sys_runs (initial s0) o y -> alive y ->
  exists t s', stealWork i rnd (sched y) = Ok (t, s') /\
    match t with
    | None => s' = sched y
    | Some t => Task_is t SameThread = false /\
        exists j w w', j <> i /\ worker (sched y) (WT j) = Some w /\
          s' = set_worker (WT j) w' (sched y) /\ tasks (work_ w) = t :: tasks (work_ w')
    end.
Proof.
  intros Hs Hr Ha. pose proof (proj2 (sys_runs_ok _ _ _ (initial_ok _ _ _ Hs) Hr) Ha) as HS.
  destruct (stealWork_spec i rnd (sched y) HS) as (t & s' & H & _ & Hcase). exists t, s'.
  split; [done|]. destruct Hcase as [[-> ->]|(j & w & w' & t' & ? & ? & -> & -> & ? & ? & ?)]; [done|].
  split; [done|]. exists j, w, w'. done.
Qed.

Lemma stealWork_moves_oldest_witness :
  exists o y s', sys_run [SEnqueue None false sample_sys_task] y_start = Some (o, y) /\
    stealWork 1 0 (sched y) = Ok (Some sample_sys_task, s') /\
    exists j, j <> 1%nat /\ Task_is sample_sys_task SameThread = false.
Proof.
  destruct (sys_run [SEnqueue None false sample_sys_task] y_start) as [[o y]|] eqn:E;
    [|vm_compute in E; discriminate].
  destruct (stealWork_moves_oldest 1 0 2 [1%Z; 2%Z] two_workers o y two_workers_start)
    as (t & s' & H & Ht); 
    [apply (sys_run_runs [SEnqueue None false sample_sys_task]); exact E|vm_compute in E; injection E as _ <-; reflexivity|].
  assert (exists s1, stealWork 1 0 (sched y) = Ok (Some sample_sys_task, s1)) as [s1 H1].
  { vm_compute in E. injection E as _ <-. eexists. vm_compute. reflexivity. }
  assert (t = Some sample_sys_task /\ s' = s1) as [-> ->]
    by (rewrite H in H1; injection H1 as -> ->; split; reflexivity).
  exists o, y, s1. split; [reflexivity|]. split; [exact H1|].
  destruct Ht as [Hsame (j & w & w' & Hj & _)]. exists j. split; [exact Hj|exact Hsame].
Defined.

(** C29. The stop task carries no [SameThread] flag, so a spinning worker can
    steal it, and then the destructor can hang: there is a run of a scheduler
    with two worker threads after which [~Scheduler] waits to join worker 1,
    whose [shutdown] is set; no task is queued or in flight; both worker
    threads sleep without a deadline and can do nothing but wake up; and since
    worker 1 fell asleep nobody has notified it.  The thief writes [shutdown] with
    no lock, and since it stole the task worker 1 has read it: a data race. *)
Theorem stolen_stop_task_hangs :
  exists o1 y1 o2 y2 w0 w1,
    sys_runs (initial two_workers) o1 y1 /\ sys_runs y1 o2 y2 /\
    (exists w, worker (sched y1) (WT 1) = Some w /\ asleep w = true) /\
    existsb notifies_1 o2 = false /\
    (exists oa ob a b, o1 = oa ++ Took 0 (stop_task 1) :: ob /\ Touched a ∈ ob /\ Touched b ∈ o2 /\
       of_ a = WT 1 /\ conflict a b) /\
    worker_threads_ (sched y2) = [w0; w1] /\ asleep w0 = true /\ asleep w1 = true /\
    shutdown w1 = true /\ pending y2 = [] /\ stopping y2 = ∅ /\ to_stop y2 = 1%nat /\
    (forall r e, sys_legal (SWorker r e) y2 -> is_Some (sys_exec (SWorker r e) y2) ->
       exists now, e = Wake now).
Proof.
  destruct (sys_run hang_begin y_start) as [[o1 y1]|] eqn:E1; [|vm_compute in E1; discriminate].
  destruct (sys_run hang_end y_hang1) as [[o2 y2]|] eqn:E2; [|vm_compute in E2; discriminate].
  assert (y_hang1 = y1) as E3 by (unfold y_hang1; by rewrite E1). rewrite E3 in E2.
  pose proof (sys_run_runs _ _ _ _ E1) as R1. pose proof (sys_run_runs _ _ _ _ E2) as R2.
  exists o1, y1, o2, y2.
  assert (y2 = y_hang2 /\ existsb notifies_1 o2 = false) as [-> Hno].
  { rewrite <- E3 in E2. split; [unfold y_hang2; by rewrite E2|].
    vm_compute in E2. injection E2 as <- _. reflexivity. }
  assert (exists oa ob a b, o1 = oa ++ Took 0 (stop_task 1) :: ob /\ Touched a ∈ ob /\ Touched b ∈ o2 /\
    of_ a = WT 1 /\ conflict a b) as Hrace.
  { rewrite <- E3 in E2. clear R1 R2. vm_compute in E1. injection E1 as <- _. vm_compute in E2. injection E2 as <-.
    eexists [_; _; _; _; _; _; _; _; _; _; _], _, (mkAccess (WT 1) (WT 1) false true), (mkAccess (WT 0) (WT 1) true false).
    split_and!; [reflexivity|set_solver|set_solver|reflexivity|by split_and!]. }
  destruct (worker_threads_ (sched y_hang2)) as [|w0 [|w1 [|]]] eqn:Hws;
    [vm_compute in Hws; discriminate..| |vm_compute in Hws; discriminate].
  exists w0, w1.
  assert (asleep w0 = true /\ asleep w1 = true /\ shutdown w1 = true) as (A0 & A1 & A2).
  { vm_compute in Hws. injection Hws as <- <-. split; [reflexivity|split; reflexivity]. }
  split; [exact R1|]. split; [exact R2|]. split.
  { rewrite <- E3. eexists. split; [vm_compute; reflexivity|reflexivity]. }
  split; [exact Hno|]. split; [exact Hrace|]. split; [reflexivity|]. split; [exact A0|]. split; [exact A1|].
  split; [exact A2|]. split; [vm_compute; reflexivity|]. split; [vm_compute; reflexivity|].
  split; [vm_compute; reflexivity|].
  assert (by_tid (sched y_hang2) = ∅) as Htid by (vm_compute; reflexivity).
  intros r e (Hown & _) Hex. unfold sys_exec, sys_act, lift_worker, on_worker in Hex.
  destruct (worker (sched y_hang2) r) as [w|] eqn:Hw; [|by destruct Hex].
  destruct (worker_of_two _ _ _ _ _ Hws Htid Hw) as [-> | ->].
  - apply (asleep_own e w0 A0 Hown). cbn in Hex. by destruct (exec e w0); [eauto|destruct Hex].
  - apply (asleep_own e w1 A1 Hown). cbn in Hex. by destruct (exec e w1); [eauto|destruct Hex].
Qed.

(** Worker 1 is stopped and ends while a task runs on worker 0; that task then
    enqueues another one. *)
Definition late_task : WTask := mkTask (Some (BUser 2)) FlagsNone.

Definition drop_events : list SEvent :=
  (SWorker (WT 1) <$> [Tau; Tau; Tau]) ++ (SWorker (WT 0) <$> [Tau; Tau; Tau]) ++
  [SEnqueue None false sample_sys_task] ++
  (SWorker (WT 0) <$> [Wake 0; Tau; Tau; Tau; Tau; Tau]) ++
  [SStop 1] ++ (SWorker (WT 1) <$> [Wake 0; Tau; Tau; Tau; Tau; Tau]) ++ [SShutdown 1] ++
  (SWorker (WT 1) <$> [TaskDone; Tau; Tau; Tau; Tau]) ++ [SJoin 1] ++
  [SEnqueue (Some (WT 0)) false late_task] ++
  (SWorker (WT 0) <$> [TaskDone; Tau; Tau; Tau; SpinEnd; Tau; Tau]) ++
  [SStop 0] ++ (SWorker (WT 0) <$> [Wake 0; Now 0; Tau; Tau]) ++ [SShutdown 0] ++
  (SWorker (WT 0) <$> [TaskDone; Tau; Tau; Tau; Tau]) ++ [SJoin 0].

(** C30. The destructor's comment says that stopping the workers waits for all
    tasks; it does not, because the workers are stopped one after the other
    while [enqueue] still hands tasks to those already stopped: there is a run
    in which a task is accepted, every worker thread has ended, the destructor
    has joined them all, and the task was never run; the destructor goes on to
    destroy the workers, and the task with the queue it is in. *)
Theorem destructor_drops_late_task :
  exists o y, sys_runs (initial two_workers) o y /\ accepted o !! 2%nat = Some late_task /\
    pending y = [late_task] /\ forallb exited (worker_threads_ (sched y)) = true /\
    to_stop y = 0%nat /\ threads y = [None; None] /\
    exists o' y', sys_runs y o' y' /\ dropped o' = [late_task] /\ worker_threads_ (sched y') = [] /\
      late_task ∉ ran (o ++ o').
Proof.
  destruct (sys_run drop_events y_start) as [[o y]|] eqn:E; [|vm_compute in E; discriminate].
  exists o, y. split; [by apply sys_run_runs in E|].
  destruct (sys_run [SDestroy 1; SDestroy 0] y) as [[o' y']|] eqn:E'.
  2: { vm_compute in E. injection E as <- <-. vm_compute in E'. discriminate. }
  pose proof (sys_run_runs _ _ _ _ E') as R'.
  vm_compute in E. injection E as <- <-. vm_compute in E'. injection E' as <- <-.
  split; [reflexivity|]. split; [vm_compute; reflexivity|]. split_and!; [reflexivity..|].
  eexists _, _. split; [exact R'|]. split_and!; [reflexivity..|]. vm_compute. set_solver.
Qed.
