(* ===== verification/Dag.v ===== *)
(** Task graphs: [DAGBuilder], [DAGNodeBuilder] and [DAG]
    (src/include/marl/dag.hpp).

    The builder is a sequence of calls on two vectors.  A run of a graph is
    concurrent: the thread that calls [run] invokes the root node, and every
    node that becomes ready while another one is kept for the current thread is
    scheduled as a task of its own.  An [Act] is one such activation of
    [invoke], at one of the places where other activations can interleave; the
    tail call of [invoke] continues the same activation.  The works are opaque:
    only when they start and finish is recorded. *)
From stdpp Require Import base numbers strings sets gmap list.
From S2P Require Import Prelude.

Abbreviation NodeIndex := nat (only parsing).

(** [Node]; [InvalidCounterIndex] is [None]. *)
Record Node := mkNode {
  has_work : bool;
  counterIndex : option nat;
  outs : list NodeIndex
}.

Record DAG := mkDAG { nodes : list Node; initialCounters : list Z }.

Definition RootIndex : NodeIndex := 0.

(** ** The builder *)
Record Builder := mkBuilder { dag : DAG; numIns : list Z }.

Definition DAGBuilder_new : Builder := mkBuilder (mkDAG [mkNode false None []] []) [0%Z].

(** [vector::operator[]] asserts the index. *)
Definition at_ {A} (l : list A) (i : nat) : Result A :=
  match l !! i with Some a => Ok a | None => fatal "index exceeds vector size" end.

Definition add_out (child : NodeIndex) (n : Node) : Node :=
  mkNode (has_work n) (counterIndex n) (outs n ++ [child]).

Definition addDependency (parent child : NodeIndex) (b : Builder) : Result Builder :=
  k ← at_ (numIns b) child;
  n ← at_ (nodes (dag b)) parent;
  Ok (mkBuilder
        (mkDAG (<[parent := add_out child n]> (nodes (dag b))) (initialCounters (dag b)))
        (<[child := u32 (k + 1)]> (numIns b))).

Fixpoint add_all (after : list NodeIndex) (child : NodeIndex) (b : Builder) : Result Builder :=
  match after with
  | [] => Ok b
  | p :: after => b ← addDependency p child b; add_all after child b
  end.

(** [node(work, after)]; [node(work)] is the case of no dependencies. *)
Definition node (work : bool) (after : list NodeIndex) (b : Builder) : Result (NodeIndex * Builder) :=
  _ ← MARL_ASSERT (bool_decide (length (numIns b) = length (nodes (dag b))))
        "NodeBuilder vectors out of sync";
  let index := length (nodes (dag b)) in
  let b := mkBuilder (mkDAG (nodes (dag b) ++ [mkNode work None []]) (initialCounters (dag b)))
             (numIns b ++ [0%Z]) in
  b ← add_all after index b;
  Ok (index, b).

(** [DAGNodeBuilder::then]. *)
Definition then_ (parent : NodeIndex) (work : bool) (b : Builder) : Result (NodeIndex * Builder) :=
  '(n, b) ← node work [] b;
  b ← addDependency parent n b;
  Ok (n, b).

(** The loop of [build], from node [i] on. *)
Fixpoint assign_counters (ns : list Node) (ins : list Z) (counters : list Z)
  : list Node * list Z :=
  match ns, ins with
  | n :: ns, k :: ins =>
      if bool_decide (1 < k)%Z then
        let '(ns', cs) := assign_counters ns ins (counters ++ [k]) in
        (mkNode (has_work n) (Some (length counters)) (outs n) :: ns', cs)
      else
        let '(ns', cs) := assign_counters ns ins counters in (n :: ns', cs)
  | ns, _ => (ns, counters)
  end.

Definition build (b : Builder) : Result DAG :=
  _ ← MARL_ASSERT (bool_decide (length (numIns b) = length (nodes (dag b))))
        "NodeBuilder vectors out of sync";
  let '(ns, cs) := assign_counters (nodes (dag b)) (numIns b) (initialCounters (dag b)) in
  Ok (mkDAG ns cs).

(** ** Runs *)
Inductive Act :=
| Enter (v : NodeIndex)                      (* invoke(ctx, v, wg) is called *)
| Working (v : NodeIndex)                    (* its work runs *)
| Loop (v : NodeIndex) (rest : list NodeIndex) (toInvoke : option NodeIndex)
| Spawn (v toInvoke idx : NodeIndex) (rest : list NodeIndex)
                                             (* before wg->add(1) and schedule(...) *)
| Leave (v : NodeIndex).                     (* invoke has returned, from node [v] *)

(** [main] tells the activation that [run] started from the scheduled ones. *)
Record Activation := mkAct { main : bool; act : Act }.

Record Run := mkRun {
  counters : list Z;                         (* RunContext::counters *)
  wg : Z;                                    (* the count of the WaitGroup *)
  acts : list Activation;
  started : list NodeIndex;                  (* nodes whose work was begun *)
  finished : list NodeIndex;                 (* nodes whose work has returned *)
  returned : bool                            (* run() has returned *)
}.

(** [initCounters] and the call of [invoke] in [run]. *)
Definition run_start (g : DAG) : Run :=
  mkRun (initialCounters g) 0 [mkAct true (Enter RootIndex)] [] [] false.

(** [notify]. *)
Definition notify (g : DAG) (v : NodeIndex) (cs : list Z) : Result (bool * list Z) :=
  n ← at_ (nodes g) v;
  match counterIndex n with
  | None => Ok (true, cs)
  | Some c =>
      k ← deref (cs !! c) "counters index";
      let k := u32 (k - 1) in
      Ok (bool_decide (k = 0%Z), <[c := k]> cs)
  end.

Definition set_act (i : nat) (a : Activation) (r : Run) : Run :=
  mkRun (counters r) (wg r) (<[i := a]> (acts r)) (started r) (finished r) (returned r).

(** One step of activation [i]; [None] when it has to wait. *)
Definition dag_step (g : DAG) (i : nat) (r : Run) : option (Result Run) :=
  match acts r !! i with
  | None => None
  | Some (mkAct m a) =>
      match a with
      | Enter v =>
          Some (_ ← at_ (nodes g) v;
                Ok (mkRun (counters r) (wg r) (<[i := mkAct m (Working v)]> (acts r))
                      (started r ++ [v]) (finished r) (returned r)))
      | Working v =>
          Some (n ← at_ (nodes g) v;
                Ok (mkRun (counters r) (wg r) (<[i := mkAct m (Loop v (outs n) None)]> (acts r))
                      (started r) (finished r ++ [v]) (returned r)))
      | Loop v (idx :: rest) toInvoke =>
          Some ('(fire, cs) ← notify g idx (counters r);
                let a' := if fire : bool
                          then match toInvoke with
                               | Some t => Spawn v t idx rest
                               | None => Loop v rest (Some idx)
                               end
                          else Loop v rest toInvoke in
                Ok (mkRun cs (wg r) (<[i := mkAct m a']> (acts r)) (started r) (finished r)
                      (returned r)))
      | Spawn v t idx rest =>
          Some (Ok (mkRun (counters r) (u32 (wg r + 1))
                      (<[i := mkAct m (Loop v rest (Some idx))]> (acts r) ++
                       [mkAct false (Enter t)])
                      (started r) (finished r) (returned r)))
      | Loop v [] (Some t) => Some (Ok (set_act i (mkAct m (Enter t)) r))
      | Loop v [] None => Some (Ok (set_act i (mkAct m (Leave v)) r))
      | Leave _ =>
          if m then
            (* wg.wait() *)
            if bool_decide (wg r = 0%Z)
            then Some (Ok (mkRun (counters r) (wg r) (delete i (acts r)) (started r) (finished r) true))
            else None
          else
            (* w.done() *)
            Some (_ ← MARL_ASSERT (bool_decide (0 < wg r)%Z)
                        "marl::WaitGroup::done() called too many times";
                  Ok (mkRun (counters r) (u32 (wg r - 1)) (delete i (acts r)) (started r)
                        (finished r) (returned r)))
      end
  end.

Inductive dag_reach (g : DAG) : nat -> Run -> Prop :=
| dag_reach_start : dag_reach g 0 (run_start g)
| dag_reach_step n r i r' :
    dag_reach g n r -> dag_step g i r = Some (Ok r') -> dag_reach g (S n) r'.
