(* ===== verification/DagProps.v ===== *)
(** Runs of task graphs are correct: every node is run exactly once, after all
    its predecessors; [run] returns, and when it does every node has been run.
    What the builder makes is such a graph exactly when it has no cycle and only the
    root lacks predecessors. *)
From stdpp Require Import base numbers strings sets gmap list.
From S2P Require Import Prelude Dag.

(** ** Counting edges *)
Fixpoint occ (v : nat) (l : list nat) : nat :=
  match l with
  | [] => 0
  | x :: l => (if decide (x = v) then 1 else 0) + occ v l
  end.

Lemma occ_app v l1 l2 : occ v (l1 ++ l2) = occ v l1 + occ v l2.
Proof. induction l1; simpl; lia. Qed.

Lemma occ_elem v l : 0 < occ v l <-> v ∈ l.
Proof.
  induction l as [|x l IH]; simpl; [split; [lia|by intros []%not_elem_of_nil]|].
  rewrite elem_of_cons. case_decide; [split; [auto|lia]|]. rewrite <- IH. naive_solver.
Qed.

(** The nodes that have an edge to [v], with multiplicity. *)
Definition indegree (g : DAG) (v : NodeIndex) : nat :=
  sum_list_with (fun n => occ v (outs n)) (nodes g).

Definition edge (g : DAG) (u v : NodeIndex) : Prop := exists n, nodes g !! u = Some n /\ v ∈ outs n.

Lemma indegree_edge g v : 0 < indegree g v <-> exists u, edge g u v.
Proof.
  unfold indegree, edge. induction (nodes g) as [|n l IH]; simpl.
  { split; [lia|by intros (u & n & ? & _)]. }
  assert (0 < occ v (outs n) + sum_list_with (fun n => occ v (outs n)) l <->
    0 < occ v (outs n) \/ 0 < sum_list_with (fun n => occ v (outs n)) l) as -> by lia.
  rewrite IH, occ_elem. split.
  - intros [H|(u & n' & H1 & H2)]; [by exists 0, n|by exists (S u), n'].
  - intros ([|u] & n' & H1 & H2); [left; by simplify_eq/=|right; by exists u, n'].
Qed.

(** There is an order of the nodes that every edge respects. *)
Definition acyclic (g : DAG) : Prop := exists rank : NodeIndex -> nat, forall u v, edge g u v -> rank u < rank v.

(** The nodes with a predecessor are all but the root. *)
Definition rooted (g : DAG) : Prop := forall v, v < length (nodes g) -> 0 < indegree g v <-> v <> RootIndex.

(** The graphs that can be run: there is no cycle, every node but the root has a
    predecessor, and a node with more than one has a counter of its own that starts
    at their number. *)
Record GraphWf (g : DAG) : Prop := {
  gw_root : 0 < length (nodes g);
  gw_edge : forall u n v, nodes g !! u = Some n -> v ∈ outs n -> 0 < v < length (nodes g);
  gw_acyclic : acyclic g;
  gw_in : forall v, 0 < v < length (nodes g) -> 0 < indegree g v;
  gw_counter : forall v n, nodes g !! v = Some n ->
    match counterIndex n with
    | None => indegree g v <= 1
    | Some c => initialCounters g !! c = Some (Z.of_nat (indegree g v))
    end;
  gw_inj : forall v v' n n' c, nodes g !! v = Some n -> nodes g !! v' = Some n' ->
    counterIndex n = Some c -> counterIndex n' = Some c -> v = v';
  gw_bound : forall v, (Z.of_nat (indegree g v) < 2 ^ 32)%Z;
  gw_size : (Z.of_nat (length (nodes g)) < 2 ^ 32)%Z
}.

(** ** What an activation holds *)
Definition todo (a : Act) : list NodeIndex :=
  match a with Loop _ rest _ | Spawn _ _ _ rest => rest | _ => [] end.

(** The nodes that are ready and not yet run to the end of their work. *)
Definition holds (a : Act) : list NodeIndex :=
  match a with
  | Enter v | Working v => [v]
  | Loop _ _ (Some t) => [t]
  | Spawn _ t idx _ => [t; idx]
  | _ => []
  end.

(** The node whose work it has finished last. *)
Definition last_done (a : Act) : list NodeIndex :=
  match a with Loop v _ _ | Spawn v _ _ _ | Leave v => [v] | _ => [] end.

Definition in_work (a : Act) : list NodeIndex := match a with Working v => [v] | _ => [] end.

Definition over {A} (f : Act -> list A) (l : list Activation) : list A := mjoin ((f ∘ act) <$> l).

(** The edges to [v] that are still to be notified: those of the nodes that
    have not finished, and those in the loops under way. *)
Definition sum_unfinished (g : DAG) (f : Node -> nat) (fin : list NodeIndex) : nat :=
  sum_list_with (fun '(u, n) => if decide (u ∈ fin) then 0 else f n) (imap pair (nodes g)).

Definition unfinished (g : DAG) (fin : list NodeIndex) (v : NodeIndex) : nat :=
  sum_unfinished g (fun n => occ v (outs n)) fin.

Definition pend (g : DAG) (fin : list NodeIndex) (l : list Activation) (v : NodeIndex) : nat :=
  unfinished g fin v + occ v (over todo l).

Definition scheduled (l : list Activation) : nat := length (filter (fun a => main a = false) l).
Definition mains (l : list Activation) : nat := length (filter (fun a => main a = true) l).

(** ** The invariant *)
Record DInv (g : DAG) (cs : list Z) (w : Z) (l : list Activation) (st fin : list NodeIndex)
  (ret : bool) : Prop := {
  d_counter : forall v n c, nodes g !! v = Some n -> counterIndex n = Some c ->
    cs !! c = Some (Z.of_nat (pend g fin l v));
  d_le : forall v, pend g fin l v <= indegree g v;
  d_nodup : NoDup (over holds l ++ fin);
  d_fired : forall v, v ∈ over holds l ++ fin <->
    v < length (nodes g) /\ (v = RootIndex \/ pend g fin l v = 0);
  d_todo : forall v, v ∈ over todo l -> 0 < v < length (nodes g);
  d_last : NoDup (over last_done l) /\ forall v, v ∈ over last_done l -> v ∈ fin;
  d_wg : w = Z.of_nat (scheduled l);
  d_main : mains l = if ret then 0 else 1;
  d_started : st ≡ₚ over in_work l ++ fin
}.

Definition run_inv (g : DAG) (r : Run) : Prop :=
  DInv g (counters r) (wg r) (acts r) (started r) (finished r) (returned r).

(** *** The invariant does not depend on the order of the activations *)
Global Instance over_perm {A} (f : Act -> list A) : Proper ((≡ₚ) ==> (≡ₚ)) (over f).
Proof. intros l l' Hl. unfold over. by rewrite Hl. Qed.

Lemma occ_perm v l l' : l ≡ₚ l' -> occ v l = occ v l'.
Proof. induction 1; simpl; lia. Qed.

Lemma over_cons {A} (f : Act -> list A) a l : over f (a :: l) = f (act a) ++ over f l.
Proof. done. Qed.

Lemma over_app {A} (f : Act -> list A) l1 l2 : over f (l1 ++ l2) = over f l1 ++ over f l2.
Proof. unfold over. by rewrite fmap_app, join_app. Qed.

Lemma scheduled_cons m a l : scheduled (mkAct m a :: l) = (if m then 0 else 1) + scheduled l.
Proof. unfold scheduled. rewrite filter_cons. by destruct m. Qed.

Lemma mains_cons m a l : mains (mkAct m a :: l) = (if m then 1 else 0) + mains l.
Proof. unfold mains. rewrite filter_cons. by destruct m. Qed.

Lemma pend_perm g fin l l' v : l ≡ₚ l' -> pend g fin l v = pend g fin l' v.
Proof. intros Hl. unfold pend. f_equal. apply occ_perm. by rewrite Hl. Qed.

Lemma DInv_perm g cs w l l' st fin ret :
  l ≡ₚ l' -> DInv g cs w l st fin ret -> DInv g cs w l' st fin ret.
Proof.
  intros Hl [H1 H2 H3 H4 H5 [H6a H6b] H7 H8 H9].
  assert (forall v, pend g fin l v = pend g fin l' v) as Hp by (intros; by apply pend_perm).
  split.
  - intros v n c Hn Hc. rewrite <- Hp. by eapply H1.
  - intros v. by rewrite <- Hp.
  - by rewrite <- Hl.
  - intros v. rewrite <- Hp, <- (H4 v). by rewrite Hl.
  - intros v. rewrite <- Hl. apply H5.
  - split; [by rewrite <- Hl|]. intros v. rewrite <- Hl. apply H6b.
  - unfold scheduled. by rewrite <- Hl.
  - unfold mains. by rewrite <- Hl.
  - by rewrite <- Hl.
Qed.

(** *** The edges of the unfinished nodes *)
Lemma sum_imap_split (F F' : nat * Node -> nat) l k u n :
  l !! u = Some n -> F' (k + u, n) = 0 ->
  (forall i x, i <> u -> F (k + i, x) = F' (k + i, x)) ->
  sum_list_with F (imap (fun i x => (k + i, x)) l) =
  F (k + u, n) + sum_list_with F' (imap (fun i x => (k + i, x)) l).
Proof.
  revert k u. induction l as [|x l IH]; intros k u Hu H0 Hne; [done|]. simpl.
  assert (forall G : nat * Node -> nat,
    sum_list_with G (imap ((fun i x => (k + i, x)) ∘ S) l) =
    sum_list_with G (imap (fun i x => (S k + i, x)) l)) as Hshift.
  { intros G. f_equal. apply imap_ext. intros i y _. simpl. f_equal. lia. }
  rewrite !Hshift. destruct u as [|u]; simpl in Hu.
  - simplify_eq. rewrite H0. simpl. f_equal.
    clear IH Hshift H0. revert k Hne. induction l as [|y l IH]; intros k Hne; [done|]. simpl.
    assert (forall G : nat * Node -> nat,
      sum_list_with G (imap ((fun i x => (S (k + i), x)) ∘ S) l) =
      sum_list_with G (imap (fun i x => (S (S k + i), x)) l)) as Hshift.
    { intros G. f_equal. apply imap_ext. intros i z _. simpl. do 2 f_equal. lia. }
    rewrite !Hshift. f_equal.
    + specialize (Hne 1 y ltac:(lia)). by replace (k + 1) with (S (k + 0)) in Hne by lia.
    + apply IH. intros i z Hi. destruct i as [|i]; [done|].
      specialize (Hne (S (S i)) z ltac:(lia)). by replace (k + S (S i)) with (S k + S i) in Hne by lia.
  - rewrite (Hne 0 x ltac:(lia)). rewrite (IH (S k) u Hu).
    + replace (S k + u) with (k + S u) by lia. lia.
    + by replace (S k + u) with (k + S u) by lia.
    + intros i y Hi. replace (S k + i) with (k + S i) by lia. apply Hne. lia.
Qed.

Lemma sum_unfinished_finish g f fin u n :
  nodes g !! u = Some n -> u ∉ fin ->
  sum_unfinished g f fin = f n + sum_unfinished g f (fin ++ [u]).
Proof.
  intros Hn Hu. unfold sum_unfinished.
  change (imap pair (nodes g)) with (imap (fun i x => (0 + i, x)) (nodes g)).
  rewrite (sum_imap_split _ (fun '(u', n') => if decide (u' ∈ fin ++ [u]) then 0 else f n')
    (nodes g) 0 u n Hn); simpl.
  - by rewrite decide_False.
  - rewrite decide_True; [done|]. set_solver.
  - intros i x Hi. apply decide_ext. set_solver.
Qed.

Lemma unfinished_finish g fin v u n :
  nodes g !! u = Some n -> u ∉ fin ->
  unfinished g fin v = occ v (outs n) + unfinished g (fin ++ [u]) v.
Proof. intros Hn Hu. by apply (sum_unfinished_finish g (fun n => occ v (outs n))). Qed.

Lemma unfinished_edge g fin v u n :
  nodes g !! u = Some n -> u ∉ fin -> v ∈ outs n -> 0 < unfinished g fin v.
Proof.
  intros Hn Hu Hv. rewrite (unfinished_finish g fin v u n Hn Hu).
  apply occ_elem in Hv. lia.
Qed.

Lemma unfinished_nil g v : unfinished g [] v = indegree g v.
Proof.
  unfold unfinished, sum_unfinished, indegree.
  assert (forall l k, sum_list_with (fun '(u, n) => if decide (u ∈ []) then 0 else occ v (outs n))
    (imap (fun i x => (k + i, x)) l) = sum_list_with (fun n => occ v (outs n)) l) as H.
  { induction l as [|x l IH]; intros k; [done|]. simpl. f_equal.
    rewrite <- (IH (S k)). f_equal. apply imap_ext. intros i y _. simpl. f_equal. lia. }
  apply (H (nodes g) 0).
Qed.

(** A node with no edge left to notify has only finished predecessors. *)
Lemma pend_zero_parents g fin l v u n :
  pend g fin l v = 0 -> nodes g !! u = Some n -> v ∈ outs n -> u ∈ fin.
Proof.
  intros Hp Hn Hv. destruct (decide (u ∈ fin)) as [|Hu]; [done|].
  pose proof (unfinished_edge g fin v u n Hn Hu Hv). unfold pend in Hp. lia.
Qed.

(** *** The steps *)
Section steps.
Context (g : DAG) (Hg : GraphWf g).

Lemma start_inv :
  DInv g (initialCounters g) 0 [mkAct true (Enter RootIndex)] [] [] false.
Proof.
  assert (forall v, pend g [] [mkAct true (Enter RootIndex)] v = indegree g v) as Hp.
  { intros v. unfold pend. rewrite unfinished_nil. simpl. lia. }
  split; try done.
  - intros v n c Hn Hc. rewrite Hp. pose proof (gw_counter g Hg v n Hn) as H. by rewrite Hc in H.
  - intros v. by rewrite Hp.
  - apply NoDup_singleton.
  - intros v. rewrite Hp. change (over holds _ ++ []) with [RootIndex].
    rewrite list_elem_of_singleton. split.
    + intros ->. split; [apply Hg|by left].
    + intros [Hv [->|Hz]]; [done|]. destruct v as [|v]; [done|].
      pose proof (gw_in g Hg (S v)). lia.
  - intros v. by intros []%not_elem_of_nil.
  - split; [constructor|]. intros v. by intros []%not_elem_of_nil.
Qed.

(** The activation changes, keeping what it has to do and what it holds. *)
Lemma same_inv cs w m a a' l st st' fin ret :
  DInv g cs w (mkAct m a :: l) st fin ret ->
  todo a' = todo a -> holds a' ≡ₚ holds a -> last_done a' ⊆+ last_done a ->
  st' ≡ₚ in_work a' ++ over in_work l ++ fin ->
  DInv g cs w (mkAct m a' :: l) st' fin ret.
Proof.
  intros [H1 H2 H3 H4 H5 [H6a H6b] H7 H8 H9] Et Eh El Est.
  assert (forall v, pend g fin (mkAct m a' :: l) v = pend g fin (mkAct m a :: l) v) as Hp.
  { intros v. unfold pend. rewrite !over_cons. simpl. by rewrite Et. }
  assert (over last_done (mkAct m a' :: l) ⊆+ over last_done (mkAct m a :: l)) as Hlast.
  { rewrite !over_cons. by apply submseteq_skips_r. }
  split; try done.
  - intros v n c Hn Hc. rewrite Hp. by eapply H1.
  - intros v. by rewrite Hp.
  - rewrite over_cons in *. simpl in *. by rewrite Eh.
  - intros v. rewrite Hp, <- (H4 v), !over_cons. simpl. by rewrite Eh.
  - intros v. rewrite over_cons. simpl. rewrite Et. apply (H5 v).
  - split; [by eapply submseteq_NoDup|].
    intros v Hv. apply H6b. by eapply elem_of_submseteq.
  - by rewrite H7, !scheduled_cons.
  - by rewrite <- H8, !mains_cons.
  - rewrite Est, over_cons. simpl. by rewrite app_assoc.
Qed.

(** A work returns. *)
Lemma finish_inv cs w m v n l st fin ret :
  DInv g cs w (mkAct m (Working v) :: l) st fin ret -> nodes g !! v = Some n ->
  DInv g cs w (mkAct m (Loop v (outs n) None) :: l) st (fin ++ [v]) ret.
Proof.
  intros [H1 H2 H3 H4 H5 [H6a H6b] H7 H8 H9] Hn.
  rewrite !over_cons in *. simpl in *.
  assert (v ∉ fin) as Hv by (apply NoDup_cons in H3 as [H3 _]; set_solver).
  assert (forall x, pend g (fin ++ [v]) (mkAct m (Loop v (outs n) None) :: l) x =
                    pend g fin (mkAct m (Working v) :: l) x) as Hp.
  { intros x. unfold pend. rewrite !over_cons. simpl. rewrite occ_app.
    rewrite (unfinished_finish g fin x v n Hn Hv). lia. }
  assert (over holds l ++ fin ++ [v] ≡ₚ v :: over holds l ++ fin) as Hperm by solve_Permutation.
  split; rewrite ?over_cons; simpl.
  - intros u n' c Hn' Hc. rewrite Hp. by eapply H1.
  - intros u. by rewrite Hp.
  - by rewrite Hperm.
  - intros u. rewrite Hp, Hperm. apply H4.
  - intros u. rewrite elem_of_app. intros [Hu|Hu]; [|by apply H5].
    pose proof (gw_edge g Hg v n u Hn Hu). lia.
  - split.
    + apply NoDup_cons. split; [|done]. intros Hl%H6b. done.
    + intros u. rewrite elem_of_cons, elem_of_app, list_elem_of_singleton. naive_solver.
  - by rewrite H7, !scheduled_cons.
  - by rewrite <- H8, !mains_cons.
  - rewrite H9. solve_Permutation.
Qed.

(** [notify] takes one edge off the counter of a node, if it has one. *)
Lemma notify_spec cs idx (p : nat -> nat) :
  (forall v n c, nodes g !! v = Some n -> counterIndex n = Some c -> cs !! c = Some (Z.of_nat (p v))) ->
  0 < p idx <= indegree g idx -> idx < length (nodes g) ->
  exists cs', notify g idx cs = Ok (bool_decide (p idx = 1), cs') /\
    forall v n c, nodes g !! v = Some n -> counterIndex n = Some c ->
      cs' !! c = Some (Z.of_nat (p v - (if decide (idx = v) then 1 else 0))).
Proof.
  intros H1 Hp Hidx. destruct (lookup_lt_is_Some_2 (nodes g) idx Hidx) as [n Hn].
  unfold notify, at_. rewrite Hn. simpl. pose proof (gw_counter g Hg idx n Hn) as Hcnt.
  destruct (counterIndex n) as [c|] eqn:Hc.
  - rewrite (H1 idx n c Hn Hc). simpl. pose proof (gw_bound g Hg idx).
    rewrite u32_small by lia. eexists. split.
    { do 2 f_equal. apply bool_decide_ext. lia. }
    intros x n' c' Hn' Hc'. destruct (decide (c' = c)) as [->|Hcc].
    + assert (x = idx) as -> by (by eapply (gw_inj g Hg)).
      rewrite list_lookup_insert_eq by (by eapply lookup_lt_Some, (H1 idx)).
      rewrite decide_True by done. f_equal. lia.
    + rewrite list_lookup_insert_ne by done. rewrite (H1 x n' c' Hn' Hc').
      rewrite decide_False; [do 2 f_equal; lia|]. intros ->. naive_solver.
  - exists cs. split; [by rewrite bool_decide_eq_true_2 by lia|].
    intros x n' c' Hn' Hc'. rewrite (H1 x n' c' Hn' Hc').
    rewrite decide_False; [do 2 f_equal; lia|]. intros ->. naive_solver.
Qed.

(** What the loop of [invoke] does after a [notify]. *)
Definition after_notify (v : NodeIndex) (rest : list NodeIndex) (t : option NodeIndex)
  (idx : NodeIndex) (fire : bool) : Act :=
  if fire then match t with Some t => Spawn v t idx rest | None => Loop v rest (Some idx) end
  else Loop v rest t.

Lemma after_notify_spec v rest t idx fire :
  todo (after_notify v rest t idx fire) = rest /\
  last_done (after_notify v rest t idx fire) = [v] /\
  in_work (after_notify v rest t idx fire) = [] /\
  holds (after_notify v rest t idx fire) ≡ₚ
    (if fire then [idx] else []) ++ holds (Loop v (idx :: rest) t).
Proof. destruct fire, t; split_and!; done || solve_Permutation. Qed.

(** A successor is ready exactly when no edge to it is left. *)
Lemma notify_inv cs w m v idx rest t l st fin ret :
  DInv g cs w (mkAct m (Loop v (idx :: rest) t) :: l) st fin ret ->
  exists fire cs', notify g idx cs = Ok (fire, cs') /\
    DInv g cs' w (mkAct m (after_notify v rest t idx fire) :: l) st fin ret.
Proof.
  intros [H1 H2 H3 H4 H5 [H6a H6b] H7 H8 H9].
  set (p := pend g fin (mkAct m (Loop v (idx :: rest) t) :: l)) in *.
  assert (0 < idx < length (nodes g)) as Hidx by (apply H5; left).
  assert (forall fire x, pend g fin (mkAct m (after_notify v rest t idx fire) :: l) x +
    (if decide (idx = x) then 1 else 0) = p x) as Hp.
  { intros fire x. unfold p, pend. rewrite !over_cons. simpl act.
    destruct (after_notify_spec v rest t idx fire) as (-> & _). simpl. rewrite !occ_app. simpl. lia. }
  assert (0 < p idx) as Hpos by (rewrite <- (Hp true); rewrite decide_True by done; lia).
  destruct (notify_spec cs idx p H1) as (cs' & Hnot & Hcs); [specialize (H2 idx); lia|lia|].
  set (fire := bool_decide (p idx = 1)) in *. exists fire, cs'. split; [done|].
  destruct (after_notify_spec v rest t idx fire) as (Et & El & Ew & Eh). specialize (Hp fire).
  rewrite !over_cons in *. simpl act in *.
  assert ((holds (after_notify v rest t idx fire) ++ over holds l) ++ fin ≡ₚ
    (if fire then [idx] else []) ++ (holds (Loop v (idx :: rest) t) ++ over holds l) ++ fin) as Hh
    by (rewrite Eh, <- !app_assoc; done).
  split; rewrite ?over_cons; simpl act; rewrite ?Et, ?El, ?Ew; try done.
  - intros x n c Hn Hc. rewrite (Hcs x n c Hn Hc), <- (Hp x). do 2 f_equal. lia.
  - intros x. specialize (Hp x). specialize (H2 x). lia.
  - rewrite Hh. unfold fire. case_bool_decide as Ef; [|done]. apply NoDup_cons. split; [|done].
    intros [_ [Hz|Hz]]%H4; [subst idx; unfold RootIndex in Hidx; lia|lia].
  - intros x. rewrite Hh, elem_of_app, (H4 x). specialize (Hp x). unfold fire in *.
    case_bool_decide as Ef; rewrite ?list_elem_of_singleton, ?elem_of_nil;
      (destruct (decide (idx = x)) as [<-|Hne]; [|split; intuition lia]).
    + split; [|tauto]. intros _. split; [lia|right; lia].
    + split; intuition lia.
  - intros x Hx. apply H5. set_solver.
  - by rewrite H7, !scheduled_cons.
  - by rewrite <- H8, !mains_cons.
Qed.

(** There are no more activations than nodes. *)
Lemma acts_bound cs w l st fin ret :
  DInv g cs w l st fin ret -> length l <= length (nodes g).
Proof.
  intros [_ _ H3 H4 _ [H6a H6b] _ _ _].
  assert (length l <= length (over holds l ++ over last_done l)) as Hl.
  { clear. rewrite length_app. induction l as [|a l IH]; [simpl; lia|].
    rewrite !over_cons, !length_app. destruct a as [m []]; simpl in *; lia. }
  assert (over last_done l ⊆+ fin) as Hsub by (by apply NoDup_submseteq).
  assert (over holds l ++ fin ⊆+ seq 0 (length (nodes g))) as Hall.
  { apply NoDup_submseteq; [done|]. intros v [Hv _]%H4. apply elem_of_seq. lia. }
  apply submseteq_length in Hsub, Hall. rewrite length_seq in Hall.
  rewrite length_app in Hl, Hall. lia.
Qed.

Lemma scheduled_le l : scheduled l <= length l.
Proof. apply length_filter. Qed.

(** [wg->add(1)] and [schedule]. *)
Lemma spawn_inv cs w m v t idx rest l st fin ret :
  DInv g cs w (mkAct m (Spawn v t idx rest) :: l) st fin ret ->
  DInv g cs (u32 (w + 1)) (mkAct false (Enter t) :: mkAct m (Loop v rest (Some idx)) :: l)
    st fin ret.
Proof.
  intros [H1 H2 H3 H4 H5 [H6a H6b] H7 H8 H9].
  set (l' := mkAct false (Enter t) :: mkAct m (Loop v rest (Some idx)) :: l).
  assert (forall x, pend g fin l' x = pend g fin (mkAct m (Spawn v t idx rest) :: l) x) as Hp by done.
  assert (DInv g cs (Z.of_nat (scheduled l')) l' st fin ret) as HD.
  { subst l'. split; try done. by rewrite <- H8, !mains_cons. }
  pose proof (acts_bound _ _ _ _ _ _ HD) as Hb. pose proof (gw_size g Hg).
  pose proof (scheduled_le l'). unfold l' in *.
  rewrite !scheduled_cons in *. rewrite H7, u32_small by lia.
  replace (Z.of_nat _ + 1)%Z with (Z.of_nat (1 + ((if m then 0 else 1) + scheduled l))) by lia.
  done.
Qed.

(** An activation ends. *)
Lemma leave_inv cs w m v l st fin ret :
  DInv g cs w (mkAct m (Leave v) :: l) st fin ret ->
  (m = false -> (0 < w)%Z /\ DInv g cs (u32 (w - 1)) l st fin ret) /\
  (m = true -> DInv g cs w l st fin true).
Proof.
  intros HD. pose proof (acts_bound _ _ _ _ _ _ HD) as Hb. pose proof (gw_size g Hg).
  pose proof (scheduled_le l) as Hle. simpl in Hb.
  destruct HD as [H1 H2 H3 H4 H5 [H6a H6b] H7 H8 H9].
  rewrite scheduled_cons in H7. rewrite mains_cons in H8. rewrite !over_cons in *. simpl in *.
  assert (NoDup (over last_done l) /\ forall x, x ∈ over last_done l -> x ∈ fin) as Hlast.
  { apply NoDup_cons in H6a as [_ H6a]. split; [done|]. intros x Hx. apply H6b. by right. }
  split; intros ->.
  - split; [lia|]. split; try done. rewrite u32_small by lia. lia.
  - split; try done. destruct ret; lia.
Qed.
End steps.

(** ** Steps of a run *)
Lemma acts_split {A} (l : list A) i a :
  l !! i = Some a ->
  exists rest, l ≡ₚ a :: rest /\ delete i l ≡ₚ rest /\ forall a', <[i := a']> l ≡ₚ a' :: rest.
Proof.
  intros Hi. exists (delete i l). pose proof (lookup_lt_Some _ _ _ Hi).
  split_and!; [by apply delete_Permutation|done|]. intros a'.
  rewrite insert_take_drop, delete_take_drop by done. symmetry. apply Permutation_middle.
Qed.

(** Every step of a run is taken without an error and keeps the invariant. *)
Lemma dag_step_inv g i r :
  GraphWf g -> run_inv g r ->
  match dag_step g i r with
  | None => True
  | Some (Ok r') => run_inv g r'
  | Some _ => False
  end.
Proof.
  intros Hg HD. unfold dag_step. destruct (acts r !! i) as [[m a]|] eqn:Hi; [|done].
  destruct (acts_split _ _ _ Hi) as (l & Hl & Hdel & Hins). unfold run_inv in HD |- *.
  apply (DInv_perm _ _ _ _ _ _ _ _ Hl) in HD.
  assert (forall v, v ∈ holds a -> exists n, nodes g !! v = Some n) as Hnode.
  { intros v Hv. apply lookup_lt_is_Some_2.
    assert (v ∈ over holds (mkAct m a :: l) ++ finished r) as Hin by (rewrite over_cons; set_solver).
    by apply (d_fired _ _ _ _ _ _ _ HD) in Hin as [? _]. }
  pose proof (d_started _ _ _ _ _ _ _ HD) as Hst. rewrite over_cons in Hst. simpl in Hst.
  destruct a as [v|v|v rest t|v t idx rest|v].
  - destruct (Hnode v) as [n Hn]; [left|]. unfold at_. rewrite Hn. simpl.
    eapply DInv_perm; [symmetry; apply Hins|]. eapply same_inv; [done..|].
    simpl in *. rewrite Hst. solve_Permutation.
  - destruct (Hnode v) as [n Hn]; [left|]. unfold at_. rewrite Hn. simpl.
    eapply DInv_perm; [symmetry; apply Hins|]. by apply finish_inv.
  - destruct rest as [|idx rest]; [destruct t as [t|]|]; simpl.
    + eapply DInv_perm; [symmetry; apply Hins|]. eapply same_inv; [done..| |done].
      by apply submseteq_nil_l.
    + eapply DInv_perm; [symmetry; apply Hins|]. by eapply same_inv.
    + destruct (notify_inv g Hg _ _ _ _ _ _ _ _ _ _ _ HD) as (fire & cs' & -> & HD'). simpl.
      eapply DInv_perm; [symmetry; apply Hins|]. exact HD'.
  - simpl. eapply DInv_perm; [|by apply spawn_inv].
    rewrite Hins. solve_Permutation.
  - destruct (leave_inv g Hg _ _ _ _ _ _ _ _ HD) as [Hs Hm]. destruct m.
    + case_bool_decide; [|done]. simpl. eapply DInv_perm; [symmetry; apply Hdel|]. by apply Hm.
    + destruct Hs as [Hw HD']; [done|]. rewrite bool_decide_eq_true_2 by done. simpl.
      by eapply DInv_perm; [symmetry; apply Hdel|].
Qed.

Lemma dag_reach_inv g n r : GraphWf g -> dag_reach g n r -> run_inv g r.
Proof.
  intros Hg. induction 1 as [|n r i r' _ IH He]; [by apply start_inv|].
  pose proof (dag_step_inv g i r Hg IH) as Hok. by rewrite He in Hok.
Qed.

(** ** Termination *)
Definition cost (a : Act) : nat :=
  match a with
  | Enter _ => 2
  | Working _ => 1
  | Loop _ rest _ => 5 + 4 * length rest
  | Spawn _ _ _ rest => 8 + 4 * length rest
  | Leave _ => 1
  end.

Definition node_cost (n : Node) : nat := 10 + 4 * length (outs n).

(** The steps a run can still take. *)
Definition measure (g : DAG) (r : Run) : nat :=
  sum_unfinished g node_cost (finished r) + sum_list_with (cost ∘ act) (acts r).

Definition dag_bound (g : DAG) : nat := measure g (run_start g).

Lemma sum_perm {A} (f : A -> nat) l l' : l ≡ₚ l' -> sum_list_with f l = sum_list_with f l'.
Proof. induction 1; simpl; lia. Qed.

Lemma dag_step_measure g i r r' :
  run_inv g r -> dag_step g i r = Some (Ok r') -> measure g r' < measure g r.
Proof.
  intros HD He. unfold dag_step in He.
  destruct (acts r !! i) as [[m a]|] eqn:Hi; [|done].
  destruct (acts_split _ _ _ Hi) as (l & Hl & Hdel & Hins).
  unfold run_inv in HD. apply (DInv_perm _ _ _ _ _ _ _ _ Hl) in HD.
  assert (forall a', sum_list_with (cost ∘ act) (<[i := mkAct m a']> (acts r)) =
    cost a' + sum_list_with (cost ∘ act) l) as Hc by (intros; by rewrite (sum_perm _ _ _ (Hins _))).
  assert (sum_list_with (cost ∘ act) (acts r) = cost a + sum_list_with (cost ∘ act) l) as Hc0
    by (by rewrite (sum_perm _ _ _ Hl)).
  assert (sum_list_with (cost ∘ act) (delete i (acts r)) = sum_list_with (cost ∘ act) l) as Hcd
    by (by apply sum_perm).
  unfold measure. rewrite Hc0. destruct a as [v|v|v [|idx rest] t|v t idx rest|v].
  - unfold at_ in He. destruct (nodes g !! v); simplify_eq/=. rewrite Hc. simpl. lia.
  - unfold at_ in He. destruct (nodes g !! v) as [n|] eqn:Hn; simplify_eq/=. rewrite Hc. simpl.
    rewrite (sum_unfinished_finish g node_cost (finished r) v n Hn).
    + unfold node_cost at 2. lia.
    + pose proof (d_nodup _ _ _ _ _ _ _ HD) as H. rewrite over_cons in H. simpl in H.
      apply NoDup_cons in H as [H _]. set_solver.
  - destruct t; simplify_eq/=; rewrite Hc; simpl; lia.
  - destruct (notify g idx (counters r)) as [[fire cs]| |]; simplify_eq/=. rewrite Hc.
    destruct fire, t; simpl; lia.
  - simplify_eq/=. rewrite sum_list_with_app, Hc. simpl. lia.
  - destruct m; [case_bool_decide|case_bool_decide]; simplify_eq/=; rewrite Hcd; lia.
Qed.

Lemma dag_reach_bound g n r : GraphWf g -> dag_reach g n r -> n + measure g r <= dag_bound g.
Proof.
  intros Hg. induction 1 as [|n r i r' Hr IH He]; [done|].
  pose proof (dag_step_measure g i r r' (dag_reach_inv g n r Hg Hr) He). lia.
Qed.

(** As long as [run] has not returned, some activation can go on. *)
Lemma act_enabled g i r a m :
  GraphWf g -> run_inv g r -> acts r !! i = Some (mkAct m a) ->
  (forall v, a = Leave v -> m = true -> wg r = 0%Z) -> exists r', dag_step g i r = Some (Ok r').
Proof.
  intros Hg HD Hi Hw. pose proof (dag_step_inv g i r Hg HD) as Hok.
  destruct (dag_step g i r) as [[r'| |]|] eqn:He; [by eexists|done|done|].
  unfold dag_step in He. rewrite Hi in He.
  destruct a as [v|v|v [|idx rest] [t|]|v t idx rest|v]; try done. destruct m; [|done].
  rewrite bool_decide_eq_true_2 in He by (by eapply Hw). done.
Qed.

Lemma filter_pos_Some {A} (P : A -> Prop) `{forall x, Decision (P x)} (l : list A) :
  0 < length (filter P l) -> exists i x, l !! i = Some x /\ P x.
Proof.
  intros Hl. destruct (filter P l) as [|x k] eqn:E; [simpl in Hl; lia|].
  assert (x ∈ filter P l) as [HP Hx]%list_elem_of_filter by (rewrite E; left).
  apply list_elem_of_lookup in Hx as [i Hi]. eauto.
Qed.

Lemma dag_progress g r :
  GraphWf g -> run_inv g r -> returned r = false -> exists i r', dag_step g i r = Some (Ok r').
Proof.
  intros Hg HD Hret. destruct (decide (scheduled (acts r) = 0)) as [Hs|Hs].
  - destruct (filter_pos_Some (fun a => main a = true) (acts r)) as (i & [m a] & Hi & Hm).
    { pose proof (d_main _ _ _ _ _ _ _ HD) as H. rewrite Hret in H. unfold mains in H. lia. }
    simpl in Hm. destruct (act_enabled g i r a m Hg HD Hi) as [r' Hr']; [|by eauto].
    intros _ _ _. rewrite (d_wg _ _ _ _ _ _ _ HD), Hs. done.
  - destruct (filter_pos_Some (fun a => main a = false) (acts r)) as (i & [m a] & Hi & Hm).
    { unfold scheduled in Hs. lia. }
    simpl in Hm. destruct (act_enabled g i r a m Hg HD Hi) as [r' Hr']; [|by eauto].
    intros v _ ->. done.
Qed.

(** ** When [run] has returned *)
Lemma no_acts l : scheduled l = 0 -> mains l = 0 -> l = [].
Proof.
  destruct l as [|[m a] l]; [done|]. rewrite scheduled_cons, mains_cons. destruct m; lia.
Qed.

Lemma step_returned g i r r' :
  dag_step g i r = Some (Ok r') -> returned r = false -> returned r' = true -> wg r' = 0%Z.
Proof.
  unfold dag_step. intros He H0 H1. destruct (acts r !! i) as [[m a]|]; [|done].
  destruct a as [v|v|v [|idx rest] [t|]|v t idx rest|v]; simplify_eq/=; try congruence.
  - unfold at_ in He. destruct (nodes g !! v); simplify_eq/=. congruence.
  - unfold at_ in He. destruct (nodes g !! v); simplify_eq/=. congruence.
  - destruct (notify g idx (counters r)) as [[fire cs]| |]; simplify_eq/=. congruence.
  - destruct (notify g idx (counters r)) as [[fire cs]| |]; simplify_eq/=. congruence.
  - destruct m; case_bool_decide; simplify_eq/=; [done|congruence].
Qed.

Lemma returned_no_acts g n r : GraphWf g -> dag_reach g n r -> returned r = true -> acts r = [].
Proof.
  intros Hg. induction 1 as [|n r i r' Hr IH He]; [done|]. intros Hret.
  destruct (returned r) eqn:H0.
  - unfold dag_step in He. by rewrite IH in He.
  - pose proof (dag_reach_inv g _ r' Hg (dag_reach_step _ _ _ _ _ Hr He)) as HD.
    apply no_acts.
    + pose proof (d_wg _ _ _ _ _ _ _ HD) as Hw. rewrite (step_returned _ _ _ _ He H0 Hret) in Hw. lia.
    + rewrite (d_main _ _ _ _ _ _ _ HD). by rewrite Hret.
Qed.

(** With no activation left, every node has been run: by induction along the
    edges. *)
Lemma idle_all_finished g r v :
  GraphWf g -> run_inv g r -> acts r = [] -> v < length (nodes g) -> v ∈ finished r.
Proof.
  intros Hg HD Hl. unfold run_inv in HD. rewrite Hl in HD.
  destruct (gw_acyclic g Hg) as [rank Hrank]. induction (well_founded_ltof _ rank v) as [v _ IH]. intros Hv.
  apply (d_fired _ _ _ _ _ _ _ HD v). split; [done|]. right. unfold pend. simpl.
  rewrite Nat.add_0_r. destruct (decide (unfinished g (finished r) v = 0)) as [|Hne]; [done|].
  exfalso. unfold unfinished, sum_unfinished in Hne.
  assert (forall k l, sum_list_with (fun '(u, n) => if decide (u ∈ finished r) then 0 else occ v (outs n))
    (imap (fun i x => (k + i, x)) l) <> 0 ->
    exists u n, l !! u = Some n /\ v ∈ outs n /\ k + u ∉ finished r) as Hex.
  { clear. intros k l. revert k. induction l as [|n l IHl]; intros k Hs; [done|]. simpl in Hs.
    destruct (decide (k + 0 ∈ finished r)) as [Hin|Hin].
    - destruct (IHl (S k)) as (u & n' & H1 & H2 & H3).
      { intros H. apply Hs. simpl. erewrite imap_ext; [exact H|]. intros i x _. simpl. f_equal. lia. }
      exists (S u), n'. split_and!; [done|done|]. by replace (k + S u) with (S k + u) by lia.
    - destruct (decide (0 < occ v (outs n))) as [Hocc|Hocc].
      + exists 0, n. split_and!; [done|by apply occ_elem|done].
      + destruct (IHl (S k)) as (u & n' & H1 & H2 & H3).
        { intros H. apply Hs. replace (occ v (outs n)) with 0 by lia. simpl.
          erewrite imap_ext; [exact H|]. intros i x _. simpl. f_equal. lia. }
        exists (S u), n'. split_and!; [done|done|]. by replace (k + S u) with (S k + u) by lia. }
  destruct (Hex 0 (nodes g) Hne) as (u & n & Hn & Hout & Hu).
  apply Hu, IH; [apply Hrank; by exists n|by eapply lookup_lt_Some].
Qed.

(** ** The builder *)

(** The builders made by any sequence of the calls [node], [then] and
    [addDependency]; the handles passed are those of nodes the builder has made
    before. *)
Definition known (b : Builder) (q : NodeIndex) : Prop := q < length (nodes (dag b)).

Inductive built : Builder -> Prop :=
| built_new : built DAGBuilder_new
| built_node b work after i b' :
    built b -> Forall (known b) after -> node work after b = Ok (i, b') -> built b'
| built_then b parent work i b' :
    built b -> known b parent -> then_ parent work b = Ok (i, b') -> built b'
| built_dependency b parent child b' :
    built b -> known b parent -> known b child -> addDependency parent child b = Ok b' -> built b'.

(** Those made by [node] with something to come after, and by [then], alone. *)
Inductive grown : Builder -> Prop :=
| grown_new : grown DAGBuilder_new
| grown_node b work p after i b' :
    grown b -> Forall (known b) (p :: after) -> node work (p :: after) b = Ok (i, b') -> grown b'
| grown_then b parent work i b' :
    grown b -> known b parent -> then_ parent work b = Ok (i, b') -> grown b'.

(** What the two vectors hold. *)
Record BInv (b : Builder) : Prop := {
  b_root : 0 < length (nodes (dag b));
  b_edge : forall u v, edge (dag b) u v -> known b v;
  b_ins : length (numIns b) = length (nodes (dag b)) /\
    forall v, known b v -> numIns b !! v = Some (u32 (Z.of_nat (indegree (dag b) v)));
  b_fresh : Forall (fun n => counterIndex n = None) (nodes (dag b)) /\ initialCounters (dag b) = []
}.

(** Every edge goes to a later node, and each of the first [k] nodes but the root
    has a predecessor. *)
Record Forward (k : nat) (b : Builder) : Prop := {
  f_edge : forall u v, edge (dag b) u v -> u < v;
  f_in : forall v, 0 < v < k -> 0 < indegree (dag b) v
}.

Lemma addDependency_inv parent child b :
  BInv b -> known b parent -> known b child ->
  exists b', addDependency parent child b = Ok b' /\ BInv b' /\
    length (nodes (dag b')) = length (nodes (dag b)) /\
    (forall v, indegree (dag b') v = indegree (dag b) v + (if decide (child = v) then 1 else 0)) /\
    forall u v, edge (dag b') u v -> edge (dag b) u v \/ u = parent /\ v = child.
Proof.
  unfold known. intros [H1 H2 [H3a H3b] [H5a H5b]] Hp Hc.
  destruct (lookup_lt_is_Some_2 (nodes (dag b)) parent) as [n Hn]; [lia|].
  unfold addDependency, at_. rewrite (H3b child) by done. simpl. rewrite Hn. simpl.
  set (g' := mkDAG _ _).
  assert (forall v, indegree g' v = indegree (dag b) v + (if decide (child = v) then 1 else 0)) as Hd.
  { intros v. unfold indegree, g'. simpl.
    pose proof (sum_insert (fun n => occ v (outs n)) _ _ _ (add_out child n) Hn) as H.
    simpl in H. rewrite occ_app in H. simpl in H. lia. }
  assert (length (nodes g') = length (nodes (dag b))) as Hlen by (unfold g'; simpl; apply length_insert).
  assert (forall u v, edge g' u v -> edge (dag b) u v \/ u = parent /\ v = child) as He.
  { intros u v (n' & Hu & Hv). unfold g' in Hu. simpl in Hu. destruct (decide (u = parent)) as [->|Hne].
    - rewrite list_lookup_insert_eq in Hu by lia. simplify_eq/=.
      apply elem_of_app in Hv as [Hv|Hv%list_elem_of_singleton]; [left; by exists n|by right].
    - rewrite list_lookup_insert_ne in Hu by done. left. by exists n'. }
  eexists. split; [done|]. split; [split|done]; unfold known; cbn [dag numIns]; rewrite ?Hlen.
  - done.
  - intros u v [He'|[_ ->]]%He; [by eapply H2|done].
  - rewrite length_insert. split; [done|]. intros v Hv. rewrite Hd.
    destruct (decide (child = v)) as [<-|Hne].
    + rewrite list_lookup_insert_eq by lia. autorewrite with width. do 2 f_equal. lia.
    + rewrite list_lookup_insert_ne by done. rewrite H3b by done. do 3 f_equal. lia.
  - split; [|done]. unfold g'. simpl. apply Forall_insert; [done|].
    rewrite Forall_lookup in H5a. exact (H5a parent n Hn).
Qed.

Lemma add_all_inv after child b :
  BInv b -> Forall (fun q => q < child) after -> known b child ->
  exists b', add_all after child b = Ok b' /\ BInv b' /\
    length (nodes (dag b')) = length (nodes (dag b)) /\
    (after <> [] -> 0 < indegree (dag b') child) /\
    (forall v, indegree (dag b) v <= indegree (dag b') v) /\
    forall k, Forward k b -> Forward k b'.
Proof.
  intros HB Hall. revert b HB. induction Hall as [|p after Hp _ IH]; intros b HB Hc; simpl.
  { exists b. done. }
  destruct (addDependency_inv p child b HB) as (b1 & -> & HB1 & Hl1 & Hd1 & He1); [unfold known in *; lia|done|]. simpl.
  destruct (IH b1 HB1) as (b2 & -> & HB2 & Hl2 & Hd2 & Hm2 & Hf2); [unfold known in *; lia|].
  exists b2. split_and!; [done|done|lia| | |].
  - intros _. specialize (Hm2 child). rewrite Hd1, decide_True in Hm2 by done. lia.
  - intros v. specialize (Hm2 v). rewrite Hd1 in Hm2. lia.
  - intros k [F1 F2]. apply Hf2. split.
    + intros u v [He|[-> ->]]%He1; [by apply F1|done].
    + intros v Hv. rewrite Hd1. specialize (F2 v Hv). lia.
Qed.

(** A node is added, before its dependencies. *)
Definition push_node (work : bool) (b : Builder) : Builder :=
  mkBuilder (mkDAG (nodes (dag b) ++ [mkNode work None []]) (initialCounters (dag b)))
    (numIns b ++ [0%Z]).

Lemma push_node_edges work b :
  (forall v, indegree (dag (push_node work b)) v = indegree (dag b) v) /\
  forall u v, edge (dag (push_node work b)) u v -> edge (dag b) u v.
Proof.
  split.
  - intros v. unfold indegree. simpl. rewrite sum_list_with_app. simpl. lia.
  - intros u v (n & Hu & Hv). simpl in Hu. apply lookup_app_Some in Hu as [Hu|[_ Hu]]; [by exists n|].
    apply list_lookup_singleton_Some in Hu as [_ <-]. by apply not_elem_of_nil in Hv.
Qed.

Lemma push_node_inv work b : BInv b -> BInv (push_node work b).
Proof.
  intros [H1 H2 [H3a H3b] [H5a H5b]]. destruct (push_node_edges work b) as [Hd He]. unfold known in *.
  split; unfold known; simpl nodes; simpl numIns; rewrite ?length_app; simpl length.
  - lia.
  - intros u v Huv%He%H2. lia.
  - split; [lia|]. intros v Hv. rewrite Hd.
    destruct (decide (v < length (nodes (dag b)))) as [Hlt|Hge].
    + rewrite lookup_app_l by lia. by apply H3b.
    + rewrite lookup_app_r by lia. replace (v - length (numIns b)) with 0 by lia. simpl. do 2 f_equal.
      assert (~ 0 < indegree (dag b) v) as Hz; [|replace (indegree (dag b) v) with 0 by lia; done].
      intros [u Hu%H2]%indegree_edge. lia.
  - split; [|done]. apply Forall_app. split; [done|by constructor].
Qed.

(** [node] and [then], on which the two agree. *)
Lemma node_inv work after b :
  BInv b -> Forall (known b) after ->
  exists b', node work after b = Ok (length (nodes (dag b)), b') /\ BInv b' /\
    length (nodes (dag b')) = S (length (nodes (dag b))) /\
    (after <> [] -> Forward (length (nodes (dag b))) b -> Forward (length (nodes (dag b'))) b').
Proof.
  intros HB Hall. destruct (push_node_edges work b) as [Hd He].
  destruct (add_all_inv after (length (nodes (dag b))) (push_node work b)) as (b' & Hb' & HB' & Hl & Hin & Hm & Hf);
    [by apply push_node_inv|done|unfold known; simpl; rewrite length_app; simpl; lia|].
  simpl in Hl. rewrite length_app in Hl. simpl in Hl. exists b'. split_and!; [|done|lia|].
  - unfold node. rewrite bool_decide_eq_true_2 by apply HB. cbn [MARL_ASSERT mbind result_bind].
    unfold push_node in Hb'. by rewrite Hb'.
  - intros Hne [F1 F2]. destruct (Hf (length (nodes (dag b)))) as [G1 G2].
    { split; [intros u v Huv%He; by apply F1|]. intros v Hv. rewrite Hd. by apply F2. }
    split; [done|]. intros v Hv. destruct (decide (v < length (nodes (dag b)))); [apply G2; lia|].
    replace v with (length (nodes (dag b))) by lia. by apply Hin.
Qed.

Lemma then_node parent work b : then_ parent work b = node work [parent] b.
Proof.
  unfold then_, node. destruct (MARL_ASSERT _ _) as [[]| |]; [|done..]. cbn [mbind result_bind add_all].
  by destruct (addDependency _ _ _).
Qed.

Lemma new_inv : BInv DAGBuilder_new /\ Forward 1 DAGBuilder_new.
Proof.
  assert (forall u v, edge (dag DAGBuilder_new) u v -> False) as He.
  { intros [|u] v (n & Hn & Hv); simpl in Hn; simplify_eq. by apply not_elem_of_nil in Hv. }
  split; split; try (by intros ? ? ?%He); simpl; try lia.
  - split; [done|]. intros [|v] Hv; [done|]. unfold known in Hv. simpl in Hv. lia.
  - split; [by constructor|done].
Qed.

Lemma built_inv b : built b -> BInv b.
Proof.
  induction 1 as [|b work after i b' _ IH Hall Hn|b parent work i b' _ IH Hp Hn|b parent child b' _ IH Hp Hc Hn].
  - apply new_inv.
  - destruct (node_inv work after b IH Hall) as (b2 & H & HB & _). rewrite H in Hn. by injection Hn as _ <-.
  - rewrite then_node in Hn. destruct (node_inv work [parent] b IH) as (b2 & H & HB & _); [by constructor|].
    rewrite H in Hn. by injection Hn as _ <-.
  - destruct (addDependency_inv parent child b IH Hp Hc) as (b2 & H & HB & _). rewrite H in Hn. by injection Hn as <-.
Qed.

Lemma grown_built b : grown b -> built b.
Proof. induction 1; eauto using built_new, built_node, built_then. Qed.

Lemma grown_forward b : grown b -> Forward (length (nodes (dag b))) b.
Proof.
  induction 1 as [|b work p after i b' Hb IH Hall Hn|b parent work i b' Hb IH Hp Hn].
  - apply new_inv.
  - destruct (node_inv work (p :: after) b (built_inv b (grown_built b Hb)) Hall) as (b2 & H & _ & _ & HF).
    rewrite H in Hn. injection Hn as _ <-.
    by apply HF.
  - rewrite then_node in Hn.
    destruct (node_inv work [parent] b (built_inv b (grown_built b Hb))) as (b2 & H & _ & _ & HF); [by constructor|].
    rewrite H in Hn. injection Hn as _ <-. by apply HF.
Qed.

Lemma grown_tree b : grown b -> acyclic (dag b) /\ rooted (dag b).
Proof.
  intros [F1 F2]%grown_forward. split; [by exists id|]. intros v Hv. split.
  - intros [u Hu%F1]%indegree_edge. unfold RootIndex. lia.
  - unfold RootIndex. intros Hv0. apply F2. lia.
Qed.

(** *** build *)
Lemma assign_counters_spec ns ins cs :
  length ins = length ns -> Forall (fun n => counterIndex n = None) ns ->
  let '(ns', cs') := assign_counters ns ins cs in
  outs <$> ns' = outs <$> ns /\ (exists tail, cs' = cs ++ tail) /\
  (forall i n' k, ns' !! i = Some n' -> ins !! i = Some k ->
     match counterIndex n' with
     | Some c => (1 < k)%Z /\ length cs <= c /\ cs' !! c = Some k
     | None => (k <= 1)%Z
     end) /\
  (forall i j n n' c, ns' !! i = Some n -> ns' !! j = Some n' ->
     counterIndex n = Some c -> counterIndex n' = Some c -> i = j).
Proof.
  revert ins cs. induction ns as [|n ns IH]; intros [|k ins] cs Hlen Hnone; try done; simpl.
  { split_and!; [done|by exists []; rewrite app_nil_r|done|done]. }
  simpl in Hlen. injection Hlen as Hlen. apply Forall_cons in Hnone as [Hn Hnone].
  case_bool_decide as Hk.
  - specialize (IH ins (cs ++ [k]) Hlen Hnone).
    destruct (assign_counters ns ins (cs ++ [k])) as [ns' cs'].
    destruct IH as (E1 & [tail ->] & E3 & E4). rewrite length_app in E3. simpl in E3.
    assert (forall i n', ns' !! i = Some n' -> counterIndex n' <> Some (length cs)) as Hfresh.
    { intros i n' Hi Hc. destruct (lookup_lt_is_Some_2 ins i) as [k' Hk'].
      { apply lookup_lt_Some in Hi. apply (f_equal length) in E1. rewrite !length_fmap in E1. lia. }
      specialize (E3 i n' k' Hi Hk'). rewrite Hc in E3. lia. }
    split_and!; [by rewrite !fmap_cons, E1|exists (k :: tail); by rewrite <- app_assoc| |].
    + intros [|i] n' k' Hi Hki; simplify_eq/=.
      * split_and!; [done|lia|]. by rewrite <- app_assoc, lookup_app_r, Nat.sub_diag by lia.
      * specialize (E3 i n' k' Hi Hki). destruct (counterIndex n'); [|done]. intuition lia.
    + intros [|i] [|j] n1 n2 c Hi Hj H1 H2; simplify_eq/=; [done| | |f_equal; by eapply E4].
      * by destruct (Hfresh j n2).
      * by destruct (Hfresh i n1).
  - specialize (IH ins cs Hlen Hnone). destruct (assign_counters ns ins cs) as [ns' cs'].
    destruct IH as (E1 & E2 & E3 & E4). split_and!; [by rewrite !fmap_cons, E1|done| |].
    + intros [|i] n' k' Hi Hki; simplify_eq/=; [rewrite Hn; lia|by eapply E3].
    + intros [|i] [|j] n1 n2 c Hi Hj H1 H2; simplify_eq/=; try congruence.
      f_equal. by eapply E4.
Qed.

Definition edges (g : DAG) : nat := sum_list_with (fun n => length (outs n)) (nodes g).

Lemma indegree_le_edges g v : indegree g v <= edges g.
Proof.
  assert (forall l, occ v l <= length l) as Ho.
  { induction l; simpl; [lia|]. case_decide; lia. }
  unfold indegree, edges. induction (nodes g) as [|n l IH]; simpl; [lia|].
  specialize (Ho (outs n)). lia.
Qed.

Lemma sum_outs (f : list nat -> nat) l :
  sum_list_with (fun n => f (outs n)) l = sum_list_with f (outs <$> l).
Proof. induction l; simpl; [done|by f_equal]. Qed.

(** Every node with several predecessors, and no other, has a counter of its own
    that starts at their number. *)
Definition counters_exact (g : DAG) : Prop :=
  (forall v n, nodes g !! v = Some n ->
     match counterIndex n with
     | None => indegree g v <= 1
     | Some c => 1 < indegree g v /\ initialCounters g !! c = Some (Z.of_nat (indegree g v))
     end) /\
  forall v v' n n' c, nodes g !! v = Some n -> nodes g !! v' = Some n' ->
    counterIndex n = Some c -> counterIndex n' = Some c -> v = v'.

(** Facts that only depend on the edges. *)
Lemma outs_same g g' :
  outs <$> nodes g = outs <$> nodes g' ->
  length (nodes g) = length (nodes g') /\ (forall v, indegree g v = indegree g' v) /\
  (forall u v, edge g u v <-> edge g' u v) /\ (acyclic g <-> acyclic g') /\ (rooted g <-> rooted g').
Proof.
  intros E. assert (length (nodes g) = length (nodes g')) as Hlen
    by (apply (f_equal length) in E; by rewrite !length_fmap in E).
  assert (forall v, indegree g v = indegree g' v) as Hd.
  { intros v. unfold indegree. by rewrite !(sum_outs (occ v)), E. }
  assert (forall u v, edge g u v <-> edge g' u v) as He.
  { assert (forall h u v, edge h u v <-> exists l, (outs <$> nodes h) !! u = Some l /\ v ∈ l) as H.
    { intros h u v. unfold edge. rewrite list_lookup_fmap. destruct (nodes h !! u); naive_solver. }
    intros u v. by rewrite !H, E. }
  split_and!; [done|done|done| |].
  - unfold acyclic. by setoid_rewrite He.
  - unfold rooted. rewrite Hlen. by setoid_rewrite Hd.
Qed.

Lemma build_spec b :
  BInv b -> (Z.of_nat (length (nodes (dag b))) < 2 ^ 32)%Z -> (Z.of_nat (edges (dag b)) < 2 ^ 32)%Z ->
  exists g, build b = Ok g /\ outs <$> nodes g = outs <$> nodes (dag b) /\ counters_exact g /\
    (acyclic (dag b) /\ rooted (dag b) <-> GraphWf g).
Proof.
  intros [H1 H2 [H3a H3b] [H5a H5b]] Hn He.
  unfold build. rewrite bool_decide_eq_true_2 by done. simpl.
  pose proof (assign_counters_spec (nodes (dag b)) (numIns b) [] H3a H5a) as Hspec.
  rewrite H5b. destruct (assign_counters _ _ _) as [ns cs].
  destruct Hspec as (E1 & _ & E3 & E4). set (g := mkDAG ns cs). exists g. split; [done|]. split; [done|].
  destruct (outs_same g (dag b) E1) as (Hlen & Hd & Hedge & Hac & Hro).
  assert (forall v, (Z.of_nat (indegree (dag b) v) < 2 ^ 32)%Z) as Hsmall.
  { intros v. pose proof (indegree_le_edges (dag b) v). lia. }
  assert (counters_exact g) as Hex.
  { split; [|done]. intros v n Hv. rewrite Hd. assert (v < length (nodes (dag b))) as Hlt
      by (rewrite <- Hlen; by eapply lookup_lt_Some).
    specialize (E3 v n _ Hv (H3b v Hlt)). specialize (Hsmall v).
    rewrite u32_small in E3 by lia. destruct (counterIndex n); [|lia]. destruct E3 as (? & _ & ?). split; [lia|done]. }
  split; [done|]. rewrite <- Hac, <- Hro. split.
  - intros [Ha Hr]. split; rewrite ?Hlen; try done.
    + intros u n v Hu Hv. assert (edge g u v) as Huv by (by exists n).
      assert (v < length (nodes (dag b))) as Hlt by (by eapply H2, Hedge). split; [|done].
      assert (v <> RootIndex); [|unfold RootIndex in *; lia].
      apply Hr; [by rewrite Hlen|]. apply indegree_edge. by exists u.
    + intros v Hv. apply Hr; [rewrite Hlen; lia|unfold RootIndex; lia].
    + intros v n Hv. destruct Hex as [Hex _]. specialize (Hex v n Hv). by destruct (counterIndex n); [apply Hex|].
    + intros v. by rewrite Hd.
  - intros Hg. split; [apply Hg|]. intros v Hv. split.
    + intros (u & n & Hn' & Hin)%indegree_edge. pose proof (gw_edge g Hg u n v Hn' Hin). unfold RootIndex. lia.
    + unfold RootIndex. intros Hv0. apply (gw_in g Hg). lia.
Qed.

(** A graph for the examples: the root, a fork and a join. *)
Definition diamond : Builder :=
  mkBuilder (mkDAG [mkNode false None [1; 2]; mkNode true None [3]; mkNode true None [3];
                    mkNode true None []] []) [0; 1; 1; 2]%Z.

Lemma diamond_grown : grown diamond.
Proof.
  set (b1 := mkBuilder (mkDAG [mkNode false None [1]; mkNode true None []] []) [0; 1]%Z).
  set (b2 := mkBuilder (mkDAG [mkNode false None [1; 2]; mkNode true None []; mkNode true None []] [])
               [0; 1; 1]%Z).
  apply (grown_node b2 true 1 [2] 3); [|repeat constructor; unfold known; simpl; lia|reflexivity].
  apply (grown_then b1 0 true 2); [|unfold known; simpl; lia|reflexivity].
  apply (grown_then DAGBuilder_new 0 true 1); [apply grown_new|unfold known; simpl; lia|reflexivity].
Qed.

Lemma diamond_graph : exists g, build diamond = Ok g /\ GraphWf g.
Proof.
  destruct (build_spec diamond (built_inv _ (grown_built _ diamond_grown))) as (g & H1 & _ & _ & H2); [vm_compute; reflexivity..|].
  exists g. split; [done|]. by apply H2, grown_tree, diamond_grown.
Qed.

Definition diamond_dag : DAG :=
  mkDAG [mkNode false None [1; 2]; mkNode true None [3]; mkNode true None [3];
         mkNode true (Some 0) []] [2%Z].

Lemma diamond_dag_wf : GraphWf diamond_dag.
Proof.
  destruct diamond_graph as (g & Hg & Hwf). vm_compute in Hg. by injection Hg as <-.
Qed.

Fixpoint dag_run (g : DAG) (sched : list nat) (r : Run) : option Run :=
  match sched with
  | [] => Some r
  | i :: sched => match dag_step g i r with Some (Ok r') => dag_run g sched r' | _ => None end
  end.

Lemma dag_run_reach g sched n r r' : dag_reach g n r -> dag_run g sched r = Some r' -> dag_reach g (n + length sched) r'.
Proof.
  revert n r. induction sched as [|i sched IH]; simpl; intros n r Hr H; simplify_eq.
  - by rewrite Nat.add_0_r.
  - destruct (dag_step g i r) as [[r1| |]|] eqn:He; try done. rewrite Nat.add_succ_r.
    apply (IH (S n) r1); [|done]. by eapply dag_reach_step.
Qed.

(** ** Properties *)

(** C16. What the builder makes: after any sequence of [node], [then] and
    [addDependency] calls on its own handles, with fewer than [2^32] nodes and
    edges, [build] succeeds, keeps every edge, and gives exactly the nodes with more
    than one predecessor a counter of their own that starts at their number.  The
    graph can be run correctly (C14, C15) exactly when its edges make no cycle and
    the root is the only node without predecessors; that is so whenever
    [node] was given something to come after, and [then], were the only calls. *)
Theorem built_graph_wf b :
  built b -> (Z.of_nat (length (nodes (dag b))) < 2 ^ 32)%Z -> (Z.of_nat (edges (dag b)) < 2 ^ 32)%Z ->
  exists g, build b = Ok g /\ outs <$> nodes g = outs <$> nodes (dag b) /\ counters_exact g /\
    (acyclic (dag b) /\ rooted (dag b) <-> GraphWf g) /\ (grown b -> GraphWf g).
Proof.
  intros Hb Hn He. destruct (build_spec b (built_inv b Hb) Hn He) as (g & H1 & H2 & H3 & H4).
  exists g. split_and!; [done|done|done|done|]. intros Hg. by apply H4, grown_tree.
Qed.

(** Two nodes made without dependencies, the second before the first. *)
Definition backward : Builder :=
  mkBuilder (mkDAG [mkNode false None [2]; mkNode true None []; mkNode true None [1]] []) [0; 1; 1]%Z.

Lemma backward_built : built backward.
Proof.
  set (b1 := mkBuilder (mkDAG [mkNode false None []; mkNode true None []] []) [0; 0]%Z).
  set (b2 := mkBuilder (mkDAG [mkNode false None []; mkNode true None []; mkNode true None []] []) [0; 0; 0]%Z).
  set (b3 := mkBuilder (mkDAG [mkNode false None [2]; mkNode true None []; mkNode true None []] []) [0; 0; 1]%Z).
  apply (built_dependency b3 2 1); [|unfold known; simpl; lia|unfold known; simpl; lia|reflexivity].
  apply (built_dependency b2 0 2); [|unfold known; simpl; lia|unfold known; simpl; lia|reflexivity].
  apply (built_node b1 true [] 2); [|constructor|reflexivity].
  apply (built_node DAGBuilder_new true [] 1); [constructor|constructor|reflexivity].
Qed.

Lemma built_graph_wf_witness :
  (exists g, build diamond = Ok g /\ GraphWf g) /\ (exists g, build backward = Ok g /\ counters_exact g).
Proof.
  split.
  - destruct (built_graph_wf diamond (grown_built _ diamond_grown)) as (g & H1 & _ & _ & _ & H2); [vm_compute; reflexivity..|].
    exists g. split; [exact H1|apply H2, diamond_grown].
  - destruct (built_graph_wf backward backward_built) as (g & H1 & _ & H2 & _); [vm_compute; reflexivity..|].
    exists g. split; [exact H1|exact H2].
Defined.

Lemma returned_all_finished g n r :
  GraphWf g -> dag_reach g n r -> returned r = true -> finished r ≡ₚ seq 0 (length (nodes g)).
Proof.
  intros Hg Hr Hret. pose proof (dag_reach_inv g n r Hg Hr) as HD. unfold run_inv in HD.
  pose proof (d_nodup _ _ _ _ _ _ _ HD) as Hnd. pose proof (returned_no_acts g n r Hg Hr Hret) as Ha.
  apply NoDup_Permutation; [by apply NoDup_app in Hnd as (_ & _ & ?)|apply NoDup_seq|].
  intros v. rewrite elem_of_seq. split.
  - intros Hv. assert (v ∈ over holds (acts r) ++ finished r) as [? _]%(d_fired _ _ _ _ _ _ _ HD)
      by set_solver. lia.
  - intros Hv. apply (idle_all_finished g r v Hg HD Ha). lia.
Qed.

(** C14. In every interleaving of a run of such a graph no node is run twice,
    and a node is run only after the work of every node it depends on has
    finished; when [run] has returned, every node has been run. *)
Theorem dag_runs_once_in_order g n r :
  GraphWf g -> dag_reach g n r ->
  NoDup (started r) /\
  (forall u nu v, nodes g !! u = Some nu -> v ∈ outs nu -> v ∈ started r -> u ∈ finished r) /\
  (returned r = true -> finished r ≡ₚ seq 0 (length (nodes g))).
Proof.
  intros Hg Hr. pose proof (dag_reach_inv g n r Hg Hr) as HD. unfold run_inv in HD.
  pose proof (d_started _ _ _ _ _ _ _ HD) as Hst. pose proof (d_nodup _ _ _ _ _ _ _ HD) as Hnd.
  assert (over in_work (acts r) ⊆+ over holds (acts r)) as Hsub.
  { clear. induction (acts r) as [|[m a] l IH]; [done|]. rewrite !over_cons. simpl act.
    apply submseteq_app; [|done]. destruct a; simpl; auto using submseteq_nil_l. }
  assert (started r ⊆+ over holds (acts r) ++ finished r) as Hs
    by (rewrite Hst; by apply submseteq_skips_r).
  split_and!; [by eapply submseteq_NoDup| |].
  - intros u nu v Hu Hv Hin. eapply elem_of_submseteq in Hin; [|exact Hs].
    apply (d_fired _ _ _ _ _ _ _ HD) in Hin as [_ [->|Hz]]; [|by eapply pend_zero_parents].
    pose proof (gw_edge g Hg u nu _ Hu Hv). unfold RootIndex in *. lia.
  - by apply (returned_all_finished g n r Hg Hr).
Qed.

Lemma dag_runs_once_in_order_witness :
  exists r, dag_run diamond_dag [0;0;0;0;0;1;1;1;0;0;0;0;0;0;0;1;1;0] (run_start diamond_dag) = Some r /\
    NoDup (started r).
Proof.
  destruct (dag_run diamond_dag [0;0;0;0;0;1;1;1;0;0;0;0;0;0;0;1;1;0] (run_start diamond_dag)) as [r|] eqn:E;
    [|vm_compute in E; discriminate].
  exists r. split; [reflexivity|].
  apply (dag_runs_once_in_order diamond_dag _ r diamond_dag_wf
    (dag_run_reach _ _ _ _ _ (dag_reach_start _) E)).
Defined.

(** A run always comes to its end: no step of it fails an assertion, it
    takes at most [dag_bound g] steps, and as long as [run] has not returned
    some activation can take one. *)
Theorem dag_run_terminates g n r :
  GraphWf g -> dag_reach g n r ->
  n <= dag_bound g /\
  (forall i, match dag_step g i r with Some (Fatal _) | Some (Undefined _) => False | _ => True end) /\
  (returned r = false -> exists i r', dag_step g i r = Some (Ok r')).
Proof.
  intros Hg Hr. pose proof (dag_reach_inv g n r Hg Hr) as HD. split_and!.
  - pose proof (dag_reach_bound g n r Hg Hr). lia.
  - intros i. pose proof (dag_step_inv g i r Hg HD) as Hok.
    by destruct (dag_step g i r) as [[]|].
  - by apply dag_progress.
Qed.

Lemma dag_run_terminates_witness : exists i r', dag_step diamond_dag i (run_start diamond_dag) = Some (Ok r').
Proof.
  apply (dag_run_terminates diamond_dag 0 (run_start diamond_dag) diamond_dag_wf (dag_reach_start _)).
  reflexivity.
Defined.
