(* ===== verification/Vector.v ===== *)
(** [marl::containers::vector<T, BASE_CAPACITY>] (src/include/marl/containers.hpp):
    a vector whose first elements live in the object itself.

    The storage is modelled slot by slot: a slot holds an object or is raw, and
    constructing, moving from, and destroying objects are separate operations,
    so that a double destruction, a read of a destroyed object, an access
    through a null pointer or through a reference to storage that is gone is
    visible as [Undefined].  Sizes are values of [size_t]: they are natural numbers
    here, and the arithmetic on them wraps around where the code's does.  The
    allocator grants requests up to some size and fails its assertion on others.
    The vector is shown to refine a list with a capacity. *)
From stdpp Require Import base numbers strings list.
From S2P Require Import Prelude.

(** The type [T]: [T()], what a move leaves behind, and [sizeof(T)]. *)
Class Element (A : Type) := mkElement {
  dflt : A;
  moved : A -> A;
  sizeof : nat;
  sizeof_range : (0 < Z.of_nat sizeof < 2 ^ 60)%Z
}.

Inductive Slot (A : Type) := Live (a : A) | Raw.
Arguments Live {A} _.
Arguments Raw {A}.

(** Where [elements_] points. *)
Inductive Where := Inline | Heap | Null.

(** Arithmetic of [size_t]. *)
Definition size_t (x : Z) : nat := Z.to_nat (u64 x).

Section vector.
Context {A : Type} {T : Element A} (memory : Z) (BASE_CAPACITY : nat).

Record vector := mkVector {
  count_ : nat;
  capacity_ : nat;
  buffer_ : list (Slot A);
  elements_ : Where;
  heap_ : list (Slot A);       (* what [allocation_.ptr] points to *)
  allocation_ : bool;          (* [allocation_.ptr] is not null *)
  blocks_ : nat                (* the number of that allocation, each has its own address *)
}.

Definition vector_new : vector :=
  mkVector 0 BASE_CAPACITY (replicate BASE_CAPACITY Raw) Inline [] false 0.

(** *** Access through [elements_] *)
Definition storage (v : vector) : list (Slot A) :=
  match elements_ v with Inline => buffer_ v | Heap => heap_ v | Null => [] end.

Definition set_storage (l : list (Slot A)) (v : vector) : vector :=
  match elements_ v with
  | Inline => mkVector (count_ v) (capacity_ v) l (elements_ v) (heap_ v) (allocation_ v) (blocks_ v)
  | Heap => mkVector (count_ v) (capacity_ v) (buffer_ v) (elements_ v) l (allocation_ v) (blocks_ v)
  | Null => v
  end.

Definition set_count (n : nat) (v : vector) : vector :=
  mkVector n (capacity_ v) (buffer_ v) (elements_ v) (heap_ v) (allocation_ v) (blocks_ v).
Definition set_capacity (n : nat) (v : vector) : vector :=
  mkVector (count_ v) n (buffer_ v) (elements_ v) (heap_ v) (allocation_ v) (blocks_ v).

Definition get_slot (l : list (Slot A)) (i : nat) : Result A :=
  match l !! i with
  | Some (Live a) => Ok a
  | _ => Undefined "access to an element that does not exist"
  end.

Definition read (i : nat) (v : vector) : Result A := get_slot (storage v) i.

(** Placement new, and a call of the destructor. *)
Definition construct_in (l : list (Slot A)) (i : nat) (a : A) : Result (list (Slot A)) :=
  match l !! i with
  | Some _ => Ok (<[i := Live a]> l)
  | None => Undefined "object constructed outside the storage"
  end.

Definition construct_at (i : nat) (a : A) (v : vector) : Result vector :=
  l ← construct_in (storage v) i a; Ok (set_storage l v).

Definition destroy_at (i : nat) (v : vector) : Result vector :=
  match storage v !! i with
  | Some (Live _) => Ok (set_storage (<[i := Raw]> (storage v)) v)
  | _ => Undefined "destructor called on no object"
  end.

(** [for (i = from; i < from + n; ++i)]. *)
Fixpoint for_each (from n : nat) (f : nat -> vector -> Result vector) (v : vector) : Result vector :=
  match n with
  | 0 => Ok v
  | S n => v ← f from v; for_each (S from) n f v
  end.

(** *** References to elements

    A [const T &] is to an object outside the vector or to an element of it, in
    the object itself or in the block that was its storage. *)
Inductive Reference := Outside (a : A) | InBuffer (i : nat) | InBlock (b i : nat).

Definition deref_elem (r : Reference) (v : vector) : Result A :=
  match r with
  | Outside a => Ok a
  | InBuffer i => get_slot (buffer_ v) i
  | InBlock b i =>
      if allocation_ v && bool_decide (b = blocks_ v) then get_slot (heap_ v) i
      else Undefined "reference into storage that was freed"
  end.

(** *** Operations *)
Definition free (v : vector) : Result vector :=
  v ← for_each 0 (count_ v) destroy_at v;
  if allocation_ v
  then Ok (mkVector (count_ v) (capacity_ v) (buffer_ v) Null [] false (blocks_ v))
  else Ok v.

(** [allocator_->allocate(request)], for [size] bytes. *)
Definition allocate (size : Z) : Result (list (Slot A)) :=
  _ ← MARL_ASSERT (bool_decide (size <= memory)%Z) "Allocation failed";
  Ok (replicate (Z.to_nat (size / Z.of_nat sizeof)) Raw).

(** The loop of [reserve]: [i] objects have been moved to [grown]. *)
Fixpoint move_out (from n : nat) (grown : list (Slot A)) (v : vector)
  : Result (list (Slot A) * vector) :=
  match n with
  | 0 => Ok (grown, v)
  | S n =>
      a ← read from v;
      grown ← construct_in grown from a;
      move_out (S from) n grown (set_storage (<[from := Live (moved a)]> (storage v)) v)
  end.

Definition bytes (c : nat) : Z := (Z.of_nat sizeof * Z.of_nat c)%Z.
Definition new_capacity (n : nat) : nat := Nat.max (size_t (Z.of_nat n * 2)) 8.

Definition reserve (n : nat) (v : vector) : Result vector :=
  if bool_decide (capacity_ v < n) then
    let v := set_capacity (new_capacity n) v in
    grown ← allocate (u64 (bytes (capacity_ v)));
    '(grown, v) ← move_out 0 (count_ v) grown v;
    v ← free v;
    Ok (mkVector (count_ v) (capacity_ v) (buffer_ v) Heap grown true (S (blocks_ v)))
  else Ok v.

Definition push_back (elem : Reference) (v : vector) : Result vector :=
  v ← reserve (size_t (Z.of_nat (count_ v) + 1)) v;
  a ← deref_elem elem v;
  v ← construct_at (count_ v) a v;
  Ok (set_count (size_t (Z.of_nat (count_ v) + 1)) v).

Definition pop_back (v : vector) : Result vector :=
  _ ← MARL_ASSERT (bool_decide (0 < count_ v)) "pop_back() called on empty vector";
  let v := set_count (count_ v - 1) v in
  destroy_at (count_ v) v.

Definition front (v : vector) : Result A :=
  _ ← MARL_ASSERT (bool_decide (0 < count_ v)) "front() called on empty vector";
  read 0 v.

Definition back (v : vector) : Result A :=
  _ ← MARL_ASSERT (bool_decide (0 < count_ v)) "back() called on empty vector";
  read (count_ v - 1) v.

(** [operator[]], as the value of the element and as a reference to it. *)
Definition index (i : nat) (v : vector) : Result A :=
  _ ← MARL_ASSERT (bool_decide (i < count_ v)) "index exceeds vector size";
  read i v.

Definition index_ref (i : nat) (v : vector) : Result Reference :=
  _ ← MARL_ASSERT (bool_decide (i < count_ v)) "index exceeds vector size";
  match elements_ v with
  | Inline => Ok (InBuffer i)
  | Heap => Ok (InBlock (blocks_ v) i)
  | Null => Undefined "access to an element that does not exist"
  end.

(** [v.push_back(v[i])]. *)
Definition push_own (i : nat) (v : vector) : Result vector := r ← index_ref i v; push_back r v.

(** The two loops of [resize]. *)
Fixpoint grow_to (k : nat) (v : vector) : Result vector :=
  match k with
  | 0 => Ok v
  | S k => v ← construct_at (count_ v) dflt v; grow_to k (set_count (count_ v + 1) v)
  end.

Fixpoint shrink_to (k : nat) (v : vector) : Result vector :=
  match k with
  | 0 => Ok v
  | S k =>
      let v := set_count (count_ v - 1) v in
      v ← destroy_at (count_ v) v;
      shrink_to k v
  end.

Definition resize (n : nat) (v : vector) : Result vector :=
  v ← reserve n v;
  v ← grow_to (n - count_ v) v;
  shrink_to (count_ v - n) v.

(** The right side of an assignment: another vector, or this one. *)
Inductive Other := This | Another (o : vector).

Definition the_other (o : Other) (v : vector) : vector := match o with This => v | Another o => o end.

Definition in_other (f : vector -> vector) (o : Other) (v : vector) : Other * vector :=
  match o with This => (This, f v) | Another o => (Another (f o), v) end.

(** [operator=]: the loop that copies the elements of [other]. *)
Fixpoint copy_from (i n : nat) (o : Other) (v : vector) : Result vector :=
  match n with
  | 0 => Ok v
  | S n => a ← index i (the_other o v); v ← construct_at i a v; copy_from (S i) n o v
  end.

Definition assign (o : Other) (v : vector) : Result vector :=
  v ← free v;
  let n := count_ (the_other o v) in
  v ← reserve n v;
  copy_from 0 n o (set_count n v).

(** The copy constructor. *)
Definition copy_construct (other : vector) : Result vector := assign (Another other) vector_new.

(** The loop of the moving [operator=]: the elements of [other] are moved from
    one by one. *)
Fixpoint move_from (i n : nat) (o : Other) (v : vector) : Result (Other * vector) :=
  match n with
  | 0 => Ok (o, v)
  | S n =>
      a ← index i (the_other o v);
      v ← construct_at i a v;
      let '(o, v) := in_other (fun x => set_storage (<[i := Live (moved a)]> (storage x)) x) o v in
      move_from (S i) n o v
  end.

(** [operator=(vector &&other)]: the new value, and what is left of [other]. *)
Definition move_assign (o : Other) (v : vector) : Result (Other * vector) :=
  v ← free v;
  let n := count_ (the_other o v) in
  v ← reserve n v;
  '(o, v) ← move_from 0 n o (set_count n v);
  match o with
  | This => v ← resize 0 v; Ok (This, v)
  | Another x => x ← resize 0 x; Ok (Another x, v)
  end.

(** The moving constructor. *)
Definition move_construct (other : vector) : Result (Other * vector) := move_assign (Another other) vector_new.

(** [~vector]. *)
Definition vector_dtor (v : vector) : Result unit := _ ← free v; Ok ().

(** [for (auto &x : v)]: from [begin()] to [end()]. *)
Fixpoint iterate (i n : nat) (v : vector) : Result (list A) :=
  match n with 0 => Ok [] | S n => a ← read i v; l ← iterate (S i) n v; Ok (a :: l) end.
Definition begin_end (v : vector) : Result (list A) := iterate 0 (count_ v) v.

(** ** The list a vector stands for *)
Record rep (v : vector) (l : list A) : Prop := {
  rep_count : count_ v = length l;
  rep_where : elements_ v = if allocation_ v then Heap else Inline;
  rep_slots : exists k, storage v = (Live <$> l) ++ replicate k Raw;
  rep_capacity : length (storage v) = capacity_ v;
  rep_bound : (Z.of_nat (capacity_ v) + 1 < 2 ^ 64)%Z
}.

Lemma new_rep : (Z.of_nat BASE_CAPACITY < 2 ^ 31)%Z -> rep vector_new [].
Proof. intros Hb. split; simpl; try done; [by exists BASE_CAPACITY|apply length_replicate|lia]. Qed.

Lemma rep_length v l : rep v l -> length l <= capacity_ v.
Proof. intros [_ _ [k Hk] <- _]. rewrite Hk, length_app, length_fmap. lia. Qed.

(** *** Storage *)
Abbreviation lives l := (Live <$> l).
Abbreviation raws k := (replicate k Raw).

Lemma storage_set l v : elements_ v <> Null -> storage (set_storage l v) = l.
Proof. unfold storage, set_storage. by destruct (elements_ v) eqn:E; simpl; rewrite ?E. Qed.

Lemma set_storage_set l l' v : set_storage l (set_storage l' v) = set_storage l v.
Proof. unfold set_storage. by destruct (elements_ v) eqn:E; simpl; rewrite ?E. Qed.

Lemma set_storage_same v : set_storage (storage v) v = v.
Proof. unfold set_storage, storage. by destruct v as [? ? ? []]. Qed.

Lemma set_storage_fields l v :
  count_ (set_storage l v) = count_ v /\ capacity_ (set_storage l v) = capacity_ v /\
  elements_ (set_storage l v) = elements_ v /\ allocation_ (set_storage l v) = allocation_ v /\
  blocks_ (set_storage l v) = blocks_ v.
Proof. unfold set_storage. by destruct (elements_ v) eqn:E; simpl; rewrite ?E. Qed.

Lemma rep_not_null v l : rep v l -> elements_ v <> Null.
Proof. intros [_ -> _ _ _]. by destruct (allocation_ v). Qed.

Lemma insert_middle {B} (l1 l2 : list B) x y n :
  length l1 = n -> <[n := y]> (l1 ++ x :: l2) = l1 ++ y :: l2.
Proof. intros <-. by rewrite insert_app_r_alt, Nat.sub_diag by lia. Qed.

Lemma lookup_middle {B} (l1 l2 : list B) x n : length l1 = n -> (l1 ++ x :: l2) !! n = Some x.
Proof. intros <-. by rewrite lookup_app_r, Nat.sub_diag by lia. Qed.

Lemma destroy_one v l1 a l2 i :
  storage v = l1 ++ Live a :: l2 -> length l1 = i ->
  destroy_at i v = Ok (set_storage (l1 ++ Raw :: l2) v).
Proof.
  intros Hs Hi. unfold destroy_at. rewrite Hs, lookup_middle, insert_middle by done. done.
Qed.

(** Destroying the objects from [i] on. *)
Lemma destroy_all i l tl v :
  elements_ v <> Null -> storage v = raws i ++ lives l ++ tl ->
  for_each i (length l) destroy_at v = Ok (set_storage (raws (i + length l) ++ tl) v).
Proof.
  revert i v. induction l as [|a l IH]; intros i v Hn Hs; simpl.
  - rewrite Nat.add_0_r. simpl in Hs. by rewrite <- Hs, set_storage_same.
  - rewrite (destroy_one v (raws i) a (lives l ++ tl)) by (done || apply length_replicate). simpl.
    destruct (set_storage_fields (raws i ++ Raw :: (lives l ++ tl)) v) as (_ & _ & He & _).
    rewrite (IH (S i)); [|by rewrite He|].
    + rewrite set_storage_set. by rewrite Nat.add_succ_r.
    + rewrite storage_set by done. rewrite replicate_S_end, <- app_assoc. done.
Qed.

(** Moving the objects to new storage, if it is large enough. *)
Lemma move_all d g l tl m v :
  elements_ v <> Null -> length g = length d -> storage v = lives d ++ lives l ++ tl ->
  move_out (length d) (length l) (lives g ++ raws m) v =
    if bool_decide (length l <= m)
    then Ok (lives (g ++ l) ++ raws (m - length l), set_storage (lives (d ++ (moved <$> l)) ++ tl) v)
    else Undefined "object constructed outside the storage".
Proof.
  revert d g m v. induction l as [|a l IH]; intros d g m v Hn Hg Hs; simpl.
  - rewrite !app_nil_r. simpl in Hs. by rewrite <- Hs, set_storage_same, Nat.sub_0_r.
  - unfold read, get_slot. rewrite Hs. simpl. rewrite lookup_middle by apply length_fmap. simpl.
    rewrite (insert_middle (lives d)) by apply length_fmap.
    unfold construct_in. destruct m as [|m].
    { rewrite lookup_ge_None_2 by (rewrite app_nil_r, length_fmap; lia). done. }
    simpl. rewrite (lookup_middle (lives g)) by (by rewrite length_fmap). simpl.
    rewrite (insert_middle (lives g)) by (by rewrite length_fmap).
    set (v' := set_storage _ v).
    assert (elements_ v' = elements_ v) as He by apply set_storage_fields.
    specialize (IH (d ++ [moved a]) (g ++ [a]) m v'). rewrite !length_app in IH. simpl in IH.
    rewrite !Nat.add_1_r, (fmap_app Live g [a]), <- app_assoc in IH. simpl in IH. rewrite IH; [|by rewrite He|lia|].
    + rewrite (bool_decide_ext (S (length l) <= S m) (length l <= m)) by lia.
      case_bool_decide; [|done]. unfold v'. rewrite set_storage_set, <- !app_assoc. done.
    + unfold v'. rewrite storage_set by done. by rewrite fmap_app, <- app_assoc.
Qed.

(** *** The operations on a vector that stands for a list *)
Lemma free_slots v l k :
  elements_ v = (if allocation_ v then Heap else Inline) -> count_ v = length l -> storage v = lives l ++ raws k ->
  free v = Ok (if allocation_ v
               then mkVector (count_ v) (capacity_ v) (buffer_ v) Null [] false (blocks_ v)
               else set_storage (raws (length l + k)) v).
Proof.
  intros Hw Hc Hk. assert (elements_ v <> Null) as Hn by (rewrite Hw; by destruct (allocation_ v)).
  unfold free. rewrite Hc, (destroy_all 0 l (raws k)) by done. simpl.
  destruct (set_storage_fields (raws (length l) ++ raws k) v) as (E1 & E2 & E3 & E4 & E5).
  rewrite E4, <- replicate_add in *. destruct (allocation_ v); [|done]. f_equal. rewrite E1, E2, E5, Hc.
  f_equal. unfold set_storage. by rewrite Hw.
Qed.

Lemma free_rep v l :
  rep v l ->
  free v = Ok (if allocation_ v
               then mkVector (length l) (capacity_ v) (buffer_ v) Null [] false (blocks_ v)
               else set_storage (raws (capacity_ v)) v).
Proof.
  intros [Hc Hw [k Hk] Hcap _]. rewrite (free_slots v l k Hw Hc Hk), Hc. do 2 f_equal.
  by rewrite <- Hcap, Hk, length_app, length_fmap, length_replicate.
Qed.

(** The whole of [reserve] when it has to allocate. *)
Lemma reserve_eq n v l :
  rep v l -> capacity_ v < n ->
  reserve n v =
    (grown ← allocate (u64 (bytes (new_capacity n)));
     if bool_decide (length l <= length grown)
     then Ok (mkVector (length l) (new_capacity n) (if allocation_ v then buffer_ v else raws (capacity_ v)) Heap
                (lives l ++ raws (length grown - length l)) true (S (blocks_ v)))
     else Undefined "object constructed outside the storage").
Proof.
  intros Hr Hlt. pose proof (rep_not_null v l Hr) as Hn. destruct Hr as [Hc Hw [k Hk] Hcap _].
  unfold reserve. rewrite bool_decide_eq_true_2 by done. set (v0 := set_capacity (new_capacity n) v).
  change (capacity_ v0) with (new_capacity n).
  unfold allocate. destruct (MARL_ASSERT _ _) as [[]| |]; [|done..]. cbn [mbind result_bind].
  set (m := Z.to_nat _). rewrite length_replicate. change (count_ v0) with (count_ v). rewrite Hc.
  pose proof (move_all [] [] l (raws k) m v0 Hn eq_refl Hk) as Hmove.
  cbn [length] in Hmove. change (lives [] ++ ?x) with x in Hmove. rewrite Hmove. clear Hmove.
  case_bool_decide as Hm; [|done]. cbn [mbind result_bind app].
  set (v1 := set_storage _ v0).
  destruct (set_storage_fields (lives (moved <$> l) ++ raws k) v0) as (F1 & F2 & F3 & F4 & F5).
  fold v1 in F1, F2, F3, F4, F5.
  rewrite (free_slots v1 (moved <$> l) k); [|by rewrite F3, F4|by rewrite F1, length_fmap|unfold v1; by apply storage_set].
  rewrite F4. change (allocation_ v0) with (allocation_ v). cbn [mbind result_bind]. rewrite length_fmap.
  assert (length l + k = capacity_ v) as Hlk by (by rewrite <- Hcap, Hk, length_app, length_fmap, length_replicate).
  destruct (allocation_ v) eqn:Ha; cbn.
  - rewrite F1, F2, F5. f_equal. unfold v1, set_storage, v0. cbn. rewrite Hw. cbn. by rewrite Hc.
  - destruct (set_storage_fields (raws (length l + k)) v1) as (G1 & G2 & _ & _ & G5).
    rewrite G1, G2, G5, F1, F2, F5, Hlk. f_equal. unfold set_storage at 1. rewrite F3.
    change (elements_ v0) with (elements_ v). change (count_ v0) with (count_ v). by rewrite Hw, Hc.
Qed.

(** *** When there is room *)

(** A request for [c] elements is granted. *)
Definition granted (c : nat) : Prop := (bytes c < 2 ^ 64 /\ bytes c <= memory)%Z.

(** [n] elements fit, or [reserve] gets room for them. *)
Definition room (n : nat) (v : vector) : Prop := n <= capacity_ v \/ granted (Nat.max (2 * n) 8).

#[global] Instance granted_dec c : Decision (granted c) := _.

Lemma granted_small c : granted c -> (Z.of_nat c < 2 ^ 64)%Z.
Proof. unfold granted, bytes. pose proof (@sizeof_range A T). nia. Qed.

Lemma allocate_granted c : granted c -> allocate (u64 (bytes c)) = Ok (raws c).
Proof.
  intros [H1 H2]. pose proof (@sizeof_range A T). unfold allocate, bytes in *.
  rewrite u64_small by nia. rewrite bool_decide_eq_true_2 by done. simpl. do 2 f_equal.
  rewrite Z.mul_comm, Z.div_mul by lia. lia.
Qed.

(** What is granted is no more than was asked for, and if the request has wrapped
    around it is less than [n] elements need. *)
Lemma size_t_le x : (0 <= x)%Z -> (Z.of_nat (size_t x) <= x)%Z.
Proof. intros Hx. unfold size_t, u64. pose proof (Z.mod_le x (2 ^ 64)). pose proof (Z.mod_pos_bound x (2 ^ 64)). lia. Qed.

Lemma size_t_small x : (0 <= x < 2 ^ 64)%Z -> size_t x = Z.to_nat x.
Proof. intros Hx. unfold size_t. by rewrite u64_small. Qed.

Lemma new_capacity_small n : (Z.of_nat n * 2 < 2 ^ 64)%Z -> new_capacity n = Nat.max (2 * n) 8.
Proof. intros Hn. unfold new_capacity. rewrite size_t_small by lia. lia. Qed.

Lemma granted_new_capacity n : granted (Nat.max (2 * n) 8) -> new_capacity n = Nat.max (2 * n) 8.
Proof. intros Hg%granted_small. apply new_capacity_small. lia. Qed.

Lemma wrapped_request n grown :
  (Z.of_nat n < 2 ^ 64)%Z -> 0 < n -> ~ granted (Nat.max (2 * n) 8) ->
  allocate (u64 (bytes (new_capacity n))) = Ok grown -> length grown < n.
Proof.
  intros Hn H0 Hg. unfold allocate. case_bool_decide as Hm; [|done]. cbn. intros [= <-]. rewrite length_replicate.
  pose proof (@sizeof_range A T) as Hs. set (s := Z.of_nat sizeof) in *.
  assert (u64 (bytes (new_capacity n)) < s * Z.of_nat n)%Z as Hlt.
  2: { pose proof (Z.div_lt_upper_bound _ s (Z.of_nat n) ltac:(lia) Hlt).
       assert (0 <= u64 (bytes (new_capacity n)) / s)%Z by (apply Z.div_pos; [apply u64_range|lia]). lia. }
  pose proof (u64_range (bytes (new_capacity n))) as Hu.
  assert (u64 (bytes (new_capacity n)) <= bytes (new_capacity n))%Z as Hle.
  { unfold u64. apply Z.mod_le; [unfold bytes; lia|done]. }
  unfold bytes in *. fold s in Hle, Hu, Hm |- *. destruct (decide (Z.of_nat n * 2 < 2 ^ 64)%Z) as [Hd|Hd].
  - rewrite new_capacity_small in * by done.
    assert (2 ^ 64 <= s * Z.of_nat (Nat.max (2 * n) 8))%Z as Hbig.
    { apply Z.nlt_ge. intros Hb. apply Hg. split; unfold bytes; fold s; [done|]. by rewrite u64_small in Hm by lia. }
    assert (Nat.max (2 * n) 8 = 2 * n) as Ec.
    { destruct (decide (2 * n < 8)); [|lia]. replace (Nat.max (2 * n) 8) with 8 in Hbig by lia. lia. }
    rewrite Ec in *.
    destruct (decide (2 ^ 64 <= s * Z.of_nat n)%Z); [lia|].
    replace (s * Z.of_nat (2 * n))%Z with (s * Z.of_nat (2 * n) - 2 ^ 64 + 1 * 2 ^ 64)%Z by lia.
    unfold u64. rewrite Z.mod_add by done. rewrite Z.mod_small by nia. nia.
  - assert (Z.of_nat (new_capacity n) < Z.of_nat n)%Z; [|nia]. unfold new_capacity, size_t.
    replace (Z.of_nat n * 2)%Z with (Z.of_nat n * 2 - 2 ^ 64 + 1 * 2 ^ 64)%Z by lia.
    unfold u64. rewrite Z.mod_add by done. rewrite Z.mod_small by lia. lia.
Qed.

(** [reserve] gives a vector that stands for the same list. *)
Lemma new_capacity_bound n : (Z.of_nat (new_capacity n) + 1 < 2 ^ 64)%Z.
Proof.
  assert (Z.of_nat n * 2 mod 2 ^ 64 = (Z.of_nat n mod 2 ^ 63) * 2)%Z as E.
  { change (2 ^ 64)%Z with (2 ^ 63 * 2)%Z. by rewrite Z.mul_mod_distr_r. }
  pose proof (Z.mod_pos_bound (Z.of_nat n) (2 ^ 63)). unfold new_capacity, size_t, u64. rewrite E. lia.
Qed.

Lemma grown_rep l c b k m :
  length l <= c -> (Z.of_nat c + 1 < 2 ^ 64)%Z -> m = length l ->
  rep (mkVector m c b Heap (lives l ++ raws (c - length l)) true k) l.
Proof.
  intros Hle Hc ->. split; try done; [by eexists|]. unfold storage. simpl.
  rewrite length_app, length_fmap, length_replicate. lia.
Qed.

Lemma reserve_granted n v l :
  rep v l -> capacity_ v < n -> granted (new_capacity n) -> length l <= new_capacity n ->
  exists v', reserve n v = Ok v' /\ rep v' l /\ capacity_ v' = new_capacity n.
Proof.
  intros Hr Hlt Hg Hle. rewrite (reserve_eq n v l Hr Hlt), (allocate_granted _ Hg). cbn [mbind result_bind].
  rewrite length_replicate, bool_decide_eq_true_2 by done. eexists. split; [done|]. split; [|done].
  apply grown_rep; [done|apply new_capacity_bound|done].
Qed.

Lemma reserve_rep n v l :
  rep v l -> room n v ->
  exists v', reserve n v = Ok v' /\ rep v' l /\ n <= capacity_ v' /\ capacity_ v <= capacity_ v' /\
    capacity_ v' = (if bool_decide (capacity_ v < n) then new_capacity n else capacity_ v).
Proof.
  intros Hr Hroom. pose proof (rep_length v l Hr). case_bool_decide as Hlt.
  - destruct Hroom as [?|Hg]; [lia|]. pose proof (granted_new_capacity n Hg) as Ec.
    destruct (reserve_granted n v l Hr Hlt) as (v' & E & Hr' & Hc); [by rewrite Ec|rewrite Ec; lia|].
    exists v'. rewrite Hc, Ec. split_and!; [done|done|lia|lia|done].
  - exists v. unfold reserve. rewrite bool_decide_eq_false_2 by done. split_and!; [done|done|lia|lia|done].
Qed.

(** Without room, the storage is too small if [reserve] returns at all. *)
Lemma reserve_short n v l v' :
  rep v l -> (Z.of_nat n < 2 ^ 64)%Z -> ~ room n v -> reserve n v = Ok v' ->
  count_ v' = length l /\ length (storage v') < n.
Proof.
  intros Hr Hn Hroom. assert (capacity_ v < n) as Hlt.
  { apply Nat.nle_gt. intros H. by apply Hroom; left. }
  rewrite (reserve_eq n v l Hr Hlt). destruct (allocate _) as [grown| |] eqn:Ea; [|done..]. cbn [mbind result_bind].
  case_bool_decide as Hle; [|done]. intros [= <-]. split; [done|]. unfold storage. cbn.
  rewrite length_app, length_fmap, length_replicate.
  pose proof (wrapped_request n grown Hn ltac:(lia) ltac:(intros H; by apply Hroom; right) Ea). lia.
Qed.

(** An object is constructed behind the last one. *)
Lemma construct_rep v l a :
  rep v l -> length l < capacity_ v ->
  exists v', construct_at (length l) a v = Ok v' /\ count_ v' = count_ v /\
    capacity_ v' = capacity_ v /\ rep (set_count (length l + 1) v') (l ++ [a]).
Proof.
  intros Hr Hlt. pose proof (rep_not_null v l Hr) as Hn. destruct Hr as [Hc Hw [k Hk] Hcap Hb].
  destruct k as [|k].
  { rewrite Hk, app_nil_r, length_fmap in Hcap. lia. }
  unfold construct_at, construct_in. rewrite Hk. simpl. rewrite lookup_middle by apply length_fmap.
  rewrite insert_middle by apply length_fmap.
  destruct (set_storage_fields (lives l ++ Live a :: raws k) v) as (E1 & E2 & E3 & E4 & _).
  eexists. split; [done|]. split_and!; [done|done|].
  assert (storage (set_count (length l + 1) (set_storage (lives l ++ Live a :: raws k) v)) =
    lives (l ++ [a]) ++ raws k) as Hs.
  { rewrite fmap_app, <- app_assoc. by apply (storage_set _ v Hn). }
  split; rewrite ?Hs; simpl; rewrite ?E2, ?E3, ?E4; try done.
  - by rewrite length_app.
  - by exists k.
  - rewrite <- Hcap, Hk. by rewrite fmap_app, !length_app, !length_fmap, !length_replicate; simpl; lia.
Qed.

(** The last object is destroyed. *)
Lemma destroy_last_rep v l a :
  rep v (l ++ [a]) ->
  exists v', destroy_at (length l) (set_count (length l) v) = Ok v' /\ rep v' l /\
    capacity_ v' = capacity_ v.
Proof.
  intros Hr. pose proof (rep_not_null v _ Hr) as Hn. destruct Hr as [Hc Hw [k Hk] Hcap Hb].
  assert (storage (set_count (length l) v) = lives l ++ Live a :: raws k) as Hs.
  { change (storage (set_count (length l) v)) with (storage v).
    rewrite Hk, fmap_app, <- app_assoc. done. }
  rewrite (destroy_one _ _ _ _ _ Hs) by apply length_fmap.
  set (v0 := set_count (length l) v) in *.
  destruct (set_storage_fields (lives l ++ Raw :: raws k) v0) as (E1 & E2 & E3 & E4 & _).
  assert (storage (set_storage (lives l ++ Raw :: raws k) v0) = lives l ++ raws (S k)) as Hs'
    by (by apply storage_set).
  eexists. split; [done|]. split; [|by rewrite E2].
  split; rewrite ?Hs', ?E1, ?E2, ?E3, ?E4; try done; [by exists (S k)|].
  change (capacity_ v0) with (capacity_ v). rewrite <- Hcap, Hk.
  rewrite fmap_app, !length_app, !length_fmap, !length_replicate. simpl. lia.
Qed.

Lemma read_rep v l i a : rep v l -> l !! i = Some a -> read i v = Ok a.
Proof.
  intros [_ _ [k Hk] _ _] Hi. unfold read, get_slot. rewrite Hk.
  rewrite lookup_app_l by (rewrite length_fmap; by eapply lookup_lt_Some).
  by rewrite list_lookup_fmap, Hi.
Qed.

(** ** Refinement of a list with a capacity *)
Inductive VOp :=
| OpPush (a : A) | OpPushOwn (i : nat) | OpPop | OpResize (n : Z) | OpReserve (n : Z)
| OpAt (i : nat) | OpFront | OpBack | OpSize | OpCapacity.

Inductive Answer := Elem (a : A) | Size (n : nat).

(** An operation of the vector, with what it returns; the sizes passed become
    values of [size_t]. *)
Definition vec_op (op : VOp) (v : vector) : Result (option Answer * vector) :=
  match op with
  | OpPush a => v ← push_back (Outside a) v; Ok (None, v)
  | OpPushOwn i => v ← push_own i v; Ok (None, v)
  | OpPop => v ← pop_back v; Ok (None, v)
  | OpResize n => v ← resize (size_t n) v; Ok (None, v)
  | OpReserve n => v ← reserve (size_t n) v; Ok (None, v)
  | OpAt i => a ← index i v; Ok (Some (Elem a), v)
  | OpFront => a ← front v; Ok (Some (Elem a), v)
  | OpBack => a ← back v; Ok (Some (Elem a), v)
  | OpSize => Ok (Some (Size (count_ v)), v)
  | OpCapacity => Ok (Some (Size (capacity_ v)), v)
  end.

(** The capacity after [reserve(n)] of a vector of [len] elements. *)
Definition grow (n len cap : nat) : Result nat :=
  if bool_decide (cap < n) then
    if bool_decide (bytes (new_capacity n) < 2 ^ 64)%Z then
      _ ← MARL_ASSERT (bool_decide (bytes (new_capacity n) <= memory)%Z) "Allocation failed";
      if bool_decide (len <= new_capacity n) then Ok (new_capacity n) else Undefined "size_t overflow"
    else Undefined "size_t overflow"
  else Ok cap.

(** Room for [n] elements. *)
Definition grow_for (n len cap : nat) : Result nat :=
  c ← grow n len cap; if bool_decide (n <= c) then Ok c else Undefined "size_t overflow".

(** The same on a list with a capacity; [Undefined] is where nothing is promised. *)
Definition list_op (op : VOp) (s : list A * nat) : Result (option Answer * (list A * nat)) :=
  let '(l, cap) := s in
  match op with
  | OpPush a => c ← grow_for (length l + 1) (length l) cap; Ok (None, (l ++ [a], c))
  | OpPushOwn i =>
      match l !! i with
      | Some a => if bool_decide (length l < cap) then Ok (None, (l ++ [a], cap)) else Undefined "dangling reference"
      | None => fatal "index exceeds vector size"
      end
  | OpPop => if bool_decide (length l = 0) then fatal "pop_back() called on empty vector"
             else Ok (None, (take (length l - 1) l, cap))
  | OpResize n =>
      c ← grow_for (size_t n) (length l) cap;
      Ok (None, (take (size_t n) l ++ replicate (size_t n - length l) dflt, c))
  | OpReserve n => c ← grow (size_t n) (length l) cap; Ok (None, (l, c))
  | OpAt i => match l !! i with Some a => Ok (Some (Elem a), s) | None => fatal "index exceeds vector size" end
  | OpFront => match l !! 0 with Some a => Ok (Some (Elem a), s) | None => fatal "front() called on empty vector" end
  | OpBack => match l !! (length l - 1) with Some a => Ok (Some (Elem a), s)
              | None => fatal "back() called on empty vector" end
  | OpSize => Ok (Some (Size (length l)), s)
  | OpCapacity => Ok (Some (Size cap), s)
  end.

Fixpoint run_ops {S} (f : VOp -> S -> Result (option Answer * S)) (ops : list VOp) (s : S)
  : Result (list (option Answer) * S) :=
  match ops with
  | [] => Ok ([], s)
  | op :: ops => '(r, s) ← f op s; '(rs, s) ← run_ops f ops s; Ok (r :: rs, s)
  end.

(** A result of the vector matches one of the list. *)
Definition refines {X} (rv : Result (X * vector)) (rl : Result (X * (list A * nat))) : Prop :=
  match rl with
  | Ok (x, (l, cap)) => exists v, rv = Ok (x, v) /\ rep v l /\ capacity_ v = cap
  | Fatal m => rv = Fatal m
  | Undefined _ => True
  end.

(** [reserve] against [grow]. *)
Lemma reserve_grow n v l :
  rep v l ->
  match grow n (length l) (capacity_ v) with
  | Ok c => exists v', reserve n v = Ok v' /\ rep v' l /\ capacity_ v' = c
  | Fatal m => reserve n v = Fatal m
  | Undefined _ => True
  end.
Proof.
  intros Hr. unfold grow. case_bool_decide as Hlt; [|exists v; unfold reserve; by rewrite bool_decide_eq_false_2].
  case_bool_decide as Hw; [|done].
  destruct (bool_decide (bytes (new_capacity n) <= memory)%Z) eqn:Hm; cbn [MARL_ASSERT mbind result_bind].
  - apply bool_decide_eq_true in Hm. case_bool_decide; [|done]. by apply reserve_granted.
  - rewrite (reserve_eq n v l Hr Hlt). unfold allocate. rewrite u64_small by (unfold bytes in *; lia).
    by rewrite Hm.
Qed.

(** The answers of the two agree as soon as there is an answer. *)
Lemma reserve_grow_for n v l :
  rep v l ->
  match grow_for n (length l) (capacity_ v) with
  | Ok c => exists v', reserve n v = Ok v' /\ rep v' l /\ capacity_ v' = c /\ n <= c
  | Fatal m => reserve n v = Fatal m
  | Undefined _ => True
  end.
Proof.
  intros Hr. pose proof (reserve_grow n v l Hr) as H. unfold grow_for.
  destruct (grow n (length l) (capacity_ v)) as [c|m|m]; [|done..]. cbn. case_bool_decide; [|done].
  destruct H as (v' & ? & ? & ?). eauto 10.
Qed.

(** *** push_back *)
Lemma push_size v l : rep v l -> size_t (Z.of_nat (count_ v) + 1) = length l + 1.
Proof.
  intros Hr. pose proof (rep_bound v l Hr). pose proof (rep_length v l Hr).
  rewrite (rep_count v l Hr), size_t_small by lia. lia.
Qed.

Lemma push_room v l r v1 a :
  rep v l -> reserve (length l + 1) v = Ok v1 -> rep v1 l -> length l < capacity_ v1 ->
  deref_elem r v1 = Ok a ->
  exists v', push_back r v = Ok v' /\ rep v' (l ++ [a]) /\ capacity_ v' = capacity_ v1.
Proof.
  intros Hr E Hr1 Hlt Ha. unfold push_back. rewrite (push_size v l Hr), E. cbn [mbind result_bind]. rewrite Ha. cbn [mbind result_bind].
  rewrite (rep_count v1 l Hr1). destruct (construct_rep v1 l a Hr1 Hlt) as (v2 & -> & Hc & Hcap & Hr2).
  cbn [mbind result_bind]. rewrite Hc, (push_size v1 l Hr1). eauto.
Qed.

Lemma push_back_rep a v l :
  rep v l -> room (length l + 1) v ->
  exists v', push_back (Outside a) v = Ok v' /\ rep v' (l ++ [a]) /\ capacity_ v <= capacity_ v'.
Proof.
  intros Hr Hroom. destruct (reserve_rep (length l + 1) v l Hr Hroom) as (v1 & E & Hr1 & Hc1 & Hc2 & _).
  destruct (push_room v l (Outside a) v1 a Hr) as (v' & -> & Hr' & Hc'); [done|done|lia|done|].
  exists v'. split_and!; [done|done|lia].
Qed.

(** Without room there is nowhere to construct the new element. *)
Lemma push_back_short r v l : rep v l -> ~ room (length l + 1) v -> is_ok (push_back r v) = false.
Proof.
  intros Hr Hroom. pose proof (rep_bound v l Hr). pose proof (rep_length v l Hr). unfold push_back.
  rewrite (push_size v l Hr). destruct (reserve _ v) as [v1| |] eqn:E; [|done..]. cbn [mbind result_bind].
  destruct (reserve_short (length l + 1) v l v1 Hr) as [E1 E2]; [lia|done|done|].
  destruct (deref_elem r v1) as [a| |]; [|done..]. cbn [mbind result_bind].
  unfold construct_at, construct_in. rewrite E1, lookup_ge_None_2 by lia. done.
Qed.

Lemma push_back_ok a v l : rep v l -> is_ok (push_back (Outside a) v) = true <-> room (length l + 1) v.
Proof.
  intros Hr. split; intros H.
  - destruct (decide (room (length l + 1) v)) as [|Hn]; [done|]. by rewrite (push_back_short _ v l Hr Hn) in H.
  - by destruct (push_back_rep a v l Hr H) as (v' & -> & _).
Qed.

(** A reference to an element of the vector itself: it outlives [reserve] only if that
    does nothing. *)
Lemma index_ref_rep i v l a : rep v l -> l !! i = Some a -> exists r, index_ref i v = Ok r /\ deref_elem r v = Ok a.
Proof.
  intros Hr Hi. pose proof (read_rep v l i a Hr Hi) as Hread. unfold read, storage in Hread. unfold index_ref.
  rewrite (rep_count v l Hr), bool_decide_eq_true_2 by (by eapply lookup_lt_Some). cbn.
  destruct Hr as [_ Hw _ _ _]. destruct (allocation_ v) eqn:Ha; rewrite Hw in *; eexists; (split; [done|]); cbn; [|done].
  by rewrite Ha, bool_decide_eq_true_2.
Qed.

Lemma push_own_rep i v l a :
  rep v l -> l !! i = Some a -> length l < capacity_ v ->
  exists v', push_own i v = Ok v' /\ rep v' (l ++ [a]) /\ capacity_ v' = capacity_ v.
Proof.
  intros Hr Hi Hlt. unfold push_own. destruct (index_ref_rep i v l a Hr Hi) as (r & -> & Hd). cbn.
  eapply push_room; try done. unfold reserve. by rewrite bool_decide_eq_false_2 by lia.
Qed.

Lemma push_own_dangles i v l : rep v l -> i < length l -> length l = capacity_ v -> is_ok (push_own i v) = false.
Proof.
  intros Hr Hi Hfull. destruct (decide (room (length l + 1) v)) as [Hroom|Hroom].
  2: { unfold push_own. destruct (index_ref i v) as [r| |]; [|done..]. cbn. by apply (push_back_short r v l). }
  assert (capacity_ v < length l + 1) as Hlt by lia. pose proof (push_size v l Hr) as Es. rewrite (rep_count v l Hr) in Es.
  unfold push_own, index_ref.
  rewrite (rep_count v l Hr), bool_decide_eq_true_2 by done. cbn [MARL_ASSERT mbind result_bind].
  rewrite (rep_where v l Hr). destruct (allocation_ v) eqn:Ha; cbn [mbind result_bind]; unfold push_back;
    rewrite (rep_count v l Hr), Es, (reserve_eq _ v l Hr Hlt), Ha; destruct (allocate _) as [g| |]; cbn [mbind result_bind]; try done;
    case_bool_decide; try done; cbn [mbind result_bind deref_elem allocation_ blocks_ buffer_].
  - by rewrite bool_decide_eq_false_2 by lia.
  - unfold get_slot. rewrite lookup_replicate_2 by lia. done.
Qed.

Lemma push_own_ok i v l : rep v l -> i < length l -> is_ok (push_own i v) = true <-> length l < capacity_ v.
Proof.
  intros Hr Hi. pose proof (rep_length v l Hr). split; intros H'.
  - destruct (decide (length l < capacity_ v)); [done|]. rewrite (push_own_dangles i v l Hr Hi) in H' by lia. done.
  - destruct (lookup_lt_is_Some_2 l i Hi) as [a Ha]. by destruct (push_own_rep i v l a Hr Ha H') as (v' & -> & _).
Qed.

(** *** The other operations *)
Lemma snoc_inv (l : list A) : l <> [] -> exists l' a, l = l' ++ [a].
Proof. destruct l as [|x l] using rev_ind; [done|]. eauto. Qed.

Lemma pop_back_rep v l a :
  rep v (l ++ [a]) -> exists v', pop_back v = Ok v' /\ rep v' l /\ capacity_ v' = capacity_ v.
Proof.
  intros Hr. unfold pop_back. pose proof (rep_count _ _ Hr) as Hc. rewrite length_app in Hc. simpl in Hc.
  rewrite bool_decide_eq_true_2 by lia. cbn [mbind result_bind MARL_ASSERT].
  replace (count_ v - 1) with (length l) by lia.
  destruct (destroy_last_rep v l a Hr) as (v' & H & Hr' & Hc'). exists v'. split; [|done].
  exact H.
Qed.

Lemma grow_rep k v l :
  rep v l -> length l + k <= capacity_ v ->
  exists v', grow_to k v = Ok v' /\ rep v' (l ++ replicate k dflt) /\ capacity_ v' = capacity_ v.
Proof.
  revert v l. induction k as [|k IH]; intros v l Hr Hcap; simpl.
  { exists v. by rewrite app_nil_r. }
  rewrite (rep_count v l Hr).
  destruct (construct_rep v l dflt Hr) as (v1 & -> & Hc & Hcap1 & Hr1); [lia|]. simpl.
  rewrite Hc, (rep_count v l Hr).
  destruct (IH _ _ Hr1) as (v2 & -> & Hr2 & Hc2).
  { rewrite length_app. simpl. rewrite Hcap1. lia. }
  exists v2. split; [done|]. rewrite <- app_assoc in Hr2. split; [done|]. by rewrite Hc2.
Qed.

Lemma grow_to_short k v : is_ok (grow_to k v) = true -> 0 < k -> count_ v + k <= length (storage v).
Proof.
  revert v. induction k as [|k IH]; intros v; [lia|]. simpl. unfold construct_at, construct_in.
  destruct (storage v !! count_ v) eqn:Hs; [|done]. cbn [mbind result_bind]. apply lookup_lt_Some in Hs.
  intros H _. destruct k as [|k]; [lia|]. apply IH in H; [|lia]. revert H.
  destruct (set_storage_fields (<[count_ v := Live dflt]> (storage v)) v) as (E1 & _ & E3 & _). cbn [count_ set_count].
  rewrite E1. change (storage (set_count _ ?x)) with (storage x).
  assert (elements_ v <> Null) as En by (intros En; unfold storage in Hs; rewrite En in Hs; simpl in Hs; lia).
  rewrite storage_set by done. rewrite length_insert. lia.
Qed.

Lemma shrink_rep k v l :
  rep v l -> k <= length l ->
  exists v', shrink_to k v = Ok v' /\ rep v' (take (length l - k) l) /\ capacity_ v' = capacity_ v.
Proof.
  revert v l. induction k as [|k IH]; intros v l Hr Hk; simpl.
  { exists v. by rewrite Nat.sub_0_r, firstn_all. }
  destruct (snoc_inv l) as (l' & a & ->); [by intros ->; simpl in Hk; lia|].
  rewrite length_app in *. simpl in *.
  rewrite (rep_count v _ Hr), length_app. simpl. replace (length l' + 1 - 1) with (length l') by lia.
  destruct (destroy_last_rep v l' a Hr) as (v1 & -> & Hr1 & Hc1). simpl.
  destruct (IH v1 l' Hr1) as (v2 & -> & Hr2 & Hc2); [lia|]. exists v2. split; [done|].
  replace (length l' + 1 - S k) with (length l' - k) by lia. rewrite take_app_le by lia. split; [done|]. by rewrite Hc2.
Qed.

Lemma resize_reserved n v v1 l :
  reserve n v = Ok v1 -> rep v1 l -> n <= capacity_ v1 ->
  exists v', resize n v = Ok v' /\ rep v' (take n l ++ replicate (n - length l) dflt) /\ capacity_ v' = capacity_ v1.
Proof.
  intros E Hr1 Hcap. unfold resize. rewrite E. cbn [mbind result_bind]. rewrite (rep_count v1 l Hr1).
  pose proof (rep_length v1 l Hr1) as Hle.
  destruct (grow_rep (n - length l) v1 l Hr1) as (v2 & -> & Hr2 & Hc2); [lia|]. simpl.
  rewrite (rep_count v2 _ Hr2), length_app, length_replicate.
  destruct (shrink_rep (length l + (n - length l) - n) v2 _ Hr2) as (v3 & -> & Hr3 & Hc3).
  { rewrite length_app, length_replicate. lia. }
  exists v3. split; [done|]. split; [|by rewrite Hc3]. rewrite length_app, length_replicate in Hr3.
  destruct (decide (n <= length l)).
  - replace (n - length l) with 0 in * by lia. simpl in *. rewrite !app_nil_r in *.
    by replace (length l + 0 - (length l + 0 - n)) with n in Hr3 by lia.
  - rewrite (take_ge l n) by lia. rewrite take_ge in Hr3; [done|].
    rewrite length_app, length_replicate. lia.
Qed.

Lemma resize_rep n v l :
  rep v l -> room n v ->
  exists v', resize n v = Ok v' /\ rep v' (take n l ++ replicate (n - length l) dflt).
Proof.
  intros Hr Hroom. destruct (reserve_rep n v l Hr Hroom) as (v1 & E & Hr1 & Hcap & _).
  destruct (resize_reserved n v v1 l E Hr1 Hcap) as (v' & ? & ? & _). eauto.
Qed.

Lemma resize_ok n v l :
  rep v l -> (Z.of_nat n < 2 ^ 64)%Z -> is_ok (resize n v) = true <-> room n v.
Proof.
  intros Hr Hn. split; intros H.
  - destruct (decide (room n v)) as [|Hroom]; [done|]. unfold resize in H.
    destruct (reserve n v) as [v1| |] eqn:E; [|done..]. cbn [mbind result_bind] in H.
    destruct (reserve_short n v l v1 Hr Hn Hroom E) as [E1 E2].
    assert (length l < n) as Hlt.
    { apply Nat.nle_gt. intros Hle. destruct Hroom. left. pose proof (rep_length v l Hr). lia. }
    assert (is_ok (grow_to (n - count_ v1) v1) = true) as Hg by (by destruct (grow_to _ v1)).
    apply grow_to_short in Hg; lia.
  - by destruct (resize_rep n v l Hr H) as (v' & -> & _).
Qed.

Lemma vec_op_refines op v l : rep v l -> refines (vec_op op v) (list_op op (l, capacity_ v)).
Proof.
  intros Hr. pose proof (rep_count v l Hr) as Hc. destruct op as [a|i| |n|n|i| | | |]; cbn [vec_op list_op].
  - pose proof (reserve_grow_for (length l + 1) v l Hr) as H.
    destruct (grow_for _ _ _) as [c|m|m]; cbn [mbind result_bind refines]; [| |done].
    + destruct H as (v1 & E & Hr1 & <- & Hle).
      destruct (push_room v l (Outside a) v1 a Hr) as (v' & -> & Hr' & Hc'); [done|done|lia|done|]. cbn. eauto.
    + unfold push_back. by rewrite (push_size v l Hr), H.
  - unfold push_own. destruct (l !! i) as [a|] eqn:Hi.
    + case_bool_decide as Hlt; [|done]. destruct (push_own_rep i v l a Hr Hi Hlt) as (v' & E & Hr' & Hc').
      unfold push_own in E. cbn [refines]. rewrite E. cbn. eauto.
    + apply lookup_ge_None in Hi. unfold index_ref. rewrite Hc, bool_decide_eq_false_2 by lia. done.
  - case_bool_decide as Hl; cbn [refines].
    + unfold pop_back. by rewrite Hc, Hl.
    + destruct (snoc_inv l) as (l' & a & ->); [by intros ->|].
      destruct (pop_back_rep v l' a Hr) as (v' & -> & ? & ?). exists v'. split; [done|].
      rewrite length_app. simpl. replace (length l' + 1 - 1) with (length l') by lia.
      by rewrite take_app_length.
  - pose proof (reserve_grow_for (size_t n) v l Hr) as H. destruct (grow_for _ _ _) as [c|m|m]; [|by unfold resize; rewrite H|done].
    destruct H as (v1 & E & Hr1 & <- & Hle). destruct (resize_reserved _ _ _ _ E Hr1 Hle) as (v' & -> & ? & ?).
    cbn. eauto.
  - pose proof (reserve_grow (size_t n) v l Hr) as H. destruct (grow _ _ _) as [c|m|m]; [|by rewrite H|done].
    destruct H as (v' & -> & ? & ?). cbn. eauto.
  - unfold index. rewrite Hc. destruct (l !! i) as [a|] eqn:Hi.
    + rewrite bool_decide_eq_true_2 by (by eapply lookup_lt_Some). cbn [MARL_ASSERT mbind result_bind].
      rewrite (read_rep v l i a) by done. cbn. eauto.
    + apply lookup_ge_None in Hi. by rewrite bool_decide_eq_false_2 by lia.
  - unfold front. rewrite Hc. destruct (l !! 0) as [a|] eqn:Hi.
    + rewrite bool_decide_eq_true_2 by (by eapply lookup_lt_Some). cbn [MARL_ASSERT mbind result_bind].
      rewrite (read_rep v l 0 a) by done. cbn. eauto.
    + apply lookup_ge_None in Hi. by rewrite bool_decide_eq_false_2 by lia.
  - unfold back. rewrite Hc. destruct (l !! (length l - 1)) as [a|] eqn:Hi.
    + rewrite bool_decide_eq_true_2 by (apply lookup_lt_Some in Hi; lia). cbn [MARL_ASSERT mbind result_bind].
      rewrite (read_rep v l _ a) by done. cbn. eauto.
    + apply lookup_ge_None in Hi. by rewrite bool_decide_eq_false_2 by lia.
  - cbn. rewrite Hc. eauto.
  - cbn. eauto.
Qed.

Lemma run_ops_refines ops v l :
  rep v l -> refines (run_ops vec_op ops v) (run_ops list_op ops (l, capacity_ v)).
Proof.
  revert v l. induction ops as [|op ops IH]; intros v l Hr; cbn [run_ops]; [cbn; eauto|].
  pose proof (vec_op_refines op v l Hr) as H.
  destruct (list_op op (l, capacity_ v)) as [[x [l1 c1]]| |]; cbn [refines mbind result_bind] in *; [|by rewrite H|done].
  destruct H as (v1 & -> & Hr1 & <-). cbn [mbind result_bind]. specialize (IH v1 l1 Hr1).
  destruct (run_ops list_op ops (l1, capacity_ v1)) as [[xs [l2 c2]]| |]; cbn [refines mbind result_bind] in *; [|by rewrite IH|done].
  destruct IH as (v2 & -> & Hr2 & ?). cbn. eauto.
Qed.

Lemma index_rep v l i a : rep v l -> l !! i = Some a -> index i v = Ok a.
Proof.
  intros Hr Hi. unfold index. rewrite bool_decide_eq_true_2.
  - cbn. by eapply read_rep.
  - rewrite (rep_count v l Hr). by eapply lookup_lt_Some.
Qed.

(** ** Assignment *)

(** Constructing the elements of a list, from slot [i] on. *)
Fixpoint copy_list (i : nat) (l : list A) (v : vector) : Result vector :=
  match l with
  | [] => Ok v
  | a :: l => v ← construct_at i a v; copy_list (S i) l v
  end.

Lemma copy_from_list i l o v :
  (forall k a, l !! k = Some a -> index (i + k) o = Ok a) ->
  copy_from i (length l) (Another o) v = copy_list i l v.
Proof.
  revert i v. induction l as [|a l IH]; intros i v H; [done|]. cbn [length copy_from copy_list the_other].
  rewrite <- (Nat.add_0_r i) at 1. rewrite (H 0 a eq_refl). cbn [mbind result_bind].
  destruct (construct_at i a v) as [v1| |]; [|done..]. cbn [mbind result_bind].
  apply IH. intros k b Hk. rewrite Nat.add_succ_comm. by apply H.
Qed.

Lemma copy_from_rep o l v : rep o l -> copy_from 0 (length l) (Another o) v = copy_list 0 l v.
Proof. intros Hr. apply copy_from_list. intros k a Hk. by apply (index_rep o l). Qed.

Lemma copy_list_rep other v l :
  rep v l -> length l + length other <= capacity_ v ->
  exists v', copy_list (length l) other (set_count (length l + length other) v) = Ok v' /\
    rep v' (l ++ other).
Proof.
  revert v l. induction other as [|a other IH]; intros v l Hr Hcap; cbn [copy_list length] in *.
  { rewrite Nat.add_0_r, app_nil_r. exists (set_count (length l) v). split; [done|].
    rewrite <- (rep_count v l Hr). by destruct v. }
  destruct (construct_rep v l a Hr) as (v1 & H1 & Hc & Hcap1 & Hr1); [lia|].
  assert (construct_at (length l) a (set_count (length l + S (length other)) v) =
    Ok (set_count (length l + S (length other)) v1)) as ->.
  { unfold construct_at in *. change (storage (set_count _ v)) with (storage v).
    destruct (construct_in _ _ _); [|done..]. injection H1 as <-. cbn.
    f_equal. unfold set_storage, set_count. by destruct v as [? ? ? []]. }
  cbn [mbind result_bind]. specialize (IH (set_count (length l + 1) v1) (l ++ [a]) Hr1).
  rewrite length_app in IH. simpl in IH. rewrite <- app_assoc in IH.
  destruct IH as (v2 & H2 & Hr2); [lia|]. exists v2. split; [|done].
  rewrite <- H2. rewrite Nat.add_1_r. simpl.
  replace (length l + S (length other)) with (S (length l + length other)) by lia. done.
Qed.

Lemma copy_list_short i l v : is_ok (copy_list i l v) = true -> l <> [] -> i + length l <= length (storage v).
Proof.
  revert i v. induction l as [|a l IH]; intros i v; [done|]. cbn [copy_list]. unfold construct_at, construct_in.
  destruct (storage v !! i) eqn:Hs; [|done]. cbn [mbind result_bind]. apply lookup_lt_Some in Hs.
  intros H _. cbn [length]. destruct l as [|b l]; [cbn; lia|]. apply IH in H; [|done]. revert H.
  assert (elements_ v <> Null) as En by (intros En; unfold storage in Hs; rewrite En in Hs; simpl in Hs; lia).
  rewrite storage_set by done. rewrite length_insert. lia.
Qed.

Lemma inline_empty_rep v :
  count_ v = 0 -> elements_ v = Inline -> allocation_ v = false -> (Z.of_nat (capacity_ v) + 1 < 2 ^ 64)%Z ->
  storage v = raws (capacity_ v) -> rep v [].
Proof.
  intros Hc He Ha Hb Hs. split; [done|by rewrite He, Ha|by exists (capacity_ v)| |done].
  rewrite Hs. apply length_replicate.
Qed.

(** [free()] keeps the elements that are in the object itself raw, and leaves
    [elements_] null otherwise; [count_] stays as it was. *)
Lemma free_inline v l :
  rep v l -> allocation_ v = false ->
  exists v1, free v = Ok v1 /\ count_ v1 = length l /\ capacity_ v1 = capacity_ v /\ allocation_ v1 = false /\
    storage v1 = raws (capacity_ v) /\ rep (set_count 0 v1) [].
Proof.
  intros Hr Ha. pose proof (rep_not_null v l Hr) as Hn. rewrite (free_rep v l Hr), Ha.
  destruct (set_storage_fields (raws (capacity_ v)) v) as (E1 & E2 & E3 & E4 & _).
  eexists. split; [done|]. rewrite E1, E2, E4, storage_set by done.
  split_and!; try done; [apply Hr|]. apply inline_empty_rep; cbn; rewrite ?E2, ?E3, ?E4; try done.
  - by rewrite (rep_where v l Hr), Ha.
  - apply Hr.
  - change (storage (set_count 0 ?x)) with (storage x). by apply storage_set.
Qed.

(** [reserve] of a vector without elements. *)
Lemma reserve_empty n v :
  count_ v = 0 -> allocation_ v = false -> capacity_ v < n ->
  reserve n v =
    (grown ← allocate (u64 (bytes (new_capacity n)));
     Ok (mkVector 0 (new_capacity n) (buffer_ v) Heap grown true (S (blocks_ v)))).
Proof.
  intros Hc Ha Hlt. unfold reserve. rewrite bool_decide_eq_true_2 by done.
  destruct v as [c cap buf el h al b]. cbn in *. subst c al. unfold set_capacity. cbn.
  by destruct (allocate _).
Qed.

(** [operator=] works when the elements fit and [free()] leaves room for them, or when
    there is no element for [reserve] to move. *)
Definition assignable (n : nat) (l : list A) (v : vector) : Prop :=
  if bool_decide (n <= capacity_ v) then allocation_ v = false else l = [] /\ granted (Nat.max (2 * n) 8).

Lemma set_count_rep v l : rep v l -> set_count (length l) v = v.
Proof. intros Hr. rewrite <- (rep_count v l Hr). by destruct v. Qed.

Lemma free_empty v :
  rep v [] -> exists v1, free v = Ok v1 /\ count_ v1 = 0 /\ allocation_ v1 = false /\ capacity_ v1 = capacity_ v /\
    (allocation_ v = false -> storage v1 = storage v).
Proof.
  intros Hr. destruct (allocation_ v) eqn:Ha.
  - rewrite (free_rep v [] Hr), Ha. by eexists.
  - destruct (free_inline v [] Hr Ha) as (v1 & -> & ? & ? & ? & Hs & _). exists v1. split_and!; try done. intros _.
    destruct Hr as [_ _ [k Hk] Hcap _]. rewrite Hs, <- Hcap, Hk. cbn. by rewrite length_replicate.
Qed.

Lemma assign_rep o other v l :
  rep v l -> rep o other -> assignable (length other) l v ->
  exists v', assign (Another o) v = Ok v' /\ rep v' other.
Proof.
  intros Hr Ho. unfold assignable, assign. cbn [the_other]. rewrite (rep_count o other Ho). case_bool_decide as Hle.
  - intros Ha. destruct (free_inline v l Hr Ha) as (v1 & -> & C1 & C2 & C3 & C4 & Hr0). cbn [mbind result_bind].
    unfold reserve. rewrite C2, bool_decide_eq_false_2 by lia. cbn [mbind result_bind]. rewrite (copy_from_rep o other _ Ho).
    destruct (copy_list_rep other (set_count 0 v1) [] Hr0) as (v2 & H2 & Hr2); [cbn; lia|].
    exists v2. split; [|done]. by rewrite <- H2.
  - intros [-> Hg]. destruct (free_empty v Hr) as (v1 & -> & C1 & C2 & C3 & _). cbn [mbind result_bind].
    rewrite (reserve_empty _ v1 C1 C2) by lia. rewrite (granted_new_capacity _ Hg), (allocate_granted _ Hg).
    cbn [mbind result_bind]. rewrite (copy_from_rep o other _ Ho). set (c := Nat.max _ _). set (v2 := mkVector _ _ _ _ _ _ _).
    assert (rep v2 []) as Hr2.
    { pose proof (grown_rep [] c (buffer_ v1) (S (blocks_ v1)) 0) as H.
      change (lives [] ++ ?x) with x in H. cbn [length] in H. rewrite Nat.sub_0_r in H.
      apply H; [lia| |done]. unfold c. rewrite <- (granted_new_capacity _ Hg). apply new_capacity_bound. }
    destruct (copy_list_rep other v2 [] Hr2) as (v3 & H3 & Hr3); [cbn; unfold c; lia|]. exists v3. split; [|done]. by rewrite <- H3.
Qed.

(** [reserve] moves elements that [free()] has destroyed. *)
Lemma reserve_destroyed n v :
  0 < count_ v -> (storage v = [] \/ exists k, storage v = raws k) -> capacity_ v < n -> is_ok (reserve n v) = false.
Proof.
  intros Hc Hs Hlt. unfold reserve. rewrite bool_decide_eq_true_2 by done. destruct (allocate _) as [g| |]; [|done..].
  cbn [mbind result_bind]. change (count_ (set_capacity _ v)) with (count_ v). destruct (count_ v) as [|c]; [lia|].
  cbn [move_out]. unfold read. change (storage (set_capacity _ v)) with (storage v).
  destruct Hs as [->|[[|k] ->]]; done.
Qed.

Lemma assign_bad o other v l :
  rep v l -> rep o other -> other <> [] -> ~ assignable (length other) l v -> is_ok (assign (Another o) v) = false.
Proof.
  intros Hr Ho Hne. unfold assignable, assign. cbn [the_other]. rewrite (rep_count o other Ho). case_bool_decide as Hle.
  - intros Ha. assert (allocation_ v = true) as E by (by destruct (allocation_ v)). rewrite (free_rep v l Hr), E.
    cbn [mbind result_bind]. unfold reserve. cbn [capacity_]. rewrite bool_decide_eq_false_2 by lia. cbn [mbind result_bind].
    rewrite (copy_from_rep o other _ Ho). by destruct other.
  - intros Hbad. assert (0 < length other) as Hpos by (destruct other; [done|cbn; lia]).
    destruct l as [|a l].
    + destruct (free_empty v Hr) as (v1 & -> & C1 & C2 & C3 & _). cbn [mbind result_bind].
      rewrite (reserve_empty _ v1 C1 C2) by lia. destruct (allocate _) as [g| |] eqn:E; [|done..]. cbn [mbind result_bind].
      rewrite (copy_from_rep o other _ Ho). apply not_true_is_false. intros H%copy_list_short; [|done].
      unfold storage in H. cbn in H. pose proof (rep_bound o other Ho). pose proof (rep_length o other Ho).
      assert (length g < length other); [|lia]. apply (wrapped_request (length other)); [lia|lia| |done].
      intros Hg. by apply Hbad.
    + assert (exists v1, free v = Ok v1 /\ 0 < count_ v1 /\ capacity_ v1 = capacity_ v /\
        (storage v1 = [] \/ exists k, storage v1 = raws k)) as (v1 & -> & C1 & C2 & C3).
      { destruct (allocation_ v) eqn:Ha.
        - rewrite (free_rep v _ Hr), Ha. eexists. split; [done|]. cbn. split_and!; [lia|done|by left].
        - destruct (free_inline v _ Hr Ha) as (v1 & -> & D1 & D2 & _ & D4 & _). exists v1. rewrite D1. cbn. eauto 10 with lia. }
      cbn [mbind result_bind]. pose proof (reserve_destroyed (length other) v1 C1 C3 ltac:(lia)) as H.
      by destruct (reserve (length other) v1).
Qed.

(** Assignment of a vector to itself: [free()] destroys what is to be copied. *)
Lemma self_assign_bad v l :
  rep v l -> l <> [] -> is_ok (assign This v) = false /\ is_ok (move_assign This v) = false.
Proof.
  intros Hr Hne. pose proof (rep_length v l Hr) as Hle. destruct l as [|a l]; [done|].
  assert (exists v1, free v = Ok v1 /\ count_ v1 = S (length l) /\ capacity_ v1 = capacity_ v /\
    (storage v1 = [] \/ exists k, storage v1 = raws k)) as (v1 & E & C1 & C2 & C3).
  { destruct (allocation_ v) eqn:Ha.
    - rewrite (free_rep v _ Hr), Ha. eexists. split; [done|]. cbn. split_and!; [done|done|by left].
    - destruct (free_inline v _ Hr Ha) as (v1 & -> & D1 & D2 & _ & D4 & _). exists v1. rewrite D1. cbn. eauto 10. }
  assert (forall w, storage w = storage v1 -> is_ok (index 0 w) = false) as Hidx.
  { intros w Ew. unfold index, read. destruct (MARL_ASSERT _ _); [|done..]. cbn [mbind result_bind]. rewrite Ew.
    by destruct C3 as [->|[[|k] ->]]. }
  unfold assign, move_assign. rewrite E. cbn [mbind result_bind the_other]. rewrite C1.
  unfold reserve. rewrite C2, bool_decide_eq_false_2 by (cbn in Hle; lia). cbn [mbind result_bind copy_from move_from the_other].
  specialize (Hidx (set_count (S (length l)) v1) eq_refl). by destruct (index 0 _).
Qed.

(** Assignment of an empty vector to one on the heap: it is left with a capacity and
    nowhere to put elements. *)
Lemma assign_empty o v l a :
  rep v l -> rep o [] -> exists v', assign (Another o) v = Ok v' /\ count_ v' = 0 /\ capacity_ v' = capacity_ v /\
    if allocation_ v then elements_ v' = Null /\ (0 < capacity_ v -> is_ok (push_back (Outside a) v') = false) else rep v' [].
Proof.
  intros Hr Ho. destruct (allocation_ v) eqn:Ha.
  - unfold assign. rewrite (free_rep v l Hr), Ha. cbn [mbind result_bind the_other]. rewrite (rep_count o [] Ho). cbn.
    eexists. split; [done|]. split_and!; try done. intros Hc. unfold push_back. cbn [count_ set_count].
    change (size_t (Z.of_nat 0 + 1)) with 1. unfold reserve. cbn [capacity_ set_count].
    by rewrite bool_decide_eq_false_2 by lia.
  - destruct (assign_rep o [] v l Hr Ho) as (v' & E & Hr').
    { unfold assignable. cbn. by rewrite bool_decide_eq_true_2 by lia. }
    exists v'. split_and!; try done; [by rewrite (rep_count v' [] Hr')|].
    revert E. unfold assign. destruct (free_inline v l Hr Ha) as (v1 & -> & _ & C2 & _). cbn [mbind result_bind the_other].
    rewrite (rep_count o [] Ho). cbn. intros [= <-]. done.
Qed.

(** ** Moves *)

(** Moving elements over is copying them, and leaves moved-from ones behind. *)
Lemma move_from_copy d l k o v :
  elements_ o <> Null -> count_ o = length d + length l ->
  storage o = lives (d ++ l) ++ raws k ->
  move_from (length d) (length l) (Another o) v =
    (v' ← copy_list (length d) l v;
     Ok (Another (set_storage (lives (d ++ (moved <$> l)) ++ raws k) o), v')).
Proof.
  revert d o v. induction l as [|a l IH]; intros d o v Hn Hc Hs; cbn [length move_from copy_list the_other].
  - cbn [mbind result_bind fmap]. change (moved <$> []) with (@nil A). rewrite !app_nil_r in *. by rewrite <- Hs, set_storage_same.
  - unfold index. rewrite Hc. rewrite bool_decide_eq_true_2 by (simpl; lia). cbn [MARL_ASSERT mbind result_bind].
    assert (storage o = lives d ++ Live a :: (lives l ++ raws k)) as Hs'.
    { rewrite Hs, fmap_app, <- app_assoc. done. }
    unfold read, get_slot. rewrite Hs', lookup_middle by apply length_fmap. cbn [mbind result_bind].
    destruct (construct_at (length d) a v) as [v1| |]; [|done|done]. cbn [mbind result_bind in_other].
    rewrite Hs', (insert_middle (lives d)) by apply length_fmap.
    set (o' := set_storage _ o).
    destruct (set_storage_fields (lives d ++ Live (moved a) :: (lives l ++ raws k)) o) as (F1 & F2 & F3 & F4 & _).
    fold o' in F1, F2, F3, F4.
    specialize (IH (d ++ [moved a]) o' v1). rewrite length_app in IH. simpl in IH. rewrite Nat.add_1_r in IH.
    rewrite IH; [|by rewrite F3|rewrite F1, Hc; simpl; lia|].
    + unfold o'. rewrite set_storage_set, <- !app_assoc. done.
    + unfold o'. rewrite storage_set by done. by rewrite !fmap_app, <- !app_assoc.
Qed.

Lemma moved_rep o l k :
  rep o l -> storage o = lives l ++ raws k ->
  rep (set_storage (lives (moved <$> l) ++ raws k) o) (moved <$> l).
Proof.
  intros Hr Hs. pose proof (rep_not_null o l Hr) as Hn. destruct Hr as [Hc Hw _ Hcap Hb].
  destruct (set_storage_fields (lives (moved <$> l) ++ raws k) o) as (F1 & F2 & F3 & F4 & _).
  split; rewrite ?F1, ?F2, ?F3, ?F4, ?storage_set by done; [by rewrite length_fmap|done|by exists k| |done].
  rewrite <- Hcap, Hs, !length_app, !length_fmap. done.
Qed.

(** What the moving assignment does, in terms of the copying one. *)
Lemma move_assign_eq o l v :
  rep o l ->
  exists o', rep o' [] /\ move_assign (Another o) v = (v' ← assign (Another o) v; Ok (Another o', v')).
Proof.
  intros Hr. pose proof (rep_not_null o l Hr) as Hn. pose proof (rep_count o l Hr) as Hc.
  destruct (rep_slots o l Hr) as [k Hk].
  destruct (resize_rep 0 _ _ (moved_rep o l k Hr Hk)) as (o' & Ho & Hro); [left; lia|].
  rewrite Nat.sub_0_l, app_nil_r in Hro. exists o'. split; [done|].
  unfold move_assign, assign. cbn [the_other]. rewrite Hc.
  destruct (free v) as [v1| |]; [|done|done]. cbn [mbind result_bind].
  destruct (reserve (length l) v1) as [v2| |]; [|done|done]. cbn [mbind result_bind].
  rewrite (copy_from_rep o l _ Hr). pose proof (move_from_copy [] l k o (set_count (length l) v2) Hn Hc Hk) as E.
  cbn [length app] in E. rewrite E. destruct (copy_list 0 l _) as [v3| |]; [|done|done]. cbn [mbind result_bind].
  by rewrite Ho.
Qed.

Lemma iterate_rep v l : rep v l -> begin_end v = Ok l.
Proof.
  intros Hr. unfold begin_end. rewrite (rep_count v l Hr).
  assert (forall d r, l = d ++ r -> iterate (length d) (length r) v = Ok r) as H; [|by apply (H [] l)].
  intros d r. revert d. induction r as [|a r IH]; intros d E; simpl; [done|].
  rewrite (read_rep v l (length d) a) by (done || (rewrite E; by apply lookup_middle)). cbn [mbind result_bind].
  specialize (IH (d ++ [a])). rewrite length_app, Nat.add_1_r in IH. rewrite IH; [done|]. by rewrite <- app_assoc.
Qed.

Lemma vector_dtor_rep v l : rep v l -> vector_dtor v = Ok ().
Proof. intros Hr. unfold vector_dtor. by rewrite (free_rep v l Hr). Qed.

Lemma new_assignable n : assignable n [] vector_new <-> room n vector_new.
Proof.
  unfold assignable, room. cbn. case_bool_decide; split; [by left|done|by right; destruct_and?|].
  intros [?|?]; [lia|done].
Qed.

(** The copying constructor. *)
Lemma copy_construct_rep o other :
  (Z.of_nat BASE_CAPACITY < 2 ^ 31)%Z -> rep o other -> room (length other) vector_new ->
  exists v, copy_construct o = Ok v /\ rep v other.
Proof.
  intros Hb Ho Hroom. apply (assign_rep o other _ []); [by apply new_rep|done|by apply new_assignable].
Qed.
End vector.
Arguments vector : clear implicits.
Arguments VOp : clear implicits.
Arguments Answer : clear implicits.

(** ** Properties *)


(** Two integers in the object itself, which is full. *)
#[local] Instance sample_element : Element nat := mkElement nat 0 id 4 (conj eq_refl eq_refl).
Definition full_vector : vector nat := mkVector 2 2 [Live 1; Live 2] Inline [] false 0.

Lemma full_vector_rep : rep full_vector [1; 2].
Proof. split; try reflexivity. by exists 0. Qed.



(** The assignment of the tests [Copy] and [Move]: three elements to a vector with
    room for two that holds one. *)
Definition three : vector nat := mkVector 3 4 [Live 7; Live 8; Live 9; Raw] Inline [] false 0.
Definition one_of_two : vector nat := mkVector 1 2 [Live 5; Raw] Inline [] false 0.

