(* ===== verification/IntrusiveList.v ===== *)
(** [marl::containers::list<T>] (src/include/marl/containers.hpp): a doubly
    linked list that keeps its unused entries in a second, free list and never
    gives memory back before its destruction.

    Entries live in a memory [gmap] from addresses to entries and are linked
    through their pointers, as in the source, and so are the blocks they were
    allocated in; the lists they form are described
    by [seg].  The list is shown to refine a list of (address, element) pairs,
    so that an iterator stays valid until its own element is erased. *)
From stdpp Require Import base numbers strings gmap list.
From S2P Require Import Prelude.

Abbreviation Ptr := Z (only parsing).

Section list.
Context {A : Type}.

(** [Entry]; an entry of the free list holds no object. *)
Record Entry := mkEntry { data : option A; next : option Ptr; prev : option Ptr }.

Abbreviation Mem := (gmap Ptr Entry).

(** [AllocationChain], which lies behind the entries of its block: where the block
    starts and how many entries it has. *)
Record AllocationChain := mkChain { allocation : Ptr * nat; chain_next : option Ptr }.

Record List := mkList {
  mem : Mem;
  chains : gmap Ptr AllocationChain;
  size_ : Z;                           (* size_t *)
  capacity_ : nat;
  allocations_ : option Ptr;           (* the newest block *)
  free : option Ptr;
  head : option Ptr
}.

Definition list_new : List := mkList ∅ ∅ 0 0 None None None.

Definition set_next (n : option Ptr) (e : Entry) : Entry := mkEntry (data e) n (prev e).
Definition set_prev (p : option Ptr) (e : Entry) : Entry := mkEntry (data e) (next e) p.
Definition set_data (d : option A) (e : Entry) : Entry := mkEntry d (next e) (prev e).

(** [*p = f( *p)] through a pointer. *)
Definition write (p : Ptr) (f : Entry -> Entry) (m : Mem) : Result Mem :=
  e ← deref (m !! p) "entry dereferenced"; Ok (<[p := f e]> m).

Definition write_opt (p : option Ptr) (f : Entry -> Entry) (m : Mem) : Result Mem :=
  match p with Some p => write p f m | None => Ok m end.

(** [unlink(entry, _list)] and [link(entry, _list)], with the new value of the
    reference [_list]. *)
Definition unlink (entry : Ptr) (l : option Ptr) (m : Mem) : Result (option Ptr * Mem) :=
  e ← deref (m !! entry) "entry dereferenced";
  let l := if bool_decide (l = Some entry) then next e else l in
  m ← write_opt (prev e) (set_next (next e)) m;
  m ← write_opt (next e) (set_prev (prev e)) m;
  m ← write entry (fun e => set_next None (set_prev None e)) m;
  Ok (l, m).

Definition link (entry : Ptr) (l : option Ptr) (m : Mem) : Result (option Ptr * Mem) :=
  e ← deref (m !! entry) "entry dereferenced";
  _ ← MARL_ASSERT (bool_decide (next e = None)) "link() called on entry already linked";
  _ ← MARL_ASSERT (bool_decide (prev e = None)) "link() called on entry already linked";
  m ← match l with
      | Some h => m ← write entry (set_next l) m; write h (set_prev (Some entry)) m
      | None => Ok m
      end;
  Ok (Some entry, m).

(** The loop of [grow] over the entries from [p] on. *)
Fixpoint push_free (p : Ptr) (n : nat) (f : option Ptr) (m : Mem) : Result (option Ptr * Mem) :=
  match n with
  | O => Ok (f, m)
  | S n =>
      let m := <[p := mkEntry None f None]> m in
      m ← write_opt f (set_prev (Some p)) m;
      push_free (p + 1) n (Some p) m
  end.

(** [grow(count)]; [base] is what the allocator returns. *)
Definition grow (base : Ptr) (count : nat) (l : List) : Result List :=
  '(f, m) ← push_free base count (free l) (mem l);
  let alloc_chain := (base + Z.of_nat count)%Z in
  Ok (mkList m (<[alloc_chain := mkChain (base, count) (allocations_ l)]> (chains l)) (size_ l)
        (capacity_ l + count) (Some alloc_chain) f (head l)).

Definition emplace_front (base : Ptr) (a : A) (l : List) : Result (Ptr * List) :=
  l ← (if bool_decide (free l = None) then grow base (Nat.max (capacity_ l) 8) l else Ok l);
  entry ← deref (free l) "free list empty";
  '(f, m) ← unlink entry (free l) (mem l);
  '(h, m) ← link entry (head l) m;
  m ← write entry (set_data (Some a)) m;
  Ok (entry, mkList m (chains l) (u64 (size_ l + 1)) (capacity_ l) (allocations_ l) f h).

Definition erase (entry : Ptr) (l : List) : Result List :=
  '(h, m) ← unlink entry (head l) (mem l);
  '(f, m) ← link entry (free l) m;
  e ← deref (m !! entry) "entry dereferenced";
  _ ← deref (data e) "destructor called on no object";
  m ← write entry (set_data None) m;
  Ok (mkList m (chains l) (u64 (size_ l - 1)) (capacity_ l) (allocations_ l) f h).

(** Iteration from [begin()] to [end()]: the elements in order.  A list has at
    most [capacity_] entries. *)
Fixpoint walk (fuel : nat) (p : option Ptr) (m : Mem) : Result (list A) :=
  match fuel, p with
  | _, None => Ok []
  | O, Some _ => Undefined "out of fuel"
  | S fuel, Some p =>
      e ← deref (m !! p) "iterator dereferenced";
      a ← deref (data e) "iterator dereferenced";
      l ← walk fuel (next e) m;
      Ok (a :: l)
  end.

Definition to_list (l : List) : Result (list A) := walk (capacity_ l) (head l) (mem l).

(** [~list]: the objects are destroyed from the head on, then the blocks are
    freed along their chain.  The result are the objects and the blocks. *)
Fixpoint destroy_walk (fuel : nat) (p : option Ptr) (m : Mem) : Result (list A * Mem) :=
  match fuel, p with
  | _, None => Ok ([], m)
  | O, Some _ => Undefined "out of fuel"
  | S fuel, Some p =>
      e ← deref (m !! p) "entry dereferenced";
      a ← deref (data e) "destructor called on no object";
      m ← write p (set_data None) m;
      '(ds, m) ← destroy_walk fuel (next e) m;
      Ok (a :: ds, m)
  end.

(** The loop over the blocks: [next] is read before the block, which holds it, is
    freed. *)
Fixpoint free_chain (fuel : nat) (curr : option Ptr) (chs : gmap Ptr AllocationChain) : Result (list Ptr) :=
  match fuel, curr with
  | _, None => Ok []
  | O, Some _ => Undefined "out of fuel"
  | S fuel, Some c =>
      ch ← deref (chs !! c) "allocation chain dereferenced";
      bs ← free_chain fuel (chain_next ch) (delete c chs);
      Ok ((allocation ch).1 :: bs)
  end.

Definition list_dtor (l : List) : Result (list A * list Ptr) :=
  '(ds, _) ← destroy_walk (capacity_ l) (head l) (mem l);
  bs ← free_chain (capacity_ l) (allocations_ l) (chains l);
  Ok (ds, bs).

(** ** Linked segments *)
Abbreviation Cells := (list (Ptr * option A)).

(** The first address of a segment, or what follows it. *)
Definition first (es : Cells) (n : option Ptr) : option Ptr :=
  match es with [] => n | (p, _) :: _ => Some p end.
Definition last_of (es : Cells) (p : option Ptr) : option Ptr :=
  match last es with Some (q, _) => Some q | None => p end.

Fixpoint seg (m : Mem) (p : option Ptr) (es : Cells) (n : option Ptr) : Prop :=
  match es with
  | [] => True
  | (q, d) :: es => m !! q = Some (mkEntry d (first es n) p) /\ seg m (Some q) es n
  end.

Lemma seg_app m p es1 es2 n :
  seg m p (es1 ++ es2) n <-> seg m p es1 (first es2 n) /\ seg m (last_of es1 p) es2 n.
Proof.
  revert p. induction es1 as [|[q d] es1 IH]; intros p; simpl; [unfold last_of; simpl; tauto|].
  rewrite IH. assert (first (es1 ++ es2) n = first es1 (first es2 n)) as -> by (by destruct es1 as [|[] ?]).
  assert (last_of ((q, d) :: es1) p = last_of es1 (Some q)) as ->; [|tauto].
  unfold last_of. rewrite last_cons. by destruct (last es1) as [[]|].
Qed.

Lemma seg_frame m q e p es n : q ∉ es.*1 -> seg m p es n -> seg (<[q := e]> m) p es n.
Proof.
  revert p. induction es as [|[r d] es IH]; intros p; simpl; [done|].
  rewrite not_elem_of_cons. intros [Hq Hes] [Hr Hs].
  split; [by rewrite lookup_insert_ne|by apply IH].
Qed.

(** The pointers into and out of a segment. *)
Lemma seg_set_prev m es p p' n q d :
  NoDup (((q, d) :: es).*1) -> seg m p ((q, d) :: es) n ->
  exists e, m !! q = Some e /\ seg (<[q := set_prev p' e]> m) p' ((q, d) :: es) n.
Proof.
  intros [Hq _]%NoDup_cons [He Hs]. eexists. split; [done|]. simpl.
  rewrite lookup_insert_eq. split; [done|]. by apply seg_frame.
Qed.

Lemma seg_set_next m es p n n' q d :
  NoDup ((es ++ [(q, d)]).*1) -> seg m p (es ++ [(q, d)]) n ->
  exists e, m !! q = Some e /\ seg (<[q := set_next n' e]> m) p (es ++ [(q, d)]) n'.
Proof.
  rewrite fmap_app. intros (_ & Hq & _)%NoDup_app. rewrite !seg_app. simpl. intros [Hs [He _]].
  eexists. split; [done|]. rewrite seg_app. simpl. rewrite lookup_insert_eq. split; [|done].
  apply seg_frame; [|done]. intros Hin. apply (Hq _ Hin). left.
Qed.

Lemma snoc_case {B} (l : list B) : l = [] \/ exists l' x, l = l' ++ [x].
Proof. destruct l as [|x l] using rev_ind; [by left|right; eauto]. Qed.
Lemma seg_ext m m' p es n :
  (forall q, q ∈ es.*1 -> m' !! q = m !! q) -> seg m p es n -> seg m' p es n.
Proof.
  revert p. induction es as [|[r d] es IH]; intros p; [done|]. rewrite fmap_cons. intros Hm [Hr Hs].
  split; [rewrite Hm; [done|left]|apply IH; [|done]; intros q Hq; apply Hm; by right].
Qed.

(** Writing the pointer out of a segment, or the one into it. *)
Lemma write_last m es n n' :
  NoDup (es.*1) -> seg m None es n ->
  exists m', write_opt (last_of es None) (set_next n') m = Ok m' /\ seg m' None es n' /\
             forall q, q ∉ es.*1 -> m' !! q = m !! q.
Proof.
  intros Hnd Hs. destruct (snoc_case es) as [->|(es' & [q d] & ->)]; [by exists m|].
  destruct (seg_set_next m es' None n n' q d Hnd Hs) as (e & He & Hs').
  unfold last_of, write_opt, write. rewrite last_snoc, He. eexists. split; [done|]. split; [done|].
  intros r Hr. apply lookup_insert_ne. intros <-. apply Hr. rewrite fmap_app. set_solver.
Qed.

Lemma write_first m es p p' n :
  NoDup (es.*1) -> seg m p es n -> (es = [] -> n = None) ->
  exists m', write_opt (first es n) (set_prev p') m = Ok m' /\ seg m' p' es n /\
             forall q, q ∉ es.*1 -> m' !! q = m !! q.
Proof.
  intros Hnd Hs Hn. destruct es as [|[q d] es]; [rewrite Hn by done; by exists m|].
  destruct (seg_set_prev m es p p' n q d Hnd Hs) as (e & He & Hs').
  unfold write_opt, write; cbn [first]. rewrite He. eexists. split; [done|]. split; [done|].
  intros r Hr. apply lookup_insert_ne. intros <-. apply Hr. left.
Qed.

Lemma NoDup_middle (es1 es2 : Cells) p d :
  NoDup ((es1 ++ (p, d) :: es2).*1) ->
  NoDup (es1.*1) /\ NoDup (es2.*1) /\ (p ∉ es1.*1) /\ (p ∉ es2.*1) /\
  (forall q, q ∈ (es1.*1) -> q ∉ (es2.*1)).
Proof.
  rewrite fmap_app, fmap_cons. intros (H1 & H12 & [Hp H2]%NoDup_cons)%NoDup_app.
  split_and!; try done; [intros Hin; apply (H12 _ Hin); left|].
  intros q Hq Hq2. apply (H12 q Hq). by right.
Qed.

(** [unlink] takes one entry out of the list it is in and leaves it isolated. *)
Lemma unlink_spec m es1 p d es2 :
  NoDup ((es1 ++ (p, d) :: es2).*1) -> seg m None (es1 ++ (p, d) :: es2) None ->
  exists m', unlink p (first (es1 ++ (p, d) :: es2) None) m = Ok (first (es1 ++ es2) None, m') /\
    seg m' None (es1 ++ es2) None /\ m' !! p = Some (mkEntry d None None) /\
    forall q, q ∉ ((es1 ++ (p, d) :: es2).*1) -> m' !! q = m !! q.
Proof.
  intros (Hn1 & Hn2 & Hp1 & Hp2 & H12)%NoDup_middle. rewrite seg_app. intros [Hs1 [Hp Hs2]].
  destruct (write_last m es1 _ (first es2 None) Hn1 Hs1) as (m1 & E1 & Hs1' & F1).
  assert (seg m1 (Some p) es2 None) as Hs2'.
  { eapply seg_ext; [|exact Hs2]. intros q Hq. apply F1. intros Hq1. by apply (H12 q). }
  destruct (write_first m1 es2 _ (last_of es1 None) None Hn2 Hs2' ltac:(done)) as (m2 & E2 & Hs2'' & F2).
  unfold unlink. rewrite Hp. cbn [deref mbind result_bind prev next]. rewrite E1.
  cbn [mbind result_bind]. rewrite E2. cbn [mbind result_bind]. unfold write.
  rewrite F2, F1, Hp by done. cbn. eexists. split_and!.
  - do 3 f_equal. case_bool_decide as Hh; destruct es1 as [|[q dq] es1]; try done.
    exfalso. simplify_eq/=. apply Hp1. left.
  - apply seg_frame; [rewrite fmap_app; set_solver|]. rewrite seg_app. split; [|done].
    eapply seg_ext; [|exact Hs1']. intros q Hq. apply F2. by apply H12.
  - by rewrite lookup_insert_eq.
  - rewrite fmap_app, fmap_cons. intros q Hq.
    rewrite lookup_insert_ne by set_solver. rewrite F2, F1; set_solver.
Qed.

(** [link] puts an isolated entry in front of a list. *)
Lemma link_spec m p d es :
  NoDup (p :: (es.*1)) -> seg m None es None -> m !! p = Some (mkEntry d None None) ->
  exists m', link p (first es None) m = Ok (Some p, m') /\ seg m' None ((p, d) :: es) None /\
    forall q, q ∉ p :: (es.*1) -> m' !! q = m !! q.
Proof.
  intros [Hp Hn]%NoDup_cons Hs He. unfold link. rewrite He. cbn [deref mbind result_bind prev next].
  rewrite !bool_decide_eq_true_2 by done. cbn [mbind result_bind MARL_ASSERT].
  destruct es as [|[h dh] es]; cbn [first]; [by exists m|].
  unfold write. rewrite He. cbn [deref mbind result_bind].
  set (m1 := <[p := _]> m).
  assert (seg m1 None ((h, dh) :: es) None) as Hs1 by by apply seg_frame.
  destruct (write_first m1 _ _ (Some p) None Hn Hs1 ltac:(done)) as (m2 & E2 & Hs2 & F2).
  cbn [write_opt first] in E2. unfold write in E2.
  cbn [mbind result_bind] in E2 |- *. rewrite E2. exists m2. split; [done|]. split.
  - split; [|done]. rewrite F2 by done. unfold m1. by rewrite lookup_insert_eq.
  - intros q [Hqp Hq]%not_elem_of_cons. rewrite F2 by done. unfold m1. by rewrite lookup_insert_ne.
Qed.
(** ** The representation *)
Definition used (hs : list (Ptr * A)) : Cells := (fun h => (h.1, Some h.2)) <$> hs.
Definition spare (fs : list Ptr) : Cells := (fun p => (p, None)) <$> fs.

Lemma used_fst hs : (used hs).*1 = hs.*1.
Proof. unfold used. rewrite <- list_fmap_compose. by apply list_fmap_ext. Qed.
Lemma spare_fst fs : (spare fs).*1 = fs.
Proof. unfold spare. rewrite <- list_fmap_compose. by apply list_fmap_id. Qed.

(** [hs] are the elements with the addresses of their entries, [fs] the entries
    of the free list. *)
Record rep (l : List) (hs : list (Ptr * A)) (fs : list Ptr) : Prop := {
  rep_head : head l = first (used hs) None;
  rep_used : seg (mem l) None (used hs) None;
  rep_free : free l = first (spare fs) None;
  rep_spare : seg (mem l) None (spare fs) None;
  rep_nodup : NoDup (hs.*1 ++ fs);
  rep_size : size_ l = u64 (zlen hs);
  rep_capacity : capacity_ l = length hs + length fs
}.

Lemma rep_new : rep list_new [] [].
Proof. split; try done. apply NoDup_nil_2. Qed.

Lemma seg_dom m p es n q : seg m p es n -> q ∈ (es.*1) -> is_Some (m !! q).
Proof.
  revert p. induction es as [|[r d] es IH]; intros p; [by intros ? ?%elem_of_nil|].
  rewrite fmap_cons. intros [Hr Hs] [->|Hq]%elem_of_cons; [cbn [fst]; rewrite Hr; eauto|by eapply IH].
Qed.

Lemma push_free_spec n : forall p fs m,
  seg m None (spare fs) None -> NoDup fs -> (forall q, p <= q < p + Z.of_nat n -> m !! q = None)%Z ->
  exists ns m', push_free p n (first (spare fs) None) m = Ok (first (spare (ns ++ fs)) None, m') /\
    seg m' None (spare (ns ++ fs)) None /\ NoDup (ns ++ fs) /\ length ns = n /\
    (forall q, q ∈ ns -> p <= q < p + Z.of_nat n)%Z /\
    (forall q, q ∉ ns -> q ∉ fs -> m' !! q = m !! q).
Proof.
  induction n as [|n IH]; intros p fs m Hs Hnd Hm.
  { exists [], m. split_and!; try done. by intros q ?%elem_of_nil. }
  assert (p ∉ fs) as Hp.
  { intros Hin. destruct (seg_dom m None (spare fs) None p Hs) as [e He]; [by rewrite spare_fst|].
    by rewrite Hm in He by lia. }
  cbn [push_free]. set (m1 := <[p := _]> m).
  assert (seg m1 None (spare fs) None) as Hs1 by (apply seg_frame; [by rewrite spare_fst|done]).
  destruct (write_first m1 (spare fs) None (Some p) None) as (m2 & E2 & Hs2 & F2);
    [by rewrite spare_fst|done..|]. rewrite spare_fst in F2.
  rewrite E2. cbn [mbind result_bind].
  destruct (IH (p + 1)%Z (p :: fs) m2) as (ns & m' & E & Hs' & Hnd' & Hl & Hb & F).
  - split; [|done]. rewrite F2 by done. unfold m1. by rewrite lookup_insert_eq.
  - by constructor.
  - intros q Hq. destruct (decide (q ∈ fs)) as [Hin|Hin].
    + destruct (seg_dom m None (spare fs) None q Hs) as [e He]; [by rewrite spare_fst|].
      by rewrite Hm in He by lia.
    + rewrite F2 by done. unfold m1. rewrite lookup_insert_ne by lia. apply Hm. lia.
  - exists (ns ++ [p]), m'. rewrite <- app_assoc. cbn [app]. split_and!; try done.
    + rewrite length_app. simpl. lia.
    + intros q [Hq%Hb| ->%list_elem_of_singleton]%elem_of_app; lia.
    + intros q Hq Hqf. rewrite not_elem_of_app, list_elem_of_singleton in Hq. destruct Hq as [Hq Hqp].
      rewrite F by (try done; set_solver). rewrite F2 by done. unfold m1. by rewrite lookup_insert_ne.
Qed.

(** Memory the allocator may return: no address of it is in use, and it is apart
    from the blocks of the list. *)
Definition apart (b1 b2 : Ptr * nat) : Prop :=
  (b1.1 + Z.of_nat b1.2 < b2.1 \/ b2.1 + Z.of_nat b2.2 < b1.1)%Z.

Definition fresh_block (base : Ptr) (l : List) : Prop :=
  let count := Nat.max (capacity_ l) 8 in
  (forall q, (base <= q < base + Z.of_nat count)%Z -> mem l !! q = None) /\
  (forall c ch, chains l !! c = Some ch -> apart (base, count) (allocation ch)).

Lemma grow_spec base l hs :
  rep l hs [] -> fresh_block base l ->
  exists ns l', grow base (Nat.max (capacity_ l) 8) l = Ok l' /\ rep l' hs ns /\ ns <> [] /\
    capacity_ l' = capacity_ l + Nat.max (capacity_ l) 8.
Proof.
  intros R [Hb _]. destruct (push_free_spec (Nat.max (capacity_ l) 8) base [] (mem l))
    as (ns & m & E & Hs & Hnd & Hl & Hr & F); [done|apply NoDup_nil_2|done|].
  rewrite app_nil_r in *. unfold grow. rewrite (rep_free _ _ _ R). rewrite E.
  cbn [mbind result_bind]. exists ns. eexists. split; [done|].
  assert (forall q, q ∈ hs.*1 -> q ∉ ns) as Hd.
  { intros q Hq Hn%Hr. destruct (seg_dom _ _ _ _ q (rep_used _ _ _ R)) as [e He]; [by rewrite used_fst|].
    by rewrite Hb in He. }
  split_and!; [|intros ->; simpl in Hl; lia|done]. split; try done; try apply R.
  - eapply seg_ext; [|apply R]. intros q Hq. rewrite used_fst in Hq.
    apply F; [by apply Hd|apply not_elem_of_nil].
  - apply NoDup_app. split_and!; [|done|done]. pose proof (rep_nodup _ _ _ R) as H.
    by rewrite app_nil_r in H.
  - cbn [capacity_]. rewrite Hl, (rep_capacity _ _ _ R). simpl. lia.
Qed.

(** Taking the first free entry into use. *)
Lemma take_free_spec l hs p fs a :
  rep l hs (p :: fs) ->
  exists f m1 h m2 m3,
    unlink p (Some p) (mem l) = Ok (f, m1) /\ link p (head l) m1 = Ok (h, m2) /\
    write p (set_data (Some a)) m2 = Ok m3 /\
    rep (mkList m3 (chains l) (u64 (size_ l + 1)) (capacity_ l) (allocations_ l) f h) ((p, a) :: hs) fs.
Proof.
  intros R. pose proof (rep_nodup _ _ _ R) as Hnd. apply NoDup_app in Hnd as (Hh & Hhf & [Hp Hf]%NoDup_cons).
  destruct (unlink_spec (mem l) [] p None (spare fs)) as (m1 & E1 & Hs1 & Hp1 & F1);
    [cbn [app]; rewrite fmap_cons, spare_fst; by constructor|apply R|].
  cbn [app first] in *. rewrite fmap_cons, spare_fst in F1.
  assert (forall q, q ∈ hs.*1 -> q ∉ p :: fs) as Hd by done.
  assert (seg m1 None (used hs) None) as Hu.
  { eapply seg_ext; [|apply R]. intros q Hq. rewrite used_fst in Hq. apply F1. by apply Hd. }
  destruct (link_spec m1 p None (used hs)) as (m2 & E2 & Hs2 & F2); [|done..|].
  { rewrite used_fst. constructor; [|done]. intros Hin. apply (Hd _ Hin). left. }
  rewrite used_fst in F2. destruct Hs2 as [Hp2 Hs2].
  exists (first (spare fs) None), m1, (Some p), m2. eexists.
  rewrite (rep_head _ _ _ R). split_and!; [exact E1|exact E2|unfold write; by rewrite Hp2|].
  assert (p ∉ hs.*1) as Hph by (intros Hin; apply (Hd _ Hin); left).
  split; cbn [mem head free size_ capacity_]; try done.
  - split; [by rewrite lookup_insert_eq|]. apply seg_frame; [by rewrite used_fst|done].
  - apply seg_frame; [by rewrite spare_fst|]. eapply seg_ext; [|exact Hs1].
    intros q Hq. rewrite spare_fst in Hq. apply F2. apply not_elem_of_cons.
    split; [by intros ->|]. intros Hin. apply (Hd _ Hin). by right.
  - cbn [fmap list_fmap fst app]. constructor.
    + rewrite not_elem_of_app. done.
    + apply NoDup_app. split_and!; [done| |done]. intros q Hq Hqf. apply (Hd q Hq). by right.
  - rewrite (rep_size _ _ _ R), u64_add_idemp. f_equal. simpl. lia.
  - rewrite (rep_capacity _ _ _ R). simpl. lia.
Qed.

Lemma emplace_front_spec base a l hs fs :
  rep l hs fs -> (fs = [] -> fresh_block base l) ->
  exists p l' fs', emplace_front base a l = Ok (p, l') /\ rep l' ((p, a) :: hs) fs' /\ (p ∉ hs.*1) /\
    (fs <> [] -> capacity_ l' = capacity_ l).
Proof.
  intros R Hb.
  assert (exists q fs1 l1, (if bool_decide (free l = None) then grow base (Nat.max (capacity_ l) 8) l else Ok l)
            = Ok l1 /\ rep l1 hs (q :: fs1) /\ (fs <> [] -> capacity_ l1 = capacity_ l)) as (p & fs1 & l1 & E & R1 & Hc).
  { rewrite (rep_free _ _ _ R). destruct fs as [|q fs].
    - destruct (grow_spec base l hs R (Hb eq_refl)) as (ns & l1 & E & R1 & Hn & _).
      destruct ns as [|q ns]; [done|]. by exists q, ns, l1.
    - by exists q, fs, l. }
  unfold emplace_front. rewrite E. cbn [mbind result_bind]. rewrite (rep_free _ _ _ R1).
  cbn [spare fmap list_fmap first deref mbind result_bind].
  destruct (take_free_spec l1 hs p fs1 a R1) as (f & m1 & h & m2 & m3 & E1 & E2 & E3 & R').
  rewrite E1. cbn [mbind result_bind]. rewrite E2. cbn [mbind result_bind]. rewrite E3.
  cbn [mbind result_bind]. exists p. eexists. exists fs1. split_and!; [done|exact R'| |done].
  pose proof (rep_nodup _ _ _ R') as [Hp _]%NoDup_cons. set_solver.
Qed.

Lemma erase_spec l hs1 p a hs2 fs :
  rep l (hs1 ++ (p, a) :: hs2) fs ->
  exists l', erase p l = Ok l' /\ rep l' (hs1 ++ hs2) (p :: fs) /\ capacity_ l' = capacity_ l.
Proof.
  intros R. pose proof (rep_nodup _ _ _ R) as Hnd. apply NoDup_app in Hnd as (Hh & Hhf & Hf).
  assert (used (hs1 ++ (p, a) :: hs2) = used hs1 ++ (p, Some a) :: used hs2) as Eu
    by (unfold used; by rewrite fmap_app, fmap_cons).
  assert (used (hs1 ++ hs2) = used hs1 ++ used hs2) as Eu' by (unfold used; by rewrite fmap_app).
  destruct (unlink_spec (mem l) (used hs1) p (Some a) (used hs2)) as (m1 & E1 & Hs1 & Hp1 & F1);
    [by rewrite <- Eu, used_fst|rewrite <- Eu; apply R|].
  rewrite <- Eu, <- ?Eu', ?used_fst in *.
  assert (p ∈ (hs1 ++ (p, a) :: hs2).*1) as Hin by (rewrite fmap_app; set_solver).
  destruct (link_spec m1 p (Some a) (spare fs)) as (m2 & E2 & [Hp2 Hs2] & F2); [| |done|].
  { rewrite spare_fst. constructor; [by apply Hhf|done]. }
  { eapply seg_ext; [|apply R]. intros q Hq. rewrite spare_fst in Hq. apply F1.
    intros Hq1. by apply (Hhf q). }
  rewrite spare_fst in F2. unfold erase. rewrite (rep_head _ _ _ R), E1. cbn [mbind result_bind].
  rewrite (rep_free _ _ _ R), E2. cbn [mbind result_bind]. rewrite Hp2.
  cbn [deref mbind result_bind data]. unfold write. rewrite Hp2. cbn [deref mbind result_bind].
  assert (NoDup ((hs1 ++ hs2).*1) /\ p ∉ (hs1 ++ hs2).*1) as [Hnd' Hp'].
  { rewrite !fmap_app, fmap_cons in *.
    assert (hs1.*1 ++ p :: hs2.*1 ≡ₚ p :: hs1.*1 ++ hs2.*1) as HP by (symmetry; apply Permutation_middle).
    rewrite HP in Hh. by apply NoDup_cons in Hh as [? ?]. }
  eexists. split; [done|]. split; [|done]. split; cbn [mem head free size_ capacity_]; try done.
  - apply seg_frame; [by rewrite used_fst|]. eapply seg_ext; [|exact Hs1].
    intros q Hq. rewrite used_fst in Hq. apply F2. apply not_elem_of_cons. split; [by intros ->|].
    apply Hhf. rewrite fmap_app, fmap_cons in *. set_solver.
  - split; [by rewrite lookup_insert_eq|]. apply seg_frame; [rewrite spare_fst; by apply Hhf|done].
  - apply NoDup_app. split_and!; [done| |constructor; [by apply Hhf|done]].
    intros q Hq [->|Hqf]%elem_of_cons; [done|]. apply (Hhf q); [|done].
    rewrite fmap_app, fmap_cons in *. set_solver.
  - rewrite (rep_size _ _ _ R), u64_sub_idemp. f_equal. rewrite !length_app. simpl. lia.
  - rewrite (rep_capacity _ _ _ R), !length_app. simpl. lia.
Qed.

Lemma walk_spec m p hs fuel :
  seg m p (used hs) None -> length hs <= fuel -> walk fuel (first (used hs) None) m = Ok (hs.*2).
Proof.
  revert p fuel. induction hs as [|[q a] hs IH]; intros p fuel; simpl.
  { intros _ _. by destruct fuel. }
  intros [Hq Hs] Hf. destruct fuel as [|fuel]; [lia|]. simpl. rewrite Hq.
  cbn [deref mbind result_bind data next]. rewrite (IH (Some q)) by (done || lia). done.
Qed.

Lemma destroy_walk_spec m p hs fuel :
  NoDup (hs.*1) -> seg m p (used hs) None -> length hs <= fuel ->
  exists m', destroy_walk fuel (first (used hs) None) m = Ok (hs.*2, m').
Proof.
  revert m p fuel. induction hs as [|[q a] hs IH]; intros m p fuel; [by intros; exists m; destruct fuel|].
  rewrite fmap_cons. intros [Hq' Hnd]%NoDup_cons [Hq Hs] Hf. destruct fuel as [|fuel]; [simpl in Hf; lia|].
  change (first (used ((q, a) :: hs)) None) with (Some q). cbn [fst snd] in Hq.
  change (m !! q = Some (mkEntry (Some a) (first (used hs) None) p)) in Hq. cbn [destroy_walk]. rewrite Hq. cbn [deref mbind result_bind data next].
  unfold write. rewrite Hq. cbn [deref mbind result_bind].
  destruct (IH (<[q := set_data None (mkEntry (Some a) (first (used hs) None) p)]> m) (Some q) fuel) as [m' E];
    [done|apply seg_frame; [by rewrite used_fst|done]|simpl in Hf; lia|].
  exists m'. by rewrite E.
Qed.

(** The lists a client can build: [Reach l hs] when some sequence of insertions
    and erasures of live iterators leads to [l], whose elements are then [hs]. *)
Inductive Reach : List -> list (Ptr * A) -> Prop :=
| reach_new : Reach list_new []
| reach_emplace l hs base a p l' :
    Reach l hs -> fresh_block base l -> emplace_front base a l = Ok (p, l') ->
    Reach l' ((p, a) :: hs)
| reach_erase l hs1 p a hs2 l' :
    Reach l (hs1 ++ (p, a) :: hs2) -> erase p l = Ok l' -> Reach l' (hs1 ++ hs2).

Lemma reach_rep l hs : Reach l hs -> exists fs, rep l hs fs.
Proof.
  induction 1 as [|l hs base a p l' _ [fs R] Hb E|l hs1 p a hs2 l' _ [fs R] E]; [exists []; apply rep_new|..].
  - destruct (emplace_front_spec base a l hs fs R (fun _ => Hb)) as (? & ? & fs' & E' & R' & _). rewrite E in E'. simplify_eq. eauto.
  - destruct (erase_spec l hs1 p a hs2 fs R) as (? & E' & R' & _). rewrite E in E'. simplify_eq. eauto.
Qed.

(** The chain of blocks, newest first. *)
Definition chain_of (b : Ptr * nat) : Ptr := (b.1 + Z.of_nat b.2)%Z.

Fixpoint chained (chs : gmap Ptr AllocationChain) (curr : option Ptr) (bs : list (Ptr * nat)) : Prop :=
  match bs with
  | [] => curr = None
  | b :: bs => exists nx, curr = Some (chain_of b) /\ chs !! chain_of b = Some (mkChain b nx) /\ chained chs nx bs
  end.

Lemma chained_ext chs chs' curr bs :
  (forall c, c ∈ chain_of <$> bs -> chs' !! c = chs !! c) -> chained chs curr bs -> chained chs' curr bs.
Proof.
  revert curr. induction bs as [|b bs IH]; intros curr; [done|]. rewrite fmap_cons. intros H (nx & -> & Hb & Hc).
  exists nx. split_and!; [done|rewrite H; [done|left]|]. apply IH; [|done]. intros c Hin. apply H. by right.
Qed.

Lemma free_chain_spec fuel curr chs bs :
  chained chs curr bs -> NoDup (chain_of <$> bs) -> length bs <= fuel -> free_chain fuel curr chs = Ok (bs.*1).
Proof.
  revert fuel curr chs. induction bs as [|b bs IH]; intros fuel curr chs; [intros -> _ _; by destruct fuel|].
  rewrite fmap_cons. intros (nx & -> & Hb & Hc) [Hn Hnd]%NoDup_cons Hf. destruct fuel as [|fuel]; [simpl in Hf; lia|].
  cbn [free_chain]. rewrite Hb. cbn [deref mbind result_bind chain_next allocation].
  rewrite (IH fuel); [done| |done|simpl in Hf; lia].
  eapply chained_ext; [|done]. intros c Hc'. apply lookup_delete_ne. by intros <-.
Qed.

(** The blocks hold all the entries there are, and are apart from each other. *)
Record Blocks (l : List) (bs : list (Ptr * nat)) : Prop := {
  bk_chain : chained (chains l) (allocations_ l) bs;
  bk_only c ch : chains l !! c = Some ch -> c = chain_of (allocation ch) /\ allocation ch ∈ bs;
  bk_all b : b ∈ bs -> exists ch, chains l !! chain_of b = Some ch /\ allocation ch = b;
  bk_apart : ForallOrdPairs apart bs;
  bk_size : sum_list_with snd bs = capacity_ l;
  bk_large : Forall (fun b => 8 <= b.2) bs
}.

Lemma apart_nodup bs : ForallOrdPairs apart bs -> NoDup (bs.*1) /\ NoDup (chain_of <$> bs).
Proof.
  induction 1 as [|b bs Hb _ [IH1 IH2]]; [split; constructor|]. rewrite Forall_forall in Hb.
  rewrite !fmap_cons. split; constructor; try done; intros (b' & E & Hb')%list_elem_of_fmap;
    specialize (Hb b' Hb'); unfold apart, chain_of in *; lia.
Qed.

Lemma blocks_length bs : Forall (fun b : Ptr * nat => 8 <= b.2) bs -> length bs <= sum_list_with snd bs.
Proof. induction 1; simpl; lia. Qed.

Lemma grow_blocks base l l' bs :
  Blocks l bs -> fresh_block base l -> grow base (Nat.max (capacity_ l) 8) l = Ok l' ->
  Blocks l' ((base, Nat.max (capacity_ l) 8) :: bs).
Proof.
  intros [H1 H2 H3 H4 H5 H6] [_ Hb] E. unfold grow in E. inv_ok E. destruct a as [f m]. injection E as <-.
  set (b := (base, Nat.max (capacity_ l) 8)) in *. change (base + Z.of_nat (Nat.max (capacity_ l) 8))%Z with (chain_of b).
  assert (forall b', b' ∈ bs -> apart b b') as Ha.
  { intros b' Hb'. destruct (H3 b' Hb') as (ch & Hch & <-). by eapply Hb. }
  assert (chain_of b ∉ chain_of <$> bs) as Hn.
  { intros (b' & E & Hb')%list_elem_of_fmap. specialize (Ha b' Hb'). unfold apart, chain_of in *. lia. }
  split; cbn [chains allocations_ capacity_].
  - exists (allocations_ l). split_and!; [done|by rewrite lookup_insert_eq|].
    eapply chained_ext; [|done]. intros c Hc. apply lookup_insert_ne. by intros <-.
  - intros c ch [[<- <-]|[_ Hc]]%lookup_insert_Some; [split; [done|left]|].
    destruct (H2 c ch Hc). split; [done|by right].
  - intros b' [->|Hb']%elem_of_cons; [eexists; by rewrite lookup_insert_eq|].
    destruct (H3 b' Hb') as (ch & Hch & Eb). exists ch. rewrite lookup_insert_ne; [done|].
    intros E. apply Hn. rewrite E. by apply list_elem_of_fmap_2.
  - constructor; [|done]. by apply Forall_forall.
  - simpl. lia.
  - constructor; [simpl; lia|done].
Qed.

Lemma reach_blocks l hs : Reach l hs -> exists bs, Blocks l bs.
Proof.
  induction 1 as [|l hs base a p l' _ [bs IH] Hb E|l hs1 p a hs2 l' _ [bs IH] E].
  - exists []. split; try done; try constructor. by intros b ?%elem_of_nil.
  - unfold emplace_front in E. inv_ok E. inv_ok E. inv_ok E. destruct a2 as [f m]. inv_ok E. destruct a2 as [h m'].
    inv_ok E. injection E as <- <-. case_bool_decide.
    + eexists. destruct (grow_blocks base l a0 bs IH Hb E0). split; done.
    + injection E0 as <-. exists bs. by destruct IH; split.
  - unfold erase in E. inv_ok E. destruct a0 as [h m]. inv_ok E. destruct a0 as [f m']. inv_ok E. inv_ok E. inv_ok E.
    injection E as <-. exists bs. by destruct IH; split.
Qed.

(** C38. [containers::list] refines a sequence with stable iterators: after any
    sequence of insertions and erasures the addresses of the elements are
    distinct, iteration yields exactly the elements in order, [size_] counts
    them, [emplace_front] succeeds and returns an iterator different from every
    live one, and erasing any live iterator succeeds; neither trips the
    assertions of [link] nor follows a bad pointer.  Memory is only requested
    when every entry is in use, and the destructor destroys every element once and
    gives every block back once, following the chain whose links lie in the blocks
    without reading one that is freed. *)
Theorem list_refines l hs : Reach l hs ->
  NoDup (hs.*1) /\ to_list l = Ok (hs.*2) /\ size_ l = u64 (zlen hs) /\
  (forall base a, fresh_block base l ->
     exists p l', emplace_front base a l = Ok (p, l') /\ Reach l' ((p, a) :: hs) /\ (p ∉ hs.*1) /\
       (length hs < capacity_ l -> capacity_ l' = capacity_ l)) /\
  (forall hs1 p a hs2, hs = hs1 ++ (p, a) :: hs2 ->
     exists l', erase p l = Ok l' /\ Reach l' (hs1 ++ hs2) /\ capacity_ l' = capacity_ l) /\
  exists bs, chained (chains l) (allocations_ l) bs /\ (forall c ch, chains l !! c = Some ch -> allocation ch ∈ bs) /\
    NoDup (bs.*1) /\ sum_list_with snd bs = capacity_ l /\ list_dtor l = Ok (hs.*2, bs.*1).
Proof.
  intros Hr. destruct (reach_rep l hs Hr) as [fs R].
  pose proof (rep_nodup _ _ _ R) as (Hnd & _)%NoDup_app. split_and!; [done| |apply R|..].
  - unfold to_list. rewrite (rep_head _ _ _ R). apply (walk_spec _ None); [apply R|].
    rewrite (rep_capacity _ _ _ R). lia.
  - intros base a Hb. destruct (emplace_front_spec base a l hs fs R (fun _ => Hb)) as (p & l' & fs' & E & _ & Hp & Hc).
    exists p, l'. split_and!; [done|by eapply reach_emplace|done|].
    intros Hlt. apply Hc. intros ->. rewrite (rep_capacity _ _ _ R) in Hlt. simpl in Hlt. lia.
  - intros hs1 p a hs2 ->. destruct (erase_spec l hs1 p a hs2 fs R) as (l' & E & _ & Hc).
    exists l'. split_and!; [done|by eapply reach_erase|done].
  - destruct (reach_blocks l hs Hr) as [bs HB]. destruct (apart_nodup bs (bk_apart _ _ HB)) as [Hn1 Hn2]. exists bs.
    split_and!; [apply HB|intros c ch Hc; by apply (bk_only _ _ HB c ch)|done|apply HB|].
    unfold list_dtor. rewrite (rep_head _ _ _ R).
    destruct (destroy_walk_spec (mem l) None hs (capacity_ l) Hnd) as [m' ->]; [apply R|rewrite (rep_capacity _ _ _ R); lia|].
    cbn [mbind result_bind]. rewrite (free_chain_spec _ _ _ bs); [done|apply HB|done|].
    rewrite <- (bk_size _ _ HB). apply blocks_length, HB.
Qed.
End list.

(** Two insertions into a list whose first block is at address 100. *)
Definition the_list (r : Result (Ptr * @List nat)) : List :=
  match r with Ok (_, l) => l | _ => list_new end.
Definition one_element : List := the_list (emplace_front 100 1 list_new).
Definition two_elements : List := the_list (emplace_front 200 2 one_element).

Lemma list_refines_witness : to_list two_elements = Ok [2; 1].
Proof.
  apply (list_refines two_elements [(106%Z, 2); (107%Z, 1)]).
  apply (reach_emplace one_element [(107%Z, 1)] 200 2 106).
  - apply (reach_emplace list_new [] 100 1 107); [apply reach_new|split; [intros q _; apply lookup_empty|done]|].
    vm_compute. reflexivity.
  - split.
    + intros q Hq. apply not_elem_of_dom. change (Nat.max (capacity_ one_element) 8) with 8 in Hq.
      assert (dom (mem one_element) = list_to_set [100; 101; 102; 103; 104; 105; 106; 107]%Z :> gset Z) as ->
        by (refine (bool_decide_unpack _ _); vm_compute; exact I). set_solver by lia.
    + change (chains one_element) with ({[108%Z := mkChain (100%Z, 8) None]} : gmap Z AllocationChain).
      intros c ch [_ <-]%lookup_singleton_Some. right. vm_compute. reflexivity.
  - vm_compute. reflexivity.
Defined.
