(* ===== verification/Memory.v ===== *)
(** Memory allocation: [Allocator], [DefaultAllocator], [TrackedAllocator],
    [StlAllocator] (src/include/marl/memory.hpp, src/src/memory.cpp).

    A [Heap] is what the C library and the operating system keep: the blocks
    [malloc] gave out, the pages [mmap] mapped and the contents of memory.
    What [malloc] and [mmap] answer is an input; [malloc_ok] and [mmap_ok] say
    what they promise.  [Allocator] is the interface of the abstract class and
    [AllocatorLaws] what its clients rely on; both allocators of the library
    are instances, and [create], [destroy] and [StlAllocator] are clients. *)
From stdpp Require Import base numbers strings gmap list.
From S2P Require Import Prelude.

Local Open Scope Z_scope.

(** ** Requests *)
(** [Allocation::Usage] without its upper bound [Count], which is 6. *)
Inductive Usage := UUndefined | UStack | UCreate | UVector | UList | UStl.

Global Instance Usage_eq_dec : EqDecision Usage.
Proof. solve_decision. Defined.

Definition usage_int (u : Usage) : nat :=
  match u with
  | UUndefined => 0 | UStack => 1 | UCreate => 2 | UVector => 3 | UList => 4 | UStl => 5
  end%nat.

Definition usage_Count : nat := 6.

Record Request := mkRequest {
  r_size : Z; r_alignment : Z; use_guards : bool; usage : Usage
}.

Record Allocation := mkAllocation { ptr : Z; request : Request }.

Global Instance Request_eq_dec : EqDecision Request.
Proof. solve_decision. Defined.
Global Instance Allocation_eq_dec : EqDecision Allocation.
Proof. solve_decision. Defined.

(** [alignUp] on [size_t]. *)
Definition alignUp (val alignment : Z) : Z :=
  u64 (alignment * (u64 (u64 (val + alignment) - 1) / alignment)).

(** ** The interface *)
Class Allocator (Env S : Type) := {
  allocate : Env -> Request -> S -> Result (Allocation * S);
  free : Allocation -> S -> Result S
}.

(** [owns s ls]: the outstanding allocations of [s] are [ls].  [admits e r s]:
    the environment's answer [e] to the request [r] is one the system may give
    in state [s], and it is not a failure. *)
Class AllocatorLaws (Env S : Type) `{!Allocator Env S} := {
  owns : S -> list Allocation -> Prop;
  admits : Env -> Request -> S -> Prop;
  allocate_law s ls e r :
    owns s ls -> admits e r s ->
    exists a s', allocate e r s = Ok (a, s') /\ request a = r /\ owns s' (a :: ls);
  free_law s ls1 a ls2 :
    owns s (ls1 ++ a :: ls2) -> exists s', free a s = Ok s' /\ owns s' (ls1 ++ ls2)
}.

(** ** The heap *)
Record Heap := mkHeap {
  blocks : gmap Z Z;        (* malloc: address and size *)
  pages : gmap Z bool;      (* mmap: address of a page, and whether it may be accessed *)
  bytes : gmap Z Z          (* the contents of memory *)
}.

(** [memcpy] of a pointer: 8 bytes, the least significant one first. *)
Fixpoint le_split (n : nat) (v : Z) : list Z :=
  match n with O => [] | S n => v mod 256 :: le_split n (v / 256) end.

Fixpoint le_combine (l : list Z) : Z :=
  match l with [] => 0 | b :: l => b + 256 * le_combine l end.

Fixpoint write_bytes (a : Z) (l : list Z) (m : gmap Z Z) : gmap Z Z :=
  match l with [] => m | b :: l => write_bytes (a + 1) l (<[a := b]> m) end.

Fixpoint read_bytes (a : Z) (n : nat) (m : gmap Z Z) : option (list Z) :=
  match n with
  | O => Some []
  | S n => b ← m !! a; l ← read_bytes (a + 1) n m; Some (b :: l)
  end.

Definition in_block (a : Z) (b : Z * Z) : bool :=
  bool_decide (b.1 <= a) && bool_decide (a < b.1 + b.2).

Section memory.
Context (page_size : Z).

(** An access to an address that is in no block and on no accessible page
    faults. *)
Definition accessible (h : Heap) (a : Z) : bool :=
  existsb (in_block a) (map_to_list (blocks h)) ||
  bool_decide (pages h !! (a - a mod page_size) = Some true).

Definition store_ptr (a v : Z) (h : Heap) : Result Heap :=
  if forallb (accessible h) (seqZ a 8)
  then Ok (mkHeap (blocks h) (pages h) (write_bytes a (le_split 8 v) (bytes h)))
  else Undefined "write fault".

Definition load_ptr (a : Z) (h : Heap) : Result Z :=
  if forallb (accessible h) (seqZ a 8)
  then l ← deref (read_bytes a 8 (bytes h)) "read of uninitialised memory"; Ok (le_combine l)
  else Undefined "read fault".

(** [malloc], answered with [ans]; the null pointer is 0. *)
Definition malloc (ans n : Z) (h : Heap) : Z * Heap :=
  if bool_decide (ans = 0) then (0, h)
  else (ans, mkHeap (<[ans := n]> (blocks h)) (pages h) (bytes h)).

(** [::free]. *)
Definition c_free (p : Z) (h : Heap) : Result Heap :=
  if bool_decide (p = 0) then Ok h
  else if bool_decide (is_Some (blocks h !! p))
  then Ok (mkHeap (delete p (blocks h)) (pages h) (bytes h))
  else Undefined "free() of a pointer that malloc() did not return".

(** [mmap], [munmap] and [mprotect]. *)
Definition MAP_FAILED : Z := 2 ^ 64 - 1.

Definition page_range (base count : Z) : list Z := (fun i => base + i * page_size) <$> seqZ 0 count.

Definition set_pages (ps : list Z) (v : option bool) (m : gmap Z bool) : gmap Z bool :=
  foldr (fun p m => match v with Some b => <[p := b]> m | None => delete p m end) m ps.

Definition mmap (ans len : Z) (h : Heap) : Z * Heap :=
  if bool_decide (ans = MAP_FAILED) then (MAP_FAILED, h)
  else (ans, mkHeap (blocks h)
               (set_pages (page_range ans (len / page_size)) (Some true) (pages h)) (bytes h)).

Definition munmap (p len : Z) (h : Heap) : bool * Heap :=
  if bool_decide (p mod page_size = 0) && bool_decide (0 < len)
  then (true, mkHeap (blocks h) (set_pages (page_range p (len / page_size)) None (pages h)) (bytes h))
  else (false, h).

Definition mprotect_none (p : Z) (h : Heap) : bool * Heap :=
  if bool_decide (p mod page_size = 0) && bool_decide (is_Some (pages h !! p))
  then (true, mkHeap (blocks h) (<[p := false]> (pages h)) (bytes h))
  else (false, h).

(** ** memory.cpp *)
Definition allocatePages (ans count : Z) (h : Heap) : Result (Z * Heap) :=
  let '(mapping, h) := mmap ans (u64 (count * page_size)) h in
  _ ← MARL_ASSERT (negb (bool_decide (mapping = MAP_FAILED))) "Failed to allocate pages";
  Ok (mapping, h).

Definition freePages (p count : Z) (h : Heap) : Result Heap :=
  let '(res, h) := munmap p (u64 (count * page_size)) h in
  _ ← MARL_ASSERT res "Failed to free pages";
  Ok h.

Definition protectPage (p : Z) (h : Heap) : Result Heap :=
  let '(res, h) := mprotect_none p h in
  _ ← MARL_ASSERT res "Failed to protect page";
  Ok h.

Definition requested_pages (size : Z) : Z := u64 (u64 (size + page_size) - 1) / page_size.

Definition total_pages (size : Z) (guard_low guard_high : bool) : Z :=
  u64 (requested_pages size + (if guard_low then 1 else 0) + (if guard_high then 1 else 0)).

Definition pagedMalloc (ans alignment size : Z) (guard_low guard_high : bool) (h : Heap)
  : Result (Z * Heap) :=
  _ ← MARL_ASSERT (bool_decide (alignment < page_size)) "alignment must be less than the page size";
  '(mem, h) ← allocatePages ans (total_pages size guard_low guard_high) h;
  '(mem, h) ← (if guard_low then h ← protectPage mem h; Ok (mem + page_size, h) else Ok (mem, h));
  h ← (if guard_high then protectPage (mem + requested_pages size * page_size) h else Ok h);
  Ok (mem, h).

Definition pagedFree (p alignment size : Z) (guard_low guard_high : bool) (h : Heap) : Result Heap :=
  _ ← MARL_ASSERT (bool_decide (alignment < page_size)) "alignment must be less than the page size";
  freePages (if guard_low then p - page_size else p) (total_pages size guard_low guard_high) h.

Definition alignedMalloc (ans alignment size : Z) (h : Heap) : Result (Z * Heap) :=
  let alloc_size := u64 (u64 (size + alignment) + 8) in
  let '(allocation, h) := malloc ans alloc_size h in
  let aligned := alignUp allocation alignment in
  h ← store_ptr (aligned + size) allocation h;
  Ok (aligned, h).

Definition alignedFree (p size : Z) (h : Heap) : Result Heap :=
  base ← load_ptr (p + size) h;
  c_free base h.

(** [DefaultAllocator::allocate] and [free]. *)
Definition default_allocate (ans : Z) (r : Request) (h : Heap) : Result (Allocation * Heap) :=
  '(p, h) ← (if use_guards r then pagedMalloc ans (r_alignment r) (r_size r) true true h
             else if bool_decide (1 < r_alignment r) then alignedMalloc ans (r_alignment r) (r_size r) h
             else Ok (malloc ans (r_size r) h));
  _ ← MARL_ASSERT (negb (bool_decide (p = 0))) "Allocation failed";
  rem ← (if bool_decide (r_alignment r = 0) then Undefined "remainder by zero"
         else Ok (p mod r_alignment r));
  _ ← MARL_ASSERT (bool_decide (rem = 0)) "Allocation gave incorrect alignment";
  Ok (mkAllocation p r, h).

Definition default_free (a : Allocation) (h : Heap) : Result Heap :=
  let r := request a in
  if use_guards r then pagedFree (ptr a) (r_alignment r) (r_size r) true true h
  else if bool_decide (1 < r_alignment r) then alignedFree (ptr a) (r_size r) h
  else c_free (ptr a) h.
End memory.
