(* ===== verification/MemoryProps.v ===== *)
(** Correctness of the allocators of Memory.v: the instances of the interface
    and its clients. *)
From stdpp Require Import base numbers strings gmap list.
From S2P Require Import Prelude Memory.

Local Open Scope Z_scope.

(** ** Pointers in memory *)
Lemma le_split_range n v : Forall (fun b => 0 <= b < 256) (le_split n v).
Proof.
  revert v. induction n as [|n IH]; intros v; simpl; [constructor|].
  constructor; [apply Z.mod_pos_bound; lia|apply IH].
Qed.

Lemma le_combine_split n v : 0 <= v < 256 ^ Z.of_nat n -> le_combine (le_split n v) = v.
Proof.
  revert v. induction n as [|n IH]; intros v Hv; [simpl in *; lia|].
  cbn [le_split le_combine]. rewrite IH; [pose proof (Z.div_mod v 256); lia|].
  rewrite Nat2Z.inj_succ, Z.pow_succ_r in Hv by lia.
  split; [apply Z.div_pos; lia|apply Z.div_lt_upper_bound; lia].
Qed.

Lemma le_split_length n v : length (le_split n v) = n.
Proof. revert v. induction n as [|n IH]; intros v; simpl; [done|by rewrite IH]. Qed.

Lemma write_bytes_outside a l m x :
  x < a \/ a + zlen l <= x -> write_bytes a l m !! x = m !! x.
Proof.
  revert a m. induction l as [|b l IH]; intros a m Hx; [done|]. cbn [write_bytes].
  cbn [length] in Hx. rewrite IH by lia. by rewrite lookup_insert_ne by lia.
Qed.

Lemma read_bytes_ext a n m m' :
  (forall x, a <= x < a + Z.of_nat n -> m' !! x = m !! x) -> read_bytes a n m' = read_bytes a n m.
Proof.
  revert a. induction n as [|n IH]; intros a Hm; [done|]. cbn [read_bytes].
  rewrite (Hm a) by lia. rewrite IH; [done|]. intros x Hx. apply Hm. lia.
Qed.

Lemma read_write_bytes a l m : read_bytes a (length l) (write_bytes a l m) = Some l.
Proof.
  revert a m. induction l as [|b l IH]; intros a m; [done|]. cbn [length write_bytes read_bytes].
  rewrite write_bytes_outside by lia. rewrite lookup_insert_eq. cbn [mbind option_bind].
  rewrite IH. done.
Qed.

(** ** Alignment *)
Lemma alignUp_multiple v al :
  0 < al -> 0 <= v -> v + al <= 2 ^ 64 -> alignUp v al = al * ((v + al - 1) / al).
Proof.
  intros Hal Hv Hov. unfold alignUp. rewrite u64_sub_idemp, (u64_small (v + al - 1)) by lia.
  apply u64_small. split; [apply Z.mul_nonneg_nonneg; [lia|apply Z.div_pos; lia]|].
  pose proof (Z.mul_div_le (v + al - 1) al Hal). lia.
Qed.

Lemma alignUp_bounds v al :
  0 < al -> 0 <= v -> v + al <= 2 ^ 64 ->
  v <= alignUp v al < v + al /\ alignUp v al mod al = 0.
Proof.
  intros Hal Hv Hov. rewrite alignUp_multiple by done.
  pose proof (Z.mul_div_le (v + al - 1) al Hal).
  pose proof (Z.mul_succ_div_gt (v + al - 1) al Hal).
  split; [lia|]. rewrite Z.mul_comm. by apply Z.mod_mul; lia.
Qed.

(** A multiple stays what it is. *)
Lemma alignUp_aligned v al :
  0 < al -> 0 <= v -> v + al <= 2 ^ 64 -> v mod al = 0 -> alignUp v al = v.
Proof.
  intros Hal Hv Hov Hm. destruct (alignUp_bounds v al Hal Hv Hov) as [H1 H2].
  apply Z.mod_divide in Hm as [k ->]; [|lia]. apply Z.mod_divide in H2 as [j Hj]; [|lia].
  rewrite Hj in *. assert (j = k) as -> by nia. done.
Qed.

(** ** Pages *)
Section pages.
Context (page_size : Z) (Hps : 0 < page_size).
Local Abbreviation page_range := (page_range page_size).

Lemma page_range_elem base n q :
  q ∈ page_range base n <-> exists i, 0 <= i < n /\ q = base + i * page_size.
Proof.
  unfold Memory.page_range. rewrite list_elem_of_fmap. split.
  - intros (i & -> & Hi%elem_of_seqZ). exists i. split; [lia|done].
  - intros (i & Hi & ->). exists i. split; [done|]. apply elem_of_seqZ. lia.
Qed.

Lemma page_range_NoDup base n : NoDup (page_range base n).
Proof. apply NoDup_fmap_2; [|apply NoDup_seqZ]. intros i j H. nia. Qed.

Lemma set_pages_lookup ps v m q :
  set_pages ps v m !! q = if bool_decide (q ∈ ps) then v else m !! q.
Proof.
  induction ps as [|p ps IH]; cbn [set_pages foldr]; [by rewrite bool_decide_eq_false_2 by apply not_elem_of_nil|].
  destruct (decide (p = q)) as [->|Hne].
  - rewrite bool_decide_eq_true_2 by left. destruct v; [by rewrite lookup_insert_eq|by rewrite lookup_delete_eq].
  - assert (bool_decide (q ∈ p :: ps) = bool_decide (q ∈ ps)) as ->
      by (apply bool_decide_ext; rewrite elem_of_cons; naive_solver).
    rewrite <- IH. unfold set_pages. destruct v; [by rewrite lookup_insert_ne|by rewrite lookup_delete_ne].
Qed.
End pages.

(** ** DefaultAllocator *)

(** What [malloc(n)] promises of an answer that is not null, and what [mmap]
    promises of a mapping of [len] bytes. *)
Record malloc_ok (page_size ans n : Z) (h : Heap) : Prop := {
  malloc_pos : 0 < ans;
  malloc_aligned : ans mod 16 = 0;
  malloc_end : ans + n <= 2 ^ 64;
  malloc_fresh b k :
    blocks h !! b = Some k -> ans + Z.max n 1 <= b \/ b + Z.max k 1 <= ans;
  malloc_unmapped q :
    is_Some (pages h !! q) -> ans + Z.max n 1 <= q \/ q + page_size <= ans
}.

Record mmap_ok (page_size ans len : Z) (h : Heap) : Prop := {
  mmap_pos : 0 < ans;
  mmap_aligned : ans mod page_size = 0;
  mmap_end : ans + len <= 2 ^ 64;
  mmap_fresh q : q ∈ page_range page_size ans (len / page_size) -> pages h !! q = None;
  mmap_unused b k : blocks h !! b = Some k -> ans + len <= b \/ b + k <= ans
}.

(** The blocks of a heap and the mapped pages are disjoint and lie in the
    address space. *)
Record heap_wf (page_size : Z) (h : Heap) : Prop := {
  wf_block b n : blocks h !! b = Some n -> 0 < b /\ 0 <= n /\ b + n <= 2 ^ 64;
  wf_disjoint b1 n1 b2 n2 :
    blocks h !! b1 = Some n1 -> blocks h !! b2 = Some n2 -> b1 <> b2 ->
    b1 + n1 <= b2 \/ b2 + n2 <= b1;
  wf_aligned q : is_Some (pages h !! q) -> q mod page_size = 0;
  wf_pages q b n :
    is_Some (pages h !! q) -> blocks h !! b = Some n -> b + n <= q \/ q + page_size <= b
}.

Lemma malloc_wf ps ans n h :
  heap_wf ps h -> malloc_ok ps ans n h -> 0 <= n ->
  heap_wf ps (mkHeap (<[ans := n]> (blocks h)) (pages h) (bytes h)) /\ blocks h !! ans = None.
Proof.
  intros Hw Hm Hn. pose proof (malloc_pos _ _ _ _ Hm). pose proof (malloc_end _ _ _ _ Hm).
  assert (blocks h !! ans = None) as Hnew.
  { destruct (blocks h !! ans) as [k|] eqn:E; [|done]. apply (malloc_fresh _ _ _ _ Hm) in E. lia. }
  split; [|done]. split; cbn [blocks pages].
  - intros b k [[<- <-]|[Hne Hb]]%lookup_insert_Some; [lia|by apply (wf_block ps h Hw)].
  - intros b1 n1 b2 n2 [[<- <-]|[H1 Hb1]]%lookup_insert_Some [[<- <-]|[H2 Hb2]]%lookup_insert_Some Hne;
      [done|..]; [apply (malloc_fresh _ _ _ _ Hm) in Hb2; lia|apply (malloc_fresh _ _ _ _ Hm) in Hb1; lia|].
    by eapply (wf_disjoint ps h Hw).
  - apply Hw.
  - intros q b k Hq [[<- <-]|[Hne Hb]]%lookup_insert_Some; [|by eapply (wf_pages ps h Hw)].
    apply (malloc_unmapped _ _ _ _ Hm) in Hq. lia.
Qed.

Lemma delete_block_wf ps b h :
  heap_wf ps h -> heap_wf ps (mkHeap (delete b (blocks h)) (pages h) (bytes h)).
Proof.
  intros Hw. split; cbn [blocks pages].
  - intros b1 n [_ H]%lookup_delete_Some. by apply (wf_block ps h Hw).
  - intros b1 n1 b2 n2 [_ H1]%lookup_delete_Some [_ H2]%lookup_delete_Some. by apply (wf_disjoint ps h Hw).
  - apply Hw.
  - intros q b1 n Hq [_ H]%lookup_delete_Some. by eapply (wf_pages ps h Hw).
Qed.

(** The same blocks and no more pages. *)
Lemma heap_wf_blocks ps h h' :
  blocks h' = blocks h -> (forall q, is_Some (pages h' !! q) -> is_Some (pages h !! q)) ->
  heap_wf ps h -> heap_wf ps h'.
Proof.
  intros E Hq [H1 H2 H3 H4]. split; rewrite ?E; [done|done|by intros q ?%Hq; apply H3|].
  intros q b n ?%Hq. by apply H4.
Qed.

(** A new mapping. *)
Lemma mmap_wf ps ans g h h' :
  0 < ps -> heap_wf ps h -> mmap_ok ps ans (g * ps) h -> blocks h' = blocks h ->
  (forall q, q ∉ page_range ps ans g -> pages h' !! q = pages h !! q) -> heap_wf ps h'.
Proof.
  intros Hps Hw Hm Eb Hout. split; rewrite ?Eb; [apply Hw|apply Hw|..].
  - intros q Hq. destruct (decide (q ∈ page_range ps ans g)) as [(i & Hi & ->)%page_range_elem|Hn].
    + rewrite Z.mod_add by lia. apply Hm.
    + apply (wf_aligned ps h Hw). by rewrite <- Hout.
  - intros q b n Hq Hb. destruct (decide (q ∈ page_range ps ans g)) as [(i & Hi & ->)%page_range_elem|Hn].
    + apply (mmap_unused _ _ _ _ Hm) in Hb. nia.
    + apply (wf_pages ps h Hw); [by rewrite <- Hout|done].
Qed.

Section default.
Context (page_size : Z) (Hps : exists k, 1 <= k < 60 /\ page_size = 2 ^ k).

Lemma page_size_pos : 2 <= page_size.
Proof. destruct Hps as (k & Hk & ->). pose proof (Z.pow_le_mono_r 2 1 k). lia. Qed.

Lemma accessible_block h b n x :
  blocks h !! b = Some n -> b <= x < b + n -> accessible page_size h x = true.
Proof.
  intros Hb Hx. unfold accessible. apply orb_true_iff. left. apply existsb_exists.
  exists (b, n). split; [by apply list_elem_of_In, elem_of_map_to_list|].
  unfold in_block. simpl. rewrite !bool_decide_eq_true_2 by lia. done.
Qed.

Lemma accessible_range h b n a :
  blocks h !! b = Some n -> b <= a -> a + 8 <= b + n ->
  forallb (accessible page_size h) (seqZ a 8) = true.
Proof.
  intros Hb H1 H2. apply forallb_forall. intros x Hx%list_elem_of_In%elem_of_seqZ.
  eapply accessible_block; [done|lia].
Qed.

Lemma load_ptr_spec h b n a v :
  blocks h !! b = Some n -> b <= a -> a + 8 <= b + n -> 0 <= v < 2 ^ 64 ->
  read_bytes a 8 (bytes h) = Some (le_split 8 v) -> load_ptr page_size a h = Ok v.
Proof.
  intros Hb H1 H2 Hv Hr. unfold load_ptr. rewrite (accessible_range h b n a) by done.
  rewrite Hr. cbn [deref mbind result_bind]. by rewrite le_combine_split.
Qed.

Lemma alignedMalloc_spec ans al size h :
  1 < al -> 0 <= size -> size + al + 8 < 2 ^ 64 -> malloc_ok page_size ans (size + al + 8) h ->
  exists h', alignedMalloc page_size ans al size h = Ok (alignUp ans al, h') /\
    blocks h' = <[ans := size + al + 8]> (blocks h) /\ pages h' = pages h /\
    read_bytes (alignUp ans al + size) 8 (bytes h') = Some (le_split 8 ans) /\
    (forall x, x < alignUp ans al + size \/ alignUp ans al + size + 8 <= x -> bytes h' !! x = bytes h !! x).
Proof.
  intros Hal Hs Hov Hm. pose proof (malloc_pos _ _ _ _ Hm). pose proof (malloc_end _ _ _ _ Hm).
  destruct (alignUp_bounds ans al) as [Hb _]; [lia..|].
  unfold alignedMalloc, malloc. rewrite !bool_decide_eq_false_2 by lia.
  rewrite u64_add_idemp, (u64_small (size + al + 8)) by lia. unfold store_ptr.
  rewrite (accessible_range _ ans (size + al + 8)); [|simpl; by rewrite lookup_insert_eq|lia..].
  cbn [mbind result_bind]. eexists. split; [done|]. cbn [blocks pages bytes].
  split_and!; [done|done| |].
  - pose proof (read_write_bytes (alignUp ans al + size) (le_split 8 ans) (bytes h)) as Hr.
    by rewrite le_split_length in Hr.
  - intros x Hx. apply write_bytes_outside. rewrite le_split_length. lia.
Qed.

(** *** The invariant *)

(** The number of pages of a guarded request, guards included. *)
Definition guarded_pages (size : Z) : Z := (size + page_size - 1) / page_size + 2.

Lemma total_pages_spec size :
  0 <= size -> size + 4 * page_size <= 2 ^ 64 ->
  requested_pages page_size size = guarded_pages size - 2 /\
  total_pages page_size size true true = guarded_pages size /\
  u64 (guarded_pages size * page_size) = guarded_pages size * page_size /\ 2 <= guarded_pages size.
Proof.
  intros Hs Hov. pose proof page_size_pos as Hp. unfold total_pages, requested_pages, guarded_pages.
  rewrite u64_sub_idemp, (u64_small (size + page_size - 1)) by lia.
  set (q := (size + page_size - 1) / page_size).
  assert (0 <= q) by (apply Z.div_pos; lia).
  assert (page_size * q <= size + page_size - 1) by (apply Z.mul_div_le; lia).
  split_and!; [lia| |apply u64_small; nia|lia].
  replace (q + 1 + 1) with (q + 2) by lia. apply u64_small. nia.
Qed.

Definition good_request (r : Request) : Prop :=
  0 <= r_size r /\ (exists k, 0 <= k /\ r_alignment r = 2 ^ k) /\
  if use_guards r then r_alignment r < page_size /\ r_size r + 4 * page_size <= 2 ^ 64
  else r_size r + r_alignment r + 8 < 2 ^ 64.

(** The answer of the system to a good request. *)
Definition default_admits (ans : Z) (r : Request) (h : Heap) : Prop :=
  good_request r /\
  if use_guards r then mmap_ok page_size ans (guarded_pages (r_size r) * page_size) h
  else malloc_ok page_size ans (if bool_decide (1 < r_alignment r)
                      then r_size r + r_alignment r + 8 else r_size r) h.

(** What an allocation stands for: [o] is the allocation and the address the
    system answered. *)
Definition holds (h : Heap) (o : Allocation * Z) : Prop :=
  let '(a, b) := o in
  let r := request a in
  0 <= r_size r /\
  if use_guards r then
    ptr a = b + page_size /\ r_alignment r < page_size /\ r_size r + 4 * page_size <= 2 ^ 64 /\
    b mod page_size = 0 /\
    forall i, 0 <= i < guarded_pages (r_size r) ->
      pages h !! (b + i * page_size) = Some (bool_decide (0 < i < guarded_pages (r_size r) - 1))
  else if bool_decide (1 < r_alignment r) then
    exists n, blocks h !! b = Some n /\ b <= ptr a /\ ptr a + r_size r + 8 <= b + n /\
      read_bytes (ptr a + r_size r) 8 (bytes h) = Some (le_split 8 b)
  else ptr a = b /\ blocks h !! b = Some (r_size r).

(** The blocks and pages it occupies. *)
Definition foot (o : Allocation * Z) : list (Z + Z) :=
  let '(a, b) := o in
  if use_guards (request a) then inr <$> page_range page_size b (guarded_pages (r_size (request a)))
  else [inl b].

Record heap_inv (h : Heap) (os : list (Allocation * Z)) : Prop := {
  hi_wf : heap_wf page_size h;
  hi_holds : Forall (holds h) os;
  hi_foot : NoDup (os ≫= foot)
}.

Definition default_owns (h : Heap) (ls : list Allocation) : Prop :=
  exists os, os.*1 = ls /\ heap_inv h os.

(** [holds] only looks at the footprint. *)
Lemma holds_frame h h' o :
  (forall b n, inl b ∈ foot o -> blocks h !! b = Some n -> blocks h' !! b = Some n /\
     forall x, b <= x < b + n -> bytes h' !! x = bytes h !! x) ->
  (forall q, inr q ∈ foot o -> pages h' !! q = pages h !! q) ->
  holds h o -> holds h' o.
Proof.
  destruct o as [a b]. unfold holds, foot. intros Hb Hq [Hs Ho]. split; [done|].
  destruct (use_guards (request a)).
  - destruct Ho as (H1 & H2 & H3 & H4 & H5). split_and!; try done. intros i Hi.
    rewrite Hq; [by apply H5|]. apply list_elem_of_fmap. eexists. split; [done|].
    apply page_range_elem. exists i. split; [lia|done].
  - case_bool_decide as Hal.
    + destruct Ho as (n & H1 & H2 & H3 & H4). destruct (Hb b n) as [H5 H6]; [left|done|].
      exists n. split_and!; try done. rewrite <- H4. apply read_bytes_ext. intros x Hx. apply H6. lia.
    + destruct Ho as [H1 H2]. split; [done|]. by apply (Hb b); [left|].
Qed.

Lemma protectPage_ok p h :
  p mod page_size = 0 -> is_Some (pages h !! p) ->
  protectPage page_size p h = Ok (mkHeap (blocks h) (<[p := false]> (pages h)) (bytes h)).
Proof. intros H1 H2. unfold protectPage, mprotect_none. by rewrite !bool_decide_eq_true_2. Qed.

Lemma pagedMalloc_spec ans al size h :
  0 <= size -> al < page_size -> size + 4 * page_size <= 2 ^ 64 ->
  mmap_ok page_size ans (guarded_pages size * page_size) h ->
  exists h', pagedMalloc page_size ans al size true true h = Ok (ans + page_size, h') /\
    blocks h' = blocks h /\ bytes h' = bytes h /\
    (forall i, 0 <= i < guarded_pages size ->
       pages h' !! (ans + i * page_size) = Some (bool_decide (0 < i < guarded_pages size - 1))) /\
    (forall q, q ∉ page_range page_size ans (guarded_pages size) -> pages h' !! q = pages h !! q).
Proof.
  intros Hs Hal Hov Hm. destruct (total_pages_spec size Hs Hov) as (E1 & E2 & E3 & Hg).
  pose proof page_size_pos as Hp. pose proof (mmap_pos _ _ _ _ Hm). pose proof (mmap_end _ _ _ _ Hm).
  pose proof (mmap_aligned _ _ _ _ Hm) as Hmod. set (g := guarded_pages size) in *.
  assert (forall i, 0 <= i < g -> ans + i * page_size ∈ page_range page_size ans g) as Hin
    by (intros i Hi; apply page_range_elem; exists i; split; [lia|done]).
  assert (forall i, (ans + i * page_size) mod page_size = 0) as Hal'
    by (intros i; by rewrite Z.mod_add by lia).
  pose proof (Hin 0 ltac:(lia)) as Hin0. rewrite Z.add_0_r in Hin0.
  pose proof (Hin (g - 1) ltac:(lia)) as Hin1.
  unfold pagedMalloc. rewrite bool_decide_eq_true_2 by done. cbn [MARL_ASSERT mbind result_bind].
  unfold allocatePages, mmap. rewrite E2, E3.
  rewrite bool_decide_eq_false_2 by (unfold MAP_FAILED; nia). cbn [pages blocks bytes].
  rewrite bool_decide_eq_false_2 by (unfold MAP_FAILED; nia). cbn [negb MARL_ASSERT mbind result_bind].
  rewrite Z.div_mul by lia.
  set (m1 := set_pages _ _ _).
  assert (forall q, m1 !! q = if bool_decide (q ∈ page_range page_size ans g) then Some true else pages h !! q)
    as Hm1 by (intros q; apply set_pages_lookup).
  rewrite protectPage_ok; [|done|cbn [pages]; rewrite Hm1, bool_decide_eq_true_2 by done; eauto].
  cbn [mbind result_bind pages blocks bytes]. rewrite E1.
  replace (ans + page_size + (g - 2) * page_size) with (ans + (g - 1) * page_size) by lia.
  rewrite protectPage_ok; [|done|cbn [pages]; rewrite lookup_insert_ne by nia;
                                 rewrite Hm1, bool_decide_eq_true_2 by done; eauto].
  cbn [mbind result_bind pages blocks bytes].
  eexists. split; [done|]. cbn [pages blocks bytes]. split_and!; [done|done| |].
  - intros i Hi. destruct (decide (i = g - 1)) as [->|Hi1].
    { rewrite lookup_insert_eq. by rewrite bool_decide_eq_false_2 by lia. }
    rewrite lookup_insert_ne by nia. destruct (decide (i = 0)) as [->|Hi0].
    { rewrite Z.add_0_r, lookup_insert_eq. by rewrite bool_decide_eq_false_2 by lia. }
    rewrite lookup_insert_ne by nia. rewrite Hm1, bool_decide_eq_true_2 by by apply Hin.
    by rewrite bool_decide_eq_true_2 by lia.
  - intros q Hq. rewrite !lookup_insert_ne by (intros <-; done).
    by rewrite Hm1, bool_decide_eq_false_2.
Qed.

Lemma in_foot os o r : o ∈ os -> r ∈ foot o -> r ∈ os ≫= foot.
Proof. intros Ho Hr. apply list_elem_of_bind. by exists o. Qed.

(** A block that is live is not at a fresh address; a page that is mapped is
    not fresh. *)
Lemma holds_block h o b : holds h o -> inl b ∈ foot o -> is_Some (blocks h !! b).
Proof.
  destruct o as [a c]. unfold holds, foot. intros [_ Ho]. destruct (use_guards (request a)).
  - intros (? & ? & _)%list_elem_of_fmap. done.
  - intros [= ->]%list_elem_of_singleton. case_bool_decide; [destruct Ho as (n & -> & _)|destruct Ho as [_ ->]]; eauto.
Qed.

Lemma holds_page h o q : holds h o -> inr q ∈ foot o -> is_Some (pages h !! q).
Proof.
  destruct o as [a c]. unfold holds, foot. intros [_ Ho]. destruct (use_guards (request a)).
  - intros (p & [= <-] & (i & Hi & ->)%page_range_elem)%list_elem_of_fmap.
    destruct Ho as (_ & _ & _ & _ & Ho). rewrite Ho by lia. eauto.
  - by intros ?%list_elem_of_singleton.
Qed.

(** A new allocation in memory that was not in use. *)
Lemma inv_add h h' os o :
  heap_inv h os -> heap_wf page_size h' -> holds h' o -> NoDup (foot o) ->
  (forall b, inl b ∈ foot o -> blocks h !! b = None) ->
  (forall q, inr q ∈ foot o -> pages h !! q = None) ->
  (forall b n, blocks h !! b = Some n -> blocks h' !! b = Some n /\
     forall x, b <= x < b + n -> bytes h' !! x = bytes h !! x) ->
  (forall q, is_Some (pages h !! q) -> pages h' !! q = pages h !! q) ->
  heap_inv h' (o :: os).
Proof.
  intros HI Hw Ho Hnd Hb Hq Fb Fq. pose proof (hi_holds _ _ HI) as Hos. rewrite Forall_forall in Hos.
  split; [done| |].
  - constructor; [done|]. apply Forall_forall. intros o' Ho'. apply (holds_frame h); [| |by apply Hos].
    + intros b n _ Hbn. by apply Fb.
    + intros q Hin. apply Fq. by eapply holds_page; [apply Hos|].
  - rewrite bind_cons. apply NoDup_app. split_and!; [done| |apply HI].
    intros [b|q] Hin (o' & Hin' & Ho')%list_elem_of_bind.
    + destruct (holds_block h o' b (Hos _ Ho') Hin') as [n Hn]. by rewrite Hb in Hn.
    + destruct (holds_page h o' q (Hos _ Ho') Hin') as [n Hn]. by rewrite Hq in Hn.
Qed.

Lemma page_size_aligned al p :
  (exists k, 0 <= k /\ al = 2 ^ k) -> al < page_size -> p mod page_size = 0 -> p mod al = 0.
Proof.
  intros (k & Hk & ->) Hlt Hp. destruct Hps as (j & Hj & Ej). rewrite Ej in *.
  assert (k < j) by (apply (Z.pow_lt_mono_r_iff 2); lia).
  apply Z.mod_divide in Hp as [q ->]; [|lia]. apply Z.mod_divide; [lia|].
  exists (q * 2 ^ (j - k)). rewrite <- Z.mul_assoc, <- Z.pow_add_r by lia. do 2 f_equal. lia.
Qed.

(** The checks at the end of [allocate]. *)
Lemma default_allocate_checks ans r h p h' :
  (if use_guards r then pagedMalloc page_size ans (r_alignment r) (r_size r) true true h
   else if bool_decide (1 < r_alignment r) then alignedMalloc page_size ans (r_alignment r) (r_size r) h
   else Ok (malloc ans (r_size r) h)) = Ok (p, h') ->
  0 < p -> 0 < r_alignment r -> p mod r_alignment r = 0 ->
  default_allocate page_size ans r h = Ok (mkAllocation p r, h').
Proof.
  intros E Hp Hal Hm. unfold default_allocate. rewrite E. cbn [mbind result_bind].
  rewrite (bool_decide_eq_false_2 (p = 0)) by lia. cbn [negb MARL_ASSERT mbind result_bind].
  rewrite (bool_decide_eq_false_2 (r_alignment r = 0)) by lia. cbn [mbind result_bind].
  rewrite Hm. done.
Qed.

(** Taking the footprint away again gives the old blocks and pages. *)
Definition restores (h h' : Heap) (o : Allocation * Z) : Prop :=
  if use_guards (request o.1)
  then blocks h' = blocks h /\
       set_pages (page_range page_size o.2 (guarded_pages (r_size (request o.1)))) None (pages h') = pages h
  else delete o.2 (blocks h') = blocks h /\ pages h' = pages h.

Lemma default_allocate_guarded h os ans r :
  heap_inv h os -> default_admits ans r h -> use_guards r = true ->
  exists h', default_allocate page_size ans r h = Ok (mkAllocation (ans + page_size) r, h') /\
    heap_inv h' ((mkAllocation (ans + page_size) r, ans) :: os) /\ restores h h' (mkAllocation (ans + page_size) r, ans).
Proof.
  intros HI [(Hs & Hal & Hg) Hm] Eg. rewrite Eg in Hg, Hm. destruct Hg as [Hlt Hov].
  destruct (pagedMalloc_spec ans (r_alignment r) (r_size r) h Hs Hlt Hov Hm)
    as (h' & E & Eb & Ey & Hin & Hout).
  pose proof (mmap_aligned _ _ _ _ Hm) as Hmod. pose proof (mmap_pos _ _ _ _ Hm).
  pose proof page_size_pos as Hp. exists h'. split_and!.
  - apply default_allocate_checks; [by rewrite Eg|lia|destruct Hal as (k & Hk & ->); lia|].
    apply page_size_aligned; [done|done|]. rewrite <- Zplus_mod_idemp_l, Hmod. apply Z.mod_same. lia.
  - apply (inv_add h); [done|eapply mmap_wf; [|apply HI|exact Hm|done..]; lia|..]; unfold foot; simpl; rewrite ?Eg.
    + done.
    + apply NoDup_fmap_2; [by intros ? ? [= ->]|apply page_range_NoDup; lia].
    + by intros b (? & ? & _)%list_elem_of_fmap.
    + intros q (p & [= ->] & Hq)%list_elem_of_fmap. apply (mmap_fresh _ _ _ _ Hm).
      by rewrite Z.div_mul by lia.
    + intros b n Hb. by rewrite Eb, Ey.
    + intros q [v Hv]. apply Hout. intros Hq. rewrite <- (Z.div_mul (guarded_pages (r_size r)) page_size) in Hq by lia.
      apply (mmap_fresh _ _ _ _ Hm) in Hq. congruence.
  - unfold restores. simpl. rewrite Eg. split; [done|]. apply map_eq. intros q. rewrite set_pages_lookup.
    case_bool_decide as Hq; [|by apply Hout]. symmetry. apply (mmap_fresh _ _ _ _ Hm).
    by rewrite Z.div_mul by lia.
Qed.

(** The memory a new block takes is not that of another block. *)
Lemma malloc_apart ans n h b k x :
  malloc_ok page_size ans n h -> blocks h !! b = Some k -> b <= x < b + k -> x < ans \/ ans + n <= x.
Proof. intros Hm Hb Hx. apply (malloc_fresh _ _ _ _ Hm) in Hb. lia. Qed.

Lemma default_allocate_aligned h os ans r :
  heap_inv h os -> default_admits ans r h -> use_guards r = false -> 1 < r_alignment r ->
  exists h', default_allocate page_size ans r h = Ok (mkAllocation (alignUp ans (r_alignment r)) r, h') /\
    heap_inv h' ((mkAllocation (alignUp ans (r_alignment r)) r, ans) :: os) /\ restores h h' (mkAllocation (alignUp ans (r_alignment r)) r, ans).
Proof.
  intros HI [(Hs & Hal & Hg) Hm] Eg Hgt. rewrite Eg in Hg, Hm. rewrite bool_decide_eq_true_2 in Hm by done.
  destruct (alignedMalloc_spec ans (r_alignment r) (r_size r) h Hgt Hs Hg Hm)
    as (h' & E & Eb & Ep & Hrd & Hout).
  pose proof (malloc_pos _ _ _ _ Hm). pose proof (malloc_end _ _ _ _ Hm).
  destruct (alignUp_bounds ans (r_alignment r)) as [Hb Hmod]; [lia..|].
  destruct (malloc_wf page_size ans _ h (hi_wf _ _ HI) Hm) as [Hw Hnew]; [lia|].
  exists h'. split_and!.
  - apply default_allocate_checks; [by rewrite Eg, bool_decide_eq_true_2|lia..|done].
  - apply (inv_add h); [done|eapply heap_wf_blocks; [| |exact Hw]; [done|by rewrite Ep]|..]; unfold foot; simpl; rewrite ?Eg.
    + split; [done|]. rewrite bool_decide_eq_true_2 by done.
      eexists. rewrite Eb, lookup_insert_eq. split; [done|]. split_and!; [lia|lia|done].
    + apply NoDup_singleton.
    + by intros b [= ->]%list_elem_of_singleton.
    + by intros q ?%list_elem_of_singleton.
    + intros b n Hbn. rewrite Eb. split; [rewrite lookup_insert_ne; [done|congruence]|].
      intros x Hx. apply Hout. destruct (malloc_apart _ _ _ _ _ x Hm Hbn Hx); lia.
    + by rewrite Ep.
  - unfold restores. simpl. rewrite Eg, Eb. by rewrite delete_insert_id.
Qed.

Lemma default_allocate_plain h os ans r :
  heap_inv h os -> default_admits ans r h -> use_guards r = false -> r_alignment r <= 1 ->
  exists h', default_allocate page_size ans r h = Ok (mkAllocation ans r, h') /\
    heap_inv h' ((mkAllocation ans r, ans) :: os) /\ restores h h' (mkAllocation ans r, ans).
Proof.
  intros HI [(Hs & (k & Hk & Hal) & Hg) Hm] Eg Hle. rewrite Eg in Hm.
  rewrite bool_decide_eq_false_2 in Hm by lia. pose proof (malloc_pos _ _ _ _ Hm).
  assert (0 < 2 ^ k) by lia.
  destruct (malloc_wf page_size ans _ h (hi_wf _ _ HI) Hm Hs) as [Hw Hnew].
  eexists. split_and!.
  - apply default_allocate_checks; [|lia|lia|].
    + rewrite Eg, bool_decide_eq_false_2 by lia. unfold malloc. by rewrite bool_decide_eq_false_2 by lia.
    + assert (r_alignment r = 1) as -> by lia. apply Z.mod_1_r.
  - apply (inv_add h); [done|done|..]; unfold foot; simpl; rewrite ?Eg; try done.
    + split; [done|]. rewrite bool_decide_eq_false_2 by lia. by rewrite lookup_insert_eq.
    + apply NoDup_singleton.
    + by intros b [= ->]%list_elem_of_singleton.
    + by intros q ?%list_elem_of_singleton.
    + intros b n Hbn. split; [rewrite lookup_insert_ne; [done|congruence]|done].
  - unfold restores. simpl. rewrite Eg. by rewrite delete_insert_id.
Qed.

Lemma default_allocate_inv h os ans r :
  heap_inv h os -> default_admits ans r h ->
  exists p b h', default_allocate page_size ans r h = Ok (mkAllocation p r, h') /\
    heap_inv h' ((mkAllocation p r, b) :: os) /\ restores h h' (mkAllocation p r, b).
Proof.
  intros HI Ha. destruct (use_guards r) eqn:Eg; [|destruct (decide (1 < r_alignment r))].
  - destruct (default_allocate_guarded h os ans r HI Ha Eg) as (h' & ?). by eexists _, _, h'.
  - destruct (default_allocate_aligned h os ans r HI Ha Eg) as (h' & ?); [done|]. by eexists _, _, h'.
  - destruct (default_allocate_plain h os ans r HI Ha Eg) as (h' & ?); [lia|]. by eexists _, _, h'.
Qed.

Lemma default_allocate_law h ls ans r :
  default_owns h ls -> default_admits ans r h ->
  exists a h', default_allocate page_size ans r h = Ok (a, h') /\ request a = r /\ default_owns h' (a :: ls).
Proof.
  intros (os & <- & HI) Ha. destruct (default_allocate_inv h os ans r HI Ha) as (p & b & h' & E & HI' & _).
  eexists _, h'. split_and!; [done|done|]. by exists ((mkAllocation p r, b) :: os).
Qed.

(** The pointer is aligned: [allocate] asserts it. *)
Lemma default_allocate_aligned_ptr ans r h a h' :
  default_allocate page_size ans r h = Ok (a, h') -> request a = r /\ ptr a mod r_alignment r = 0.
Proof.
  unfold default_allocate. intros H. inv_ok H. destruct a0 as [p h1]. inv_ok H. inv_ok H.
  inv_ok H. simplify_eq/=. split; [done|]. repeat case_bool_decide; simplify_eq/=; done.
Qed.

(** *** Freeing *)
Lemma default_free_spec h a b :
  heap_wf page_size h -> holds h (a, b) ->
  default_free page_size a h =
    Ok (if use_guards (request a)
        then mkHeap (blocks h)
               (set_pages (page_range page_size b (guarded_pages (r_size (request a)))) None (pages h)) (bytes h)
        else mkHeap (delete b (blocks h)) (pages h) (bytes h)).
Proof.
  intros Hw [Hs Ho]. unfold default_free. destruct (use_guards (request a)).
  - destruct Ho as (Hp & Hal & Hov & Hmod & _). pose proof page_size_pos as Hps2.
    destruct (total_pages_spec (r_size (request a)) Hs Hov) as (_ & E2 & E3 & Hg).
    unfold pagedFree. rewrite bool_decide_eq_true_2 by done. cbn [MARL_ASSERT mbind result_bind].
    unfold freePages, munmap. rewrite E2, E3, Hp. replace (b + page_size - page_size) with b by lia.
    rewrite !bool_decide_eq_true_2 by (done || nia). cbn [andb MARL_ASSERT mbind result_bind].
    by rewrite Z.div_mul by lia.
  - case_bool_decide.
    + destruct Ho as (n & Hb & H1 & H2 & H3). pose proof (wf_block _ h Hw b n Hb).
      unfold alignedFree. rewrite (load_ptr_spec h b n _ b) by (done || lia). cbn [mbind result_bind].
      unfold c_free. by rewrite bool_decide_eq_false_2, bool_decide_eq_true_2 by (eauto || lia).
    + destruct Ho as [-> Hb]. pose proof (wf_block _ h Hw b _ Hb).
      unfold c_free. by rewrite bool_decide_eq_false_2, bool_decide_eq_true_2 by (eauto || lia).
Qed.

Lemma inv_remove h h' os1 o os2 :
  heap_inv h (os1 ++ o :: os2) -> heap_wf page_size h' -> bytes h' = bytes h ->
  (forall c, inl c ∉ foot o -> blocks h' !! c = blocks h !! c) ->
  (forall q, inr q ∉ foot o -> pages h' !! q = pages h !! q) ->
  heap_inv h' (os1 ++ os2).
Proof.
  intros HI Hw Hy Hb Hq.
  assert (os1 ++ o :: os2 ≡ₚ o :: os1 ++ os2) as HP by (symmetry; apply Permutation_middle).
  pose proof (hi_foot _ _ HI) as Hnd. rewrite HP, bind_cons in Hnd. apply NoDup_app in Hnd as (_ & Hd & Hnd).
  pose proof (hi_holds _ _ HI) as Hos. rewrite HP in Hos. apply Forall_cons in Hos as [_ Hos].
  split; [done| |done]. rewrite Forall_forall in Hos |- *. intros o' Ho'.
  assert (forall x, x ∈ foot o' -> x ∉ foot o) as Hdis.
  { intros x Hx Hx'. apply (Hd x Hx'). by eapply in_foot. }
  apply (holds_frame h); [| |by apply Hos].
  - intros c n Hc Hn. rewrite Hb, Hy by by apply Hdis. done.
  - intros q Hin. apply Hq. by apply Hdis.
Qed.

Lemma default_free_inv h os1 a b os2 :
  heap_inv h (os1 ++ (a, b) :: os2) ->
  exists h', default_free page_size a h = Ok h' /\ heap_inv h' (os1 ++ os2).
Proof.
  intros HI. pose proof (hi_holds _ _ HI) as Hos. apply Forall_app in Hos as [_ [Ho _]%Forall_cons].
  rewrite (default_free_spec h a b (hi_wf _ _ HI) Ho). eexists. split; [done|].
  eapply inv_remove; [done|..]; unfold foot; destruct (use_guards (request a)); cbn [blocks pages bytes]; try done.
  - apply (heap_wf_blocks _ h); [done| |apply HI]. cbn [pages]. intros q. rewrite set_pages_lookup.
    case_bool_decide; [by intros []|done].
  - apply delete_block_wf, HI.
  - intros c Hc. apply lookup_delete_ne. intros ->. apply Hc. left.
  - intros q Hq. rewrite set_pages_lookup, bool_decide_eq_false_2; [done|].
    intros Hin. apply Hq. by apply list_elem_of_fmap_2.
Qed.

Lemma default_free_law h ls1 a ls2 :
  default_owns h (ls1 ++ a :: ls2) ->
  exists h', default_free page_size a h = Ok h' /\ default_owns h' (ls1 ++ ls2).
Proof.
  intros (os & Hos & HI). apply fmap_app_inv in Hos as (os1 & os' & -> & Hos' & ->).
  destruct os' as [|[a' b] os2]; [done|]. rewrite fmap_cons in Hos'. injection Hos' as -> ->. cbn [fst].
  destruct (default_free_inv h os1 a' b os2 HI) as (h' & E & HI'). exists h'. split; [done|].
  exists (os1 ++ os2). by rewrite fmap_app.
Qed.

(** *** The client's writes *)
Definition write_byte (x v : Z) (h : Heap) : Heap :=
  mkHeap (blocks h) (pages h) (<[x := v]> (bytes h)).

(** The byte [x] of an allocation in one of its pages. *)
Lemma guarded_byte h a b x :
  holds h (a, b) -> use_guards (request a) = true -> ptr a <= x < ptr a + r_size (request a) ->
  exists q, q <= x < q + page_size /\ q mod page_size = 0 /\ pages h !! q = Some true.
Proof.
  intros [Hs Ho] Eg Hx. rewrite Eg in Ho. destruct Ho as (Hp & _ & _ & Hmod & Hpg).
  pose proof page_size_pos as Hps2. unfold guarded_pages in Hpg.
  set (i := (x - b) / page_size).
  assert (page_size * i <= x - b < page_size * i + page_size) as Hi.
  { pose proof (Z.mul_div_le (x - b) page_size). pose proof (Z.mul_succ_div_gt (x - b) page_size). lia. }
  set (n := (r_size (request a) + page_size - 1) / page_size) in *.
  assert (r_size (request a) <= page_size * n) as Hn.
  { pose proof (Z.mul_succ_div_gt (r_size (request a) + page_size - 1) page_size). lia. }
  exists (b + i * page_size). split_and!; [lia|lia|by rewrite Z.mod_add by lia|].
  rewrite Hpg by nia. by rewrite bool_decide_eq_true_2 by nia.
Qed.

(** An address inside an allocation is not inside the block of another one. *)
Lemma owned_apart h os a b x a' b' n' :
  heap_inv h os -> (a, b) ∈ os -> ptr a <= x < ptr a + r_size (request a) ->
  (a', b') ∈ os -> use_guards (request a') = false -> blocks h !! b' = Some n' -> a <> a' ->
  x < b' \/ b' + n' <= x.
Proof.
  intros HI Ho Hx Ho' Eg' Hn' Haa. pose proof (hi_holds _ _ HI) as Hos. rewrite Forall_forall in Hos.
  destruct (use_guards (request a)) eqn:Eg.
  { destruct (guarded_byte h a b x (Hos _ Ho) Eg Hx) as (q & Hq & _ & Hqp).
    destruct (wf_pages _ h (hi_wf _ _ HI) q b' n'); [eauto|done|lia..]. }
  assert (exists n, blocks h !! b = Some n /\ b <= x < b + n) as (n & Hn & Hxn).
  { destruct (Hos _ Ho) as [_ H]. simpl in H. rewrite Eg in H. case_bool_decide.
    - destruct H as (n & ? & ? & ? & _). exists n. split; [done|lia].
    - destruct H as [<- ?]. eexists. split; [done|lia]. }
  destruct (decide (b = b')) as [<-|Hne]; [|destruct (wf_disjoint _ h (hi_wf _ _ HI) b n b' n' Hn Hn' Hne); lia].
  exfalso. assert (inl b ∈ foot (a, b) /\ inl b ∈ foot (a', b)) as [Hf Hf']
    by (unfold foot; rewrite Eg, Eg'; split; left).
  apply list_elem_of_split in Ho as (os1 & os2 & ->).
  pose proof (hi_foot _ _ HI) as Hnd. rewrite (Permutation_app_comm os1) in Hnd. simpl app in Hnd.
  rewrite bind_cons in Hnd. apply NoDup_app in Hnd as (_ & Hd & _). apply (Hd _ Hf).
  apply (in_foot _ (a', b)); [|done]. apply elem_of_app in Ho' as [?|[Heq|?]%elem_of_cons]; [set_solver|congruence|set_solver].
Qed.

(** Writing inside an allocation keeps all of them intact. *)
Lemma write_byte_inv h os a b x v :
  heap_inv h os -> (a, b) ∈ os -> ptr a <= x < ptr a + r_size (request a) ->
  heap_inv (write_byte x v h) os.
Proof.
  intros HI Ho Hx. pose proof (hi_holds _ _ HI) as Hos. rewrite Forall_forall in Hos.
  split; [by apply (heap_wf_blocks _ h), HI| |apply HI]. apply Forall_forall. intros [a' b'] Ho'.
  destruct (Hos _ Ho') as [Hs H]. split; [done|]. destruct (use_guards (request a')) eqn:Eg'; [done|].
  case_bool_decide; [|done]. destruct H as (n' & Hn' & H1 & H2 & H3). exists n'. split_and!; try done.
  rewrite <- H3. apply read_bytes_ext. intros y Hy. apply lookup_insert_ne. intros <-.
  destruct (decide (a = a')) as [<-|Haa]; [lia|].
  destruct (owned_apart h os a b x a' b' n' HI Ho Hx Ho' Eg' Hn' Haa); lia.
Qed.

Definition write_all (ws : list (Z * Z)) (h : Heap) : Heap :=
  foldr (fun w h => write_byte w.1 w.2 h) h ws.

Lemma write_all_inv h os a b ws :
  heap_inv h os -> (a, b) ∈ os -> Forall (fun w => ptr a <= w.1 < ptr a + r_size (request a)) ws ->
  heap_inv (write_all ws h) os.
Proof.
  intros HI Ho. induction 1 as [|w ws Hw _ IH]; [done|]. simpl. by eapply write_byte_inv.
Qed.

Lemma write_all_same ws h : blocks (write_all ws h) = blocks h /\ pages (write_all ws h) = pages h.
Proof. induction ws as [|w ws IH]; simpl; [done|apply IH]. Qed.

(** *** Access *)
Lemma page_of x q : q mod page_size = 0 -> q <= x < q + page_size -> x - x mod page_size = q.
Proof.
  intros Hq Hx. pose proof page_size_pos. apply Z.mod_divide in Hq as [k ->]; [|lia].
  rewrite Z.mod_eq by lia. replace (x / page_size) with k; [lia|]. apply Z.div_unique with (x - k * page_size); lia.
Qed.

Lemma accessible_owned h a b x :
  holds h (a, b) -> ptr a <= x < ptr a + r_size (request a) -> accessible page_size h x = true.
Proof.
  intros Ho Hx. destruct (use_guards (request a)) eqn:Eg.
  - destruct (guarded_byte h a b x Ho Eg Hx) as (q & Hq & Hmod & Hqp).
    unfold accessible. rewrite (page_of x q Hmod Hq), Hqp. apply orb_true_r.
  - destruct Ho as [_ H]. rewrite Eg in H. case_bool_decide.
    + destruct H as (n & Hn & ? & ? & _). apply (accessible_block h b n); [done|lia].
    + destruct H as [<- Hn]. apply (accessible_block h _ _ _ Hn). lia.
Qed.

Lemma guard_faults h q x :
  heap_wf page_size h -> pages h !! q = Some false -> q <= x < q + page_size ->
  accessible page_size h x = false.
Proof.
  intros Hw Hq Hx. unfold accessible. apply orb_false_iff. split.
  - apply not_true_iff_false. intros ([b n] & Hin & Hb)%existsb_exists.
    apply list_elem_of_In, elem_of_map_to_list in Hin. unfold in_block in Hb. simpl in Hb.
    apply andb_true_iff in Hb as [H1%bool_decide_eq_true H2%bool_decide_eq_true].
    destruct (wf_pages _ h Hw q b n); [eauto|done|lia..].
  - rewrite (page_of x q), Hq; [done| |done]. apply (wf_aligned _ h Hw). eauto.
Qed.
End default.

(** C32. [DefaultAllocator] on every kind of request: memory with the alignment
    asked for, all of it accessible and disjoint from every other outstanding
    allocation; with guards, the byte before it and the bytes from the end of
    its last page on fault.  Whatever its owner writes inside it, freeing it
    succeeds, gives back exactly the block or the pages it was made of, and
    leaves the other allocations intact. *)
Theorem default_allocator_correct page_size h ls ans r :
  (exists k, 1 <= k < 60 /\ page_size = 2 ^ k) ->
  default_owns page_size h ls -> default_admits page_size ans r h ->
  exists a h', default_allocate page_size ans r h = Ok (a, h') /\ request a = r /\
    ptr a mod r_alignment r = 0 /\ default_owns page_size h' (a :: ls) /\
    (forall x, ptr a <= x < ptr a + r_size r -> accessible page_size h' x = true) /\
    (use_guards r = true ->
     accessible page_size h' (ptr a - 1) = false /\
     accessible page_size h' (ptr a + requested_pages page_size (r_size r) * page_size) = false) /\
    (forall ws, Forall (fun w => ptr a <= w.1 < ptr a + r_size r) ws ->
     exists h'', default_free page_size a (write_all ws h') = Ok h'' /\
       blocks h'' = blocks h /\ pages h'' = pages h /\ default_owns page_size h'' ls).
Proof.
  intros Hps (os & <- & HI) Ha.
  destruct (default_allocate_inv page_size Hps h os ans r HI Ha) as (p & b & h' & E & HI' & HR).
  pose proof (hi_holds _ _ _ HI') as [Ho _]%Forall_cons.
  exists (mkAllocation p r), h'. split_and!; [done|done|by eapply default_allocate_aligned_ptr|..].
  - by exists ((mkAllocation p r, b) :: os).
  - intros x Hx. by apply (accessible_owned page_size Hps h' (mkAllocation p r) b).
  - intros Eg. destruct Ho as [Hs Ho]. simpl in Ho. rewrite Eg in Ho.
    destruct Ho as (Hp & _ & Hov & _ & Hpg). pose proof (page_size_pos page_size Hps).
    destruct (total_pages_spec page_size Hps (r_size r) Hs Hov) as (E1 & _ & _ & Hg). simpl ptr. split.
    + apply (guard_faults page_size Hps h' b); [apply HI'| |lia].
      pose proof (Hpg 0) as H0. rewrite Z.add_0_r in H0. rewrite H0 by lia. by rewrite bool_decide_eq_false_2 by lia.
    + set (g := guarded_pages page_size (r_size r)) in *. rewrite E1.
      apply (guard_faults page_size Hps h' (b + (g - 1) * page_size)); [apply HI'| |lia].
      rewrite Hpg by lia. by rewrite bool_decide_eq_false_2 by lia.
  - intros ws Hws.
    pose proof (write_all_inv page_size Hps h' _ _ b ws HI' ltac:(left) Hws) as HIw.
    pose proof (hi_holds _ _ _ HIw) as [How _]%Forall_cons.
    destruct (write_all_same ws h') as [Eb Ep].
    destruct (default_free_inv page_size Hps _ [] _ b os HIw) as (h'' & Ef & HI'').
    exists h''. split; [done|]. rewrite (default_free_spec page_size Hps _ _ b (hi_wf _ _ _ HIw) How) in Ef.
    injection Ef as <-. rewrite Eb, Ep in *. unfold restores in HR. simpl in *.
    destruct (use_guards r); cbn [blocks pages]; destruct HR as [? ?]; split_and!; try done; by exists os.
Qed.

Lemma empty_owns page_size : default_owns page_size (mkHeap ∅ ∅ ∅) [].
Proof.
  exists []. split; [done|]. split; [|constructor|apply NoDup_nil_2].
  split; intros *; simpl; rewrite ?lookup_empty; try done; by intros [].
Qed.

Lemma empty_malloc page_size ans n :
  0 < ans -> ans mod 16 = 0 -> ans + n <= 2 ^ 64 -> malloc_ok page_size ans n (mkHeap ∅ ∅ ∅).
Proof. intros. split; try done; intros *; simpl; rewrite lookup_empty; (done || by intros []). Qed.

(** A fiber stack of 16 KiB between guard pages. *)
Lemma default_allocator_correct_witness :
  exists a h', default_allocate 4096 65536 (mkRequest 16384 16 true UStack) (mkHeap ∅ ∅ ∅) = Ok (a, h') /\
    ptr a = 69632 /\ accessible 4096 h' (ptr a - 1) = false.
Proof.
  destruct (default_allocator_correct 4096 (mkHeap ∅ ∅ ∅) [] 65536 (mkRequest 16384 16 true UStack))
    as (a & h' & E & _ & _ & _ & _ & Hg & _).
  - exists 12. split; [lia|reflexivity].
  - apply empty_owns.
  - split.
    + split; [simpl; lia|]. split; [exists 4; split; [lia|reflexivity]|]. simpl. lia.
    + split; try (vm_compute; congruence); intros *; simpl; rewrite lookup_empty; done.
  - exists a, h'. split; [exact E|]. split; [|apply Hg; reflexivity].
    vm_compute in E. injection E as <- _. reflexivity.
Defined.
