(* ===== verification/Allocators.v ===== *)
(** The allocators as instances of the interface of Memory.v, and its clients:
    [TrackedAllocator], [Allocator::create], [destroy], [make_unique] with its
    [Deleter], and [StlAllocator] (src/include/marl/memory.hpp). *)
From stdpp Require Import base numbers strings gmap list.
From S2P Require Import Prelude Memory MemoryProps.

Local Open Scope Z_scope.

(** ** DefaultAllocator *)
Definition DefaultAllocator (page_size : Z) : Allocator Z Heap := {|
  allocate := default_allocate page_size;
  free := default_free page_size
|}.

Definition DefaultAllocator_laws (page_size : Z) (Hps : exists k, 1 <= k < 60 /\ page_size = 2 ^ k)
  : @AllocatorLaws Z Heap (DefaultAllocator page_size) :=
  @Build_AllocatorLaws Z Heap (DefaultAllocator page_size) (default_owns page_size)
    (default_admits page_size) (default_allocate_law page_size Hps) (default_free_law page_size Hps).

(** ** TrackedAllocator *)
Record UsageStats := mkStats { s_count : Z; s_bytes : Z }.

(** [Stats::by_usage], an array of [Usage::Count] entries. *)
Abbreviation Stats := (list UsageStats).

Definition stats_new : Stats := replicate usage_Count (mkStats 0 0).

Definition numAllocations (st : Stats) : Z := foldl (fun out s => u64 (out + s_count s)) 0 st.
Definition bytesAllocated (st : Stats) : Z := foldl (fun out s => u64 (out + s_bytes s)) 0 st.

(** The blocks of [allocate] and [free] that hold [mutex_]. *)
Definition count_allocate (r : Request) (st : Stats) : Result Stats :=
  let u := usage_int (usage r) in
  us ← deref (st !! u) "by_usage index";
  Ok (<[u := mkStats (u64 (s_count us + 1)) (u64 (s_bytes us + r_size r))]> st).

Definition count_free (r : Request) (st : Stats) : Result Stats :=
  let u := usage_int (usage r) in
  us ← deref (st !! u) "by_usage index";
  _ ← MARL_ASSERT (bool_decide (s_count us > 0)) "TrackedAllocator detected abnormal free()";
  _ ← MARL_ASSERT (bool_decide (s_bytes us >= r_size r)) "TrackedAllocator detected abnormal free()";
  Ok (<[u := mkStats (u64 (s_count us - 1)) (u64 (s_bytes us - r_size r))]> st).

Section tracked.
Context {Env S : Type} `{!Allocator Env S}.

(** The state: [stats_] and the state of the wrapped allocator. *)
Definition tracked_allocate (e : Env) (r : Request) (s : Stats * S) : Result (Allocation * (Stats * S)) :=
  let '(st, s) := s in
  st ← count_allocate r st;
  '(a, s) ← allocate e r s;
  Ok (a, (st, s)).

Definition tracked_free (a : Allocation) (s : Stats * S) : Result (Stats * S) :=
  let '(st, s) := s in
  st ← count_free (request a) st;
  s ← free a s;
  Ok (st, s).

Global Instance TrackedAllocator : Allocator Env (Stats * S) := {|
  allocate := tracked_allocate;
  free := tracked_free
|}.
End tracked.

(** ** The clients of the interface *)
Section clients.
Context {Env S : Type} `{!Allocator Env S}.

Definition create_request (sizeof alignof : Z) : Request := mkRequest sizeof alignof false UCreate.

(** [create<T>] and [destroy<T>]: the calls of the constructor and the
    destructor of [T] leave the allocator alone. *)
Definition create (e : Env) (sizeof alignof : Z) (s : S) : Result (Z * S) :=
  '(a, s) ← allocate e (create_request sizeof alignof) s;
  Ok (ptr a, s).

Definition destroy (object sizeof alignof : Z) (s : S) : Result S :=
  free (mkAllocation object (create_request sizeof alignof)) s.

(** [make_unique_n<T>(n)]: the pointer and the [count] of its [Deleter]; of no
    objects, a null pointer with a [Deleter] that was not given a count. *)
Definition make_unique_n (e : Env) (n sizeof alignof : Z) (s : S) : Result (Z * Z * S) :=
  if bool_decide (n = 0) then Ok (0, 0, s)
  else
    '(a, s) ← allocate e (create_request (u64 (sizeof * n)) alignof) s;
    Ok (ptr a, n, s).

(** The addresses at which [make_unique_n] calls the constructor. *)
Definition make_unique_n_constructs (p n sizeof : Z) : list Z := (fun i => p + i * sizeof) <$> seqZ 0 n.

Definition make_unique (e : Env) (sizeof alignof : Z) (s : S) : Result (Z * Z * S) :=
  make_unique_n e 1 sizeof alignof s.

Definition make_shared (e : Env) (sizeof alignof : Z) (s : S) : Result (Z * Z * S) :=
  '(a, s) ← allocate e (create_request sizeof alignof) s;
  Ok (ptr a, 1, s).

(** [Deleter::operator()], with the addresses at which it calls the destructor; the
    [alignment] of its request keeps its initial value 0. *)
Definition Deleter_destroys (object : Z) : list Z := [object].

Definition Deleter_call (object count sizeof : Z) (s : S) : Result (list Z * S) :=
  let destroyed := Deleter_destroys object in
  s ← free (mkAllocation object (mkRequest (u64 (sizeof * count)) 0 false UCreate)) s;
  Ok (destroyed, s).

(** [StlAllocator<T>]. *)
Definition stl_request (n sizeof alignof : Z) : Request :=
  mkRequest (u64 (sizeof * n)) alignof false UStl.

Definition stl_allocate (e : Env) (n sizeof alignof : Z) (s : S) : Result (Z * S) :=
  '(a, s) ← allocate e (stl_request n sizeof alignof) s;
  Ok (ptr a, s).

Definition stl_deallocate (p n sizeof alignof : Z) (s : S) : Result S :=
  free (mkAllocation p (stl_request n sizeof alignof)) s.

(** [operator==] of two [StlAllocator]s, whatever allocators they wrap. *)
Definition stl_eq {A : Type} (x y : A) : bool := true.

Definition stl_max_size (sizeof : Z) : Z := (2 ^ 64 - 1) / sizeof.
End clients.

(** ** The statistics *)
Fixpoint usage_count (u : Usage) (ls : list Allocation) : Z :=
  match ls with
  | [] => 0
  | a :: ls => (if bool_decide (usage (request a) = u) then 1 else 0) + usage_count u ls
  end.

Fixpoint usage_bytes (u : Usage) (ls : list Allocation) : Z :=
  match ls with
  | [] => 0
  | a :: ls => (if bool_decide (usage (request a) = u) then r_size (request a) else 0) + usage_bytes u ls
  end.

Definition total_bytes (ls : list Allocation) : Z := foldr (fun a n => r_size (request a) + n) 0 ls.

Lemma usage_count_app u l1 l2 : usage_count u (l1 ++ l2) = usage_count u l1 + usage_count u l2.
Proof. induction l1 as [|a l1 IH]; simpl; [done|rewrite IH; lia]. Qed.
Lemma usage_bytes_app u l1 l2 : usage_bytes u (l1 ++ l2) = usage_bytes u l1 + usage_bytes u l2.
Proof. induction l1 as [|a l1 IH]; simpl; [done|rewrite IH; lia]. Qed.

Lemma usage_count_nonneg u ls : 0 <= usage_count u ls.
Proof. induction ls as [|a ls IH]; simpl; [lia|case_bool_decide; lia]. Qed.
Lemma usage_bytes_nonneg u ls :
  Forall (fun a => 0 <= r_size (request a)) ls -> 0 <= usage_bytes u ls.
Proof. induction 1 as [|a ls Ha _ IH]; simpl; [lia|case_bool_decide; lia]. Qed.

Definition all_usages : list Usage := [UUndefined; UStack; UCreate; UVector; UList; UStl].

Lemma all_usages_lookup u : all_usages !! usage_int u = Some u.
Proof. by destruct u. Qed.

(** Every allocation is counted under one usage. *)
Lemma sum_usage_count ls :
  foldl (fun n u => n + usage_count u ls) 0 all_usages = zlen ls.
Proof.
  simpl. induction ls as [|a ls IH]; simpl; [done|]. rewrite Nat2Z.inj_succ.
  destruct (usage (request a)); simpl in *; lia.
Qed.
Lemma sum_usage_bytes ls :
  foldl (fun n u => n + usage_bytes u ls) 0 all_usages = total_bytes ls.
Proof.
  simpl. induction ls as [|a ls IH]; simpl; [done|].
  destruct (usage (request a)); simpl in *; lia.
Qed.

(** The statistics that are exact for the outstanding allocations [ls]. *)
Definition stats_of (ls : list Allocation) : Stats :=
  (fun u => mkStats (usage_count u ls) (usage_bytes u ls)) <$> all_usages.

Lemma stats_of_lookup u ls :
  stats_of ls !! usage_int u = Some (mkStats (usage_count u ls) (usage_bytes u ls)).
Proof. unfold stats_of. by rewrite list_lookup_fmap, all_usages_lookup. Qed.

(** [stats_of] after one entry changed. *)
Lemma stats_of_insert u ls ls' :
  (forall v, v <> u -> usage_count v ls' = usage_count v ls /\ usage_bytes v ls' = usage_bytes v ls) ->
  <[usage_int u := mkStats (usage_count u ls') (usage_bytes u ls')]> (stats_of ls) = stats_of ls'.
Proof.
  intros Hv. unfold stats_of, all_usages. destruct u; simpl;
    repeat match goal with
           | |- context [usage_count ?v ls] => destruct (Hv v) as [-> ->]; [discriminate|]
           end; done.
Qed.

Definition fits (ls : list Allocation) : Prop :=
  Forall (fun a => 0 <= r_size (request a)) ls /\
  forall u, usage_count u ls < 2 ^ 64 /\ usage_bytes u ls < 2 ^ 64.

(** What is counted depends on the requests only, and not on their order. *)
Lemma usage_perm u ls ls' :
  request <$> ls ≡ₚ request <$> ls' -> usage_count u ls = usage_count u ls' /\ usage_bytes u ls = usage_bytes u ls'.
Proof.
  intros HP.
  assert (forall l, usage_count u l = foldr (fun r n => (if bool_decide (usage r = u) then 1 else 0) + n) 0 (request <$> l) /\
                    usage_bytes u l = foldr (fun r n => (if bool_decide (usage r = u) then r_size r else 0) + n) 0 (request <$> l)) as He.
  { intros l. induction l as [|a l [IH1 IH2]]; [done|]. simpl. by rewrite IH1, IH2. }
  destruct (He ls) as [-> ->], (He ls') as [-> ->].
  split; apply foldr_permutation; try done; try (apply _); intros; lia.
Qed.

Lemma stats_of_perm ls ls' : request <$> ls ≡ₚ request <$> ls' -> stats_of ls = stats_of ls'.
Proof. intros HP. unfold stats_of. apply list_fmap_ext. intros i u _. by destruct (usage_perm u ls ls' HP) as [-> ->]. Qed.

Lemma fits_perm ls ls' : request <$> ls ≡ₚ request <$> ls' -> fits ls -> fits ls'.
Proof.
  intros HP [Hpos Hlt]. split; [|intros u; destruct (usage_perm u ls ls' HP) as [<- <-]; apply Hlt].
  assert (Forall (fun r => 0 <= r_size r) (request <$> ls')) as H by (rewrite <- HP; by apply Forall_fmap).
  by apply (proj1 (Forall_fmap request _ ls')) in H.
Qed.

Lemma fits_cons a ls : fits (a :: ls) -> fits ls.
Proof.
  intros [[Ha Hpos]%Forall_cons Hlt]. split; [done|]. intros u. specialize (Hlt u). simpl in Hlt.
  case_bool_decide; lia.
Qed.

(** Counting one allocation more, and one less. *)
Lemma count_allocate_exact a ls :
  fits (a :: ls) -> count_allocate (request a) (stats_of ls) = Ok (stats_of (a :: ls)).
Proof.
  intros Hfits. pose proof Hfits as [[Ha Hpos]%Forall_cons Hlt]. unfold count_allocate. rewrite stats_of_lookup.
  cbn [deref mbind result_bind]. f_equal. set (u := usage (request a)).
  pose proof (usage_count_nonneg u ls). pose proof (usage_bytes_nonneg u ls Hpos).
  destruct (Hlt u) as [Hc Hb]. simpl in Hc, Hb. rewrite bool_decide_eq_true_2 in Hc, Hb by done.
  rewrite <- (stats_of_insert u ls (a :: ls)); [|intros v Hv; simpl; by rewrite bool_decide_eq_false_2].
  simpl. rewrite !bool_decide_eq_true_2 by done. rewrite !u64_small by lia. do 2 f_equal; lia.
Qed.

Lemma count_free_exact a ls :
  fits (a :: ls) -> count_free (request a) (stats_of (a :: ls)) = Ok (stats_of ls).
Proof.
  intros Hfits. pose proof Hfits as [[Ha Hpos]%Forall_cons Hlt]. unfold count_free. rewrite stats_of_lookup.
  cbn [deref mbind result_bind]. set (u := usage (request a)).
  pose proof (usage_count_nonneg u ls). pose proof (usage_bytes_nonneg u ls Hpos).
  destruct (Hlt u) as [Hc Hb]. simpl in Hc, Hb |- *. rewrite !(bool_decide_eq_true_2 (usage (request a) = u)) in * by done.
  rewrite !bool_decide_eq_true_2 by lia. cbn [MARL_ASSERT mbind result_bind]. f_equal.
  rewrite <- (stats_of_insert u (a :: ls) ls).
  - rewrite !u64_small by lia. do 2 f_equal; lia.
  - intros v Hv. simpl. by rewrite bool_decide_eq_false_2.
Qed.

(** The totals that [stats()] reports. *)
Lemma totals ls :
  numAllocations (stats_of ls) = u64 (zlen ls) /\ bytesAllocated (stats_of ls) = u64 (total_bytes ls).
Proof.
  rewrite <- sum_usage_count, <- sum_usage_bytes. unfold numAllocations, bytesAllocated, stats_of.
  change 0 with (u64 0) at 1 3. by rewrite !foldl_u64_add.
Qed.

(** A release where nothing of its usage is counted. *)
Lemma count_free_abnormal r ls :
  usage_count (usage r) ls = 0 ->
  count_free r (stats_of ls) = Fatal "TrackedAllocator detected abnormal free()".
Proof.
  intros H0. unfold count_free. rewrite stats_of_lookup, H0. cbn [deref mbind result_bind s_count].
  by rewrite (bool_decide_eq_false_2 (0 > 0)) by lia.
Qed.

Section tracked_laws.
Context {Env S : Type} `{!Allocator Env S} `{!AllocatorLaws Env S}.

Definition tracked_owns (s : Stats * S) (ls : list Allocation) : Prop :=
  s.1 = stats_of ls /\ fits ls /\ owns s.2 ls.

(** The wrapped allocator admits the request, and the counters have room. *)
Definition tracked_admits (e : Env) (r : Request) (s : Stats * S) : Prop :=
  admits e r s.2 /\ 0 <= r_size r /\
  forall us, s.1 !! usage_int (usage r) = Some us ->
    s_count us + 1 < 2 ^ 64 /\ s_bytes us + r_size r < 2 ^ 64.

Lemma tracked_allocate_law s ls e r :
  tracked_owns s ls -> tracked_admits e r s ->
  exists a s', tracked_allocate e r s = Ok (a, s') /\ request a = r /\ tracked_owns s' (a :: ls).
Proof.
  destruct s as [st s]. intros (Est & Hfits & Ho) (Ha & Hs & Hroom). simpl in Est, Ho, Ha, Hroom. subst st.
  destruct (allocate_law s ls e r Ho Ha) as (a & s' & E & <- & Ho').
  assert (fits (a :: ls)) as Hfits'.
  { destruct Hfits as [Hpos Hlt]. split; [by constructor|]. intros u. simpl. specialize (Hlt u).
    destruct (Hroom _ (stats_of_lookup (usage (request a)) ls)) as [Hc Hb]. simpl in Hc, Hb.
    case_bool_decide as Hu; [subst u; lia|lia]. }
  unfold tracked_allocate. rewrite (count_allocate_exact a ls Hfits'). cbn [mbind result_bind]. rewrite E.
  by eexists a, _.
Qed.

Lemma tracked_free_law s ls1 a ls2 :
  tracked_owns s (ls1 ++ a :: ls2) ->
  exists s', tracked_free a s = Ok s' /\ tracked_owns s' (ls1 ++ ls2).
Proof.
  destruct s as [st s]. intros (Est & Hfits & Ho). simpl in Est, Ho. subst st.
  destruct (free_law s ls1 a ls2 Ho) as (s' & E & Ho').
  assert (request <$> ls1 ++ a :: ls2 ≡ₚ request <$> a :: ls1 ++ ls2) as HP
    by (apply fmap_Permutation; by rewrite Permutation_middle).
  apply (fits_perm _ _ HP) in Hfits. unfold tracked_free. rewrite (stats_of_perm _ _ HP), count_free_exact by done.
  cbn [mbind result_bind]. rewrite E. eexists. split; [done|]. split; [done|]. split; [by eapply fits_cons|done].
Qed.

Global Instance TrackedAllocator_laws : AllocatorLaws Env (Stats * S) := {|
  owns := tracked_owns; admits := tracked_admits;
  allocate_law := tracked_allocate_law; free_law := tracked_free_law
|}.

End tracked_laws.

(** The states of a [TrackedAllocator] whose client frees only what it owns. *)
Section tracked_runs.
Context {Env S : Type} `{!Allocator Env S} `{!AllocatorLaws Env S}.

Inductive tracked_runs : Stats * S -> list Allocation -> Prop :=
| tracked_start s : owns s [] -> tracked_runs (stats_new, s) []
| tracked_alloc s ls e r a s' :
    tracked_runs s ls -> tracked_admits e r s -> allocate e r s = Ok (a, s') ->
    tracked_runs s' (a :: ls)
| tracked_release s ls1 a ls2 s' :
    tracked_runs s (ls1 ++ a :: ls2) -> free a s = Ok s' -> tracked_runs s' (ls1 ++ ls2).

Lemma tracked_runs_owns s ls : tracked_runs s ls -> tracked_owns s ls.
Proof.
  induction 1 as [s Ho|s ls e r a s' _ IH Ha E|s ls1 a ls2 s' _ IH E].
  - split_and!; [done| |done]. split; [constructor|]. intros u. simpl. lia.
  - destruct (tracked_allocate_law s ls e r IH Ha) as (a' & s1 & E' & _ & Ho).
    simpl in E. rewrite E in E'. by simplify_eq.
  - destruct (tracked_free_law s ls1 a ls2 IH) as (s1 & E' & Ho).
    simpl in E. rewrite E in E'. by simplify_eq.
Qed.

(** [TrackedAllocator] over any allocator that keeps its contract: the
    statistics are exact, per usage and in total, for the allocations that are
    outstanding; no allocation and no release of an outstanding one trips its
    assertions; and a release where none of that usage is outstanding does. *)
Theorem tracked_stats_exact s ls :
  tracked_runs s ls ->
  (forall u, s.1 !! usage_int u = Some (mkStats (usage_count u ls) (usage_bytes u ls))) /\
  numAllocations s.1 = u64 (zlen ls) /\ bytesAllocated s.1 = u64 (total_bytes ls) /\
  (forall e r, tracked_admits e r s -> is_ok (allocate e r s) = true) /\
  (forall a, a ∈ ls -> is_ok (free a s) = true) /\
  (forall a, usage_count (usage (request a)) ls = 0 ->
     free a s = Fatal "TrackedAllocator detected abnormal free()").
Proof.
  intros Ho%tracked_runs_owns. pose proof Ho as [Est _]. rewrite Est. destruct (totals ls) as [E1 E2].
  split_and!; [|done|done|..].
  - intros u. apply stats_of_lookup.
  - intros e r Ha. destruct (tracked_allocate_law s ls e r Ho Ha) as (a & s' & E & _). simpl. by rewrite E.
  - intros a (ls1 & ls2 & ->)%list_elem_of_split.
    destruct (tracked_free_law s ls1 a ls2 Ho) as (s' & E & _). simpl. by rewrite E.
  - intros a Ha. destruct s as [st s]. simpl in Est. subst st.
    cbn [free TrackedAllocator]. unfold tracked_free. by rewrite count_free_abnormal.
Qed.
End tracked_runs.

(** ** create and destroy, StlAllocator *)
Section roundtrip.
Context {Env S : Type} `{!Allocator Env S} `{!AllocatorLaws Env S}.

(** For any allocator that keeps its contract, what [create] made
    [destroy] gives back, and what [StlAllocator::allocate] made [deallocate]
    gives back: the two halves describe the memory by the same request, and
    the other outstanding allocations stay as they were. *)
Theorem create_destroy_roundtrip s ls e n sizeof alignof :
  owns s ls ->
  (admits e (create_request sizeof alignof) s ->
   exists p s' s'', create e sizeof alignof s = Ok (p, s') /\
     destroy p sizeof alignof s' = Ok s'' /\ owns s'' ls) /\
  (admits e (stl_request n sizeof alignof) s ->
   exists p s' s'', stl_allocate e n sizeof alignof s = Ok (p, s') /\
     stl_deallocate p n sizeof alignof s' = Ok s'' /\ owns s'' ls).
Proof.
  intros Ho. split; intros Ha; (destruct (allocate_law s ls e _ Ho Ha) as ([p r] & s' & E & Er & Ho'));
    simpl in Er; subst r; destruct (free_law s' [] _ ls Ho') as (s'' & E'' & Ho'').
  - exists p, s', s''. unfold create, destroy. by rewrite E.
  - exists p, s', s''. unfold stl_allocate, stl_deallocate. by rewrite E.
Qed.
End roundtrip.

(** Allocators that compare equal must free each other's memory; two
    [StlAllocator]s compare equal even over different [TrackedAllocator]s, of
    which the second aborts. *)
Lemma stl_equal_not_interchangeable {Env S : Type} `{!Allocator Env S} (s1 s2 : S) p n sizeof alignof :
  stl_eq (stats_new, s1) (stats_new, s2) = true /\
  stl_deallocate p n sizeof alignof (stats_new, s2) = Fatal "TrackedAllocator detected abnormal free()".
Proof. split; [done|]. unfold stl_deallocate. cbn [free TrackedAllocator]. unfold tracked_free. by rewrite (count_free_abnormal _ []). Qed.

(** ** make_unique and its deleter *)

(** Where [DefaultAllocator] puts an object that is not guarded: in the block
    [malloc] answered, and at its start exactly when the answer is aligned. *)
Lemma default_allocate_place page_size h ls ans size k :
  0 <= k -> default_owns page_size h ls ->
  let r := create_request size (2 ^ k) in
  default_admits page_size ans r h ->
  exists p N h', default_allocate page_size ans r h = Ok (mkAllocation p r, h') /\
    heap_wf page_size h' /\ blocks h' !! ans = Some N /\ 0 < ans /\ ans mod 16 = 0 /\
    (p = ans <-> ans mod 2 ^ k = 0) /\ (p <> ans -> ans < p < ans + N).
Proof.
  intros Hk (os & <- & HI) r Ha. assert (0 < 2 ^ k) as Hpow by lia.
  destruct (decide (1 < r_alignment r)) as [Hgt|Hle].
  - destruct (default_allocate_aligned page_size h os ans r HI Ha eq_refl Hgt) as (h' & E & HI' & _).
    pose proof (hi_holds _ _ _ HI') as [Ho _]%Forall_cons. destruct Ho as [_ Ho].
    cbn [request use_guards r create_request] in Ho. rewrite bool_decide_eq_true_2 in Ho by done.
    destruct Ho as (N & Hb & H1 & H2 & _). destruct Ha as [Hr Hm]. cbn [use_guards r create_request] in Hm.
    rewrite bool_decide_eq_true_2 in Hm by done. pose proof (malloc_end _ _ _ _ Hm) as He.
    pose proof (malloc_pos _ _ _ _ Hm). destruct Hr as (Hs & _ & _). simpl r_size in *. simpl r_alignment in *.
    destruct (alignUp_bounds ans (2 ^ k)) as [Hu Hmod]; [lia..|].
    eexists _, N, h'. split_and!; [exact E|apply HI'|done|lia|apply Hm|split| ].
    + intros <-. done.
    + intros Hm0. apply alignUp_aligned; [lia..|done].
    + simpl ptr in *. lia.
  - destruct (default_allocate_plain page_size h os ans r HI Ha eq_refl) as (h' & E & HI' & _); [lia|].
    pose proof (hi_holds _ _ _ HI') as [Ho _]%Forall_cons. destruct Ho as [_ Ho].
    cbn [request use_guards r create_request] in Ho. rewrite bool_decide_eq_false_2 in Ho by done.
    destruct Ho as [_ Hb]. destruct Ha as [_ Hm]. cbn [use_guards r create_request] in Hm.
    rewrite bool_decide_eq_false_2 in Hm by done. simpl r_alignment in Hle. assert (2 ^ k = 1) as -> by lia.
    eexists _, _, h'. split_and!; [exact E|apply HI'|exact Hb|apply Hm|apply Hm|split; [intros _; apply Z.mod_1_r|done]|done].
Qed.

(** C36. [Deleter] describes the memory with alignment 0 instead of the one
    [make_unique] asked for, so [DefaultAllocator] gives the object's address
    itself to [free()].  That is the address [malloc] returned exactly when
    [malloc]'s answer happened to have the alignment of the type: always for
    alignments up to 16, but for a type with a larger one the deleter is
    undefined behaviour whenever [malloc] answers anything else.  And it destroys
    the first object only, which is all of them only where one was made.  The
    pointers of [make_unique] and [make_shared] are made the same way. *)
Theorem deleter_frees_iff_aligned page_size h ls ans n sizeof k :
  (exists j, 1 <= j < 60 /\ page_size = 2 ^ j) -> 0 <= k -> 0 < n -> 0 <= sizeof < 2 ^ 64 ->
  default_owns page_size h ls ->
  default_admits page_size ans (create_request (u64 (sizeof * n)) (2 ^ k)) h ->
  let _ := DefaultAllocator page_size in
  exists p h', make_unique_n ans n sizeof (2 ^ k) h = Ok (p, n, h') /\
    is_ok (Deleter_call p n sizeof h') = bool_decide (ans mod 2 ^ k = 0) /\
    (k <= 4 -> is_ok (Deleter_call p n sizeof h') = true) /\
    (make_unique_n_constructs p n sizeof = Deleter_destroys p <-> n = 1) /\
    (forall ds h'', Deleter_call p n sizeof h' = Ok (ds, h'') -> ds = make_unique_n_constructs p n sizeof <-> n = 1) /\
    (n = 1 -> make_unique ans sizeof (2 ^ k) h = Ok (p, n, h') /\ make_shared ans sizeof (2 ^ k) h = Ok (p, n, h')).
Proof.
  intros Hps Hk Hn Hsz Ho Ha D. set (r := create_request (u64 (sizeof * n)) (2 ^ k)) in *.
  destruct (default_allocate_place page_size h ls ans _ k Hk Ho Ha) as (p & N & h' & E & Hw & Hb & Hpos & H16 & Hiff & Hin).
  assert (make_unique_n ans n sizeof (2 ^ k) h = Ok (p, n, h')) as Hmake.
  { unfold make_unique_n. rewrite bool_decide_eq_false_2 by lia. cbn [allocate D DefaultAllocator]. by rewrite E. }
  assert (is_ok (Deleter_call p n sizeof h') = bool_decide (ans mod 2 ^ k = 0)) as Hok.
  { unfold Deleter_call. cbn [free D DefaultAllocator]. unfold default_free, c_free.
    cbn [request use_guards r_alignment ptr]. rewrite (bool_decide_eq_false_2 (1 < 0)) by lia.
    destruct (decide (ans mod 2 ^ k = 0)) as [Hmod|Hmod].
    - rewrite (bool_decide_eq_true_2 (_ mod _ = 0)) by done. apply Hiff in Hmod as ->.
      rewrite bool_decide_eq_false_2 by lia. by rewrite bool_decide_eq_true_2 by eauto.
    - assert (p <> ans) as Hne by (intros Hp; by apply Hmod, Hiff). specialize (Hin Hne).
      rewrite (bool_decide_eq_false_2 (_ mod _ = 0)) by done. rewrite bool_decide_eq_false_2 by lia. rewrite bool_decide_eq_false_2; [done|].
      intros [m Hm]. destruct (wf_block _ _ Hw p m Hm) as (_ & ? & _).
      destruct (wf_disjoint _ _ Hw ans N p m Hb Hm); lia. }
  assert (make_unique_n_constructs p n sizeof = Deleter_destroys p <-> n = 1) as Hone.
  { unfold make_unique_n_constructs, Deleter_destroys. split.
    - intros Hl%(f_equal length). rewrite length_fmap, length_seqZ in Hl. simpl in Hl. lia.
    - intros ->. simpl. by rewrite Z.add_0_r. }
  exists p, h'. split; [done|]. split; [done|]. split; [|split; [exact Hone|split]].
  - intros Hk4. rewrite Hok. apply bool_decide_eq_true.
    apply Z.mod_divide in H16 as [q ->]; [|lia]. apply Z.mod_divide; [lia|].
    exists (q * 2 ^ (4 - k)). rewrite <- Z.mul_assoc, <- Z.pow_add_r by lia. by replace (4 - k + k) with 4 by lia.
  - intros ds h''. unfold Deleter_call. destruct (free _ h') as [s| |]; [|done..]. cbn. intros [= <- _].
    rewrite <- Hone. split; congruence.
  - intros ->. split; [exact Hmake|]. unfold make_shared. cbn [allocate D DefaultAllocator].
    unfold r in E. rewrite Z.mul_1_r, u64_small in E by lia. by rewrite E.
Qed.

(** ** Witnesses: a heap where nothing is allocated, with 4 KiB pages *)
Definition empty_heap : Heap := mkHeap ∅ ∅ ∅.

Lemma page_4096 : exists k, 1 <= k < 60 /\ 4096 = 2 ^ k.
Proof. exists 12. split; [lia|reflexivity]. Qed.

Lemma small_request_admitted ans size k u :
  0 <= size <= 1024 -> 0 <= k <= 8 -> 0 < ans < 2 ^ 32 -> ans mod 16 = 0 ->
  default_admits 4096 ans (mkRequest size (2 ^ k) false u) empty_heap.
Proof.
  intros Hs Hk Ha Hm. assert (2 ^ k <= 2 ^ 8) by (apply Z.pow_le_mono_r; lia).
  assert (0 < 2 ^ k) by lia. split; simpl.
  - split; [simpl; lia|]. split; [exists k; split; [lia|done]|]. simpl. lia.
  - apply empty_malloc; [lia|done|]. case_bool_decide; lia.
Qed.

Lemma tracked_stats_exact_witness :
  exists a s, @tracked_runs Z Heap (DefaultAllocator 4096) (DefaultAllocator_laws 4096 page_4096) s [a] /\
    bytesAllocated s.1 = 100.
Proof.
  pose (D := DefaultAllocator 4096). pose (L := DefaultAllocator_laws 4096 page_4096).
  assert (tracked_owns (stats_new, empty_heap) []) as Ho.
  { split; [reflexivity|]. split; [|apply empty_owns]. split; [constructor|]. intros u. simpl. lia. }
  assert (tracked_admits 65536 (mkRequest 100 (2 ^ 6) false UVector) (stats_new, empty_heap)) as Ha.
  { split; [apply small_request_admitted; [lia|lia|lia|reflexivity]|]. split; [simpl; lia|].
    intros us Hus. simpl in Hus. injection Hus as <-. simpl. lia. }
  destruct (tracked_allocate_law _ [] 65536 _ Ho Ha) as (a & s & E & Er & _).
  assert (tracked_runs s [a]) as Hr.
  { eapply tracked_alloc; [apply tracked_start, empty_owns|exact Ha|exact E]. }
  exists a, s. split; [exact Hr|].
  destruct (tracked_stats_exact s [a] Hr) as (_ & _ & -> & _). simpl. rewrite Er. reflexivity.
Defined.

(** Through a [TrackedAllocator] over a [DefaultAllocator]. *)
Lemma create_destroy_roundtrip_witness :
  let _ := DefaultAllocator 4096 in
  exists p s' s'', create 65536 24 (2 ^ 3) (stats_new, empty_heap) = Ok (p, s') /\
    destroy p 24 (2 ^ 3) s' = Ok s''.
Proof.
  intros D. pose (L := DefaultAllocator_laws 4096 page_4096).
  destruct (create_destroy_roundtrip (stats_new, empty_heap) [] 65536 1 24 (2 ^ 3)) as [H _].
  - split; [reflexivity|]. split; [|apply empty_owns]. split; [constructor|]. intros u. simpl. lia.
  - destruct H as (p & s' & s'' & H1 & H2 & _).
    + split; [apply small_request_admitted; [lia|lia|lia|reflexivity]|]. split; [simpl; lia|].
      intros us Hus. simpl in Hus. injection Hus as <-. simpl. lia.
    + exists p, s', s''. split; [exact H1|exact H2].
Defined.

(** An object aligned to 64 bytes whose block [malloc] put at an address that
    is a multiple of 16 only. *)
Lemma deleter_frees_iff_aligned_witness :
  let _ := DefaultAllocator 4096 in
  exists p h', make_unique_n 65552 1 64 (2 ^ 6) empty_heap = Ok (p, 1, h') /\
    is_ok (Deleter_call p 1 64 h') = false.
Proof.
  intros D. destruct (deleter_frees_iff_aligned 4096 empty_heap [] 65552 1 64 6 page_4096)
    as (p & h' & H1 & H2 & _); [lia..|apply empty_owns|apply small_request_admitted; vm_compute; intuition congruence|].
  exists p, h'. split; [exact H1|exact H2].
Defined.

(** ** An allocator for samples, which answers every request with the address it
    is told *)
#[local] Instance sample_allocator : Allocator Z unit := {|
  allocate a r s := Ok (mkAllocation a r, s);
  free a s := Ok s
|}.
