(* ===== verification/TrackedThreads.v ===== *)
(** [TrackedAllocator] used by several threads (src/include/marl/memory.hpp).

    [allocate] and [free] change the statistics under [mutex_] and call the
    wrapped allocator after they have let the mutex go, so between the two the
    calls of other threads come in.  A call in progress is a request that is
    counted and not yet allocated, or an allocation that is no longer counted and
    not yet freed.  The wrapped allocator is any that keeps the contract of
    Memory.v, and is called by one thread at a time. *)
From stdpp Require Import base numbers strings gmap list.
From S2P Require Import Prelude Memory MemoryProps Allocators.

Local Open Scope Z_scope.

Section threads.
Context {Env S : Type} `{!Allocator Env S}.

(** ** The machine *)

(** [stats_], the wrapped allocator, the calls of [allocate] and of [free] that
    are between their halves, and what the clients own. *)
Record State := mkState {
  stats_ : Stats; inner : S;
  allocating : list Request; freeing : list Allocation; live : list Allocation
}.

Inductive Action :=
| AllocateCount (r : Request)
| AllocateCall (i : nat) (e : Env)
| FreeCount (i : nat)
| FreeCall (i : nat).

(** [stats()]: the copy made under the mutex. *)
Definition stats (s : State) : Stats := stats_ s.

(** A client frees what it owns, and owns no longer what it has begun to free.
    [None]: there is no such call or allocation. *)
Definition step (a : Action) (s : State) : option (Result State) :=
  match a with
  | AllocateCount r =>
      Some (st ← count_allocate r (stats_ s);
            Ok (mkState st (inner s) (r :: allocating s) (freeing s) (live s)))
  | AllocateCall i e =>
      r ← allocating s !! i;
      Some ('(b, n) ← allocate e r (inner s);
            Ok (mkState (stats_ s) n (delete i (allocating s)) (freeing s) (b :: live s)))
  | FreeCount i =>
      b ← live s !! i;
      Some (st ← count_free (request b) (stats_ s);
            Ok (mkState st (inner s) (allocating s) (b :: freeing s) (delete i (live s))))
  | FreeCall i =>
      b ← freeing s !! i;
      Some (n ← free b (inner s); Ok (mkState (stats_ s) n (allocating s) (delete i (freeing s)) (live s)))
  end.

Context `{!AllocatorLaws Env S}.

(** What the statistics count: an allocation in progress has no address yet. *)
Definition counted (s : State) : list Allocation := live s ++ (mkAllocation 0 <$> allocating s).

(** The counters have room for the request; the system can answer. *)
Definition admissible (a : Action) (s : State) : Prop :=
  match a with
  | AllocateCount r => fits (mkAllocation 0 r :: counted s)
  | AllocateCall i e => forall r, allocating s !! i = Some r -> admits e r (inner s)
  | FreeCount _ | FreeCall _ => True
  end.

Inductive runs : State -> Prop :=
| runs_start s : owns s [] -> runs (mkState stats_new s [] [] [])
| runs_step s a s' : runs s -> admissible a s -> step a s = Some (Ok s') -> runs s'.

Record inv (s : State) : Prop := {
  inv_stats : stats_ s = stats_of (counted s);
  inv_fits : fits (counted s);
  inv_owns : exists ls, owns (inner s) ls /\ ls ≡ₚ live s ++ freeing s
}.

Lemma delete_perm {A} (l : list A) i x : l !! i = Some x -> l ≡ₚ x :: delete i l.
Proof. intros Hi. by rewrite <- (delete_Permutation l i x Hi). Qed.

(** What a half does to what is counted, up to the order. *)
Lemma counted_allocate_call s i r b n :
  allocating s !! i = Some r -> request b = r ->
  request <$> counted s ≡ₚ
  request <$> counted (mkState (stats_ s) n (delete i (allocating s)) (freeing s) (b :: live s)).
Proof.
  intros Hi <-. unfold counted. cbn [live allocating]. rewrite !fmap_app, !fmap_cons.
  rewrite (delete_perm (allocating s) i _ Hi) at 1. rewrite !fmap_cons. simpl.
  by rewrite <- Permutation_middle.
Qed.

Lemma counted_free s i b st fr :
  live s !! i = Some b ->
  request <$> counted s ≡ₚ
  request <$> b :: counted (mkState st (inner s) (allocating s) fr (delete i (live s))).
Proof. intros Hi. apply fmap_Permutation. unfold counted. cbn [live allocating]. by rewrite (delete_perm (live s) i b Hi) at 1. Qed.

Lemma step_inv a s x :
  inv s -> admissible a s -> step a s = Some x -> exists s', x = Ok s' /\ inv s'.
Proof.
  intros [Hst Hfits (ls & Ho & HP)] Ha Hx. destruct a as [r|i e|i|i]; cbn [step admissible] in *.
  - injection Hx as <-. rewrite Hst, (count_allocate_exact (mkAllocation 0 r)) by done.
    eexists. split; [done|].
    assert (request <$> mkAllocation 0 r :: counted s ≡ₚ
      request <$> counted (mkState (stats_of (mkAllocation 0 r :: counted s)) (inner s) (r :: allocating s) (freeing s) (live s))) as HPc.
    { apply fmap_Permutation. unfold counted. cbn [live allocating]. rewrite fmap_cons. by rewrite Permutation_middle. }
    split; [apply (stats_of_perm _ _ HPc)|by apply (fits_perm _ _ HPc)|by exists ls].
  - destruct (allocating s !! i) as [r|] eqn:Hi; [|done]. injection Hx as <-.
    destruct (allocate_law (inner s) ls e r Ho (Ha r eq_refl)) as (b & n & -> & Hb & Ho').
    eexists. split; [done|]. pose proof (counted_allocate_call s i r b n Hi Hb) as HPc.
    split; [cbn [stats_]; rewrite Hst; apply (stats_of_perm _ _ HPc)|by apply (fits_perm _ _ HPc)|].
    exists (b :: ls). split; [done|]. cbn [live freeing]. by rewrite HP.
  - destruct (live s !! i) as [b|] eqn:Hi; [|done]. injection Hx as <-.
    set (st' := stats_of (counted (mkState [] (inner s) (allocating s) [] (delete i (live s))))).
    pose proof (counted_free s i b st' (b :: freeing s) Hi) as HPc. pose proof (fits_perm _ _ HPc Hfits) as Hf.
    rewrite Hst, (stats_of_perm _ _ HPc), count_free_exact by done. eexists. split; [done|].
    split; [done|by eapply fits_cons|]. exists ls. split; [done|]. cbn [live freeing].
    rewrite HP, (delete_perm (live s) i b Hi) at 1. by rewrite <- Permutation_middle.
  - destruct (freeing s !! i) as [b|] eqn:Hi; [|done]. injection Hx as <-.
    assert (b ∈ ls) as (l1 & l2 & ->)%list_elem_of_split.
    { rewrite HP. apply elem_of_app. right. by eapply list_elem_of_lookup_2. }
    destruct (free_law (inner s) l1 b l2 Ho) as (n & -> & Ho'). eexists. split; [done|].
    split; [done|done|]. exists (l1 ++ l2). split; [done|]. cbn [live freeing].
    apply (Permutation_cons_inv (a := b)). rewrite Permutation_middle, HP, (delete_perm (freeing s) i b Hi) at 1.
    by rewrite <- Permutation_middle.
Qed.

Lemma runs_inv s : runs s -> inv s.
Proof.
  induction 1 as [s Ho|s a s' _ IH Ha Hs].
  - split; [done|split; [constructor|intros u; simpl; lia]|by exists []].
  - destruct (step_inv a s _ IH Ha Hs) as (s1 & [= <-] & H). done.
Qed.

(** C33. Threads that share a [TrackedAllocator] over any allocator that keeps its
    contract, their calls interleaved between the update of the statistics and
    the call of the wrapped allocator: the statistics are exact, per usage and in
    total, for what the clients own together with the allocations in progress; no
    assertion fails and the wrapped allocator is never misused, whatever call goes
    on next; once no call is in progress the wrapped allocator has given out just
    what the clients own; and a release where nothing of its usage is counted is
    detected. *)
Theorem tracked_threads_exact s :
  runs s ->
  (forall u, stats s !! usage_int u =
     Some (mkStats (usage_count u (live s) + usage_count u (mkAllocation 0 <$> allocating s))
                   (usage_bytes u (live s) + usage_bytes u (mkAllocation 0 <$> allocating s)))) /\
  numAllocations (stats s) = u64 (zlen (live s) + zlen (allocating s)) /\
  bytesAllocated (stats s) = u64 (total_bytes (counted s)) /\
  (forall a x, admissible a s -> step a s = Some x -> exists s', x = Ok s') /\
  (allocating s = [] -> freeing s = [] -> exists ls, owns (inner s) ls /\ ls ≡ₚ live s) /\
  (forall r, usage_count (usage r) (counted s) = 0 ->
     count_free r (stats s) = Fatal "TrackedAllocator detected abnormal free()").
Proof.
  intros Hi%runs_inv. pose proof (inv_stats s Hi) as Est. unfold stats. rewrite Est.
  destruct (totals (counted s)) as [E1 E2]. split_and!; [| |done|..].
  - intros u. rewrite stats_of_lookup. unfold counted. by rewrite usage_count_app, usage_bytes_app.
  - rewrite E1. unfold counted. rewrite length_app, length_fmap. f_equal. lia.
  - intros a x Ha Hx. destruct (step_inv a s x Hi Ha Hx) as (s' & -> & _). eauto.
  - intros _ Hf. destruct (inv_owns s Hi) as (ls & Ho & HP). rewrite Hf, app_nil_r in HP. eauto.
  - intros r. apply count_free_abnormal.
Qed.
End threads.

(** Two threads allocate through one [TrackedAllocator] over a
    [DefaultAllocator]; the first has its memory and begins to free it, the second
    is still between the halves of its call. *)
Lemma tracked_threads_exact_witness :
  let D := DefaultAllocator 4096 in let L := DefaultAllocator_laws 4096 page_4096 in
  exists s : @State Heap, runs s /\ numAllocations (stats s) = 1 /\ bytesAllocated (stats s) = 24.
Proof.
  intros D L. set (r1 := mkRequest 100 (2 ^ 6) false UVector). set (r2 := mkRequest 24 (2 ^ 3) false UList).
  pose (s0 := mkState (S := Heap) stats_new empty_heap [] [] []).
  assert (runs s0) as R0 by (apply runs_start, empty_owns).
  assert (forall s, runs s -> inv s) as Hinv by (intros; by apply runs_inv).
  assert (exists st, step (AllocateCount r1) s0 = Some (Ok (mkState st empty_heap [r1] [] []))) as [st1 E1] by (by eexists).
  assert (runs (mkState st1 empty_heap [r1] [] [])) as R1.
  { refine (runs_step s0 _ _ R0 _ E1). split; [repeat constructor; simpl; lia|intros []; simpl; lia]. }
  destruct (@allocate_law Z Heap D L empty_heap [] 65536 r1 (empty_owns 4096)) as (b & n & Ea & Er & _).
  { apply small_request_admitted; [lia|lia|lia|reflexivity]. }
  assert (runs (mkState st1 n [] [] [b])) as R2.
  { refine (runs_step _ (AllocateCall 0 65536) _ R1 _ _).
    - intros r [= <-]. apply small_request_admitted; [lia|lia|lia|reflexivity].
    - cbn [step allocating lookup list_lookup mbind option_bind inner]. by rewrite Ea. }
  pose proof (Hinv _ R2) as [Est _ _]. cbn in Est.
  assert (runs (mkState (stats_of [b; mkAllocation 0 r2]) n [r2] [] [b])) as R3.
  { refine (runs_step _ (AllocateCount r2) _ R2 _ _).
    - split; [repeat constructor; simpl; rewrite ?Er; simpl; lia|intros []; simpl; rewrite ?Er; simpl; lia].
    - cbn [step stats_]. rewrite Est. unfold counted, stats_of. simpl. rewrite ?Er. reflexivity. }
  assert (runs (mkState (stats_of [mkAllocation 0 r2]) n [r2] [b] [])) as R4.
  { refine (runs_step _ (FreeCount 0) _ R3 I _). cbn [step live lookup list_lookup mbind option_bind stats_].
    rewrite count_free_exact; [done|]. split; [repeat constructor; simpl; rewrite ?Er; simpl; lia|intros []; simpl; rewrite ?Er; simpl; lia]. }
  exists (mkState (stats_of [mkAllocation 0 r2]) n [r2] [b] []). split; [exact R4|].
  destruct (tracked_threads_exact _ R4) as (_ & -> & -> & _). split; reflexivity.
Defined.
