(* ===== verification/AffinityVector.v ===== *)
(** [Thread::Affinity] over [containers::vector<Core, 32>] (src/src/thread.cpp):
    the operations of Threads.v as the code runs them on the vector of Vector.v,
    the set of cores that [add] and [remove] build, and that the operations on
    lists of Threads.v describe them. *)
From stdpp Require Import base numbers strings gmap sorting list.
From S2P Require Import Prelude Vector Threads.

(** ** Members of the vector that do not change it *)
Definition vector_size {A} (v : vector A) : nat := count_ v.
Definition vector_capacity {A} (v : vector A) : nat := capacity_ v.

(** [v[i] = a] for an element that exists. *)
Definition index_assign {A} (i : nat) (a : A) (v : vector A) : Result (vector A) :=
  _ ← index i v; Ok (set_storage (<[i := Live a]> (storage v)) v).

(** ** The vector of cores; a [Core] is two bytes, and is copied when it is moved
    from *)
Abbreviation Cores := (vector Z).
Definition cores_base : nat := 32.

#[global] Instance Core_element : Element Z := mkElement Z 0%Z (fun c => c) 2 (conj eq_refl eq_refl).

(** [Core::operator==], [operator<], and the hash of a core. *)
Definition Core_eq (c d : Z) : bool := bool_decide (c = d).
Definition Core_lt (c d : Z) : bool := bool_decide (c < d)%Z.
Definition CoreHasher (c : Z) : Z := c.

Section affinity.
(** The largest request that the allocator grants. *)
Context (memory : Z).

(** The constructors. *)
Definition Affinity_new : Cores := vector_new cores_base.

Fixpoint push_all (l : list Z) (v : Cores) : Result Cores :=
  match l with [] => Ok v | c :: l => v ← push_back memory (Outside c) v; push_all l v end.

Definition Affinity_init (core_list : list Z) : Result Cores :=
  v ← reserve memory (length core_list) Affinity_new; push_all core_list v.

Definition Affinity_copy (other : Cores) : Result Cores := copy_construct memory cores_base other.

Definition Affinity_move (other : Cores) : Result (Other * Cores) := move_construct memory cores_base other.

(** [Affinity::all]. *)
Definition all_cores (cpu_set : option (gset Z)) : Result Cores :=
  match cpu_set with
  | Some s => push_all ((fun i => i mod 2 ^ 16)%Z <$> seqZ 0 (Z.of_nat (size s))) Affinity_new
  | None => Ok Affinity_new
  end.

(** [count()] and [operator[]]. *)
Definition cores_count (v : Cores) : nat := vector_size v.
Definition cores_index (i : nat) (v : Cores) : Result Z := index i v.

(** [get] of the policies [anyOf] and [oneOf]. *)
Definition anyOf_cores (affinity : Cores) (thread_id : Z) : Result Cores := Affinity_copy affinity.

Definition oneOf_cores (affinity : Cores) (thread_id : Z) : Result Cores :=
  if bool_decide (cores_count affinity = 0) then Affinity_copy affinity
  else
    c ← cores_index (Z.to_nat (thread_id mod Z.of_nat (cores_count affinity))) affinity;
    Affinity_init [c].

(** [std::sort(cores.begin(), cores.end())]: the elements are put back in order. *)
Fixpoint write_back (i : nat) (l : list Z) (v : Cores) : Result Cores :=
  match l with [] => Ok v | c :: l => v ← index_assign i c v; write_back (S i) l v end.

Definition sort_cores (v : Cores) : Result Cores := l ← begin_end v; write_back 0 (sort l) v.

(** The first loop of [add] and of [remove]: [set.emplace]. *)
Definition set_of (v : Cores) : Result (gset Z) := l ← begin_end v; Ok (list_to_set l).

Fixpoint add_loop (set : gset Z) (l : list Z) (v : Cores) : Result Cores :=
  match l with
  | [] => Ok v
  | c :: l =>
      v ← (if bool_decide (c ∈ set) then Ok v else push_back memory (Outside c) v);
      add_loop set l v
  end.

Definition add_cores (other v : Cores) : Result Cores :=
  set ← set_of v;
  l ← begin_end other;
  v ← add_loop set l v;
  sort_cores v.

(** The loop of [remove] over the indices, while [i < cores.size()]. *)
Fixpoint remove_cores_loop (fuel i : nat) (set : gset Z) (v : Cores) : Result Cores :=
  match fuel with
  | O => Ok v
  | S fuel =>
      if bool_decide (i < vector_size v) then
        c ← index i v;
        v ← (if bool_decide (c ∈ set) then
               b ← back v;
               v ← index_assign i b v;
               resize memory (vector_size v - 1) v
             else Ok v);
        remove_cores_loop fuel (S i) set v
      else Ok v
  end.

Definition remove_cores (other v : Cores) : Result Cores :=
  set ← set_of other;
  v ← remove_cores_loop (vector_size v) 0 set v;
  sort_cores v.

(** ** What the operations do to the list a vector stands for *)
Lemma index_assign_rep {A} (v : vector A) l i a :
  rep v l -> i < length l -> exists v', index_assign i a v = Ok v' /\ rep v' (<[i := a]> l).
Proof.
  intros Hr Hi. destruct (lookup_lt_is_Some_2 l i Hi) as [x Hx]. unfold index_assign.
  rewrite (index_rep v l i x Hr Hx). eexists. split; [done|].
  pose proof (rep_not_null v l Hr) as Hn. destruct (set_storage_fields (<[i := Live a]> (storage v)) v) as (E1 & E2 & E3 & E4 & _).
  destruct Hr as [Hc Hw [k Hk] Hcap Hb]. split; rewrite ?E1, ?E2, ?E3, ?E4, ?length_insert; try done.
  - exists k. rewrite storage_set by done. rewrite Hk, insert_app_l by (by rewrite length_fmap).
    by rewrite list_fmap_insert.
  - rewrite storage_set by done. by rewrite length_insert.
Qed.

Lemma back_rep {A} (v : vector A) l b : rep v l -> last l = Some b -> back v = Ok b.
Proof.
  intros Hr Hl. rewrite last_lookup in Hl. unfold back. rewrite (rep_count v l Hr).
  rewrite bool_decide_eq_true_2 by (destruct l; [done|simpl; lia]). cbn.
  apply (read_rep v l); [done|]. by replace (length l - 1) with (pred (length l)) by lia.
Qed.

(** The allocator grants storage for [n] cores. *)
Definition enough (n : nat) : Prop := granted memory (Nat.max (2 * n) 8).

Lemma enough_le n m : enough m -> n <= m -> enough n.
Proof. unfold enough, granted, bytes. cbn. lia. Qed.

Lemma enough_room n m (v : Cores) : enough m -> n <= m -> room memory n v.
Proof. intros H Hle. right. by apply (enough_le n m). Qed.

Lemma push_all_rep l v k :
  rep v k -> enough (length k + length l) -> exists v', push_all l v = Ok v' /\ rep v' (k ++ l).
Proof.
  revert v k. induction l as [|c l IH]; intros v k Hr He; cbn; [exists v; by rewrite app_nil_r|]. cbn [length] in He.
  destruct (push_back_rep memory c v k Hr) as (v1 & -> & Hr1 & _); [eapply (enough_room _ _ _ He); lia|]. cbn.
  destruct (IH v1 _ Hr1) as (v' & -> & Hr'); [eapply (enough_le _ _ He); rewrite length_app; cbn [length]; lia|].
  exists v'. by rewrite <- app_assoc in Hr'.
Qed.

Lemma write_back_rep l v k i :
  rep v k -> i + length l = length k -> exists v', write_back i l v = Ok v' /\ rep v' (take i k ++ l).
Proof.
  revert v k i. induction l as [|c l IH]; intros v k i Hr Hl; cbn in *.
  - exists v. split; [done|]. by rewrite app_nil_r, take_ge by lia.
  - destruct (index_assign_rep v k i c Hr) as (v1 & -> & Hr1); [lia|]. cbn.
    destruct (IH v1 _ (S i) Hr1) as (v' & -> & Hr'); [rewrite length_insert; lia|].
    exists v'. split; [done|]. rewrite (take_S_r _ _ c), take_insert_ge in Hr' by
      (lia || (apply list_lookup_insert_eq; lia)). by rewrite <- app_assoc in Hr'.
Qed.

Lemma sort_cores_rep v l : rep v l -> exists v', sort_cores v = Ok v' /\ rep v' (sort l).
Proof.
  intros Hr. unfold sort_cores. rewrite (iterate_rep v l Hr). cbn.
  destruct (write_back_rep (sort l) v l 0 Hr) as (v' & -> & Hr'); [cbn; by rewrite sort_perm|]. eauto.
Qed.

Lemma add_loop_rep set l v k :
  rep v k -> enough (length k + length l) ->
  exists v', add_loop set l v = Ok v' /\ rep v' (k ++ filter (fun c => c ∉ set) l).
Proof.
  revert v k. induction l as [|c l IH]; intros v k Hr He; cbn [add_loop]; [exists v; by rewrite filter_nil, app_nil_r|].
  rewrite filter_cons. cbn [length] in He. case_bool_decide as Hc.
  - cbn. rewrite decide_False by (intros Hn; by apply Hn). apply IH; [done|]. eapply enough_le; [done|lia].
  - destruct (push_back_rep memory c v k Hr) as (v1 & -> & Hr1 & _); [eapply (enough_room _ _ _ He); lia|].
    cbn. rewrite decide_True by done.
    destruct (IH v1 _ Hr1) as (v' & -> & Hr'); [eapply (enough_le _ _ He); rewrite length_app; cbn [length]; lia|].
    exists v'. by rewrite <- app_assoc in Hr'.
Qed.

Lemma remove_loop_rep fuel i other v l r :
  rep v l -> remove_loop fuel i other l = Ok r ->
  exists v', remove_cores_loop fuel i (list_to_set other) v = Ok v' /\ rep v' r.
Proof.
  revert i v l. induction fuel as [|fuel IH]; intros i v l Hr H; cbn in H |- *; [simplify_eq; eauto|].
  unfold vector_size. rewrite (rep_count v l Hr). destruct (l !! i) as [c|] eqn:Hi.
  2: { apply lookup_ge_None in Hi. rewrite bool_decide_eq_false_2 by lia. simplify_eq. eauto. }
  pose proof (lookup_lt_Some _ _ _ Hi) as Hlt. rewrite bool_decide_eq_true_2 by done.
  rewrite (index_rep v l i c Hr Hi). cbn.
  rewrite (bool_decide_ext (c ∈ (list_to_set other : gset Z)) (c ∈ other)) by apply elem_of_list_to_set.
  case_bool_decide as Hc; [|cbn; by eapply IH].
  inv_ok H. destruct (last l) as [b|] eqn:Hb; [|done]. injection E as <-. rewrite (back_rep v l b Hr Hb). cbn.
  destruct (index_assign_rep v l i b Hr Hlt) as (v1 & -> & Hr1). cbn. rewrite (rep_count v1 _ Hr1), length_insert.
  destruct (resize_rep memory (length l - 1) v1 _ Hr1) as (v2 & -> & Hr2).
  { left. pose proof (rep_length v1 _ Hr1) as Hle. rewrite length_insert in Hle. lia. }
  cbn.
  rewrite length_insert in Hr2. replace (length l - 1 - length l) with 0 in Hr2 by lia. cbn in Hr2. rewrite app_nil_r in Hr2.
  by eapply IH.
Qed.

Lemma init_rep l : enough (length l) -> exists v, Affinity_init l = Ok v /\ rep v l.
Proof.
  intros He. unfold Affinity_init.
  destruct (reserve_rep memory (length l) Affinity_new [] (new_rep cores_base eq_refl)) as (v & -> & Hr & _);
    [by eapply enough_room|]. by apply (push_all_rep l v [] Hr).
Qed.

Lemma Affinity_copy_rep v l : rep v l -> enough (length l) -> exists v', Affinity_copy v = Ok v' /\ rep v' l.
Proof. intros Hr He. apply copy_construct_rep; [done|done|by eapply enough_room]. Qed.

Lemma move_rep v l :
  rep v l -> enough (length l) -> exists v' o', Affinity_move v = Ok (Another o', v') /\ rep v' l /\ rep o' [].
Proof.
  intros Hr He. destruct (Affinity_copy_rep v l Hr He) as (v' & E & Hv').
  destruct (move_assign_eq memory v l (vector_new cores_base) Hr) as (o' & Ho' & E').
  unfold Affinity_copy, copy_construct in E. exists v', o'. unfold Affinity_move, move_construct. by rewrite E', E.
Qed.

Lemma all_rep cpu_set :
  enough (length (Affinity_all cpu_set)) -> exists v, all_cores cpu_set = Ok v /\ rep v (Affinity_all cpu_set).
Proof.
  intros He. destruct cpu_set as [s|]; [apply (push_all_rep _ Affinity_new []); [|done]|exists Affinity_new; split; [done|]]; by apply new_rep.
Qed.

Lemma oneOf_rep v l thread_id :
  rep v l -> enough (S (length l)) ->
  exists v' l', oneOf_cores v thread_id = Ok v' /\ oneOf_get l thread_id = Ok l' /\ rep v' l'.
Proof.
  intros Hr He. unfold oneOf_cores, oneOf_get, cores_count, vector_size, Affinity_count. rewrite (rep_count v l Hr).
  case_bool_decide as H0; [destruct (Affinity_copy_rep v l Hr) as (v' & -> & Hr'); [by eapply enough_le; [|lia]|]; eauto|].
  set (i := Z.to_nat _). assert (i < length l) as Hi.
  { pose proof (Z.mod_pos_bound thread_id (Z.of_nat (length l))). unfold i. lia. }
  destruct (lookup_lt_is_Some_2 l i Hi) as [c Hc]. unfold cores_index, Affinity_index. rewrite (index_rep v l i c Hr Hc), Hc.
  cbn. destruct (init_rep [c]) as (v' & -> & Hr'); [eapply enough_le; [done|cbn; lia]|]. eauto.
Qed.

Lemma add_rep o v k l :
  rep o k -> rep v l -> enough (length l + length k) -> exists v', add_cores o v = Ok v' /\ rep v' (Affinity_add k l).
Proof.
  intros Ho Hv He. unfold add_cores, set_of. rewrite (iterate_rep v l Hv), (iterate_rep o k Ho). cbn.
  destruct (add_loop_rep (list_to_set l) k v l Hv He) as (v1 & -> & Hr1). cbn.
  destruct (sort_cores_rep v1 _ Hr1) as (v' & E & Hr'). exists v'. split; [done|]. unfold Affinity_add.
  replace (filter (fun c => c ∉ l) k) with (filter (fun c => c ∉ (list_to_set l : gset Z)) k); [done|].
  apply list_filter_iff. intros c. by rewrite elem_of_list_to_set.
Qed.

Lemma remove_rep o v k l r :
  rep o k -> rep v l -> Affinity_remove k l = Ok r -> exists v', remove_cores o v = Ok v' /\ rep v' r.
Proof.
  intros Ho Hv H. unfold Affinity_remove in H. inv_ok H. injection H as <-. unfold remove_cores, set_of.
  rewrite (iterate_rep o k Ho). cbn. unfold vector_size. rewrite (rep_count v l Hv).
  destruct (remove_loop_rep (length l) 0 k v l a Hv E) as (v1 & -> & Hr1). cbn. by apply sort_cores_rep.
Qed.

End affinity.

(** C37. [Affinity] on its vector of cores, which starts in the object and moves
    to the heap beyond 32 of them: given memory for the cores, every constructor
    and operation runs to its end without an assertion or an access outside the
    vector, and leaves a vector that stands for what the same operation does to a
    list.  So [add] is the sorted union, without duplicates when neither side has
    any, and [remove] is sorted, drops only what it should and all of it when that
    is at most one core; but the core it swaps in from the back is not looked at,
    and removing the cores 10 and 20 from themselves leaves 20. *)
Theorem affinity_refines_list memory n (v o : Cores) (l k : list Z) cpu_set thread_id :
  enough memory n -> length l + length k < n -> length (Affinity_all cpu_set) <= n ->
  rep v l -> rep o k ->
  (exists v', Affinity_init memory l = Ok v' /\ rep v' l) /\
  (exists v', Affinity_copy memory v = Ok v' /\ rep v' l) /\
  (exists v' o', Affinity_move memory v = Ok (Another o', v') /\ rep v' l /\ rep o' []) /\
  (exists v', all_cores memory cpu_set = Ok v' /\ rep v' (Affinity_all cpu_set)) /\
  (exists v' l', oneOf_cores memory v thread_id = Ok v' /\ oneOf_get l thread_id = Ok l' /\ rep v' l') /\
  (exists v', add_cores memory o v = Ok v' /\ rep v' (Affinity_add k l) /\ Sorted Z.le (Affinity_add k l) /\
     (forall c, c ∈ Affinity_add k l <-> c ∈ l \/ c ∈ k) /\ (NoDup l -> NoDup k -> NoDup (Affinity_add k l))) /\
  (exists v' r gone, remove_cores memory o v = Ok v' /\ Affinity_remove k l = Ok r /\ rep v' r /\ Sorted Z.le r /\
     l ≡ₚ gone ++ r /\ Forall (fun c => c ∈ k) gone /\
     (length (filter (fun c => c ∈ k) l) <= 1 -> r = sort (filter (fun c => c ∉ k) l))) /\
  (exists a v', Affinity_init memory [10; 20]%Z = Ok a /\ remove_cores memory a a = Ok v' /\ begin_end v' = Ok [20%Z]).
Proof.
  intros He Hlk Hall Hv Ho. assert (forall m, m <= n -> enough memory m) as Hen by (intros m Hm; by apply (enough_le memory m n)).
  destruct (affinity_add_remove k l) as ((Hs & Hin & Hnd) & (r & gone & Hr & Hsr & HP & Hg & Hx) & _).
  split; [apply init_rep, Hen; lia|]. split; [apply Affinity_copy_rep; [done|apply Hen; lia]|].
  split; [apply move_rep; [done|apply Hen; lia]|]. split; [apply all_rep, Hen; lia|].
  split; [apply oneOf_rep; [done|apply Hen; lia]|]. split; [|split].
  - destruct (add_rep memory o v k l Ho Hv) as (v' & E & Hr'); [apply Hen; lia|]. eauto 8.
  - destruct (remove_rep memory o v k l r Ho Hv Hr) as (v' & E & Hr'). eauto 10.
  - eexists _, _. split; [vm_compute; reflexivity|]. split; [vm_compute; reflexivity|]. vm_compute. reflexivity.
Qed.

(** 33 cores, so that the vector is on the heap. *)
Lemma affinity_refines_list_witness :
  exists v v', Affinity_init 1000 (seqZ 0 33) = Ok v /\ elements_ v = Heap /\
    add_cores 1000 v v = Ok v' /\ rep v' (Affinity_add (seqZ 0 33) (seqZ 0 33)).
Proof.
  assert (enough 1000 67) as He by (split; [reflexivity|vm_compute; discriminate]).
  destruct (init_rep 1000 (seqZ 0 33)) as (v & E & Hr); [apply (enough_le 1000 _ 67 He); vm_compute; repeat constructor|]. exists v.
  assert (elements_ v = Heap) as Hheap by (vm_compute in E; injection E as <-; reflexivity).
  destruct (affinity_refines_list 1000 67 v v (seqZ 0 33) (seqZ 0 33) None 0 He) as (_ & _ & _ & _ & _ & (v' & E' & Hr' & _) & _).
  { vm_compute. repeat constructor. }
  { vm_compute. repeat constructor. }
  { exact Hr. }
  { exact Hr. }
  exists v'. split; [exact E|]. split; [exact Hheap|]. split; [exact E'|exact Hr'].
Defined.
