(* ===== verification/SchedulerApi.v ===== *)
(** What a program sees of the scheduler: [Scheduler::Config] with its setters
    and defaults, the start of the worker threads it describes, [schedule], and
    the members of [Fiber] that forward to its worker
    (src/include/marl/scheduler.hpp, src/src/scheduler.cpp).

    An allocator is its address; what it does is in Memory.v and Allocators.v.
    The mask of the calling thread, the number of processors and the addresses
    of new fibers are inputs. *)
From stdpp Require Import base numbers strings sets gmap list.
From S2P Require Import Prelude Task WaitingFibers Worker WorkerLogic Scheduler SchedulerProps Threads.

(** ** Configuration *)

(** [Thread::Affinity::Policy], a class with one virtual function. *)
Record Policy := mkPolicy { policy_get : Z -> Result Affinity }.

Definition anyOf (affinity : Affinity) : Policy := mkPolicy (anyOf_get affinity).
Definition oneOf (affinity : Affinity) : Policy := mkPolicy (oneOf_get affinity).

Abbreviation AllocatorPtr := Z (only parsing).
Abbreviation ThreadInitializer := nat (only parsing).

(** [Config::WorkerThread] and [Config]. *)
Record WorkerThread := mkWorkerThread {
  thread_count : Z;
  initializer : option ThreadInitializer;
  affinity_policy : option Policy
}.

Record Config := mkConfig {
  worker_thread : WorkerThread;
  allocator : AllocatorPtr;
  fiber_stack_size : Z
}.

Definition DefaultFiberStackSize : Z := 1024 * 1024.

(** [Config()]; [Default] is [Allocator::Default]. *)
Definition Config_new (Default : AllocatorPtr) : Config :=
  mkConfig (mkWorkerThread 0 None None) Default DefaultFiberStackSize.

Definition setAllocator (alloc : AllocatorPtr) (c : Config) : Config :=
  mkConfig (worker_thread c) alloc (fiber_stack_size c).
Definition setFiberStackSize (size : Z) (c : Config) : Config :=
  mkConfig (worker_thread c) (allocator c) size.

Definition set_worker_thread (f : WorkerThread -> WorkerThread) (c : Config) : Config :=
  mkConfig (f (worker_thread c)) (allocator c) (fiber_stack_size c).

Definition setWorkerThreadCount (n : Z) : Config -> Config :=
  set_worker_thread (fun t => mkWorkerThread n (initializer t) (affinity_policy t)).
Definition setWorkerThreadInitializer (i : option ThreadInitializer) : Config -> Config :=
  set_worker_thread (fun t => mkWorkerThread (thread_count t) i (affinity_policy t)).
Definition setWorkerThreadAffinityPolicy (p : option Policy) : Config -> Config :=
  set_worker_thread (fun t => mkWorkerThread (thread_count t) (initializer t) p).

(** [Thread::numLogicalCPUs]: the answer of [sysconf] as an [unsigned int]. *)
Definition numLogicalCPUs (sysconf : Z) : Z := u32 sysconf.

(** [Config::allCores]; the count becomes an [int]. *)
Definition allCores (Default : AllocatorPtr) (sysconf : Z) : Config :=
  setWorkerThreadCount (to_int (numLogicalCPUs sysconf)) (Config_new Default).

(** [setConfigDefaults], called by a thread with the mask [cpu_set]. *)
Definition setConfigDefaults (cpu_set : option (gset Z)) (config : Config) : Config :=
  if bool_decide (thread_count (worker_thread config) > 0)%Z &&
     bool_decide (affinity_policy (worker_thread config) = None)
  then setWorkerThreadAffinityPolicy (Some (anyOf (Affinity_all cpu_set))) config
  else config.

(** ** The constructor *)

(** What [Worker::start] of a worker thread asks of its thread: the mask it
    sets, if any, and the call of the initializer. *)
Record ThreadStart := mkThreadStart {
  cpu_mask : option (gset Z);
  init_call : option (ThreadInitializer * Z)
}.

Definition start_thread (c : Config) (id : Z) : Result ThreadStart :=
  policy ← deref (affinity_policy (worker_thread c)) "null affinity_policy";
  affinity ← policy_get policy id;
  Ok (mkThreadStart (setAffinity affinity) ((fun f => (f, to_int id)) <$> initializer (worker_thread c))).

Fixpoint start_threads (c : Config) (ids : list Z) : Result (list ThreadStart) :=
  match ids with
  | [] => Ok []
  | id :: ids => t ← start_thread c id; ts ← start_threads c ids; Ok (t :: ts)
  end.

(** [Scheduler::Scheduler(config)]: the scheduler, its [cfg_], which [config()]
    returns, and how its threads start. *)
Definition Scheduler_new (cpu_set : option (gset Z)) (config : Config) (mains : list FiberPtr)
  : Result (Scheduler * Config * list ThreadStart) :=
  let cfg_ := setConfigDefaults cpu_set config in
  let n := thread_count (worker_thread cfg_) in
  s ← construct n mains;
  ts ← start_threads cfg_ (seqZ 0 n);
  Ok (s, cfg_, ts).

(** ** schedule *)

(** [Scheduler::get() != nullptr] on the thread of a worker; a thread without
    one, [None], has no scheduler bound. *)
Definition has_bound (cur : option Ref) (s : Scheduler) : bool :=
  match cur with
  | Some (WT i) => bool_decide (is_Some (worker_threads_ s !! i))
  | Some (ST tid) => bool_decide (tid ∈ bound s)
  | None => false
  end.

Definition schedule (cur : option Ref) (busy : list bool) (t : WTask) (s : Scheduler) : Result Enqueued :=
  _ ← assert_has_bound_scheduler (has_bound cur s) "marl::schedule";
  enqueue cur busy t s.

(** [schedule(f)] and [schedule(f, args...)]; [f] is the bound call. *)
Definition schedule_function (cur : option Ref) (busy : list bool) (f : Body) (s : Scheduler)
  : Result Enqueued :=
  _ ← assert_has_bound_scheduler (has_bound cur s) "marl::schedule";
  enqueue cur busy (Task_make (Some f) FlagsNone) s.

(** ** Fiber *)

(** [Fiber::Fiber]: the new fiber belongs to [Worker::getCurrent()]. *)
Definition Fiber_new (cur : option Ref) : Result Ref :=
  _ ← MARL_ASSERT (bool_decide (is_Some cur)) "No Scheduler::Worker bound";
  deref cur "null Worker".

Definition Fiber_current (cur : option Ref) (s : Scheduler) : option FiberPtr :=
  r ← cur; w ← worker s r; Some (current_fiber_ w).

Definition Fiber_notify (worker_ : Ref) (f : FiberPtr) (s : Scheduler)
  : option (Result (Scheduler * list Out)) := on_worker worker_ (EnqueueFiber f) s.

(** [wait(lock, pred)]; [pred] is the first answer of the predicate. *)
Definition Fiber_wait (worker_ : Ref) (cur : option Ref) (pred : bool) (s : Scheduler)
  : option (Result (Scheduler * list Out)) :=
  match MARL_ASSERT (bool_decide (cur = Some worker_))
          "Scheduler::Fiber::wait() must only be called on the currently executing fiber" with
  | Ok _ => on_worker worker_ (CallWaitPred None pred) s
  | Fatal m => Some (Fatal m)
  | Undefined m => Some (Undefined m)
  end.

(** [std::chrono::time_point_cast]: one tick of the given duration is [num/den]
    ticks of the system clock; the cast truncates towards zero. *)
Definition time_point_cast (num den t : Z) : TimePoint := Z.quot (t * num) den.

(** The timed waits, which do not look at the calling thread. *)
Definition Fiber_wait_until_pred (worker_ : Ref) (num den t : Z) (pred : bool) (s : Scheduler)
  : option (Result (Scheduler * list Out)) :=
  on_worker worker_ (CallWaitPred (Some (time_point_cast num den t)) pred) s.
Definition Fiber_wait_until (worker_ : Ref) (num den t : Z) (s : Scheduler)
  : option (Result (Scheduler * list Out)) :=
  on_worker worker_ (CallWait (Some (time_point_cast num den t))) s.
Definition Fiber_wait_forever (worker_ : Ref) (s : Scheduler)
  : option (Result (Scheduler * list Out)) := on_worker worker_ (CallWait None) s.

(** ** Lemmas *)
Lemma start_threads_ok c ids :
  (forall id, id ∈ ids -> is_ok (start_thread c id) = true) ->
  exists ts, start_threads c ids = Ok ts /\ Forall2 (fun id t => start_thread c id = Ok t) ids ts.
Proof.
  induction ids as [|id ids IH]; intros H; [exists []; by split|].
  destruct (proj1 (is_ok_spec _) (H id ltac:(left))) as [t Ht].
  destruct IH as (ts & Hts & HF); [intros; apply H; by right|].
  exists (t :: ts). cbn [start_threads]. rewrite Ht. cbn [mbind result_bind]. rewrite Hts. split; [done|by constructor].
Qed.

Lemma setConfigDefaults_idemp cpu_set cpu_set' c :
  setConfigDefaults cpu_set' (setConfigDefaults cpu_set c) = setConfigDefaults cpu_set c.
Proof.
  unfold setConfigDefaults at 2 3. destruct (_ && _) eqn:E.
  - unfold setConfigDefaults. by rewrite andb_false_r.
  - unfold setConfigDefaults. by rewrite E.
Qed.

(** The defaults change nothing but a missing policy of a scheduler with
    worker threads. *)
Lemma setConfigDefaults_fields cpu_set c (c' := setConfigDefaults cpu_set c) :
  allocator c' = allocator c /\ fiber_stack_size c' = fiber_stack_size c /\
  thread_count (worker_thread c') = thread_count (worker_thread c) /\
  initializer (worker_thread c') = initializer (worker_thread c) /\
  affinity_policy (worker_thread c') =
    if bool_decide (thread_count (worker_thread c) > 0)%Z
    then Some (default (anyOf (Affinity_all cpu_set)) (affinity_policy (worker_thread c)))
    else affinity_policy (worker_thread c).
Proof.
  subst c'. unfold setConfigDefaults. destruct c as [[n init [p|]] al sz]; simpl;
    case_bool_decide; simpl; done.
Qed.

Lemma to_int_small z : (0 <= z < 2 ^ 31)%Z -> to_int z = z.
Proof. intros Hz. unfold to_int. rewrite bool_decide_eq_true_2 by lia. done. Qed.

(** The mask a thread sets by default: as many cores as its creator may use, but
    the first ones of the machine. *)
Lemma default_mask (m : gset Z) :
  m <> ∅ -> size m <= 1024 ->
  setAffinity (Affinity_all (Some m)) = Some (list_to_set (seqZ 0 (Z.of_nat (size m)))).
Proof.
  intros Hm Hs. unfold Affinity_all.
  assert ((fun i => i mod 2 ^ 16)%Z <$> seqZ 0 (Z.of_nat (size m)) = seqZ 0 (Z.of_nat (size m))) as ->.
  { rewrite <- (list_fmap_id (seqZ 0 (Z.of_nat (size m)))) at 2. apply list_fmap_ext.
    intros i x Hi. apply lookup_seqZ in Hi as [-> Hi]. rewrite Z.mod_small; [done|]. lia. }
  unfold setAffinity, Affinity_count. rewrite bool_decide_eq_false_2.
  2: { rewrite length_seqZ. intros E. apply Hm, leibniz_equiv, size_empty_inv. lia. }
  rewrite filter_all; [done|]. apply Forall_forall. intros x Hx%elem_of_seqZ. lia.
Qed.

(** ** Properties *)

(** C35. A scheduler is made from any configuration that asks for at most 256
    worker threads and whose affinity policy, if it has one, answers for each of
    them; asking for more, as [allCores] does on a larger machine, overruns
    [worker_threads_].  The configuration it keeps is the given one with the
    defaults, which setting them again does not change: the policy that
    [Worker::start] dereferences is there whenever a worker thread starts.
    Thread [i] calls the initializer with [i].  Without a policy each thread is
    bound to the first cores of the machine, as many as the mask of the caller
    has, and not to that mask. *)
Theorem configured_scheduler_starts cpu_set config mains :
  let n := thread_count (worker_thread config) in
  length mains = Z.to_nat n ->
  ((n > MaxWorkerThreads)%Z -> is_ok (Scheduler_new cpu_set config mains) = false) /\
  ((n <= MaxWorkerThreads)%Z ->
   (forall p id, affinity_policy (worker_thread config) = Some p -> (0 <= id < n)%Z ->
      is_ok (policy_get p id) = true) ->
   exists s cfg_ ts,
     Scheduler_new cpu_set config mains = Ok (s, cfg_, ts) /\
     count s = n /\ ((0 <= n)%Z -> SchedWf s) /\
     (forall cpu_set', setConfigDefaults cpu_set' cfg_ = cfg_) /\
     allocator cfg_ = allocator config /\ fiber_stack_size cfg_ = fiber_stack_size config /\
     length ts = Z.to_nat n /\
     forall i t, ts !! i = Some t ->
       init_call t = (fun f => (f, Z.of_nat i)) <$> initializer (worker_thread config) /\
       (forall p affinity, affinity_policy (worker_thread config) = Some p ->
          policy_get p (Z.of_nat i) = Ok affinity -> cpu_mask t = setAffinity affinity) /\
       (forall m, affinity_policy (worker_thread config) = None ->
          cpu_set = Some m -> m <> ∅ -> size m <= 1024 ->
          cpu_mask t = Some (list_to_set (seqZ 0 (Z.of_nat (size m)))))).
Proof.
  intros n Hm. destruct (setConfigDefaults_fields cpu_set config) as (Hal & Hsz & Hn & Hin & Hp).
  fold n in Hn, Hp. unfold Scheduler_new. rewrite Hn. split; intros Hmax.
  { unfold construct. rewrite bool_decide_eq_false_2 by lia. done. }
  intros Htotal.
  assert (exists s, construct n mains = Ok s /\ count s = n) as (s & Hs & Hc).
  { unfold construct. rewrite bool_decide_eq_true_2 by done. by eexists. }
  destruct (start_threads_ok (setConfigDefaults cpu_set config) (seqZ 0 n)) as (ts & Hts & HF).
  { intros id Hid%elem_of_seqZ. unfold start_thread. rewrite Hp, bool_decide_eq_true_2 by lia.
    cbn [deref mbind result_bind].
    destruct (affinity_policy (worker_thread config)) as [p|] eqn:E; [|done].
    destruct (proj1 (is_ok_spec _) (Htotal p id eq_refl ltac:(lia))) as [a Ha]. cbn [default from_option]. unfold Datatypes.id. by rewrite Ha. }
  rewrite Hs. cbn [mbind result_bind]. rewrite Hts. eexists s, _, ts. split; [reflexivity|].
  refine (conj Hc (conj _ (conj _ (conj Hal (conj Hsz (conj _ _)))))).
  - intros H0. by eapply construct_wf.
  - intros cpu_set'. apply setConfigDefaults_idemp.
  - rewrite <- (Forall2_length _ _ _ HF). apply length_seqZ.
  - intros i t Hi. destruct (Forall2_lookup_r _ _ _ _ _ HF Hi) as (id & Hid & Ht).
    apply lookup_seqZ in Hid as [-> Hlt]. rewrite Z.add_0_l in Ht. unfold MaxWorkerThreads in Hmax.
    unfold start_thread in Ht. rewrite Hp, bool_decide_eq_true_2, Hin, to_int_small in Ht by lia.
    cbn [deref mbind result_bind] in Ht. inv_ok Ht. simplify_eq/=. split; [done|]. split.
    + intros p affinity Hpol Hget. rewrite Hpol in E. simpl in E. unfold Datatypes.id in E. rewrite Hget in E. by simplify_eq.
    + intros m Hpol -> Hne Hsize. rewrite Hpol in E. simpl in E. unfold anyOf_get in E. simplify_eq.
      by apply default_mask.
Qed.

Lemma configured_scheduler_starts_witness :
  (exists r, Scheduler_new (Some {[2; 3]}%Z)
     (setWorkerThreadInitializer (Some 5) (setWorkerThreadCount 2 (Config_new 1))) [7; 8]%Z = Ok r /\
     cpu_mask <$> r.2 = replicate 2 (Some {[0; 1]}%Z) /\ init_call <$> r.2 = [Some (5, 0%Z); Some (5, 1%Z)]) /\
  is_ok (Scheduler_new None (allCores 1 384) (replicate 384 7%Z)) = false.
Proof.
  split.
  - pose (c := setWorkerThreadInitializer (Some 5) (setWorkerThreadCount 2 (Config_new 1))).
    destruct (configured_scheduler_starts (Some {[2; 3]}%Z) c [7; 8]%Z) as [_ H]; [reflexivity|].
    destruct H as (s & cfg & ts & H1 & _ & _ & _ & _ & _ & Hlen & Hts); [vm_compute; discriminate|done|].
    exists (s, cfg, ts). split; [exact H1|]. destruct ts as [|t0 [|t1 [|t2 ts]]]; try discriminate Hlen.
    destruct (Hts 0 t0 eq_refl) as (Hi0 & _ & Hm0). destruct (Hts 1 t1 eq_refl) as (Hi1 & _ & Hm1).
    assert (({[2; 3]}%Z : gset Z) <> ∅) as Hne by set_solver.
    assert (size ({[2; 3]}%Z : gset Z) = 2) as Hsz by (vm_compute; reflexivity).
    simpl. rewrite (Hm0 _ eq_refl eq_refl Hne), (Hm1 _ eq_refl eq_refl Hne), Hi0, Hi1 by (rewrite Hsz; lia).
    rewrite Hsz. split; reflexivity.
  - apply (configured_scheduler_starts None (allCores 1 384) (replicate 384 7%Z)); [reflexivity|].
    vm_compute. reflexivity.
Defined.

(** C13. [schedule] on a thread without a scheduler fails its assertion.  On any
    other thread it ends, within [8 + 2 * count] turns where there are worker
    threads and one of them can be locked: the task is then at the back of the
    queue of one worker and nothing else has changed.  It is the worker of the
    calling thread for a task flagged [SameThread] and where there are no worker
    threads, and a worker thread otherwise. *)
Theorem schedule_ends cur t s :
  (forall busy, has_bound cur s = false ->
     schedule cur busy t s = Fatal "marl::schedule requires a marl::Scheduler to be bound") /\
  (forall r w, cur = Some r -> has_bound cur s = true -> worker s r = Some w ->
     mutex (work_ w) = false ->
     ((count s > 0)%Z -> SchedWf s /\ exists i wi, worker s (WT i) = Some wi /\ mutex (work_ wi) = false) ->
     exists s' r' w',
       schedule cur (replicate (Z.to_nat (8 + 2 * count s)) false) t s =
         Ok (Done s' r' (notify_added (work_ w'))) /\
       worker s r' = Some w' /\ mutex (work_ w') = false /\ worker s' r' = Some (with_task t w') /\
       (forall r0, r0 <> r' -> worker s' r0 = worker s r0) /\
       if Task_is t SameThread || bool_decide (count s <= 0)%Z then r' = r else exists j, r' = WT j).
Proof.
  split.
  { intros busy Hb. unfold schedule. by rewrite Hb. }
  intros r w -> Hb Hw Hm Hthreads. unfold schedule. rewrite Hb. cbn [mbind result_bind].
  assert (give r (enqueue_task t) s =
            Ok (Done (set_worker r (with_task t w) s) r (notify_added (work_ w)))) as Hown
    by (by apply give_free).
  unfold enqueue. destruct (Task_is t SameThread); [|destruct (decide (count s > 0)%Z) as [Hc|Hc]].
  - cbn [orb deref mbind result_bind assert_has_bound_scheduler MARL_ASSERT]. rewrite Hown. eexists _, r, w. split_and!; try done; [by eapply worker_set_eq|].
    intros r0 Hne. by rewrite worker_set_ne.
  - rewrite bool_decide_eq_true_2, (bool_decide_eq_false_2 (count s <= 0)%Z) by lia.
    destruct (Hthreads Hc) as (Hs & i & wi & Hwi & Hmi).
    destruct (enqueue_terminates s t i wi Hs Hwi Hmi) as (s' & j & wj & H1 & H2 & H3 & H4 & H5).
    exists s', (WT j), wj. cbn [orb assert_has_bound_scheduler MARL_ASSERT]. eauto 10.
  - rewrite bool_decide_eq_false_2, (bool_decide_eq_true_2 (count s <= 0)%Z) by lia.
    cbn [orb assert_has_bound_scheduler MARL_ASSERT]. rewrite Hown. eexists _, r, w. split_and!; try done; [by eapply worker_set_eq|].
    intros r0 Hne. by rewrite worker_set_ne.
Qed.

Lemma schedule_ends_witness :
  exists s' r' w', schedule (Some (WT 0)) (replicate 12 false) (mkTask (Some (BUser 1)) FlagsNone) two_workers =
      Ok (Done s' r' (notify_added (work_ w'))) /\ exists j, r' = WT j.
Proof.
  destruct (schedule_ends (Some (WT 0)) (mkTask (Some (BUser 1)) FlagsNone) two_workers) as [_ H].
  destruct (H (WT 0) (start 0 MultiThreaded 1)) as (s' & r' & w' & H1 & _ & _ & _ & _ & H2);
    [reflexivity..| |exists s', r', w'; split; [exact H1|exact H2]].
  intros _. split; [|exists 0, (start 0 MultiThreaded 1); by split].
  split; try reflexivity; simpl; try lia; [vm_compute; discriminate|repeat constructor; lia].
Defined.

(** A fiber may wait where it was created, and nowhere else. *)
Lemma Fiber_wait_on_own_worker cur r pred s :
  Fiber_new cur = Ok r ->
  Fiber_wait r cur pred s = on_worker r (CallWaitPred None pred) s /\
  forall cur', cur' <> cur -> exists m, Fiber_wait r cur' pred s = Some (Fatal m).
Proof.
  destruct cur as [r0|]; [|done]. intros [= ->]. unfold Fiber_wait. split.
  - by rewrite bool_decide_eq_true_2.
  - intros cur' Hne. rewrite bool_decide_eq_false_2 by done. simpl. eauto.
Qed.
