(* ===== verification/OSFiber.v ===== *)
(** Fibers of the operating system level on x86-64: [OSFiber]
    (src/src/osfiber_asm.hpp), [marl_fiber_swap]
    (src/src/arch/osfiber_asm_x64.S) and [marl_fiber_set_target]
    (src/src/arch/osfiber_x64.c).

    The assembly is a list of instructions for a small machine with the
    registers it uses and a memory of 64-bit words; an access to a word that is
    not mapped faults.  The theorems say that a swap away from a fiber and a
    later swap back to it look to the fiber like a call that returns, which is
    what [switchToFiber] of Worker.v relies on. *)
From stdpp Require Import base numbers strings gmap list.
From S2P Require Import Prelude.

Local Open Scope Z_scope.

Inductive Reg := RBX | RBP | R12 | R13 | R14 | R15 | RDI | RSI | RSP | RIP | RCX | R8.

Global Instance Reg_eq_dec : EqDecision Reg.
Proof. solve_decision. Defined.

Record Regs := mkRegs {
  rbx : Z; rbp : Z; r12 : Z; r13 : Z; r14 : Z; r15 : Z; rdi : Z; rsi : Z;
  rsp : Z; rip : Z; rcx : Z; r8 : Z
}.

Definition get_reg (r : Reg) (f : Regs) : Z :=
  match r with
  | RBX => rbx f | RBP => rbp f | R12 => r12 f | R13 => r13 f | R14 => r14 f | R15 => r15 f
  | RDI => rdi f | RSI => rsi f | RSP => rsp f | RIP => rip f | RCX => rcx f | R8 => r8 f
  end.

Definition put_reg (r : Reg) (v : Z) (f : Regs) : Regs :=
  let '(mkRegs bx bp a b c d di si sp ip cx e) := f in
  match r with
  | RBX => mkRegs v bp a b c d di si sp ip cx e
  | RBP => mkRegs bx v a b c d di si sp ip cx e
  | R12 => mkRegs bx bp v b c d di si sp ip cx e
  | R13 => mkRegs bx bp a v c d di si sp ip cx e
  | R14 => mkRegs bx bp a b v d di si sp ip cx e
  | R15 => mkRegs bx bp a b c v di si sp ip cx e
  | RDI => mkRegs bx bp a b c d v si sp ip cx e
  | RSI => mkRegs bx bp a b c d di v sp ip cx e
  | RSP => mkRegs bx bp a b c d di si v ip cx e
  | RIP => mkRegs bx bp a b c d di si sp v cx e
  | RCX => mkRegs bx bp a b c d di si sp ip v e
  | R8 => mkRegs bx bp a b c d di si sp ip cx v
  end.

Record Machine := mkMachine { file : Regs; mem : gmap Z Z }.

Definition regs (s : Machine) (r : Reg) : Z := get_reg r (file s).
Definition set_reg (r : Reg) (v : Z) (s : Machine) : Machine := mkMachine (put_reg r v (file s)) (mem s).

Inductive Instr :=
| Store (src base : Reg) (off : Z)      (* movq %src, off(%base) *)
| Load (base : Reg) (off : Z) (dst : Reg) (* movq off(%base), %dst *)
| Lea (base : Reg) (off : Z) (dst : Reg)
| Mov (src dst : Reg)
| Jmp (r : Reg).                        (* jmp *%r *)

Definition exec_instr (i : Instr) (s : Machine) : Result Machine :=
  match i with
  | Store src b off =>
      if bool_decide (is_Some (mem s !! (regs s b + off)))
      then Ok (mkMachine (file s) (<[regs s b + off := regs s src]> (mem s)))
      else Undefined "write fault"
  | Load b off dst => v ← deref (mem s !! (regs s b + off)) "read fault"; Ok (set_reg dst v s)
  | Lea b off dst => Ok (set_reg dst (u64 (regs s b + off)) s)
  | Mov src dst => Ok (set_reg dst (regs s src) s)
  | Jmp r => Ok (set_reg RIP (regs s r) s)
  end.

Fixpoint exec_code (code : list Instr) (s : Machine) : Result Machine :=
  match code with [] => Ok s | i :: code => s ← exec_instr i s; exec_code code s end.

(** [MARL_REG_*]: the offsets of [marl_fiber_context]. *)
Definition MARL_REG (r : Reg) : Z :=
  match r with
  | RBX => 0x00 | RBP => 0x08 | R12 => 0x10 | R13 => 0x18 | R14 => 0x20 | R15 => 0x28
  | RDI => 0x30 | RSI => 0x38 | RSP => 0x40 | RIP => 0x48
  | RCX | R8 => 0x50                     (* not part of a context *)
  end.

(** [marl_fiber_context]: its words, one register each, in this order; and the
    assertions that the offsets the assembly uses are those of the structure. *)
Definition context_regs : list Reg := [RBX; RBP; R12; R13; R14; R15; RDI; RSI; RSP; RIP].

Definition offsetof (r : Reg) : option Z :=
  (fun p => 8 * Z.of_nat p.1) <$> list_find (fun r' => r' = r) context_regs.

Definition static_asserts : bool :=
  forallb (fun r => bool_decide (offsetof r = Some (MARL_REG r))) [RBX; RBP; R12; R13; R14; R15; RDI; RSI; RSP; RIP].

Lemma static_asserts_hold : static_asserts = true.
Proof. vm_compute. reflexivity. Qed.

Definition callee_saved : list Reg := [RBX; RBP; R12; R13; R14; R15].

(** [marl_fiber_swap]. *)
Definition marl_fiber_swap : list Instr :=
  [ Store RBX RDI (MARL_REG RBX);
    Store RBP RDI (MARL_REG RBP);
    Store R12 RDI (MARL_REG R12);
    Store R13 RDI (MARL_REG R13);
    Store R14 RDI (MARL_REG R14);
    Store R15 RDI (MARL_REG R15);
    Load RSP 0 RCX;
    Store RCX RDI (MARL_REG RIP);
    Lea RSP 8 RCX;
    Store RCX RDI (MARL_REG RSP);
    Mov RSI R8;
    Load R8 (MARL_REG RBX) RBX;
    Load R8 (MARL_REG RBP) RBP;
    Load R8 (MARL_REG R12) R12;
    Load R8 (MARL_REG R13) R13;
    Load R8 (MARL_REG R14) R14;
    Load R8 (MARL_REG R15) R15;
    Load R8 (MARL_REG RDI) RDI;
    Load R8 (MARL_REG RSI) RSI;
    Load R8 (MARL_REG RSP) RSP;
    Load R8 (MARL_REG RIP) RCX;
    Jmp RCX ].

(** [marl_fiber_set_target]; [trampoline] is the address of
    [marl_fiber_trampoline].  [stack_top] is a pointer to words. *)
Definition store_word (a v : Z) (m : gmap Z Z) : Result (gmap Z Z) :=
  if bool_decide (is_Some (m !! a)) then Ok (<[a := v]> m) else Undefined "write fault".

Definition marl_fiber_set_target (trampoline ctx stack stack_size target arg : Z) (m : gmap Z Z)
  : Result (gmap Z Z) :=
  let stack_top := stack + stack_size in
  m ← store_word (ctx + MARL_REG RIP) trampoline m;
  m ← store_word (ctx + MARL_REG RDI) target m;
  m ← store_word (ctx + MARL_REG RSI) arg m;
  m ← store_word (ctx + MARL_REG RSP) (stack_top - 3 * 8) m;
  store_word (stack_top - 2 * 8) 0 m.

(** The part of [OSFiber::createFiber] after the allocations: the context is
    zeroed, and [stack_size] goes through [uint32_t]. *)
Fixpoint zero_words (a : Z) (n : nat) (m : gmap Z Z) : gmap Z Z :=
  match n with O => m | S n => zero_words (a + 8) n (<[a := 0]> m) end.

Definition createFiber (trampoline run ctx self stack stack_size : Z) (m : gmap Z Z) : Result (gmap Z Z) :=
  marl_fiber_set_target trampoline ctx stack (u32 stack_size) run self (zero_words ctx 10 m).

(** [OSFiber::switchTo] of the fiber with context [from], called from an
    address whose successor [ret] the call has pushed on the stack. *)
Definition switchTo (from to : Z) (s : Machine) : Result Machine :=
  exec_code marl_fiber_swap (set_reg RDI from (set_reg RSI to s)).

(** ** Contexts *)
(** The context at [p] holds the values [c]. *)
Definition context (m : gmap Z Z) (p : Z) (c : Reg -> Z) : Prop :=
  Forall (fun r => m !! (p + MARL_REG r) = Some (c r)) context_regs.

(** Two contexts, and a context and a word, that do not overlap. *)
Definition apart (p q : Z) : Prop := p + 0x50 <= q \/ q + 0x50 <= p.
Definition outside (p a : Z) : Prop := a + 8 <= p \/ p + 0x50 <= a.

Lemma context_lookup m p c r : context m p c -> r ∈ context_regs -> m !! (p + MARL_REG r) = Some (c r).
Proof. intros Hc Hr. unfold context in Hc. rewrite Forall_forall in Hc. by apply Hc. Qed.

Lemma MARL_REG_range r : r ∈ context_regs -> 0 <= MARL_REG r <= 0x48.
Proof. destruct r; simpl; intros H; try lia; exfalso; set_solver. Qed.

(** What is left in the context of the fiber that is swapped out. *)
Definition saved (c : Reg -> Z) (s : Machine) (ret : Z) : Reg -> Z := fun r =>
  match r with
  | RSP => u64 (regs s RSP + 8)
  | RIP => ret
  | RDI | RSI => c r
  | _ => regs s r
  end.

(** ** Symbolic execution *)
Lemma exec_store src b off code s v :
  mem s !! (regs s b + off) = Some v ->
  exec_code (Store src b off :: code) s =
    exec_code code (mkMachine (file s) (<[regs s b + off := regs s src]> (mem s))).
Proof. intros H. simpl. by rewrite bool_decide_eq_true_2 by eauto. Qed.

Lemma exec_load b off dst code s v :
  mem s !! (regs s b + off) = Some v ->
  exec_code (Load b off dst :: code) s = exec_code code (set_reg dst v s).
Proof. intros H. simpl. by rewrite H. Qed.

Lemma exec_lea b off dst code s :
  exec_code (Lea b off dst :: code) s = exec_code code (set_reg dst (u64 (regs s b + off)) s).
Proof. done. Qed.
Lemma exec_mov src dst code s : exec_code (Mov src dst :: code) s = exec_code code (set_reg dst (regs s src) s).
Proof. done. Qed.
Lemma exec_jmp r code s : exec_code (Jmp r :: code) s = exec_code code (set_reg RIP (regs s r) s).
Proof. done. Qed.

(** Looking through writes to other words. *)
Ltac read_regs :=
  cbn [regs mem file set_reg get_reg put_reg rbx rbp r12 r13 r14 r15 rdi rsi rsp rip rcx r8].
Ltac find_word :=
  read_regs; repeat (rewrite lookup_insert_eq || rewrite lookup_insert_ne by lia); eassumption || reflexivity.

Ltac step_instr :=
  first [ erewrite exec_store by find_word | erewrite exec_load by find_word
        | rewrite exec_lea | rewrite exec_mov | rewrite exec_jmp ]; read_regs.

Lemma switchTo_spec s f t c d ret :
  context (mem s) f c -> context (mem s) t d -> apart f t ->
  mem s !! regs s RSP = Some ret -> outside f (regs s RSP) ->
  exists s', switchTo f t s = Ok s' /\ (forall r, r ∈ context_regs -> regs s' r = d r) /\
    context (mem s') f (saved c s ret) /\
    (forall a, outside f a -> mem s' !! a = mem s !! a).
Proof.
  intros Hf Ht Hap Hret Hout. unfold context, context_regs in Hf, Ht. rewrite !Forall_cons in Hf, Ht.
  destruct Hf as (F0 & F1 & F2 & F3 & F4 & F5 & F6 & F7 & F8 & F9 & _).
  destruct Ht as (T0 & T1 & T2 & T3 & T4 & T5 & T6 & T7 & T8 & T9 & _).
  rewrite <- (Z.add_0_r (regs s RSP)) in Hret.
  unfold apart, outside in *. unfold MARL_REG in *. unfold switchTo, marl_fiber_swap, MARL_REG.
  destruct s as [[bx bp a2 a3 a4 a5 di si sp ip cx e] m]. cbn [regs mem file get_reg rsp] in *.
  read_regs. do 22 step_instr. cbn [exec_code]. eexists. split; [reflexivity|]. split_and!.
  - intros r Hr. unfold context_regs in Hr. repeat (apply elem_of_cons in Hr as [->|Hr]); [read_regs; reflexivity..|].
    by apply elem_of_nil in Hr.
  - unfold context, context_regs, MARL_REG, saved. repeat constructor; find_word.
  - intros a Ha. read_regs. by rewrite !lookup_insert_ne by lia.
Qed.

Lemma context_ext m m' p c :
  (forall r, r ∈ context_regs -> m' !! (p + MARL_REG r) = m !! (p + MARL_REG r)) ->
  context m p c -> context m' p c.
Proof.
  unfold context. rewrite !Forall_forall. intros Hm Hc r Hr. rewrite Hm by done. by apply Hc.
Qed.

(** C28. Switching away from a fiber and back is a call that returns: after a
    swap from context [f] to context [t] the machine runs with the registers
    saved in [t]; and whenever, however much later and from whatever fiber,
    some swap goes to [f] while its context still holds what the first swap
    saved, execution continues at the return address of the first call, with
    the stack pointer behind it and all callee-saved registers as they were. *)
Theorem swap_returns_to_caller s f t c d ret :
  context (mem s) f c -> context (mem s) t d -> apart f t ->
  mem s !! regs s RSP = Some ret -> outside f (regs s RSP) ->
  exists s1, switchTo f t s = Ok s1 /\ (forall r, r ∈ context_regs -> regs s1 r = d r) /\
    forall s2 g c2 ret2,
      (forall r, r ∈ context_regs -> mem s2 !! (f + MARL_REG r) = mem s1 !! (f + MARL_REG r)) ->
      context (mem s2) g c2 -> apart g f -> mem s2 !! regs s2 RSP = Some ret2 ->
      outside g (regs s2 RSP) ->
      exists s3, switchTo g f s2 = Ok s3 /\ (forall r, r ∈ callee_saved -> regs s3 r = regs s r) /\
        regs s3 RSP = u64 (regs s RSP + 8) /\ regs s3 RIP = ret.
Proof.
  intros Hf Ht Hap Hret Hout.
  destruct (switchTo_spec s f t c d ret Hf Ht Hap Hret Hout) as (s1 & E1 & Hr1 & Hc1 & _).
  exists s1. split_and!; [done|done|]. intros s2 g c2 ret2 Hsame Hg Hap2 Hret2 Hout2.
  destruct (switchTo_spec s2 g f c2 (saved c s ret) ret2) as (s3 & E3 & Hr3 & _); [done| |done..|].
  { by eapply context_ext; [|exact Hc1]. }
  exists s3. split_and!; [done| |..].
  - intros r Hr. rewrite Hr3; [|unfold callee_saved, context_regs in *; set_solver].
    unfold callee_saved in Hr. destruct r; try done; exfalso; set_solver.
  - by rewrite Hr3 by (unfold context_regs; set_solver).
  - by rewrite Hr3 by (unfold context_regs; set_solver).
Qed.

(** ** New fibers *)
Lemma zero_words_lookup n : forall a m x,
  (x < a \/ a + 8 * Z.of_nat n <= x) -> zero_words a n m !! x = m !! x.
Proof.
  induction n as [|n IH]; intros a m x Hx; [done|]. cbn [zero_words].
  rewrite IH by lia. by rewrite lookup_insert_ne by lia.
Qed.

Lemma zero_words_context p m : context (zero_words p 10 m) p (fun _ => 0).
Proof.
  unfold context, context_regs, MARL_REG. cbn [zero_words].
  repeat constructor; rewrite ?Z.add_0_r; repeat (rewrite lookup_insert_eq || rewrite lookup_insert_ne by lia);
    try done; match goal with |- <[?k := _]> _ !! ?j = _ => replace k with j by lia; by rewrite lookup_insert_eq end.
Qed.

Definition entry_context (trampoline run self sp : Z) : Reg -> Z := fun r =>
  match r with RIP => trampoline | RDI => run | RSI => self | RSP => sp | _ => 0 end.

Lemma store_word_ok a v m : is_Some (m !! a) -> store_word a v m = Ok (<[a := v]> m).
Proof. intros H. unfold store_word. by rewrite bool_decide_eq_true_2. Qed.

(** [createFiber] fills the context, and its last act is the word below the top
    of the stack. *)
Lemma createFiber_stores trampoline run ctx self stack size m :
  let top := stack + u32 size in
  exists m', createFiber trampoline run ctx self stack size m = store_word (top - 16) 0 m' /\
    context m' ctx (entry_context trampoline run self (top - 24)) /\
    forall a, outside ctx a -> m' !! a = m !! a.
Proof.
  intros top. pose proof (zero_words_context ctx m) as Hz.
  pose proof (fun x => zero_words_lookup 10 ctx m x) as Hkeep.
  unfold createFiber, marl_fiber_set_target. fold top. set (m0 := zero_words ctx 10 m) in *.
  unfold context, context_regs in Hz. rewrite !Forall_cons in Hz. unfold MARL_REG in *.
  destruct Hz as (Z0 & Z1 & Z2 & Z3 & Z4 & Z5 & Z6 & Z7 & Z8 & Z9 & _).
  rewrite store_word_ok by (rewrite Z9; eauto). cbn [mbind result_bind].
  rewrite store_word_ok by (rewrite lookup_insert_ne by lia; rewrite Z6; eauto). cbn [mbind result_bind].
  rewrite store_word_ok by (rewrite !lookup_insert_ne by lia; rewrite Z7; eauto). cbn [mbind result_bind].
  rewrite store_word_ok by (rewrite !lookup_insert_ne by lia; rewrite Z8; eauto). cbn [mbind result_bind].
  replace (top - 2 * 8) with (top - 16) by lia. replace (top - 3 * 8) with (top - 24) by lia.
  eexists. split; [reflexivity|]. split.
  - unfold context, context_regs, MARL_REG, entry_context. repeat constructor; find_word.
  - intros a Ha. unfold outside in Ha. rewrite !lookup_insert_ne by lia. apply Hkeep. lia.
Qed.

Lemma createFiber_spec trampoline run ctx self stack size m :
  let top := stack + u32 size in
  is_Some (m !! (top - 16)) -> outside ctx (top - 16) ->
  exists m', createFiber trampoline run ctx self stack size m = Ok m' /\
    context m' ctx (entry_context trampoline run self (top - 24)) /\
    m' !! (top - 16) = Some 0 /\
    forall a, outside ctx a -> a <> top - 16 -> m' !! a = m !! a.
Proof.
  intros top Htop Hout. destruct (createFiber_stores trampoline run ctx self stack size m) as (m1 & -> & Hc & Hk).
  fold top in Hc |- *. rewrite store_word_ok by (by rewrite Hk). eexists. split; [done|]. split_and!.
  - eapply context_ext; [|exact Hc]. intros r Hr%MARL_REG_range. unfold outside in Hout. by rewrite lookup_insert_ne by lia.
  - by rewrite lookup_insert_eq.
  - intros a Ha Hne. rewrite lookup_insert_ne by done. by apply Hk.
Qed.

(** It succeeds only where that word is mapped. *)
Lemma createFiber_mapped tr rn ctx self stack size m m' :
  createFiber tr rn ctx self stack size m = Ok m' -> outside ctx (stack + u32 size - 16) ->
  is_Some (m !! (stack + u32 size - 16)).
Proof.
  intros E Hout. destruct (createFiber_stores tr rn ctx self stack size m) as (m1 & E1 & _ & Hk). rewrite E1 in E.
  unfold store_word in E. rewrite Hk in E by done. by case_bool_decide.
Qed.

(** [createFiber] passes the size of the stack through [uint32_t].  A size that
    is a multiple of 4 GiB becomes 0: the word that is zeroed and the stack pointer
    of the new fiber are below the stack that was allocated, where the guard page
    is, and the write faults. *)
Theorem stack_size_truncated trampoline run ctx self stack n m :
  outside ctx (stack - 16) ->
  (m !! (stack - 16) = None ->
   createFiber trampoline run ctx self stack (n * 2 ^ 32) m = Undefined "write fault") /\
  (is_Some (m !! (stack - 16)) ->
   exists m', createFiber trampoline run ctx self stack (n * 2 ^ 32) m = Ok m' /\ m' !! (stack - 16) = Some 0 /\
     context m' ctx (entry_context trampoline run self (stack - 24))).
Proof.
  intros Hout. assert (u32 (n * 2 ^ 32) = 0) as Hu by (unfold u32; apply Z.mod_mul; lia). split.
  - intros Hm. destruct (createFiber_stores trampoline run ctx self stack (n * 2 ^ 32) m) as (m1 & -> & _ & Hk).
    rewrite Hu, Z.add_0_r. unfold store_word. rewrite Hk, Hm by done.
    rewrite bool_decide_eq_false_2; [done|]. by intros [? ?].
  - intros Hm. pose proof (createFiber_spec trampoline run ctx self stack (n * 2 ^ 32) m) as H. cbv zeta in H.
    rewrite Hu, Z.add_0_r in H. destruct (H Hm Hout) as (m' & E & Hc & H0 & _). by exists m'.
Qed.

(** C34. A new fiber starts as a call of [marl_fiber_trampoline]: the first swap
    to the context that [createFiber] made enters the trampoline with the
    function and its argument in the argument registers, and, for a stack that
    is aligned to 16 bytes and whose size is a multiple of 16 below 4 GiB, with
    a stack pointer inside the stack that has the alignment the ABI asks for
    at a function entry.  The word the trampoline would return to is the one
    at the stack pointer, and [createFiber] does not write it: the zero that is
    meant as "no return target" is in the word above. *)
Theorem new_fiber_enters_trampoline s f c ret trampoline run ctx self stack size m' :
  createFiber trampoline run ctx self stack size (mem s) = Ok m' ->
  is_Some (mem s !! (stack + u32 size - 16)) -> outside ctx (stack + u32 size - 16) ->
  context m' f c -> apart f ctx -> m' !! regs s RSP = Some ret -> outside f (regs s RSP) ->
  exists s', switchTo f ctx (mkMachine (file s) m') = Ok s' /\
    regs s' RIP = trampoline /\ regs s' RDI = run /\ regs s' RSI = self /\
    regs s' RSP = stack + u32 size - 24 /\
    (stack mod 16 = 0 -> size mod 16 = 0 -> 32 <= size < 2 ^ 32 ->
     (regs s' RSP + 8) mod 16 = 0 /\ stack <= regs s' RSP < stack + size) /\
    m' !! (regs s' RSP + 8) = Some 0 /\
    (outside ctx (regs s' RSP) -> m' !! regs s' RSP = mem s !! regs s' RSP).
Proof.
  intros E Htop Hout Hf Hap Hret Hro.
  destruct (createFiber_spec trampoline run ctx self stack size (mem s) Htop Hout)
    as (m'' & E' & Hctx & Hz & Hkeep). rewrite E in E'. injection E' as <-.
  destruct (switchTo_spec (mkMachine (file s) m') f ctx c _ ret Hf Hctx Hap Hret Hro)
    as (s' & Es & Hr & _).
  exists s'. split; [done|]. rewrite !Hr by (unfold context_regs; set_solver). cbn [entry_context].
  split_and!; try done.
  - intros H1 H2 H3. rewrite u32_small by lia. split; [|lia].
    apply Z.mod_divide in H1 as [i ->]; [|lia]. apply Z.mod_divide in H2 as [j ->]; [|lia].
    apply Z.mod_divide; [lia|]. exists (i + j - 1). lia.
  - by replace (stack + u32 size - 24 + 8) with (stack + u32 size - 16) by lia.
  - intros Hsp. apply Hkeep; [done|lia].
Qed.

(** ** Witnesses: contexts at 1000 and 2000, stacks at 4096 and 8192 *)
Definition sample_mem : gmap Z Z :=
  zero_words 1000 10 (zero_words 2000 10 (zero_words 4096 4 (zero_words 8192 4 ∅))).
Definition sample_machine : Machine := mkMachine (mkRegs 1 2 3 4 5 6 0 0 4104 77 0 0) sample_mem.

(** The machine after the swap from 1000 to 2000, and that memory with a new
    fiber at context 2000. *)
Definition swapped : Machine :=
  match switchTo 1000 2000 sample_machine with Ok s => s | _ => sample_machine end.
Definition new_fiber_mem : gmap Z Z :=
  match createFiber 500 600 2000 700 8192 32 sample_mem with Ok m => m | _ => ∅ end.

Lemma swap_returns_to_caller_witness :
  exists s3, switchTo 1000 2000 sample_machine = Ok swapped /\
    switchTo 2000 1000 (set_reg RSP 8192 swapped) = Ok s3 /\ regs s3 RBX = 1 /\ regs s3 RSP = 4112.
Proof.
  destruct (swap_returns_to_caller sample_machine 1000 2000 (fun _ => 0) (fun _ => 0) 0)
    as (s1 & E1 & _ & H).
  - repeat constructor; vm_compute; reflexivity.
  - repeat constructor; vm_compute; reflexivity.
  - left. lia.
  - vm_compute. reflexivity.
  - right. vm_compute. discriminate.
  - assert (s1 = swapped) as -> by (unfold swapped; rewrite E1; reflexivity).
    destruct (H (set_reg RSP 8192 swapped) 2000 (fun _ => 0) 0) as (s3 & E3 & Hr & Hsp & _).
    + intros r _. exact eq_refl.
    + repeat constructor; vm_compute; reflexivity.
    + right. lia.
    + vm_compute. reflexivity.
    + right. vm_compute. discriminate.
    + exists s3. split; [exact E1|]. split; [exact E3|].
      split; [etransitivity; [apply (Hr RBX); left|vm_compute; reflexivity]|].
      etransitivity; [exact Hsp|vm_compute; reflexivity].
Defined.

Lemma new_fiber_enters_trampoline_witness :
  exists s', switchTo 1000 2000 (mkMachine (file sample_machine) new_fiber_mem) = Ok s' /\
    regs s' RIP = 500 /\ regs s' RSP = 8200.
Proof.
  destruct (new_fiber_enters_trampoline sample_machine 1000 (fun _ => 0) 0 500 600 2000 700 8192 32
              new_fiber_mem) as (s' & Es & H1 & _ & _ & H4 & _).
  - vm_compute. reflexivity.
  - eexists. vm_compute. reflexivity.
  - right. vm_compute. discriminate.
  - repeat constructor; vm_compute; reflexivity.
  - left. lia.
  - vm_compute. reflexivity.
  - right. vm_compute. discriminate.
  - exists s'. split; [exact Es|]. split; [exact H1|].
    etransitivity; [exact H4|vm_compute; reflexivity].
Defined.
