(* ===== verification/AsmFiber.v ===== *)
(** The class [OSFiber] over the assembly of OSFiber.v (src/src/osfiber_asm.hpp):
    the objects, which own their stacks, and the way from a switch to the
    function a fiber was made for.

    A [World] holds the live objects, the state of their allocator, and the
    machine; the context of the fiber at address [p] is at [p + offset]. *)
From stdpp Require Import base numbers strings gmap list.
From S2P Require Import Prelude Memory Allocators OSFiber.

Local Open Scope Z_scope.

Section asm.
Context {F Env S : Type} `{!Allocator Env S}.

(** [sizeof], [alignof] and the offset of [context_] in [OSFiber], and the
    addresses of [marl_fiber_trampoline] and [OSFiber::run]. *)
Context (sizeof alignof offset trampoline run : Z).

Record AsmFiber := mkAsmFiber {
  asm_target_ : option F;
  asm_stack_ : option Allocation        (* [stack_.ptr] is null for [None] *)
}.

Record AsmWorld := mkAsmWorld { objects : gmap Z AsmFiber; allocator_state : S; machine : Machine }.

Definition asm_createFiberFromCurrentThread (e : Env) (w : AsmWorld) : Result (Z * AsmWorld) :=
  '(self, _, s) ← make_unique e sizeof alignof (allocator_state w);
  Ok (self, mkAsmWorld (<[self := mkAsmFiber None None]> (objects w)) s
              (mkMachine (file (machine w)) (zero_words (self + offset) 10 (mem (machine w))))).

(** [MARL_USE_FIBER_STACK_GUARDS] is 1. *)
Definition asm_stack_request (stack_size : Z) : Request := mkRequest stack_size 16 true UStack.

Definition asm_createFiber (e e' : Env) (stack_size : Z) (func : F) (w : AsmWorld) : Result (Z * AsmWorld) :=
  '(self, _, s) ← make_unique e sizeof alignof (allocator_state w);
  '(stack, s) ← allocate e' (asm_stack_request stack_size) s;
  m ← createFiber trampoline run (self + offset) self (ptr stack) stack_size (mem (machine w));
  Ok (self, mkAsmWorld (<[self := mkAsmFiber (Some func) (Some stack)]> (objects w)) s
              (mkMachine (file (machine w)) m)).

Definition asm_switchTo (self fiber : Z) (w : AsmWorld) : Result AsmWorld :=
  s ← switchTo (self + offset) (fiber + offset) (machine w);
  Ok (mkAsmWorld (objects w) (allocator_state w) s).

(** [OSFiber::run(self)], and [marl_fiber_trampoline(target, arg)] on the
    arguments in the registers: the function that runs.  [run] is the only
    target the code passes. *)
Definition asm_run (self : Z) (w : AsmWorld) : Result F :=
  f ← deref (objects w !! self) "not a fiber";
  deref (asm_target_ f) "bad_function_call".

Definition marl_fiber_trampoline (w : AsmWorld) : Result F :=
  if bool_decide (regs (machine w) RDI = run) then asm_run (regs (machine w) RSI) w
  else Undefined "call of an unknown function".

(** [~OSFiber]. *)
Definition asm_dtor (self : Z) (w : AsmWorld) : Result AsmWorld :=
  f ← deref (objects w !! self) "not a fiber";
  s ← match asm_stack_ f with Some stack => free stack (allocator_state w) | None => Ok (allocator_state w) end;
  Ok (mkAsmWorld (delete self (objects w)) s (machine w)).

(** The first switch to a new fiber ends in the trampoline, which calls the
    function the fiber was made for on the fiber's own stack; [q] is the fiber
    that switches, [ret] the return address on its stack. *)
Lemma asm_fiber_runs_function e e' size func w p w1 q c ret :
  asm_createFiber e e' size func w = Ok (p, w1) ->
  context (mem (machine w1)) (q + offset) c -> apart (q + offset) (p + offset) ->
  mem (machine w1) !! regs (machine w1) RSP = Some ret -> outside (q + offset) (regs (machine w1) RSP) ->
  (forall stack, asm_stack_ <$> objects w1 !! p = Some (Some stack) ->
     is_Some (mem (machine w) !! (ptr stack + u32 size - 16)) /\
     outside (p + offset) (ptr stack + u32 size - 16)) ->
  exists stack w2, objects w1 !! p = Some (mkAsmFiber (Some func) (Some stack)) /\
    asm_switchTo q p w1 = Ok w2 /\ regs (machine w2) RIP = trampoline /\
    regs (machine w2) RSP = ptr stack + u32 size - 24 /\ marl_fiber_trampoline w2 = Ok func.
Proof.
  intros E Hq Hap Hret Hout Htop. unfold asm_createFiber in E. inv_ok E. destruct a as [[self n] s].
  inv_ok E. destruct a as [stack s']. inv_ok E. injection E as -> <-.
  destruct (Htop stack) as [Hs Ho]; [cbn [objects]; by rewrite lookup_insert_eq|].
  destruct (createFiber_spec trampoline run (p + offset) p (ptr stack) size (mem (machine w)) Hs Ho)
    as (m' & Em & Hctx & _). rewrite E2 in Em. injection Em as ->. cbn [machine objects] in *.
  destruct (switchTo_spec (mkMachine (file (machine w)) m') _ _ c _ ret Hq Hctx Hap Hret Hout)
    as (s2 & Es & Hr & _).
  eexists stack, _. split; [by rewrite lookup_insert_eq|]. unfold asm_switchTo. cbn [machine objects allocator_state].
  rewrite Es. cbn [mbind result_bind]. split; [reflexivity|]. unfold marl_fiber_trampoline, asm_run. cbn [machine objects].
  rewrite !Hr by (unfold context_regs; set_solver). cbn [entry_context].
  rewrite bool_decide_eq_true_2 by done. by rewrite lookup_insert_eq.
Qed.

(** Creating and destroying a fiber gives its stack back. *)
Lemma asm_dtor_frees_stack `{!AllocatorLaws Env S} p func stack w ls :
  objects w !! p = Some (mkAsmFiber func (Some stack)) -> owns (allocator_state w) (stack :: ls) ->
  exists w', asm_dtor p w = Ok w' /\ objects w' = delete p (objects w) /\ owns (allocator_state w') ls.
Proof.
  intros Hp Ho. destruct (free_law _ [] stack ls Ho) as (s & E & Ho'). unfold asm_dtor. rewrite Hp.
  cbn [deref mbind result_bind asm_stack_]. rewrite E. cbn [mbind result_bind]. eauto.
Qed.
End asm.
