(* ===== verification/UContext.v ===== *)
(** [OSFiber] on the context functions of the C library
    (src/src/osfiber_ucontext.hpp), and the ownership of stacks, which both
    implementations of [OSFiber] share (src/src/osfiber_asm.hpp).

    The functions of [<ucontext.h>] are an interface with laws: what a context
    that was made or saved does when it is activated.  [makecontext] passes
    integers of 32 bits only, so that the address of the fiber goes through a
    union in two halves. *)
From stdpp Require Import base numbers strings gmap list.
From S2P Require Import Prelude Memory Allocators.

Local Open Scope Z_scope.

(** ** The context functions *)

(** What runs when a context is activated: the caller of the [swapcontext] that
    saved it goes on at [k], or a new function is called on a stack. *)
Inductive Activation (K : Type) := Resume (k : K) | Enter (sp size a b : Z).
Arguments Resume {K} k.
Arguments Enter {K} sp size a b.

Class UContext (C K : Type) := {
  uc_zero : C;                                   (* context_ = {} *)
  getcontext : C -> Z * C;
  makecontext : Z -> Z -> Z -> Z -> C -> C;      (* uc_stack, uc_link = nullptr and the call *)
  swapcontext : K -> C -> C -> Z * C;            (* the result and the saved context *)
  activation : C -> option (Activation K)
}.

Class UContextLaws (C K : Type) `{!UContext C K} := {
  makecontext_law sp size a b c c' :
    getcontext c = (0, c') -> activation (makecontext sp size a b c') = Some (Enter sp size a b);
  swapcontext_law k from to from' :
    swapcontext k from to = (0, from') -> activation from' = Some (Resume k)
}.

(** ** The union Args on a little-endian machine with 64-bit pointers *)
Definition to_s32 (z : Z) : Z := if bool_decide (z < 2 ^ 31) then z else z - 2 ^ 32.
Definition Args_a (self : Z) : Z := to_s32 (u32 self).
Definition Args_b (self : Z) : Z := to_s32 (u32 (Z.shiftr self 32)).
Definition Args_self (a b : Z) : Z := Z.lor (u32 a) (Z.shiftl (u32 b) 32).

(** ** The class *)
Section ucontext.
Context {C K F Env S : Type} `{!UContext C K} `{!Allocator Env S}.

Record OSFiber := mkOSFiber {
  context_ : C;
  target_ : option F;
  stack_ : option Allocation          (* [stack_.ptr] is null for [None] *)
}.

Record World := mkWorld { fibers : gmap Z OSFiber; memory : S }.

(** [sizeof(OSFiber)] and [alignof(OSFiber)] are left open. *)
Context (sizeof alignof : Z).

(** The request of [createFiber]; [MARL_USE_FIBER_STACK_GUARDS] is 1. *)
Definition stack_request (stack_size : Z) : Request := mkRequest stack_size 16 true UStack.

Definition createFiberFromCurrentThread (e : Env) (w : World) : Result (Z * World) :=
  '(self, _, s) ← make_unique e sizeof alignof (memory w);
  Ok (self, mkWorld (<[self := mkOSFiber (getcontext uc_zero).2 None None]> (fibers w)) s).

Definition createFiber (e e' : Env) (stack_size : Z) (func : F) (w : World) : Result (Z * World) :=
  '(self, _, s) ← make_unique e sizeof alignof (memory w);
  '(stack, s) ← allocate e' (stack_request stack_size) s;
  let '(res, c) := getcontext uc_zero in
  _ ← MARL_ASSERT (bool_decide (res = 0)) "getcontext() failed";
  let c := makecontext (ptr stack) stack_size (Args_a self) (Args_b self) c in
  Ok (self, mkWorld (<[self := mkOSFiber c (Some func) (Some stack)]> (fibers w)) s).

(** [Target::Main(a, b)]: the function that runs, with its stack. *)
Inductive Next := Continue (k : K) | Call (func : F) (sp size : Z).

Definition Main (sp size a b : Z) (w : World) : Result Next :=
  f ← deref (fibers w !! Args_self a b) "u.self is not a fiber";
  func ← deref (target_ f) "bad_function_call";
  Ok (Call func sp size).

(** [from->switchTo(to)], called at [k]: what runs next. *)
Definition switchTo (from to : Z) (k : K) (w : World) : Result (Next * World) :=
  f ← deref (fibers w !! from) "not a fiber";
  t ← deref (fibers w !! to) "not a fiber";
  let '(res, saved) := swapcontext k (context_ f) (context_ t) in
  _ ← MARL_ASSERT (bool_decide (res = 0)) "swapcontext() failed";
  let w := mkWorld (<[from := mkOSFiber saved (target_ f) (stack_ f)]> (fibers w)) (memory w) in
  t ← deref (fibers w !! to) "not a fiber";
  act ← deref (activation (context_ t)) "context that was never set";
  match act with
  | Resume k => Ok (Continue k, w)
  | Enter sp size a b => next ← Main sp size a b w; Ok (next, w)
  end.

(** [~OSFiber]. *)
Definition OSFiber_dtor (self : Z) (w : World) : Result World :=
  f ← deref (fibers w !! self) "not a fiber";
  s ← match stack_ f with Some stack => free stack (memory w) | None => Ok (memory w) end;
  Ok (mkWorld (delete self (fibers w)) s).

(** ** The pointer survives its two halves *)
Lemma to_s32_u32 z : u32 (to_s32 (u32 z)) = u32 z.
Proof.
  unfold to_s32. pose proof (u32_range z). case_bool_decide; [apply u32_small; lia|].
  unfold u32 at 1. replace (u32 z - 2 ^ 32) with (u32 z + (-1) * 2 ^ 32) by lia.
  rewrite Z.mod_add by lia. apply u32_small. lia.
Qed.

Lemma to_s32_range z : 0 <= z < 2 ^ 32 -> - 2 ^ 31 <= to_s32 z < 2 ^ 31.
Proof. intros Hz. unfold to_s32. case_bool_decide; lia. Qed.

Lemma Args_roundtrip self : 0 <= self < 2 ^ 64 -> Args_self (Args_a self) (Args_b self) = self.
Proof.
  intros Hs. unfold Args_self, Args_a, Args_b. rewrite !to_s32_u32.
  assert (0 <= Z.shiftr self 32 < 2 ^ 32) as Hh.
  { rewrite Z.shiftr_div_pow2 by lia. split; [apply Z.div_pos; lia|]. apply Z.div_lt_upper_bound; lia. }
  rewrite (u32_small (Z.shiftr self 32)) by done. unfold u32. rewrite <- Z.land_ones by lia.
  apply Z.bits_inj'. intros i Hi. rewrite Z.lor_spec, Z.land_spec.
  destruct (decide (i < 32)).
  - rewrite Z.ones_spec_low, Z.shiftl_spec_low by lia. by rewrite andb_true_r, orb_false_r.
  - rewrite Z.ones_spec_high, Z.shiftl_spec, Z.shiftr_spec by lia. rewrite andb_false_r. simpl. f_equal. lia.
Qed.

(** ** Switching *)
Definition swapped_out (saved : C) (f : OSFiber) : OSFiber := mkOSFiber saved (target_ f) (stack_ f).

Lemma switchTo_resume from to k w f t saved k' :
  fibers w !! from = Some f -> fibers w !! to = Some t -> from <> to ->
  swapcontext k (context_ f) (context_ t) = (0, saved) -> activation (context_ t) = Some (Resume k') ->
  exists w', switchTo from to k w = Ok (Continue k', w') /\ fibers w' = <[from := swapped_out saved f]> (fibers w).
Proof.
  intros Hf Ht Hne Hs Ha. unfold switchTo. rewrite Hf, Ht. cbn [deref mbind result_bind]. rewrite Hs.
  cbn [fibers]. rewrite (lookup_insert_ne (fibers w)), Ht by done. cbn [deref mbind result_bind].
  rewrite Ha. cbn. by eexists.
Qed.

Lemma switchTo_enter from to k w f t saved sp size func :
  fibers w !! from = Some f -> fibers w !! to = Some t -> from <> to -> 0 <= to < 2 ^ 64 ->
  swapcontext k (context_ f) (context_ t) = (0, saved) ->
  activation (context_ t) = Some (Enter sp size (Args_a to) (Args_b to)) -> target_ t = Some func ->
  exists w', switchTo from to k w = Ok (Call func sp size, w') /\ fibers w' = <[from := swapped_out saved f]> (fibers w).
Proof.
  intros Hf Ht Hne Hto Hs Ha Hfn. unfold switchTo. rewrite Hf, Ht. cbn [deref mbind result_bind]. rewrite Hs.
  cbn [fibers]. rewrite (lookup_insert_ne (fibers w)), Ht by done. cbn [deref mbind result_bind].
  rewrite Ha. cbn [mbind result_bind deref]. unfold Main. cbn [fibers]. rewrite Args_roundtrip, lookup_insert_ne, Ht by done.
  cbn [mbind result_bind deref]. rewrite Hfn. cbn. by eexists.
Qed.

Context `{!UContextLaws C K}.

Lemma createFiber_made e e' size func w p w1 :
  createFiber e e' size func w = Ok (p, w1) ->
  exists stack c s, fibers w1 = <[p := mkOSFiber c (Some func) (Some stack)]> (fibers w) /\ memory w1 = s /\
    activation c = Some (Enter (ptr stack) size (Args_a p) (Args_b p)).
Proof.
  unfold createFiber. intros E. inv_ok E. destruct a as [[self n] s]. inv_ok E. destruct a as [stack s'].
  destruct (getcontext uc_zero) as [res c] eqn:Eg. inv_ok E. apply bool_decide_eq_true_1 in E2. subst res.
  injection E as <- <-. do 3 eexists. split_and!; [done|done|]. by eapply makecontext_law.
Qed.

(** A fiber made by [createFiber] at any 64-bit address [p]: the first
    switch to it, from a fiber [q] at point [k1], calls its own function on its
    own stack, although the address of the fiber went through two 32-bit
    integers; a switch back to [q] goes on at [k1], and the next switch to [p]
    where it was left, at [k2].  A failing [swapcontext] fails the assertion. *)
Theorem ucontext_switches e e' size func w p w1 q k1 k2 :
  createFiber e e' size func w = Ok (p, w1) -> 0 <= p < 2 ^ 64 -> q <> p -> is_Some (fibers w !! q) ->
  ((forall k f t, (swapcontext k f t).1 = 0) ->
   exists f stack w2 w3 w4,
     fibers w1 !! p = Some f /\ stack_ f = Some stack /\
     switchTo q p k1 w1 = Ok (Call func (ptr stack) size, w2) /\
     switchTo p q k2 w2 = Ok (Continue k1, w3) /\ switchTo q p k1 w3 = Ok (Continue k2, w4)) /\
  ((forall k f t, (swapcontext k f t).1 <> 0) -> exists msg, switchTo q p k1 w1 = Fatal msg).
Proof.
  intros Hc Hp Hne [fq Hq]. destruct (createFiber_made e e' size func w p w1 Hc) as (stack & c & s & Ef & Em & Ha).
  assert (fibers w1 !! p = Some (mkOSFiber c (Some func) (Some stack))) as Hp1 by (by rewrite Ef, lookup_insert_eq).
  assert (fibers w1 !! q = Some fq) as Hq1 by (by rewrite Ef, lookup_insert_ne).
  assert (forall k f t, (swapcontext k f t).1 = 0 -> exists c', swapcontext k f t = (0, c') /\ activation c' = Some (Resume k)) as Hsw.
  { intros k f t. destruct (swapcontext k f t) as [r c'] eqn:E. simpl. intros ->. exists c'. split; [done|].
    by eapply swapcontext_law. }
  split; intros Hok.
  - destruct (Hsw k1 (context_ fq) c (Hok _ _ _)) as (c1 & E1 & A1). destruct (Hsw k2 c c1 (Hok _ _ _)) as (c2 & E2 & A2).
    destruct (Hsw k1 c1 c2 (Hok _ _ _)) as (c3 & E3 & A3).
    set (fp := mkOSFiber c (Some func) (Some stack)) in *.
    destruct (switchTo_enter q p k1 w1 fq fp c1 (ptr stack) size func) as (w2 & S1 & F1); try done.
    destruct (switchTo_resume p q k2 w2 fp (swapped_out c1 fq) c2 k1) as (w3 & S2 & F2); try done.
    { by rewrite F1, lookup_insert_ne. }
    { by rewrite F1, lookup_insert_eq. }
    destruct (switchTo_resume q p k1 w3 (swapped_out c1 fq) (swapped_out c2 fp) c3 k2) as (w4 & S3 & F3); try done.
    { by rewrite F2, lookup_insert_ne, F1, lookup_insert_eq. }
    { by rewrite F2, lookup_insert_eq. }
    by exists fp, stack, w2, w3, w4.
  - unfold switchTo. rewrite Hq1, Hp1. cbn [deref mbind result_bind context_].
    specialize (Hok k1 (context_ fq) c). destruct (swapcontext k1 (context_ fq) c) as [r c']. simpl in Hok.
    rewrite bool_decide_eq_false_2 by done. by eexists.
Qed.

(** ** The stack goes back to the allocator *)
Context `{!AllocatorLaws Env S}.

Lemma createFiber_stack e e' size func w ls :
  owns (memory w) ls -> admits e (create_request (u64 (sizeof * 1)) alignof) (memory w) ->
  (getcontext uc_zero).1 = 0 ->
  (forall s a, owns s (a :: ls) -> admits e' (stack_request size) s) ->
  exists p w1 object stack w2, createFiber e e' size func w = Ok (p, w1) /\
    owns (memory w1) (stack :: object :: ls) /\ request stack = stack_request size /\ ptr object = p /\
    OSFiber_dtor p w1 = Ok w2 /\ owns (memory w2) (object :: ls) /\ fibers w2 = delete p (fibers w).
Proof.
  intros Ho Ha Hg Ha'. destruct (allocate_law (memory w) ls e _ Ho Ha) as (object & s1 & E1 & _ & Ho1).
  destruct (allocate_law s1 (object :: ls) e' _ Ho1 (Ha' s1 object Ho1)) as (stack & s2 & E2 & Er & Ho2).
  destruct (free_law s2 [] stack (object :: ls) Ho2) as (s3 & E3 & Ho3).
  destruct (getcontext uc_zero) as [res c] eqn:Eg. simpl in Hg. subst res.
  exists (ptr object). eexists. exists object, stack. eexists. unfold createFiber, make_unique, make_unique_n.
  rewrite (bool_decide_eq_false_2 (1 = 0)%Z) by done. rewrite E1. cbn [mbind result_bind]. rewrite E2. cbn [mbind result_bind]. rewrite Eg. cbn [mbind result_bind].
  split; [reflexivity|]. split; [done|]. split; [done|]. split; [done|].
  unfold OSFiber_dtor. cbn [fibers memory]. rewrite lookup_insert_eq. cbn [deref mbind result_bind stack_]. rewrite E3.
  cbn [mbind result_bind]. split; [reflexivity|]. split; [done|]. cbn [fibers]. apply delete_insert_eq.
Qed.
End ucontext.

(** ** A witness: contexts that are what they do *)
#[local] Instance sample_ucontext {K} : UContext (option (Activation K)) K := {|
  uc_zero := None;
  getcontext c := (0, c);
  makecontext sp size a b c := Some (Enter sp size a b);
  swapcontext k from to := (0, Some (Resume k));
  activation c := c
|}.

#[local] Instance sample_ucontext_laws {K} : UContextLaws (option (Activation K)) K.
Proof. split; [reflexivity|]. intros k from to from' E. injection E as <-. reflexivity. Qed.

(** A fiber at an address with both halves above [2^31], over an allocator that
    answers every request with the address it is told. *)
#[local] Existing Instance sample_allocator.

Definition sample_world : @World (option (Activation nat)) nat unit := mkWorld {[1 := mkOSFiber None None None]} ().
Definition sample_created : Result (Z * @World (option (Activation nat)) nat unit) :=
  createFiber 64 8 0xFFFFF000FFFFE000 65536 4096 7%nat sample_world.
Definition sample_world1 : @World (option (Activation nat)) nat unit :=
  match sample_created with Ok (_, w) => w | _ => sample_world end.

Lemma ucontext_switches_witness :
  sample_created = Ok (0xFFFFF000FFFFE000, sample_world1) /\
  exists w2, switchTo 1 0xFFFFF000FFFFE000 5%nat sample_world1 = Ok (Call 7%nat 65536 4096, w2).
Proof.
  assert (sample_created = Ok (0xFFFFF000FFFFE000, sample_world1)) as E by (vm_compute; reflexivity).
  split; [exact E|].
  pose proof (ucontext_switches 64 8 0xFFFFF000FFFFE000 65536 4096 7%nat sample_world
                0xFFFFF000FFFFE000 sample_world1 1 5%nat 6%nat) as Hsw0.
  destruct (Hsw0 E) as [H _]; [lia|lia|by eexists|].
  destruct (H (fun _ _ _ => eq_refl)) as (f & stack & w2 & w3 & w4 & Hf & Hst & Hsw & _).
  exists w2. vm_compute in Hf. injection Hf as <-. vm_compute in Hst. injection Hst as <-. exact Hsw.
Defined.
