(* ===== verification/WorkerFibers.v ===== *)
(** The fibers of a worker on the fibers of the operating system: the stacks of
    frames that Worker.v keeps are implemented by [OSFiber].

    [OSFibers] is what a worker asks of [OSFiber]: a fiber that is switched out
    goes on where it was left, a new one starts with its function, and nothing
    else moves.  The worker is run side by side with such fibers: every step of
    Worker.v makes the calls of [Fiber::create], [Fiber::switchTo] and
    [~OSFiber] that the code makes (src/src/scheduler.cpp), and the theorem says
    that the fiber a switch leads to then has exactly the frames that the model
    of the worker goes on with.  UContextFibers.v and AsmFibers.v show that both
    implementations keep the interface. *)
From stdpp Require Import base numbers strings sets gmap list.
From S2P Require Import Prelude Task WaitingFibers Worker WorkerFrame WorkerLogic WorkerInv WorkerSafety WorkerProps.

(** ** The interface *)

(** What runs after a switch: a fiber goes on at [k], or starts with [func]. *)
Inductive Control (K F : Type) := GoesOn (k : K) | Starts (func : F).
Arguments GoesOn {K F} k.
Arguments Starts {K F} func.

Class OSFibers (W K F Env : Type) := {
  os_current : Env -> W -> Result (Z * W);             (* createFiberFromCurrentThread *)
  os_create : Env -> Z -> F -> W -> Result (Z * W);    (* createFiber *)
  os_switch : Z -> Z -> K -> W -> Result (Control K F * W);
  os_destroy : Z -> W -> Result W;                     (* ~OSFiber *)
  os_ok : W -> Prop;                                   (* what the operations keep *)
  os_current_admits : Env -> W -> Prop;                (* the answers of the environment *)
  os_create_admits : Env -> Z -> W -> Prop;
  os_room : W -> Z -> K -> Prop;                       (* its stack has room for [k] *)
  os_live : W -> Z -> Prop;
  os_saved : W -> Z -> Control K F -> Prop;            (* what a switch to it leads to *)
  os_borrowed : W -> Z -> Prop                         (* it runs on the stack of its thread *)
}.

(** [w'] has the fibers of [w] as they were, [p] apart. *)
Definition os_keeps {W K F Env} `{!OSFibers W K F Env} (p : Z) (w w' : W) : Prop :=
  forall q, q <> p -> os_live w q ->
    os_live w' q /\ (forall c, os_saved w q c -> os_saved w' q c) /\ (os_borrowed w q -> os_borrowed w' q).

Class OSFibersLaws (W K F Env : Type) `{!OSFibers W K F Env} := {
  os_current_law e w p w' :
    os_ok w -> os_current_admits e w -> os_current e w = Ok (p, w') ->
    os_ok w' /\ os_live w' p /\ os_borrowed w' p /\ os_keeps p w w';
  os_create_law e size f w p w' :
    os_ok w -> os_create_admits e size w -> os_create e size f w = Ok (p, w') -> (0 <= p < 2 ^ 64)%Z ->
    os_ok w' /\ os_live w' p /\ os_saved w' p (Starts f) /\ os_keeps p w w';
  os_switch_law p q k c w :
    os_ok w -> os_live w p -> os_live w q -> p <> q -> os_room w p k -> os_saved w q c ->
    exists w', os_switch p q k w = Ok (c, w') /\ os_ok w' /\ os_live w' p /\ os_saved w' p (GoesOn k) /\
      (os_borrowed w p -> os_borrowed w' p) /\ os_keeps p w w';
  os_destroy_law p w :
    os_ok w -> os_live w p -> os_borrowed w p -> exists w', os_destroy p w = Ok w' /\ os_ok w' /\ os_keeps p w w'
}.

(** ** Steps of a worker that stay on its fiber *)
Lemma M_bind_inv {A B} (m : M A) (k : A -> M B) w b w' o :
  (m ≫= k) w = Ok (b, w', o) ->
  exists a w1 o1 o2, m w = Ok (a, w1, o1) /\ k a w1 = Ok (b, w', o2) /\ o = o1 ++ o2.
Proof.
  unfold mbind, M_bind. destruct (m w) as [[[a w1] o1]| |]; [|done|done].
  destruct (k a w1) as [[[c w2] o2]| |] eqn:E; [|done|done]. intros [= <- <- <-]. eauto 8.
Qed.

(** Takes an [H : (m ≫= k) w = Ok _] apart. *)
Ltac inv_bind H :=
  let a := fresh "a" in let w := fresh "w" in let o1 := fresh "o" in let o2 := fresh "o" in
  let E := fresh "E" in
  apply M_bind_inv in H; destruct H as (a & w & o1 & o2 & E & H & ->).

Record local (w w' : Worker) : Prop := {
  local_current : current_fiber_ w' = current_fiber_ w;
  local_stacks : forall f, f <> current_fiber_ w -> impl_ <$> heap w' !! f = impl_ <$> heap w !! f;
  local_dom : is_Some (heap w' !! current_fiber_ w) <-> is_Some (heap w !! current_fiber_ w)
}.

Lemma local_refl w : local w w.
Proof. by split. Qed.

Lemma local_trans w w1 w2 : local w w1 -> local w1 w2 -> local w w2.
Proof.
  intros [C1 S1 D1] [C2 S2 D2]. rewrite C1 in *. split; [congruence| |by rewrite D2].
  intros f Hf. by rewrite S2, S1.
Qed.

(** A change that leaves the fibers and the running one alone. *)
Lemma local_same w w' : current_fiber_ w' = current_fiber_ w -> heap w' = heap w -> local w w'.
Proof. intros Hc Hh. split; [done|by rewrite Hh..]. Qed.

(** A change of one fiber, of its frames only if it is the running one. *)
Lemma local_put f b b' w :
  heap w !! f = Some b -> (f <> current_fiber_ w -> impl_ b' = impl_ b) -> local w (upd_heap <[f := b']> w).
Proof.
  intros Hb Hi. split; simpl; [done| |].
  - intros g Hg. destruct (decide (g = f)) as [->|Hne]; [|by rewrite lookup_insert_ne].
    rewrite lookup_insert_eq, Hb. simpl. by rewrite Hi.
  - destruct (decide (f = current_fiber_ w)) as [<-|Hne]; [|by rewrite lookup_insert_ne].
    rewrite lookup_insert_eq, Hb. by split; eauto.
Qed.

Definition stays {A} (m : M A) : Prop := forall w a w' o, m w = Ok (a, w', o) -> local w w'.

Create HintDb stays discriminated.
#[export] Hint Constants Opaque : stays.
Ltac stays_tac := repeat progress (simpl; auto 40 with stays).

Lemma stays_bind {A B} (m : M A) (k : A -> M B) : stays m -> (forall a, stays (k a)) -> stays (m ≫= k).
Proof.
  intros Hm Hk w b w' o E. inv_bind E. eapply local_trans; [by eapply Hm|by eapply Hk].
Qed.
Lemma stays_get : stays get.
Proof. intros w a w' o [= <- <- <-]. apply local_refl. Qed.
Lemma stays_mret {A} (a : A) : stays (mret a).
Proof. intros w b w' o [= <- <- <-]. apply local_refl. Qed.
Lemma stays_lift {A} (r : Result A) : stays (lift r).
Proof. intros w b w' o. destruct r; [|done|done]. intros [= <- <- <-]. apply local_refl. Qed.
Lemma stays_emit o : stays (emit o).
Proof. intros w b w' o' [= <- <- <-]. apply local_refl. Qed.
Lemma stays_modify f :
  (forall w, current_fiber_ (f w) = current_fiber_ w) -> (forall w, heap (f w) = heap w) -> stays (modify f).
Proof. intros H1 H2 w b w' o [= <- <- <-]. by apply local_same. Qed.
Lemma stays_guard : stays guard.
Proof. intros w b w' o (-> & _ & _)%guard_inv. apply local_refl. Qed.
Lemma stays_get_locked : stays get_locked.
Proof. intros w b w' o (_ & -> & _)%get_locked_inv. apply local_refl. Qed.
Lemma stays_work g : stays (work g).
Proof. intros w b w' o [-> _]%work_inv. by apply local_same. Qed.
Lemma stays_the_fiber f : stays (the_fiber f).
Proof. apply stays_bind; [apply stays_get|intros w; apply stays_lift]. Qed.
#[export] Hint Resolve stays_get stays_mret stays_lift stays_emit stays_guard stays_get_locked stays_the_fiber : stays.
#[export] Hint Extern 1 (stays (mbind _ _)) => apply stays_bind; [|intros ?] : stays.
#[export] Hint Extern 1 (stays (modify _)) => apply stays_modify; reflexivity : stays.
#[export] Hint Extern 1 (stays (work _)) => apply stays_work : stays.
#[export] Hint Extern 1 (stays (atomic _)) => apply stays_modify; reflexivity : stays.
#[export] Hint Extern 1 (stays (goto _)) => apply stays_modify; reflexivity : stays.
#[export] Hint Extern 1 (stays (match ?x with _ => _ end)) => destruct x : stays.

(** [the_fiber] reads a live fiber. *)
Lemma the_fiber_inv f w b w' o : the_fiber f w = Ok (b, w', o) -> w' = w /\ heap w !! f = Some b.
Proof.
  unfold the_fiber, mbind, M_bind, get, lift. destruct (heap w !! f) as [b0|]; simpl; [|done].
  intros [= <- <- <-]. done.
Qed.

Lemma assert_inv c msg w a w' o : assert c msg w = Ok (a, w', o) -> w' = w.
Proof. unfold assert, lift, MARL_ASSERT. destruct c; [|done]. by intros [= <- <- <-]. Qed.

Lemma stays_assert c m : stays (assert c m).
Proof. unfold assert. auto with stays. Qed.
Lemma stays_pass : stays pass.
Proof. unfold pass. auto with stays. Qed.
Lemma stays_notify_if b : stays (notify_if b).
Proof. unfold notify_if, pass. auto with stays. Qed.
Lemma stays_lock : stays lock_mutex.
Proof. unfold lock_mutex. stays_tac. Qed.
Lemma stays_unlock : stays unlock_mutex.
Proof. unfold unlock_mutex. stays_tac. Qed.
#[export] Hint Resolve stays_assert stays_pass stays_notify_if stays_lock stays_unlock : stays.

Lemma stays_set_state f s : stays (setFiberState f s).
Proof.
  intros w a w' o E. inv_bind E. apply guard_inv in E0 as (-> & _ & _). inv_bind E.
  apply the_fiber_inv in E0 as [-> Hb]. injection E as <- <- <-. by eapply local_put.
Qed.

Lemma stays_change f s t : stays (changeFiberState f s t).
Proof.
  intros w a w' o E. inv_bind E. apply guard_inv in E0 as (-> & _ & _). inv_bind E.
  apply the_fiber_inv in E0 as [-> Hb]. inv_bind E. apply assert_inv in E0 as ->. injection E as <- <- <-. by eapply local_put.
Qed.

Lemma stays_assert_state f s : stays (assert_fiber_state f s).
Proof. unfold assert_fiber_state. auto with stays. Qed.

Lemma push_frame_inv k w a w' o :
  push_frame k w = Ok (a, w', o) ->
  exists b, heap w !! current_fiber_ w = Some b /\
    w' = upd_heap <[current_fiber_ w := mkFiber (id_ b) (state_ b) (k :: impl_ b)]> w.
Proof.
  intros E. inv_bind E. injection E0 as <- <- <-. inv_bind E. apply the_fiber_inv in E0 as [-> Hb].
  injection E as <- <- <-. eauto.
Qed.

Lemma stays_push k : stays (push_frame k).
Proof. intros w a w' o (b & Hb & ->)%push_frame_inv. by eapply local_put. Qed.

Lemma pop_frame_inv w k w' o :
  pop_frame w = Ok (k, w', o) ->
  exists b s, heap w !! current_fiber_ w = Some b /\
    w' = upd_heap <[current_fiber_ w := mkFiber (id_ b) (state_ b) s]> w.
Proof.
  intros E. inv_bind E. injection E0 as <- <- <-. inv_bind E. apply the_fiber_inv in E0 as [-> Hb].
  destruct (impl_ a) as [|k' s]; [done|]. injection E as <- <- <-. eauto.
Qed.

Lemma stays_pop : stays pop_frame.
Proof. intros w a w' o (b & s & Hb & ->)%pop_frame_inv. by eapply local_put. Qed.
#[export] Hint Resolve stays_set_state stays_change stays_assert_state stays_push stays_pop : stays.

Lemma stays_ret : stays ret.
Proof. unfold ret. stays_tac. Qed.
#[export] Hint Resolve stays_ret : stays.
Lemma stays_resume : stays resume.
Proof. unfold resume, suspend_resumed. stays_tac. Qed.
#[export] Hint Resolve stays_resume : stays.
Lemma stays_timeouts fuel now : stays (enqueueFiberTimeouts fuel now).
Proof. induction fuel; simpl; stays_tac. Qed.
#[export] Hint Resolve stays_timeouts : stays.

(** ** Steps that switch *)

(** The frames of a fiber. *)
Abbreviation frames_of w f := (impl_ <$> heap w !! f) (only parsing).

(** From [w], with [w1] at the switch to [g], to [w']. *)
Record switched (w w1 : Worker) (g : FiberPtr) (w' : Worker) : Prop := {
  sw_before : local w w1;
  sw_after : local (upd_current g w1) w';
  sw_target : is_Some (heap w1 !! g)
}.

Definition switches {A} (m : M A) : Prop :=
  forall w a w' o, m w = Ok (a, w', o) -> exists w1 g, switched w w1 g w'.

Lemma switches_bind {A B} (m : M A) (k : A -> M B) : stays m -> (forall a, switches (k a)) -> switches (m ≫= k).
Proof.
  intros Hm Hk w b w' o E. inv_bind E. destruct (Hk _ _ _ _ _ E) as (w3 & g & [H1 H2 H3]).
  exists w3, g. split; [|done|done]. eapply local_trans; [by eapply Hm|done].
Qed.

Lemma switchToFiber_switched g w a w' o : switchToFiber g w = Ok (a, w', o) -> switched w w g w'.
Proof.
  intros E. inv_bind E. injection E0 as <- <- <-. inv_bind E. apply assert_inv in E0 as ->.
  inv_bind E. injection E0 as <- <- <-. split; [apply local_refl|by eapply stays_resume|].
  inv_bind E. apply pop_frame_inv in E0 as (b & s & Hb & _). simpl in Hb. eauto.
Qed.

Lemma switchToFiber_switches g : switches (switchToFiber g).
Proof. intros w a w' o E. exists w, g. by eapply switchToFiber_switched. Qed.

#[export] Hint Resolve switchToFiber_switches : stays.
#[export] Hint Extern 1 (switches (mbind _ _)) => apply switches_bind; [|intros ?] : stays.

(** ** What a step does to the stacks *)
Inductive moved (w w' : Worker) : Prop :=
| moved_not : local w w' -> moved w w'
| moved_switch w1 g : switched w w1 g w' -> moved w w'
| moved_start w1 w2 g :                  (* the fiber [g] is made first *)
    local w w1 -> is_Some (heap w1 !! current_fiber_ w) -> heap w1 !! g = None ->
    current_fiber_ w2 = current_fiber_ w1 -> frames_of w2 g = Some [KFiberStart] ->
    (forall f, f <> g -> heap w2 !! f = heap w1 !! f) -> local (upd_current g w2) w' -> moved w w'
| moved_exit : current_fiber_ w' = current_fiber_ w -> heap w' = delete (main_fiber_ w) (heap w) -> moved w w'.

Lemma create_switch_moved p w w1 w' a o :
  local w w1 -> is_Some (heap w1 !! current_fiber_ w) -> heap w1 !! p = None ->
  (q ← createWorkerFiber p; switchToFiber q) w1 = Ok (a, w', o) -> moved w w'.
Proof.
  intros Hl Hc Hp E. inv_bind E. unfold createWorkerFiber in E0. inv_bind E0. injection E1 as <- <- <-.
  inv_bind E0. injection E1 as <- <- <-. inv_bind E0. injection E1 as <- <- <-. injection E0 as <- <- <-.
  apply switchToFiber_switched in E as [_ Hafter _]. eapply (moved_start w w' w1); [done..| | | |exact Hafter].
  - done.
  - simpl. by rewrite lookup_insert_eq.
  - intros f Hf. simpl. by rewrite lookup_insert_ne.
Qed.

Lemma suspend_switch_moved f w a w' o :
  legal (Pick f) w -> suspend_switch f w = Ok (a, w', o) -> moved w w'.
Proof.
  intros Hl E. unfold suspend_switch in E. inv_bind E. apply work_inv in E0 as [-> _]. inv_bind E. rename w0 into w1.
  assert (local w w1) as Hlocal.
  { eapply local_trans; [by apply (local_same w (upd_work incr_blocked w))|by eapply stays_push]. }
  apply push_frame_inv in E0 as (b & Hb & Ew). simpl in Hb.
  assert (is_Some (heap w1 !! current_fiber_ w)) as Hcur by (subst w1; simpl; rewrite lookup_insert_eq; eauto).
  assert (fibers (work_ w1) = fibers (work_ w) /\ idle_fibers_ w1 = idle_fibers_ w) as [Hf Hi] by (by subst w1).
  clear Ew. inv_bind E. apply get_locked_inv in E0 as (-> & -> & _). rewrite Hf, Hi in E. simpl in Hl.
  assert (forall B (m : M B) b' w2 o', switches m -> m w1 = Ok (b', w2, o') -> moved w w2) as Hsw.
  { intros B m b' w2 o' Hm E'. destruct (Hm _ _ _ _ E') as (w3 & g & [H1 H2 H3]).
    eapply moved_switch. split; [|done|done]. by eapply local_trans. }
  destruct (bool_decide (fibers (work_ w) <> [])); [|destruct (bool_decide (idle_fibers_ w <> ∅))].
  - eapply Hsw; [|exact E]. unfold take_front. destruct (fibers (work_ w)); auto 20 with stays.
  - eapply Hsw; [|exact E]. auto 20 with stays.
  - eapply create_switch_moved; [done|done| |done]. destruct Hl as [Hl _].
    assert (f <> current_fiber_ w) as Hne by congruence.
    pose proof (local_stacks _ _ Hlocal f Hne) as Hst. rewrite Hl in Hst. by destruct (heap w1 !! f).
Qed.

Lemma run_end_switches : switches run_end.
Proof. unfold run_end. auto 20 with stays. Qed.

Lemma idle_loop_moved w a w' o : runUntilIdle_loop w = Ok (a, w', o) -> moved w w'.
Proof.
  intros E. unfold runUntilIdle_loop in E. inv_bind E. apply get_locked_inv in E0 as (-> & -> & ->).
  assert (forall m : M unit, m w = Ok (a, w', o1) -> stays m \/ switches m -> moved w w') as Hm.
  { intros m E' [Hm|Hm]; [apply moved_not; by eapply Hm|].
    destruct (Hm _ _ _ _ E') as (w1 & g & Hs). by eapply moved_switch. }
  eapply Hm; [exact E|]. destruct (fibers (work_ w)) as [|f fs].
  - left. destruct (tasks (work_ w)); auto 20 with stays.
  - right. auto 30 with stays.
Qed.

Lemma thread_end_moved w a w' o : thread_end w = Ok (a, w', o) -> moved w w'.
Proof.
  intros E. unfold thread_end in E. inv_bind E. unfold unlock_mutex in E0. inv_bind E0. injection E1 as <- <- <-.
  destruct (mutex (work_ w)); [|done]. injection E0 as <- <- <-.
  inv_bind E. injection E0 as <- <- <-. inv_bind E. injection E0 as <- <- <-.
  inv_bind E. injection E0 as <- <- <-. injection E as <- <- <-. by apply moved_exit.
Qed.

(** Everything else stays on its fiber. *)
Lemma stays_wait_pred_loop t p : stays (wait_pred_loop t p).
Proof. unfold wait_pred_loop. stays_tac. Qed.
#[export] Hint Resolve stays_wait_pred_loop : stays.

Lemma stays_external e w m : external e = true -> code e w = Some m -> stays m.
Proof.
  intros He. rewrite code_external by done. destruct e; try done; simpl.
  - destruct (mutex (work_ w)); [done|]. intros [= <-]. unfold enqueue_fiber. stays_tac.
  - destruct (negb _ && _); [|done]. intros [= <-]. unfold enqueue_task, enqueueAndUnlock. stays_tac.
  - intros [= <-]. unfold steal. stays_tac.
  - intros [= <-]. auto with stays.
Qed.

Definition moving (p : Pc) : bool :=
  match p with PSuspendPick | PRunEnd | PIdleLoop | PThreadEnd => true | _ => false end.

Lemma stays_code e w m : moving (pc w) = false -> code e w = Some m -> stays m.
Proof.
  destruct (external e) eqn:He; [by intros _; apply stays_external|].
  unfold code. destruct (pc w), e; try done; try case_bool_decide; try done; intros _ [= <-];
    unfold task_done, wait_begin, stop_single, thread_start, run, run_body, runUntilShutdown, waitForWork,
      spin_stole, spin_end, waitForWork_wait, waitForWork_done, Work_wait, Work_wake, runUntilIdle, suspend,
      wait_end, wait_pred_suspended, wait_pred_relock, stop_single_end; stays_tac.
Qed.

Lemma exec_moved e w w' o : legal e w -> exec e w = Some (Ok (w', o)) -> moved w w'.
Proof.
  intros Hl. unfold exec. destruct (code e w) as [m|] eqn:Hc; [|done]. intros [= H].
  destruct (m w) as [[[a w1] o1]| |] eqn:Hm; simplify_eq/=.
  destruct (moving (pc w)) eqn:Hp; [|apply moved_not; by eapply stays_code].
  destruct (external e) eqn:He; [apply moved_not; by eapply (stays_external e)|].
  unfold code in Hc. destruct (pc w); try done; destruct e; try done; simplify_eq.
  - destruct (run_end_switches _ _ _ _ Hm) as (w1 & g & Hs). by eapply moved_switch.
  - by eapply idle_loop_moved.
  - by eapply suspend_switch_moved.
  - by eapply thread_end_moved.
Qed.

(** ** The worker with its fibers *)
Global Instance Fiber_eq_dec : EqDecision Fiber.
Proof. solve_decision. Defined.

Section simulation.
Context {W Env : Type} `{!OSFibers W (list Frame) unit Env}.
Context (stack_size : Z).                   (* cfg_.fiber_stack_size *)

(** [impl_] of the live fibers, and the world of the [OSFiber]s. *)
Record Fibers := mkFibers { os_of : gmap FiberPtr Z; world : W }.

(** [Fiber::createFromCurrentThread] and [Fiber::create]; [f] is the address of
    the [Fiber].  The function of a worker's fiber is [run()]. *)
Definition Fiber_createFromCurrentThread (e : Env) (f : FiberPtr) (y : Fibers) : Result Fibers :=
  '(p, w) ← os_current e (world y); Ok (mkFibers (<[f := p]> (os_of y)) w).

Definition Fiber_create (e : Env) (f : FiberPtr) (y : Fibers) : Result Fibers :=
  '(p, w) ← os_create e stack_size () (world y); Ok (mkFibers (<[f := p]> (os_of y)) w).

(** [Fiber::switchTo], called with the frames [k] on the stack; nothing for a
    switch to itself. *)
Definition Fiber_switchTo (from to : FiberPtr) (k : list Frame) (y : Fibers)
  : Result (option (Control (list Frame) unit) * Fibers) :=
  if bool_decide (to = from) then Ok (None, y)
  else
    p ← deref (os_of y !! from) "null impl_";
    q ← deref (os_of y !! to) "null impl_";
    '(c, w) ← os_switch p q k (world y);
    Ok (Some c, mkFibers (os_of y) w).

(** [main_fiber_.reset()] at the end of the thread. *)
Definition Fiber_destroy (f : FiberPtr) (y : Fibers) : Result Fibers :=
  p ← deref (os_of y !! f) "null impl_";
  w ← os_destroy p (world y);
  Ok (mkFibers (delete f (os_of y)) w).

(** The address of a new [OSFiber] is not that of a live one. *)
Definition fresh_os (y y1 : Fibers) (f : FiberPtr) : Prop :=
  exists p, os_of y1 !! f = Some p /\ (0 <= p < 2 ^ 64)%Z /\ forall g, os_of y !! g <> Some p.

(** [f] is made, with answers the environment may give. *)
Definition made (env : Env) (y y1 : Fibers) (f : FiberPtr) : Prop :=
  os_create_admits env stack_size (world y) /\ Fiber_create env f y = Ok y1 /\ fresh_os y y1 f.

(** The stack of [f] has room for its frames at a switch. *)
Definition has_room (y : Fibers) (f : FiberPtr) (k : list Frame) : Prop :=
  forall p, os_of y !! f = Some p -> os_room (world y) p k.

(** The calls a step of the worker from [w] to [w'] makes, and where they lead. *)
Inductive os_step (w w' : Worker) (y : Fibers) : Fibers -> Prop :=
| os_stay : current_fiber_ w' = current_fiber_ w -> dom (heap w') = dom (heap w) -> os_step w w' y y
| os_resume g k y' :
    current_fiber_ w' = g -> g <> current_fiber_ w -> frames_of w g = Some k ->
    has_room y (current_fiber_ w) (stack w' (current_fiber_ w)) ->
    Fiber_switchTo (current_fiber_ w) g (stack w' (current_fiber_ w)) y = Ok (Some (GoesOn k), y') ->
    os_step w w' y y'
| os_start g env y1 y' :
    current_fiber_ w' = g -> heap w !! g = None -> is_Some (heap w' !! g) ->
    made env y y1 g -> has_room y1 (current_fiber_ w) (stack w' (current_fiber_ w)) ->
    Fiber_switchTo (current_fiber_ w) g (stack w' (current_fiber_ w)) y1 = Ok (Some (Starts ()), y') ->
    os_step w w' y y'
| os_exit y' :
    is_Some (heap w !! main_fiber_ w) -> heap w' = delete (main_fiber_ w) (heap w) -> current_fiber_ w' = current_fiber_ w ->
    Fiber_destroy (main_fiber_ w) y = Ok y' -> os_step w w' y y'.

(** The worker and its fibers run together. *)
Inductive runs_on : Worker -> Fibers -> Prop :=
| runs_start id mode main env y y1 :
    (0 < main < 2 ^ 62)%Z -> os_of y = ∅ -> os_ok (world y) -> os_current_admits env (world y) ->
    Fiber_createFromCurrentThread env main y = Ok y1 ->
    runs_on (start id mode main) y1
| runs_step w y e w' o y' :
    runs_on w y -> legal e w -> exec e w = Some (Ok (w', o)) -> os_step w w' y y' -> runs_on w' y'.

Lemma runs_on_reachable w y : runs_on w y -> reachable w.
Proof. induction 1; [by apply reach_start|]. eapply reach_step; [done|]. by econstructor. Qed.

(** Every fiber but the running one is saved where the worker left it. *)
Record on_fibers (w : Worker) (y : Fibers) : Prop := {
  of_ok : os_ok (world y);
  of_live : forall f, is_Some (heap w !! f) -> exists p, os_of y !! f = Some p /\ os_live (world y) p;
  of_inj : forall f g p, os_of y !! f = Some p -> os_of y !! g = Some p -> f = g;
  of_saved : forall f k p, f <> current_fiber_ w -> frames_of w f = Some k -> os_of y !! f = Some p ->
    os_saved (world y) p (GoesOn k);
  of_main : forall p, os_of y !! main_fiber_ w = Some p -> os_live (world y) p -> os_borrowed (world y) p
}.

Context `{!OSFibersLaws W (list Frame) unit Env}.

Lemma frames_is_Some w f : is_Some (frames_of w f) <-> is_Some (heap w !! f).
Proof. by rewrite fmap_is_Some. Qed.

Lemma local_frames_dom w w' f : local w w' -> is_Some (heap w' !! f) <-> is_Some (heap w !! f).
Proof.
  intros [Hc Hs Hd]. destruct (decide (f = current_fiber_ w)) as [->|Hne]; [done|].
  by rewrite <- !frames_is_Some, Hs.
Qed.

Lemma reachable_current w : reachable w -> pc w <> PExited -> is_Some (heap w !! current_fiber_ w).
Proof.
  intros [HI|[HD|[HE _]]]%reachable_good Hpc; [|  |done].
  - destruct (inv_current w HI) as (b & -> & _). eauto.
  - rewrite (drain_current w HD). destruct (drain_main w HD) as (b & -> & _). eauto.
Qed.

(** A switch of the worker from [f] to [g] with the frames [k], over fibers
    where [g] is saved at [c]. *)
Lemma switch_fibers f g k c y p q :
  os_ok (world y) -> f <> g -> os_of y !! f = Some p -> os_live (world y) p ->
  os_of y !! g = Some q -> os_live (world y) q -> p <> q -> has_room y f k -> os_saved (world y) q c ->
  exists y', Fiber_switchTo f g k y = Ok (Some c, y') /\ os_of y' = os_of y /\
    os_ok (world y') /\ os_live (world y') p /\ os_saved (world y') p (GoesOn k) /\
    (os_borrowed (world y) p -> os_borrowed (world y') p) /\ os_keeps p (world y) (world y').
Proof.
  intros Hok Hne Hf Hlf Hg Hlg Hpq Hroom Hs.
  destruct (os_switch_law p q k c (world y) Hok Hlf Hlg Hpq (Hroom p Hf) Hs) as (w' & E & H0 & H1 & H2 & H3 & H4).
  unfold Fiber_switchTo. rewrite bool_decide_eq_false_2 by done. rewrite Hf, Hg. cbn [deref mbind result_bind].
  rewrite E. cbn [mbind result_bind]. by eexists.
Qed.

(** The worker after a switch from [f] to [g]: what is to be shown before it. *)
Record at_switch (w' : Worker) (f g : FiberPtr) (y : Fibers) : Prop := {
  as_ok : os_ok (world y);
  as_live : forall h, is_Some (heap w' !! h) -> exists p, os_of y !! h = Some p /\ os_live (world y) p;
  as_inj : forall h i p, os_of y !! h = Some p -> os_of y !! i = Some p -> h = i;
  as_saved : forall h k p, h <> f -> h <> g -> frames_of w' h = Some k -> os_of y !! h = Some p ->
    os_saved (world y) p (GoesOn k);
  as_main : forall p, os_of y !! main_fiber_ w' = Some p -> os_live (world y) p -> os_borrowed (world y) p
}.

Lemma at_switch_on_fibers w' f g y c q :
  at_switch w' f g y -> f <> g -> current_fiber_ w' = g -> is_Some (heap w' !! f) -> is_Some (heap w' !! g) ->
  is_Some (heap w' !! main_fiber_ w') ->
  os_of y !! g = Some q -> has_room y f (stack w' f) -> os_saved (world y) q c ->
  exists y', Fiber_switchTo f g (stack w' f) y = Ok (Some c, y') /\ on_fibers w' y'.
Proof.
  intros HA Hne Hcur Hf Hg Hm Hq Hroom Hc. destruct (as_live _ _ _ _ HA f Hf) as (p & Hp & Hlp).
  destruct (as_live _ _ _ _ HA g Hg) as (q' & Hq' & Hlq). rewrite Hq in Hq'. injection Hq' as <-. subst g.
  assert (p <> q) as Hpq by (intros ->; apply Hne; by eapply (as_inj _ _ _ _ HA)).
  destruct (switch_fibers f (current_fiber_ w') (stack w' f) c y p q) as (y' & E & Ho & H0 & H1 & H2 & H3 & Hk);
    try done; [apply HA|].
  exists y'. split; [done|]. split; rewrite ?Ho.
  - done.
  - intros h Hh. destruct (as_live _ _ _ _ HA h Hh) as (r & Hr & Hlr). exists r. split; [done|].
    destruct (decide (r = p)) as [->|Hrp]; [done|]. by apply (Hk r).
  - apply HA.
  - intros h k r Hhc Hk' Hr. destruct (decide (h = f)) as [->|Hhf].
    + assert (r = p) as -> by congruence. apply fmap_Some in Hk' as (b & Hb & ->). unfold stack in H2. by rewrite Hb in H2.
    + assert (r <> p) as Hrp by (intros ->; apply Hhf; by eapply (as_inj _ _ _ _ HA)).
      assert (is_Some (heap w' !! h)) as Hh by (apply frames_is_Some; eauto).
      destruct (as_live _ _ _ _ HA h Hh) as (r' & Hr' & Hlr). rewrite Hr in Hr'. injection Hr' as <-.
      apply (Hk r Hrp Hlr). by eapply (as_saved _ _ _ _ HA h).
  - intros r Hr _. destruct (as_live _ _ _ _ HA _ Hm) as (r' & Hr' & Hlr). rewrite Hr in Hr'. injection Hr' as <-.
    pose proof (as_main _ _ _ _ HA r Hr Hlr) as Hb.
    destruct (decide (r = p)) as [->|Hrp]; [by apply H3|]. by apply (Hk r Hrp Hlr).
Qed.

Lemma reachable_main w : reachable w -> pc w <> PExited -> is_Some (heap w !! main_fiber_ w).
Proof.
  intros [HI|[HD|[HE _]]]%reachable_good Hpc; [apply HI| |done].
  destruct (drain_main w HD) as (b & -> & _). eauto.
Qed.

Lemma local_on_fibers w w' y :
  local w w' -> main_fiber_ w' = main_fiber_ w -> on_fibers w y -> os_step w w' y y /\ on_fibers w' y.
Proof.
  intros Hl Hm [H0 H1 H2 H3 H4]. split.
  - apply os_stay; [by apply Hl|]. apply set_eq. intros f. rewrite !elem_of_dom. by apply local_frames_dom.
  - split; rewrite ?Hm; try done.
    + intros f Hf. apply H1. by apply (local_frames_dom w w').
    + intros f k p Hne Hk. rewrite (local_current _ _ Hl) in Hne. rewrite (local_stacks _ _ Hl) in Hk by done. by eapply H3.
Qed.

(** The frames after a switch: only the two fibers it is about have changed. *)
Lemma switched_frames w w1 g w' f :
  switched w w1 g w' -> f <> g -> f <> current_fiber_ w -> frames_of w' f = frames_of w f.
Proof.
  intros [Hb Ha _] Hg Hc. rewrite (local_stacks _ _ Ha) by done. cbn [upd_current heap]. by apply (local_stacks _ _ Hb).
Qed.

Lemma switched_dom w w1 g w' f : switched w w1 g w' -> is_Some (heap w' !! f) <-> is_Some (heap w !! f).
Proof. intros [Hb Ha _]. rewrite (local_frames_dom _ _ _ Ha). cbn [upd_current heap]. by apply local_frames_dom. Qed.

Lemma resume_on_fibers w w1 g w' y :
  switched w w1 g w' -> g <> current_fiber_ w -> main_fiber_ w' = main_fiber_ w -> on_fibers w y ->
  is_Some (heap w !! current_fiber_ w) -> is_Some (heap w !! main_fiber_ w) ->
  has_room y (current_fiber_ w) (stack w' (current_fiber_ w)) ->
  exists k y', frames_of w g = Some k /\
    Fiber_switchTo (current_fiber_ w) g (stack w' (current_fiber_ w)) y = Ok (Some (GoesOn k), y') /\ on_fibers w' y'.
Proof.
  intros Hs Hne Hm HO Hcur Hmain Hroom. pose proof (fun f => switched_dom w w1 g w' f Hs) as Hdom.
  assert (is_Some (heap w !! g)) as Hgw
    by (apply (proj1 (local_frames_dom _ _ g (sw_before _ _ _ _ Hs))); apply (sw_target _ _ _ _ Hs)).
  destruct (proj2 (frames_is_Some w g) Hgw) as [k Hk]. destruct (of_live w y HO g Hgw) as (q & Hq & _).
  assert (at_switch w' (current_fiber_ w) g y) as HA.
  { split; rewrite ?Hm; [apply HO| |apply HO| |apply HO].
    - intros h Hh. apply HO. by apply Hdom.
    - intros h k' p Hh1 Hh2 Hk'. rewrite (switched_frames w w1 g w') in Hk' by done. by apply HO. }
  destruct (at_switch_on_fibers w' (current_fiber_ w) g y (GoesOn k) q HA) as (y' & E & HO');
    [congruence|apply (local_current _ _ (sw_after _ _ _ _ Hs))|by apply Hdom|by apply Hdom
    |rewrite Hm; by apply Hdom|done|done|by apply (of_saved w y HO g)|].
  by exists k, y'.
Qed.

Lemma switched_self w w1 w' : switched w w1 (current_fiber_ w) w' -> local w w'.
Proof.
  intros Hs. split; [apply (local_current _ _ (sw_after _ _ _ _ Hs))| |].
  - intros f Hf. by apply (switched_frames w w1 (current_fiber_ w)).
  - by apply (switched_dom w w1 (current_fiber_ w)).
Qed.

(** A worker in which the fiber [g] was made and switched to. *)
Record started (w : Worker) (g : FiberPtr) (w' : Worker) : Prop := {
  st_new : heap w !! g = None;
  st_cur : is_Some (heap w !! current_fiber_ w);
  st_current : current_fiber_ w' = g;
  st_live : is_Some (heap w' !! g);
  st_dom : forall f, f <> g -> is_Some (heap w' !! f) <-> is_Some (heap w !! f);
  st_frames : forall f, f <> g -> f <> current_fiber_ w -> frames_of w' f = frames_of w f
}.

Lemma moved_started w w1 w2 g w' :
  local w w1 -> is_Some (heap w1 !! current_fiber_ w) -> heap w1 !! g = None ->
  frames_of w2 g = Some [KFiberStart] ->
  (forall f, f <> g -> heap w2 !! f = heap w1 !! f) -> local (upd_current g w2) w' -> started w g w'.
Proof.
  intros Hl Hcur Hg Hg2 Hh2 Ha. split.
  - apply eq_None_not_Some. rewrite <- (local_frames_dom _ _ g Hl), Hg. by intros [? ?].
  - by apply (local_frames_dom _ _ _ Hl).
  - apply (local_current _ _ Ha).
  - apply (local_frames_dom _ _ _ Ha). cbn [upd_current heap]. apply frames_is_Some. rewrite Hg2. eauto.
  - intros f Hf. rewrite (local_frames_dom _ _ _ Ha). cbn [upd_current heap]. rewrite Hh2 by done. by apply local_frames_dom.
  - intros f Hfg Hfc. rewrite (local_stacks _ _ Ha) by done. cbn [upd_current heap]. rewrite Hh2 by done.
    by apply (local_stacks _ _ Hl).
Qed.

Lemma create_at_switch w w' g y p y2 :
  started w g w' -> main_fiber_ w' = main_fiber_ w -> is_Some (heap w !! main_fiber_ w) -> on_fibers w y ->
  os_ok y2 -> os_live y2 p -> os_keeps p (world y) y2 -> (forall f, os_of y !! f <> Some p) ->
  at_switch w' (current_fiber_ w) g (mkFibers (<[g := p]> (os_of y)) y2).
Proof.
  intros Hst Hm Hmain HO Hok Hlive Hk Hnew.
  assert (forall h q, h <> g -> is_Some (heap w !! h) -> os_of y !! h = Some q ->
            q <> p /\ os_live (world y) q) as Hold.
  { intros h q Hh Hs Hq. split; [intros ->; by apply (Hnew h)|]. destruct (of_live w y HO h Hs) as (q' & Hq' & ?). congruence. }
  split; cbn [os_of world]; [done|..].
  - intros h Hh. destruct (decide (h = g)) as [->|Hhg]; [rewrite lookup_insert_eq; eauto|].
    rewrite lookup_insert_ne by done. destruct (of_live w y HO h) as (q & Hq & Hlq); [by apply (st_dom _ _ _ Hst)|].
    exists q. split; [done|]. apply Hk; [|done]. intros ->. by apply (Hnew h).
  - intros h i q. rewrite !lookup_insert_Some. intros [[<- <-]|[? H1]] [[<- Hq]|[? H2]]; try done.
    + by destruct (Hnew i).
    + subst q. by destruct (Hnew h).
    + by eapply (of_inj w y HO).
  - intros h k q Hh1 Hh2 Hk' Hq. rewrite lookup_insert_ne in Hq by done. rewrite (st_frames _ _ _ Hst) in Hk' by done.
    destruct (Hold h q) as [Hqp Hlq]; [done|apply frames_is_Some; eauto|done|].
    apply (Hk q Hqp Hlq). by eapply (of_saved w y HO h).
  - intros q Hq Hlq. rewrite Hm in Hq.
    assert (main_fiber_ w <> g) as Hmg by (intros Heq; rewrite Heq, (st_new _ _ _ Hst) in Hmain; by destruct Hmain).
    rewrite lookup_insert_ne in Hq by done. destruct (Hold _ q Hmg Hmain Hq) as [Hqp Hlq'].
    apply (Hk q Hqp Hlq'). by apply (of_main w y HO).
Qed.

Lemma start_on_fibers w g w' y env y1 :
  started w g w' -> main_fiber_ w' = main_fiber_ w -> on_fibers w y -> is_Some (heap w !! main_fiber_ w) ->
  made env y y1 g -> has_room y1 (current_fiber_ w) (stack w' (current_fiber_ w)) ->
  exists y', Fiber_switchTo (current_fiber_ w) g (stack w' (current_fiber_ w)) y1 = Ok (Some (Starts ()), y') /\
    on_fibers w' y'.
Proof.
  intros Hst Hm HO Hmain (Hadm & Ec & Hfresh) Hroom.
  assert (g <> current_fiber_ w) as Hne.
  { intros ->. destruct (st_cur _ _ _ Hst) as [b Hb]. by rewrite (st_new _ _ _ Hst) in Hb. }
  unfold Fiber_create in Ec. inv_ok Ec. destruct a as [p y2]. injection Ec as <-.
  destruct Hfresh as (p' & Hp' & Hr & Hnew). cbn [os_of] in Hp'. rewrite lookup_insert_eq in Hp'. injection Hp' as <-.
  destruct (os_create_law _ _ _ _ _ _ (of_ok w y HO) Hadm E Hr) as (Hok & Hlive & Hsv & Hk).
  pose proof (create_at_switch w w' g y p y2 Hst Hm Hmain HO Hok Hlive Hk Hnew) as HA.
  destruct (at_switch_on_fibers w' (current_fiber_ w) g _ (Starts ()) p HA) as (y' & Es & HO').
  - congruence.
  - apply (st_current _ _ _ Hst).
  - apply (st_dom _ _ _ Hst); [congruence|]. apply (st_cur _ _ _ Hst).
  - apply (st_live _ _ _ Hst).
  - rewrite Hm. destruct (decide (main_fiber_ w = g)) as [->|]; [apply (st_live _ _ _ Hst)|]. by apply (st_dom _ _ _ Hst).
  - cbn [os_of]. by rewrite lookup_insert_eq.
  - done.
  - done.
  - by exists y'.
Qed.

Lemma exit_on_fibers w w' y :
  heap w' = delete (main_fiber_ w) (heap w) -> current_fiber_ w' = current_fiber_ w ->
  main_fiber_ w' = main_fiber_ w -> is_Some (heap w !! main_fiber_ w) -> on_fibers w y ->
  exists y', Fiber_destroy (main_fiber_ w) y = Ok y' /\ on_fibers w' y'.
Proof.
  intros Hh Hc Hm Hmain HO. destruct (of_live w y HO _ Hmain) as (p & Hp & Hlp).
  destruct (os_destroy_law p (world y) (of_ok w y HO) Hlp (of_main w y HO p Hp Hlp)) as (y2 & E & Hok & Hk).
  exists (mkFibers (delete (main_fiber_ w) (os_of y)) y2). split.
  { unfold Fiber_destroy. rewrite Hp. cbn [deref mbind result_bind]. by rewrite E. }
  assert (forall f q, f <> main_fiber_ w -> os_of y !! f = Some q -> q <> p) as Hne.
  { intros f q Hf Hq ->. apply Hf. by eapply (of_inj w y HO). }
  split; cbn [os_of world]; [done|..].
  - intros f. rewrite Hh. destruct (decide (f = main_fiber_ w)) as [->|Hf].
    { rewrite lookup_delete_eq. by intros [? ?]. }
    rewrite !lookup_delete_ne by done. intros Hs. destruct (of_live w y HO f Hs) as (q & Hq & Hlq).
    exists q. split; [done|]. by apply (Hk q (Hne f q Hf Hq)).
  - intros f g q [? H1]%lookup_delete_Some [? H2]%lookup_delete_Some. by eapply (of_inj w y HO).
  - intros f k q Hf Hk' [Hfm Hq]%lookup_delete_Some. rewrite Hc in Hf. rewrite Hh, lookup_delete_ne in Hk' by done.
    assert (is_Some (heap w !! f)) as Hs by (apply frames_is_Some; eauto).
    destruct (of_live w y HO f Hs) as (q' & Hq' & Hlq). rewrite Hq in Hq'. injection Hq' as <-.
    apply (Hk q); [by eapply Hne|done|]. by eapply (of_saved w y HO f).
  - intros q. rewrite Hm, lookup_delete_eq. done.
Qed.

(** The state a moving step starts from. *)
Lemma moving_ready w : reachable w -> moving (pc w) = true ->
  is_Some (heap w !! current_fiber_ w) /\ is_Some (heap w !! main_fiber_ w).
Proof.
  intros Hr Hmv. assert (pc w <> PExited) as Hpc by (intros Heq; by rewrite Heq in Hmv).
  split; [by apply reachable_current|by apply reachable_main].
Qed.

Lemma exec_moved_ready e w w' o :
  reachable w -> legal e w -> exec e w = Some (Ok (w', o)) ->
  local w w' \/ moved w w' /\ is_Some (heap w !! current_fiber_ w) /\ is_Some (heap w !! main_fiber_ w).
Proof.
  intros Hr Hl E. destruct (moving (pc w)) eqn:Hmv; [right|left].
  - split; [by eapply exec_moved|by apply moving_ready].
  - unfold exec in E. destruct (code e w) as [m|] eqn:Hc; [|done]. injection E as E.
    destruct (m w) as [[[a w1] o1]| |] eqn:Hmw; simplify_eq/=. by eapply stays_code.
Qed.

(** Every step of the worker can be made by its fibers ... *)
Lemma exec_on_fibers w y e w' o :
  reachable w -> on_fibers w y -> legal e w -> exec e w = Some (Ok (w', o)) ->
  (forall g, heap w !! g = None -> is_Some (heap w' !! g) ->
     exists env y1, made env y y1 g /\ has_room y1 (current_fiber_ w) (stack w' (current_fiber_ w))) ->
  (is_Some (heap w !! current_fiber_ w') -> current_fiber_ w' <> current_fiber_ w ->
     has_room y (current_fiber_ w) (stack w' (current_fiber_ w))) ->
  exists y', os_step w w' y y'.
Proof.
  intros Hr HO Hl E Hnew Hroom.
  assert (main_fiber_ w' = main_fiber_ w) as Hm by (pose proof (exec_identity e w w' o E) as H; by injection H).
  destruct (exec_moved_ready e w w' o Hr Hl E) as [Hloc|([Hloc|w1 g Hs|w1 w2 g H1 H2 H3 H4 H5 H6 H7|H1 H2] & Hcur & Hmain)].
  1,2: exists y; by apply local_on_fibers.
  - destruct (decide (g = current_fiber_ w)) as [->|Hne].
    + exists y. apply local_on_fibers; [by eapply switched_self|done|done].
    + pose proof (local_current _ _ (sw_after _ _ _ _ Hs)) as Hg. cbn [upd_current current_fiber_] in Hg.
      assert (has_room y (current_fiber_ w) (stack w' (current_fiber_ w))) as Hr'.
      { apply Hroom; rewrite Hg; [|done]. apply (local_frames_dom _ _ g (sw_before _ _ _ _ Hs)), (sw_target _ _ _ _ Hs). }
      destruct (resume_on_fibers w w1 g w' y) as (k & y' & Hk & Es & _); try done.
      exists y'. by eapply os_resume.
  - pose proof (moved_started w w1 w2 g w' H1 H2 H3 H5 H6 H7) as Hst.
    destruct (Hnew g (st_new _ _ _ Hst) (st_live _ _ _ Hst)) as (env & y1 & Hmade & Hf).
    destruct (start_on_fibers w g w' y env y1) as (y' & Es & _); try done.
    exists y'. eapply os_start; [apply (st_current _ _ _ Hst)|apply (st_new _ _ _ Hst)|apply (st_live _ _ _ Hst)|done..].
  - destruct (exit_on_fibers w w' y) as (y' & Ed & _); try done. exists y'. by eapply os_exit.
Qed.

(** ... and the calls it makes leave every fiber saved where the worker left it. *)
Lemma os_step_local w w' y y' : local w w' -> os_step w w' y y' -> y' = y.
Proof.
  intros Hl [Hc Hd|g k y1 Hc Hne _ _ _|g env y1 y2 Hc Hg Hg' _ _ _|y1 Hmain Hh Hc _]; [done|exfalso..].
  - by rewrite (local_current _ _ Hl) in Hc.
  - apply (local_frames_dom _ _ _ Hl) in Hg' as [b Hb]. congruence.
  - apply (local_frames_dom _ _ _ Hl) in Hmain as [b Hb]. by rewrite Hh, lookup_delete_eq in Hb.
Qed.

Lemma os_step_on_fibers w y e w' o y' :
  reachable w -> on_fibers w y -> legal e w -> exec e w = Some (Ok (w', o)) -> os_step w w' y y' -> on_fibers w' y'.
Proof.
  intros Hr HO Hl E Hos.
  assert (main_fiber_ w' = main_fiber_ w) as Hm by (pose proof (exec_identity e w w' o E) as H; by injection H).
  assert (local w w' -> on_fibers w' y') as Hlocal.
  { intros Hloc. rewrite (os_step_local w w' y y' Hloc Hos). by destruct (local_on_fibers w w' y Hloc Hm HO). }
  destruct (exec_moved_ready e w w' o Hr Hl E) as [Hloc|([Hloc|w1 g Hs|w1 w2 g H1 H2 H3 H4 H5 H6 H7|H1 H2] & Hcur & Hmain)].
  1,2: by apply Hlocal.
  - destruct (decide (g = current_fiber_ w)) as [->|Hne]; [by eapply Hlocal, switched_self|].
    pose proof (local_current _ _ (sw_after _ _ _ _ Hs)) as Hg. cbn [upd_current current_fiber_] in Hg.
    destruct Hos as [Hc _|g' k' y2 Hc _ Hk' Hroom Es'|g' env y2 y3 Hc Hn [b Hg'] _ _ _|y2 _ Hh Hc _].
    + congruence.
    + destruct (resume_on_fibers w w1 g w' y Hs Hne Hm HO Hcur Hmain Hroom) as (k & y1 & Hk & Es & HO').
      rewrite Hg in Hc. subst g'. rewrite Es in Es'. by injection Es' as _ <-.
    + assert (is_Some (heap w !! g')) as [? ?] by (apply (switched_dom w w1 g w' g' Hs); eauto). congruence.
    + congruence.
  - pose proof (moved_started w w1 w2 g w' H1 H2 H3 H5 H6 H7) as Hst. pose proof (st_current _ _ _ Hst) as Hg.
    pose proof (st_new _ _ _ Hst) as Hn.
    destruct Hos as [Hc _|g' k' y2 Hc _ Hk' _ Es'|g' env y2 y3 Hc _ _ Ec Hf Es'|y2 _ Hh Hc _].
    + destruct Hcur as [b Hb]. congruence.
    + rewrite Hg in Hc. subst g'. by rewrite Hn in Hk'.
    + rewrite Hg in Hc. subst g'. destruct (start_on_fibers w g w' y env y2 Hst Hm HO Hmain Ec Hf) as (y4 & Es & HO').
      rewrite Es in Es'. by injection Es' as <-.
    + destruct Hcur as [b Hb]. congruence.
  - destruct (exit_on_fibers w w' y H2 H1 Hm Hmain HO) as (y1 & Ed & HO').
    destruct Hos as [Hc Hd|g' k' y2 Hc Hne _ _ _|g' env y2 y3 Hc Hn _ _ _ _|y2 _ Hh Hc Ed'].
    + assert (main_fiber_ w ∈ dom (heap w')) as Hin by (rewrite Hd; by apply elem_of_dom).
      apply elem_of_dom in Hin. rewrite H2, lookup_delete_eq in Hin. by destruct Hin.
    + congruence.
    + destruct Hcur as [b Hb]. congruence.
    + rewrite Ed in Ed'. by injection Ed' as <-.
Qed.

Lemma start_fibers id mode main env y y1 :
  os_of y = ∅ -> os_ok (world y) -> os_current_admits env (world y) ->
  Fiber_createFromCurrentThread env main y = Ok y1 -> on_fibers (start id mode main) y1.
Proof.
  intros He Hok Hadm E. unfold Fiber_createFromCurrentThread in E. inv_ok E. destruct a as [p w]. injection E as <-.
  destruct (os_current_law _ _ _ _ Hok Hadm E0) as (Hok' & Hl & Hb & _). rewrite He.
  assert (heap (start id mode main) = {[main := mkFiber 0 Running (match mode with MultiThreaded => [KThread] | SingleThreaded => [] end)]} /\
          current_fiber_ (start id mode main) = main /\ main_fiber_ (start id mode main) = main) as (Hh & Hc & Hm)
    by (by destruct mode).
  split; cbn [os_of world]; rewrite ?Hh, ?Hc, ?Hm; [done|..].
  - intros f [b Hf]. apply lookup_singleton_Some in Hf as [<- _]. rewrite lookup_insert_eq. eauto.
  - intros f g q [[-> _]|[_ ?]]%lookup_insert_Some [[-> _]|[_ ?]]%lookup_insert_Some; done.
  - intros f k q Hne Hk. rewrite lookup_singleton_ne in Hk by done. done.
  - intros q Hq _. rewrite lookup_insert_eq in Hq. by injection Hq as <-.
Qed.

Lemma runs_on_fibers w y : runs_on w y -> on_fibers w y.
Proof.
  intros Hrun. induction Hrun as [id mode main env y y1 _ He Hok Hadm E|w y e w' o y' Hrun IH Hl E Hos].
  - by eapply start_fibers.
  - eapply os_step_on_fibers; [by eapply runs_on_reachable|done..].
Qed.

(** The calls of a step, computed; [env] answers the allocations, and [admits]
    and [room] decide what is asked of the answers and of the stacks. *)
Context (admits : Env -> W -> bool) (room : W -> Z -> list Frame -> bool).

Definition os_has_room (y : Fibers) (f : FiberPtr) (k : list Frame) : bool :=
  match os_of y !! f with Some p => room (world y) p k | None => true end.

Definition os_fresh (y y1 : Fibers) (g : FiberPtr) : bool :=
  match os_of y1 !! g with
  | Some p => bool_decide (0 <= p < 2 ^ 64)%Z && bool_decide (map_Forall (fun _ q => q <> p) (os_of y))
  | None => false
  end.

Definition os_calls (env : Env) (w w' : Worker) (y : Fibers) : option Fibers :=
  let f := current_fiber_ w in
  let g := current_fiber_ w' in
  if bool_decide (g = f) then
    if bool_decide (dom (heap w') = dom (heap w)) then Some y
    else if bool_decide (is_Some (heap w !! main_fiber_ w)) && bool_decide (heap w' = delete (main_fiber_ w) (heap w))
    then match Fiber_destroy (main_fiber_ w) y with Ok y' => Some y' | _ => None end
    else None
  else
    match heap w !! g with
    | Some b =>
        match Fiber_switchTo f g (stack w' f) y with
        | Ok (Some (GoesOn k), y') => if bool_decide (k = impl_ b) && os_has_room y f (stack w' f) then Some y' else None
        | _ => None
        end
    | None =>
        match Fiber_create env g y with
        | Ok y1 =>
            match Fiber_switchTo f g (stack w' f) y1 with
            | Ok (Some (Starts _), y') =>
                if bool_decide (is_Some (heap w' !! g)) && os_fresh y y1 g && admits env (world y) &&
                   os_has_room y1 f (stack w' f) then Some y' else None
            | _ => None
            end
        | _ => None
        end
    end.

Lemma os_fresh_spec y y1 g : os_fresh y y1 g = true -> fresh_os y y1 g.
Proof.
  unfold os_fresh, fresh_os. destruct (os_of y1 !! g) as [p|]; [|done]. intros [Hp Hf]%andb_true_iff.
  apply bool_decide_eq_true in Hp, Hf. exists p. split_and!; [done|lia|lia|]. intros h Hh. by apply (Hf h p).
Qed.

Context (admits_sound : forall env w, admits env w = true -> os_create_admits env stack_size w).
Context (room_sound : forall w p k, room w p k = true -> os_room w p k).

Lemma os_has_room_spec y f k : os_has_room y f k = true -> has_room y f k.
Proof. unfold os_has_room, has_room. intros H p Hp. rewrite Hp in H. by apply room_sound. Qed.

Lemma os_calls_step env w w' y y' : os_calls env w w' y = Some y' -> os_step w w' y y'.
Proof.
  unfold os_calls. case_bool_decide as Hg.
  - case_bool_decide as Hd; [intros [= <-]; by apply os_stay|].
    destruct (_ && _) eqn:Hc; [|done]. apply andb_true_iff in Hc as [H1 H2]. apply bool_decide_eq_true in H1, H2.
    destruct (Fiber_destroy _ y) as [y1| |] eqn:E; [|done|done]. intros [= <-]. by apply os_exit.
  - destruct (heap w !! current_fiber_ w') as [b|] eqn:Hb.
    + destruct (Fiber_switchTo _ _ _ y) as [[[[k|]|] y1]| |] eqn:E; try done. destruct (_ && _) eqn:Hc; [|done].
      apply andb_true_iff in Hc as [Hk%bool_decide_eq_true Hr%os_has_room_spec].
      intros [= <-]. subst k. eapply os_resume; [done|done| |done|exact E]. by rewrite Hb.
    + destruct (Fiber_create env _ y) as [y1| |] eqn:Ec; [|done|done].
      destruct (Fiber_switchTo _ _ _ y1) as [[[[k|[]]|] y2]| |] eqn:E; try done.
      destruct (_ && _ && _ && _) eqn:Hc; [|done]. rewrite !andb_true_iff in Hc.
      destruct Hc as [[[H1%bool_decide_eq_true H2%os_fresh_spec] H3%admits_sound] H4%os_has_room_spec].
      intros [= <-]. eapply os_start; try done.
Qed.

(** A run of the worker with its fibers, computed. *)
Fixpoint run_fibers (es : list (Event * Env)) (w : Worker) (y : Fibers) : option (Worker * Fibers) :=
  match es with
  | [] => Some (w, y)
  | (e, env) :: es =>
      if legalb e w then
        match exec e w with
        | Some (Ok (w', _)) => y' ← os_calls env w w' y; run_fibers es w' y'
        | _ => None
        end
      else None
  end.

Lemma run_fibers_runs es : forall w y w' y',
  runs_on w y -> run_fibers es w y = Some (w', y') -> runs_on w' y'.
Proof.
  induction es as [|[e env] es IH]; simpl; intros w y w' y' Hr E; [by simplify_eq|].
  destruct (legalb e w) eqn:Hl; [|done]. destruct (exec e w) as [[[w1 o]| |]|] eqn:Ee; try done.
  destruct (os_calls env w w1 y) as [y1|] eqn:Ec; [|done]. simpl in E.
  eapply IH; [|done]. eapply runs_step; [done|by apply legalb_sound|done|by eapply os_calls_step].
Qed.

(** C4. The fibers of a worker run on [OSFiber]: whenever the worker and its
    fibers have run together, every fiber but the running one is saved with
    exactly the frames that the worker keeps for it, so that a switch to it goes
    on where it was left; and every step the worker makes can be made by its
    fibers, provided that the stack of the fiber that is left has room for its
    frames: each switch leads to the frames the worker goes on with, a new fiber,
    for which memory is found, starts with [run()], and the main fiber is
    destroyed when the thread ends. *)
Theorem worker_runs_on_osfibers w y :
  runs_on w y ->
  on_fibers w y /\
  forall e w' o, legal e w -> exec e w = Some (Ok (w', o)) ->
    (forall g, heap w !! g = None -> is_Some (heap w' !! g) ->
       exists env y1, made env y y1 g /\ has_room y1 (current_fiber_ w) (stack w' (current_fiber_ w))) ->
    (is_Some (heap w !! current_fiber_ w') -> current_fiber_ w' <> current_fiber_ w ->
       has_room y (current_fiber_ w) (stack w' (current_fiber_ w))) ->
    exists y', os_step w w' y y' /\ runs_on w' y'.
Proof.
  intros Hrun. pose proof (runs_on_fibers w y Hrun) as HO.
  split; [done|]. intros e w' o Hl E Hnew Hroom.
  destruct (exec_on_fibers w y e w' o (runs_on_reachable w y Hrun) HO Hl E Hnew Hroom) as [y' Hos].
  exists y'. split; [done|]. by eapply runs_step.
Qed.
End simulation.
