(* ===== verification/UContextFibers.v ===== *)
(** A worker on the context functions of the C library: UContext.v keeps the
    interface of WorkerFibers.v, so that a worker runs on it.

    The continuation that [swapcontext] saves is the list of frames of the
    fiber, and the function of every new fiber is [run()]. *)
From stdpp Require Import base numbers strings sets gmap list.
From S2P Require Import Prelude Task Worker WorkerProps WorkerFibers Memory Allocators UContext.

Local Open Scope Z_scope.

Section ucontext.
Context {C K F Env S : Type} `{!UContext C K} `{!Allocator Env S}.
Context (sizeof alignof : Z).

Definition control (n : Next) : Control K F :=
  match n with Continue k => GoesOn k | Call func _ _ => Starts func end.

#[global] Instance ucontext_fibers : OSFibers (@World C F S) K F (Env * Env) := {|
  os_current e w := createFiberFromCurrentThread sizeof alignof e.1 w;
  os_create e size f w := createFiber sizeof alignof e.1 e.2 size f w;
  os_switch p q k w := '(n, w') ← switchTo p q k w; Ok (control n, w');
  os_destroy p w := OSFiber_dtor p w;
  os_ok _ := True;
  os_current_admits _ _ := True;
  os_create_admits _ _ _ := True;
  os_room _ _ _ := True;                 (* the context functions take care of the stack *)
  os_live w p := is_Some (fibers w !! p);
  os_saved w p c := exists f, fibers w !! p = Some f /\
    match c with
    | GoesOn k => activation (context_ f) = Some (Resume k)
    | Starts func => 0 <= p < 2 ^ 64 /\ target_ f = Some func /\
        exists sp size, activation (context_ f) = Some (Enter sp size (Args_a p) (Args_b p))
    end;
  os_borrowed w p := exists f, fibers w !! p = Some f /\ stack_ f = None
|}.

(** Changing one fiber keeps the others. *)
Lemma keeps_fibers p (w w' : World) :
  (forall q, q <> p -> fibers w' !! q = fibers w !! q) -> os_keeps p w w'.
Proof. intros H q Hq. cbn. rewrite H by done. done. Qed.

Context `{!UContextLaws C K}.
Context (swap_ok : forall k f t, (swapcontext k f t).1 = 0).

Lemma ucontext_switch_law p q k c (w : @World C F S) :
  os_ok w -> os_live w p -> os_live w q -> p <> q -> os_room w p k -> os_saved w q c ->
  exists w', os_switch p q k w = Ok (c, w') /\ os_ok w' /\ os_live w' p /\ os_saved w' p (GoesOn k) /\
    (os_borrowed w p -> os_borrowed w' p) /\ os_keeps p w w'.
Proof.
  intros _ [fp Hp] [fq Hq] Hne _ (f & Hf & Hc). rewrite Hq in Hf. injection Hf as <-.
  destruct (swapcontext k (context_ fp) (context_ fq)) as [r saved] eqn:Es.
  pose proof (swap_ok k (context_ fp) (context_ fq)) as Hr. rewrite Es in Hr. simpl in Hr. subst r.
  pose proof (swapcontext_law _ _ _ _ Es) as Ha.
  assert (exists n w', switchTo p q k w = Ok (n, w') /\ control n = c /\
            fibers w' = <[p := swapped_out saved fp]> (fibers w)) as (n & w' & E & Hn & Hw).
  { destruct c as [k'|func]; [|destruct Hc as (Hr & Ht & sp & size & Hc)].
    - destruct (switchTo_resume p q k w fp fq saved k') as (w' & E & Hw); [done..|]. by eexists _, w'.
    - destruct (switchTo_enter p q k w fp fq saved sp size func) as (w' & E & Hw); [done..|]. by eexists _, w'. }
  exists w'. cbn [os_switch ucontext_fibers]. rewrite E. cbn [mbind result_bind]. rewrite Hn. split; [done|].
  cbn. rewrite Hw, lookup_insert_eq. split; [done|]. split; [eauto|]. split; [eauto|]. split.
  - intros (f & Hf & Hst). eexists. split; [done|]. simpl. congruence.
  - apply keeps_fibers. intros r Hrp. rewrite Hw. by rewrite lookup_insert_ne.
Qed.

#[global] Instance ucontext_fibers_laws : OSFibersLaws (@World C F S) K F (Env * Env).
Proof.
  split.
  - intros e w p w' _ _ E. cbn in E. unfold createFiberFromCurrentThread in E. inv_ok E. destruct a as [[self n] s].
    injection E as <- <-. cbn. rewrite lookup_insert_eq. split_and!; [done|eauto|eauto|].
    apply keeps_fibers. intros q Hq. simpl. by rewrite lookup_insert_ne.
  - intros e size f w p w' _ _ E Hp. cbn in E.
    destruct (createFiber_made sizeof alignof _ _ _ _ _ _ _ E) as (stack & c & s & Hf & _ & Ha).
    cbn. rewrite Hf, lookup_insert_eq. split_and!; [done|eauto|eexists; split; [done|]; eauto|].
    apply keeps_fibers. intros q Hq. rewrite Hf. by rewrite lookup_insert_ne.
  - apply ucontext_switch_law.
  - intros p w _ [f0 Hf0] (f & Hf & Hst). cbn. unfold OSFiber_dtor. rewrite Hf. cbn [deref mbind result_bind].
    rewrite Hst. cbn [mbind result_bind]. eexists. split; [done|]. split; [done|]. apply keeps_fibers.
    intros q Hq. simpl. by rewrite lookup_delete_ne.
Qed.
End ucontext.

(** ** A sample run: the events of WorkerProps.v on contexts that are what they
    do and an allocator that answers with the addresses it is told. *)
#[local] Existing Instance sample_ucontext.
#[local] Existing Instance sample_ucontext_laws.
#[local] Existing Instance sample_allocator.

Abbreviation SampleWorld := (@World (option (Activation (list Frame))) unit unit).

#[local] Instance sample_fibers : OSFibers SampleWorld (list Frame) unit (Z * Z) := ucontext_fibers 64 8.
#[local] Instance sample_fibers_laws : OSFibersLaws SampleWorld (list Frame) unit (Z * Z).
Proof. apply ucontext_fibers_laws; [apply sample_ucontext_laws|done]. Qed.

Definition sample_main : @Fibers SampleWorld := mkFibers {[1 := 64]} (mkWorld {[64 := mkOSFiber None None None]} ()).

(** The worker and its fibers after [n] events. *)
Definition sample_run (n : nat) : option (Worker * @Fibers SampleWorld) :=
  run_fibers 4096 (fun _ _ => true) (fun _ _ _ => true) ((fun e => (e, (128, 8192))) <$> take n sample_events) (start 0 MultiThreaded 1) sample_main.

Lemma sample_main_runs : runs_on (W := SampleWorld) (Env := Z * Z) 4096 (start 0 MultiThreaded 1) sample_main.
Proof. apply (runs_start 4096 0 MultiThreaded 1 (64, 64) (mkFibers ∅ (mkWorld ∅ ()))); [lia|reflexivity|done|done|vm_compute; reflexivity]. Qed.

Definition sample_at (n : nat) : Worker * @Fibers SampleWorld :=
  default (start 0 MultiThreaded 1, sample_main) (sample_run n).

Lemma sample_at_runs n : runs_on (W := SampleWorld) (Env := Z * Z) 4096 (sample_at n).1 (sample_at n).2.
Proof.
  unfold sample_at, sample_run. destruct (run_fibers _ _ _ _) as [[w y]|] eqn:E; [|apply sample_main_runs].
  by eapply run_fibers_runs; [| |apply sample_main_runs|exact E].
Qed.

(** The step that makes the second fiber, at address 7, and starts it. *)
Lemma worker_runs_on_osfibers_witness :
  heap (sample_at 19).1 !! 7 = None /\ current_fiber_ (sample_at 20).1 = 7 /\
  exists y', os_step 4096 (sample_at 19).1 (sample_at 20).1 (sample_at 19).2 y' /\
    runs_on (W := SampleWorld) (Env := Z * Z) 4096 (sample_at 20).1 y'.
Proof.
  split; [vm_compute; reflexivity|]. split; [vm_compute; reflexivity|].
  destruct (worker_runs_on_osfibers 4096 (sample_at 19).1 (sample_at 19).2 (sample_at_runs 19)) as [_ H].
  apply (H (Pick 7) (sample_at 20).1 []).
  - apply legalb_sound. vm_compute. reflexivity.
  - vm_compute. reflexivity.
  - intros g Hn Hs. assert (g = 7) as ->.
    { apply elem_of_dom in Hs. apply not_elem_of_dom in Hn.
      assert (dom (heap (sample_at 20).1) = {[7]} ∪ dom (heap (sample_at 19).1)) as Hd by (vm_compute; reflexivity).
      rewrite Hd in Hs. clear Hd H. revert Hn Hs. generalize (dom (heap (sample_at 19).1)). intros X Hn Hs. set_solver. }
    eexists (128, 8192), _. split; [|by intros p _]. split; [done|]. split; [vm_compute; reflexivity|]. exists 128.
    split; [vm_compute; reflexivity|]. split; [lia|]. intros h Hh.
    assert (map_Forall (fun _ q => q <> 128) (os_of (sample_at 19).2)) as HF
      by (apply (bool_decide_eq_true_1 (map_Forall (fun _ q => q <> 128) _)); vm_compute; reflexivity).
    exact (HF h 128 Hh eq_refl).
  - intros _ _ p _. exact I.
Defined.
