(* ===== verification/AsmFibers.v ===== *)
(** A worker on the x86-64 assembly: AsmFiber.v keeps the interface of
    WorkerFibers.v, so that a worker runs on it.

    Where a fiber goes on is an [Image]: the registers that the callee of
    [switchTo] saves, the return address, and the stack from there to its top.
    The code a fiber runs between two switches leaves the image of its next call
    of [switchTo] in the registers and on its stack ([call_site]); what the
    assembly then finds in the registers, and on the stack it has switched to, is
    the image that goes on ([asm_capture]).  The frames that Worker.v keeps are
    what the compiler lays out in images; its layout is a parameter. *)
From stdpp Require Import base numbers strings sets gmap list.
From S2P Require Import Prelude Task Worker WorkerProps WorkerFibers Memory Allocators OSFiber AsmFiber.

Local Open Scope Z_scope.

(** ** Words on a stack *)
Fixpoint write_words (a : Z) (l : list Z) (m : gmap Z Z) : gmap Z Z :=
  match l with [] => m | v :: l => <[a := v]> (write_words (a + 8) l m) end.

Fixpoint read_words (a : Z) (n : nat) (m : gmap Z Z) : option (list Z) :=
  match n with
  | O => Some []
  | S n => v ← m !! a; l ← read_words (a + 8) n m; Some (v :: l)
  end.

Lemma write_words_outside l : forall a m x,
  x + 8 <= a \/ a + 8 * zlen l <= x -> write_words a l m !! x = m !! x.
Proof.
  induction l as [|v l IH]; intros a m x Hx; [done|]. cbn [write_words length] in *.
  rewrite lookup_insert_ne by lia. apply IH. lia.
Qed.

Lemma read_words_ext n : forall a m m',
  (forall x, a <= x -> x + 8 <= a + 8 * Z.of_nat n -> m' !! x = m !! x) -> read_words a n m' = read_words a n m.
Proof.
  induction n as [|n IH]; intros a m m' H; [done|]. cbn [read_words]. rewrite H by lia.
  rewrite (IH (a + 8) m m'); [done|]. intros x H1 H2. apply H; lia.
Qed.

Lemma read_write_words l : forall a m, read_words a (length l) (write_words a l m) = Some l.
Proof.
  induction l as [|v l IH]; intros a m; [done|]. cbn [write_words length read_words].
  rewrite lookup_insert_eq. cbn [mbind option_bind].
  rewrite (read_words_ext _ (a + 8) (write_words (a + 8) l m)); [by rewrite IH|].
  intros x H1 H2. by rewrite lookup_insert_ne by lia.
Qed.

(** ** Images *)
Record Image := mkImage {
  i_rbx : Z; i_rbp : Z; i_r12 : Z; i_r13 : Z; i_r14 : Z; i_r15 : Z;
  i_rip : Z;                 (* the address the call returns to *)
  i_rsp : Z;                 (* the stack pointer behind the return address *)
  i_stack : list Z           (* the words from there to the top of the stack *)
}.

Definition image_reg (k : Image) (r : Reg) : Z :=
  match r with
  | RBX => i_rbx k | RBP => i_rbp k | R12 => i_r12 k | R13 => i_r13 k | R14 => i_r14 k | R15 => i_r15 k
  | RSP => i_rsp k | RIP => i_rip k | _ => 0
  end.

Definition image_regs : list Reg := [RBX; RBP; R12; R13; R14; R15; RSP; RIP].

Lemma rip_saved : RIP ∈ image_regs.
Proof. unfold image_regs. set_solver. Qed.

(** The machine when the code of a fiber has arrived at its call of [switchTo]
    with the image [k], and has pushed the return address. *)
Definition call_site (k : Image) (s : Machine) : Machine :=
  let f := file s in
  mkMachine
    (mkRegs (i_rbx k) (i_rbp k) (i_r12 k) (i_r13 k) (i_r14 k) (i_r15 k) (rdi f) (rsi f) (i_rsp k - 8) (rip f) (rcx f) (r8 f))
    (<[i_rsp k - 8 := i_rip k]> (write_words (i_rsp k) (i_stack k) (mem s))).

(** The image the machine goes on with, on a stack that ends at [hi]. *)
Definition asm_capture (hi : Z) (s : Machine) : Result Image :=
  l ← deref (read_words (regs s RSP) (Z.to_nat ((hi - regs s RSP) / 8)) (mem s)) "read fault";
  Ok (mkImage (regs s RBX) (regs s RBP) (regs s R12) (regs s R13) (regs s R14) (regs s R15)
        (regs s RIP) (regs s RSP) l).

Lemma call_site_outside k s x :
  x + 8 <= i_rsp k - 8 \/ i_rsp k + 8 * zlen (i_stack k) <= x -> mem (call_site k s) !! x = mem s !! x.
Proof.
  intros Hx. cbn [call_site mem]. rewrite lookup_insert_ne by lia. apply write_words_outside. lia.
Qed.

Lemma asm_capture_image hi s k :
  (forall r, r ∈ image_regs -> regs s r = image_reg k r) -> i_rsp k + 8 * zlen (i_stack k) = hi ->
  read_words (i_rsp k) (length (i_stack k)) (mem s) = Some (i_stack k) -> asm_capture hi s = Ok k.
Proof.
  intros Hr Hhi Hs. unfold asm_capture. rewrite !Hr by (unfold image_regs; set_solver). cbn [image_reg].
  replace (Z.to_nat ((hi - i_rsp k) / 8)) with (length (i_stack k)).
  - rewrite Hs. cbn [deref mbind result_bind]. by destruct k.
  - replace (hi - i_rsp k) with (zlen (i_stack k) * 8) by lia. rewrite Z.div_mul by lia. lia.
Qed.

Section asm.
Context {F Env S : Type} `{!Allocator Env S}.
Context (sizeof alignof offset trampoline run : Z).
Context (thread_stack : Z * Z).             (* the stack of the thread, its end excluded *)

Abbreviation Fiber := (@AsmFiber F).
Abbreviation World := (@AsmWorld F S).

(** ** Who uses which memory *)
Definition stack_range (f : Fiber) : Z * Z :=
  match asm_stack_ f with
  | Some a => (ptr a, ptr a + u32 (r_size (request a)))
  | None => thread_stack
  end.

(** A context and a stack, a word and a stack, two stacks that do not overlap. *)
Definition clear_of (ctx : Z) (st : Z * Z) : Prop := st.2 <= ctx \/ ctx + 0x50 <= st.1.
Definition off_stack (st : Z * Z) (a : Z) : Prop := a + 8 <= st.1 \/ st.2 <= a.
Definition disjoint_stacks (st st' : Z * Z) : Prop := st.2 <= st'.1 \/ st'.2 <= st.1.

Record layout (objs : gmap Z Fiber) : Prop := {
  lay_contexts : forall p q f g, objs !! p = Some f -> objs !! q = Some g -> p <> q -> apart (p + offset) (q + offset);
  lay_clear : forall p q f g, objs !! p = Some f -> objs !! q = Some g -> clear_of (p + offset) (stack_range g);
  lay_stacks : forall p q f g, objs !! p = Some f -> objs !! q = Some g -> p <> q ->
    disjoint_stacks (stack_range f) (stack_range g)
}.

Record asm_ok (w : World) : Prop := {
  ok_layout : layout (objects w);
  ok_contexts : forall p f, objects w !! p = Some f -> exists c, context (mem (machine w)) (p + offset) c
}.

(** The stack of [p] has room for the image, which goes on outside the
    trampoline. *)
Definition asm_room (w : World) (p : Z) (k : Image) : Prop :=
  exists f, objects w !! p = Some f /\ (stack_range f).1 <= i_rsp k - 8 /\
    i_rsp k + 8 * zlen (i_stack k) = (stack_range f).2 /\ 0 <= i_rsp k < 2 ^ 64 /\ i_rip k <> trampoline.

(** ** What is saved *)
Definition asm_saved (w : World) (p : Z) (c : Control Image F) : Prop :=
  match c with
  | GoesOn k =>
      asm_room w p k /\
      (exists v, context (mem (machine w)) (p + offset) v /\ forall r, r ∈ image_regs -> v r = image_reg k r) /\
      read_words (i_rsp k) (length (i_stack k)) (mem (machine w)) = Some (i_stack k)
  | Starts func =>
      (exists f, objects w !! p = Some f /\ asm_target_ f = Some func) /\
      exists sp, context (mem (machine w)) (p + offset) (entry_context trampoline run p sp)
  end.

(** A switch, from the call of the fiber [p] with the image [k]. *)
Definition asm_switch (p q : Z) (k : Image) (w : World) : Result (Control Image F * World) :=
  w' ← asm_switchTo offset p q (mkAsmWorld (objects w) (allocator_state w) (call_site k (machine w)));
  if bool_decide (regs (machine w') RIP = trampoline)
  then f ← marl_fiber_trampoline run w'; Ok (Starts f, w')
  else
    f ← deref (objects w' !! q) "not a fiber";
    k' ← asm_capture (stack_range f).2 (machine w');
    Ok (GoesOn k', w').

(** What is asked of the allocator: the memory it gives overlaps no context and
    no stack there is; and the size of a stack is not cut to nothing. *)
Definition asm_current_admits (e : Env) (w : World) : Prop :=
  forall self n s, make_unique e sizeof alignof (allocator_state w) = Ok (self, n, s) ->
    objects w !! self = None /\ layout (<[self := mkAsmFiber None None]> (objects w)).

Definition asm_create_admits (e e' : Env) (size : Z) (w : World) : Prop :=
  forall self n s stack s', make_unique e sizeof alignof (allocator_state w) = Ok (self, n, s) ->
    allocate e' (asm_stack_request size) s = Ok (stack, s') ->
    objects w !! self = None /\ layout (<[self := mkAsmFiber None (Some stack)]> (objects w)) /\
    request stack = asm_stack_request size /\ 32 <= u32 size.

#[global] Instance asm_fibers : OSFibers World Image F (Env * Env) := {|
  os_current e w := asm_createFiberFromCurrentThread sizeof alignof offset e.1 w;
  os_create e size f w := asm_createFiber sizeof alignof offset trampoline run e.1 e.2 size f w;
  os_switch := asm_switch;
  os_destroy p w := asm_dtor p w;
  os_ok := asm_ok;
  os_current_admits e w := asm_current_admits e.1 w;
  os_create_admits e size w := asm_create_admits e.1 e.2 size w;
  os_room := asm_room;
  os_live w p := is_Some (objects w !! p);
  os_saved := asm_saved;
  os_borrowed w p := exists f, objects w !! p = Some f /\ asm_stack_ f = None
|}.

(** ** The laws *)

(** The layout does not depend on the functions. *)
Lemma layout_target p f g objs :
  asm_stack_ f = asm_stack_ g -> layout (<[p := f]> objs) -> layout (<[p := g]> objs).
Proof.
  intros Hfg [L1 L2 L3].
  assert (forall q h, <[p := g]> objs !! q = Some h ->
            exists h', <[p := f]> objs !! q = Some h' /\ stack_range h' = stack_range h) as H.
  { intros q h Hq. destruct (decide (q = p)) as [->|Hne].
    - rewrite lookup_insert_eq in Hq. injection Hq as <-. exists f. rewrite lookup_insert_eq.
      unfold stack_range. by rewrite Hfg.
    - rewrite lookup_insert_ne in Hq by done. exists h. by rewrite lookup_insert_ne. }
  split; intros q r a b Ha Hb; destruct (H q a Ha) as (a' & Ha' & Ea); destruct (H r b Hb) as (b' & Hb' & Eb);
    rewrite <- ?Ea, <- ?Eb; eauto.
Qed.

Lemma layout_delete p objs : layout objs -> layout (delete p objs).
Proof.
  intros [L1 L2 L3]. split; intros q r a b [_ Ha]%lookup_delete_Some [_ Hb]%lookup_delete_Some; eauto.
Qed.

(** Memory that changes in the context and the stack of [p] only. *)
Definition changes (p : Z) (f : Fiber) (m m' : gmap Z Z) : Prop :=
  forall a, outside (p + offset) a -> off_stack (stack_range f) a -> m' !! a = m !! a.

Lemma changes_context objs p f q g m m' c :
  layout objs -> objs !! p = Some f -> objs !! q = Some g -> q <> p -> changes p f m m' ->
  context m (q + offset) c -> context m' (q + offset) c.
Proof.
  intros L Hp Hq Hne Hch. apply context_ext. intros r Hr. apply MARL_REG_range in Hr.
  pose proof (lay_contexts _ L q p g f Hq Hp Hne) as H1. pose proof (lay_clear _ L q p g f Hq Hp) as H2.
  apply Hch; unfold apart, clear_of, outside, off_stack in *; lia.
Qed.

Lemma changes_words objs p f q g m m' k n :
  layout objs -> objs !! p = Some f -> objs !! q = Some g -> q <> p -> changes p f m m' ->
  (stack_range g).1 <= k -> k + 8 * Z.of_nat n = (stack_range g).2 -> read_words k n m' = read_words k n m.
Proof.
  intros L Hp Hq Hne Hch Hlo Hhi. apply read_words_ext. intros x H1 H2.
  pose proof (lay_stacks _ L q p g f Hq Hp Hne) as H3. pose proof (lay_clear _ L p q f g Hp Hq) as H4.
  apply Hch; unfold disjoint_stacks, clear_of, outside, off_stack in *; lia.
Qed.

(** Such a change keeps the other fibers. *)
Lemma changes_keeps p f (w w' : World) :
  layout (objects w') -> objects w' !! p = Some f -> (forall q, q <> p -> objects w' !! q = objects w !! q) ->
  changes p f (mem (machine w)) (mem (machine w')) -> os_keeps p w w'.
Proof.
  intros L Hp Ho Hch q Hne [g Hq]. cbn. rewrite (Ho q Hne). pose proof Hq as Hq'. rewrite <- (Ho q Hne) in Hq'.
  split; [eauto|]. split; [|done]. intros [k|func]; cbn [asm_saved].
  - intros ((g' & Hg' & H1 & H2 & H3) & (v & Hv & Hr) & Hs). rewrite Hq in Hg'. injection Hg' as <-. split; [by exists g|].
    split; [exists v; split; [by eapply (changes_context (objects w') p f q g)|done]|].
    rewrite <- Hs. eapply (changes_words (objects w') p f q g); [done..|lia|lia].
  - intros ((g' & Hg' & Ht) & sp & Hc). split; [exists g'; by rewrite Ho|]. exists sp. by eapply (changes_context (objects w') p f q g).
Qed.

(** The call of a switch changes the stack of its fiber only. *)
Lemma call_site_changes w p f k :
  objects w !! p = Some f -> asm_room w p k -> changes p f (mem (machine w)) (mem (call_site k (machine w))).
Proof.
  intros Hp (f' & Hf' & H1 & H2 & _) a _ Ha. rewrite Hp in Hf'. injection Hf' as <-. unfold off_stack in Ha.
  apply call_site_outside. lia.
Qed.

(** The return address is on the stack, away from the context of the fiber. *)
Lemma call_site_clear w p f k a :
  layout (objects w) -> objects w !! p = Some f -> asm_room w p k -> i_rsp k - 8 <= a -> a + 8 <= (stack_range f).2 ->
  outside (p + offset) a.
Proof.
  intros L Hp (f' & Hf' & H1 & H2 & _) Ha Hb. rewrite Hp in Hf'. injection Hf' as <-.
  pose proof (lay_clear _ L p p f f Hp Hp) as Hc. unfold clear_of, outside in *. lia.
Qed.

Lemma call_site_context w p f k c :
  layout (objects w) -> objects w !! p = Some f -> asm_room w p k ->
  context (mem (machine w)) (p + offset) c -> context (mem (call_site k (machine w))) (p + offset) c.
Proof.
  intros L Hp (f' & Hf' & H1 & H2 & _). rewrite Hp in Hf'. injection Hf' as <-. apply context_ext. intros r Hr.
  apply MARL_REG_range in Hr. pose proof (lay_clear _ L p p f f Hp Hp) as Hc. unfold clear_of in Hc.
  apply call_site_outside. lia.
Qed.

(** The switch in the machine: it ends with the registers [d] that are saved in
    the context of [q], has saved those of the call, and has changed nothing but
    the context and the stack of [p]. *)
Lemma asm_switch_machine p q k (w : World) f g d :
  asm_ok w -> objects w !! p = Some f -> objects w !! q = Some g -> p <> q -> asm_room w p k ->
  context (mem (machine w)) (q + offset) d ->
  exists s, switchTo (p + offset) (q + offset) (call_site k (machine w)) = Ok s /\
    (forall r, r ∈ context_regs -> regs s r = d r) /\
    (exists v, context (mem s) (p + offset) v /\ forall r, r ∈ image_regs -> v r = image_reg k r) /\
    read_words (i_rsp k) (length (i_stack k)) (mem s) = Some (i_stack k) /\
    changes p f (mem (machine w)) (mem s).
Proof.
  intros [L Hctx] Hp Hq Hne Hroom Hd. pose proof (call_site_changes w p f k Hp Hroom) as Hch.
  destruct (Hctx p f Hp) as [c Hc]. pose proof (call_site_context w p f k c L Hp Hroom Hc) as Hc'.
  assert (context (mem (call_site k (machine w))) (q + offset) d) as Hd'
    by (by eapply (changes_context (objects w) p f q g)).
  pose proof (fun a => call_site_clear w p f k a L Hp Hroom) as Hclear.
  pose proof Hroom as (f' & Hf' & H1 & H2 & H3 & H4). rewrite Hp in Hf'. injection Hf' as <-.
  destruct (switchTo_spec (call_site k (machine w)) (p + offset) (q + offset) c d (i_rip k) Hc' Hd')
    as (s & E & Hr & Hsv & Hkeep).
  - by apply (lay_contexts _ L p q f g).
  - unfold call_site, regs. cbn [get_reg rsp file mem]. by rewrite lookup_insert_eq.
  - unfold call_site, regs. cbn [get_reg rsp file mem]. apply Hclear; lia.
  - exists s. split_and!; [done|done| | |].
    + exists (saved c (call_site k (machine w)) (i_rip k)). split; [done|]. intros r Hin. unfold image_regs in Hin.
      repeat (apply elem_of_cons in Hin as [->|Hin]); try done; [|by apply elem_of_nil in Hin].
      unfold saved, call_site, regs. cbn [get_reg rsp file image_reg]. unfold u64.
      rewrite Z.sub_add. by apply Z.mod_small.
    + rewrite (read_words_ext _ _ (write_words (i_rsp k) (i_stack k) (mem (machine w)))); [apply read_write_words|].
      intros x Hx1 Hx2. rewrite Hkeep by (apply Hclear; lia). unfold call_site. cbn [mem].
      by rewrite lookup_insert_ne by lia.
    + intros a Ha1 Ha2. rewrite Hkeep by done. by apply Hch.
Qed.

(** The registers [d] of a context lead to [c]. *)
Definition leads (q : Z) (d : Reg -> Z) (c : Control Image F) : Prop :=
  match c with
  | GoesOn k => forall r, r ∈ image_regs -> d r = image_reg k r
  | Starts _ => exists sp, d = entry_context trampoline run q sp
  end.

Lemma saved_leads (w : World) q c :
  asm_saved w q c -> exists d, context (mem (machine w)) (q + offset) d /\ leads q d c.
Proof.
  destruct c; cbn [asm_saved leads]; [intros (_ & (v & Hv & Hr) & _)|intros (_ & sp & Hc)]; eauto.
Qed.

Lemma asm_switch_leads p q k c (w : World) f g d s :
  layout (objects w) -> objects w !! p = Some f -> objects w !! q = Some g -> q <> p ->
  switchTo (p + offset) (q + offset) (call_site k (machine w)) = Ok s ->
  (forall r, r ∈ context_regs -> regs s r = d r) -> changes p f (mem (machine w)) (mem s) ->
  asm_saved w q c -> leads q d c ->
  asm_switch p q k w = Ok (c, mkAsmWorld (objects w) (allocator_state w) s).
Proof.
  intros L Hp Hq Hne E Hr Hch Hs Hdc. unfold asm_switch, asm_switchTo. cbn [objects allocator_state machine]. rewrite E.
  cbn [mbind result_bind machine objects]. destruct c as [k'|func]; cbn [asm_saved leads] in Hs, Hdc.
  - destruct Hs as ((g' & Hg' & R1 & R2 & R3 & R4) & _ & Hws). rewrite Hq in Hg'. injection Hg' as <-.
    assert (forall r, r ∈ image_regs -> regs s r = image_reg k' r) as Hi.
    { intros r Hin. rewrite Hr, Hdc by (unfold image_regs, context_regs in *; set_solver). done. }
    rewrite bool_decide_eq_false_2 by (rewrite (Hi RIP) by (unfold image_regs; set_solver); done).
    rewrite Hq. cbn [deref mbind result_bind]. rewrite (asm_capture_image _ s k' Hi R2); [done|].
    rewrite <- Hws. eapply (changes_words (objects w) p f q g); [done..|lia|lia].
  - destruct Hs as ((g' & Hg' & Ht) & _). rewrite Hq in Hg'. injection Hg' as <-. destruct Hdc as [sp ->].
    rewrite bool_decide_eq_true_2 by (by rewrite Hr by (unfold context_regs; set_solver)).
    unfold marl_fiber_trampoline, asm_run. cbn [machine objects]. rewrite !Hr by (unfold context_regs; set_solver).
    cbn [entry_context]. rewrite bool_decide_eq_true_2 by done. rewrite Hq. cbn [deref mbind result_bind]. by rewrite Ht.
Qed.

Lemma asm_switch_law p q k c (w : World) :
  os_ok w -> os_live w p -> os_live w q -> p <> q -> os_room w p k -> os_saved w q c ->
  exists w', os_switch p q k w = Ok (c, w') /\ os_ok w' /\ os_live w' p /\ os_saved w' p (GoesOn k) /\
    (os_borrowed w p -> os_borrowed w' p) /\ os_keeps p w w'.
Proof.
  intros Hok [f Hp] [g Hq] Hne Hroom Hs. cbn in Hok, Hroom, Hs. destruct (saved_leads w q c Hs) as (d & Hd & Hdc).
  destruct (asm_switch_machine p q k w f g d Hok Hp Hq Hne Hroom Hd) as (s & E & Hr & Hsv & Hw & Hch).
  exists (mkAsmWorld (objects w) (allocator_state w) s). split_and!.
  - eapply asm_switch_leads; [apply Hok|done..].
  - split; [apply Hok|]. intros r h Hh. destruct (decide (r = p)) as [->|Hrp].
    + destruct Hsv as (v & Hv & _). by exists v.
    + destruct (ok_contexts _ Hok r h Hh) as [v Hv]. exists v. by eapply (changes_context (objects w) p f r h); [apply Hok|..].
  - by exists f.
  - by split_and!.
  - done.
  - by apply (changes_keeps p f); [apply Hok|..].
Qed.

(** New fibers. *)
Lemma zero_words_changes p f m : changes p f m (zero_words (p + offset) 10 m).
Proof. intros a Ha _. apply zero_words_lookup. unfold outside in Ha. lia. Qed.

(** The context of a new fiber and those of the others. *)
Lemma insert_ok p f (w : World) s m c :
  layout (<[p := f]> (objects w)) -> asm_ok w -> objects w !! p = None ->
  changes p f (mem (machine w)) m -> context m (p + offset) c ->
  asm_ok (mkAsmWorld (<[p := f]> (objects w)) s (mkMachine (file (machine w)) m)) /\
  os_keeps p w (mkAsmWorld (<[p := f]> (objects w)) s (mkMachine (file (machine w)) m)).
Proof.
  intros L Hok Hp Hch Hc. split.
  - split; [done|]. cbn [objects machine mem]. intros q g Hq. destruct (decide (q = p)) as [->|Hne]; [by exists c|].
    pose proof Hq as Hq'. rewrite lookup_insert_ne in Hq' by done. destruct (ok_contexts _ Hok q g Hq') as [v Hv].
    exists v. eapply (changes_context _ p f q g); [done|by rewrite lookup_insert_eq|done..].
  - apply (changes_keeps p f); cbn [objects machine mem]; [done|by rewrite lookup_insert_eq| |done].
    intros q Hq. by rewrite lookup_insert_ne.
Qed.

Lemma asm_create_law e size func (w : World) p w' :
  os_ok w -> os_create_admits e size w -> os_create e size func w = Ok (p, w') -> 0 <= p < 2 ^ 64 ->
  os_ok w' /\ os_live w' p /\ os_saved w' p (Starts func) /\ os_keeps p w w'.
Proof.
  intros Hok Hadm E _. cbn in Hok, Hadm, E. unfold asm_createFiber in E. inv_ok E. destruct a as [[self n] s].
  inv_ok E. destruct a as [stack s']. inv_ok E. injection E as -> <-. rename a into m'.
  destruct (Hadm _ _ _ _ _ E0 E1) as (Hnew & L & Hreq & Hsize).
  apply (layout_target p _ (mkAsmFiber (Some func) (Some stack))) in L; [|done].
  set (f := mkAsmFiber (Some func) (Some stack)) in *.
  assert (stack_range f = (ptr stack, ptr stack + u32 size)) as Hst by (unfold stack_range; cbn; by rewrite Hreq).
  assert (outside (p + offset) (ptr stack + u32 size - 16)) as Hout.
  { assert (clear_of (p + offset) (stack_range f)) as Hc by (eapply (lay_clear _ L p p); by rewrite lookup_insert_eq).
    rewrite Hst in Hc. unfold clear_of, outside in *. cbn [fst snd] in Hc. lia. }
  pose proof (createFiber_mapped _ _ _ _ _ _ _ _ E2 Hout) as Hmapped.
  destruct (createFiber_spec trampoline run (p + offset) p (ptr stack) size (mem (machine w)) Hmapped Hout)
    as (m'' & E' & Hctx & _ & Hkeep). rewrite E2 in E'. injection E' as <-.
  assert (changes p f (mem (machine w)) m') as Hch.
  { intros a Ha Hs. apply Hkeep; [done|]. rewrite Hst in Hs. unfold off_stack in Hs. cbn [fst snd] in Hs. lia. }
  destruct (insert_ok p f w s' m' _ L Hok Hnew Hch Hctx) as [Hok' Hk].
  split; [done|]. cbn. rewrite lookup_insert_eq. split; [eauto|]. split; [|done].
  split; [by exists f|]. by eexists.
Qed.

#[global] Instance asm_fibers_laws : OSFibersLaws World Image F (Env * Env).
Proof.
  split.
  - intros e w p w' Hok Hadm E. cbn in Hok, Hadm, E. unfold asm_createFiberFromCurrentThread in E. inv_ok E.
    destruct a as [[self n] s]. injection E as -> <-. destruct (Hadm _ _ _ E0) as [Hnew L].
    destruct (insert_ok p (mkAsmFiber None None) w s _ _ L Hok Hnew (zero_words_changes p _ _)
                (zero_words_context (p + offset) (mem (machine w)))) as [Hok' Hk].
    split; [exact Hok'|]. cbn. rewrite lookup_insert_eq. split; [eauto|]. split; [eauto|exact Hk].
  - apply asm_create_law.
  - apply asm_switch_law.
  - intros p w Hok _ (f & Hf & Hst). cbn in Hok |- *. unfold asm_dtor. rewrite Hf. cbn [deref mbind result_bind].
    rewrite Hst. cbn [mbind result_bind]. eexists. split; [done|]. split.
    + split; [apply layout_delete, Hok|]. cbn [objects machine]. intros q g [_ Hq]%lookup_delete_Some. by apply (ok_contexts _ Hok q g).
    + intros q Hq. cbn. rewrite lookup_delete_ne by done. intros Hl. split; [done|]. split; [|done].
      intros [k|func]; cbn [asm_saved]; unfold asm_room; cbn [objects machine]; by rewrite lookup_delete_ne.
Qed.
End asm.

(** ** Frames in images *)
Section compiled.
Context {W V K F Env : Type} `{!OSFibers W V F Env}.

(** What the compiler makes of the frames [k] of the fiber [p], and the frames
    that something it has made stands for. *)
Context (compile : W -> Z -> K -> V) (frames : V -> K).

Definition control_frames (c : Control V F) : Control K F :=
  match c with GoesOn v => GoesOn (frames v) | Starts f => Starts f end.

#[local] Instance compiled_fibers : OSFibers W K F Env := {|
  os_current := os_current;
  os_create := os_create;
  os_switch p q k w := '(c, w') ← os_switch p q (compile w p k) w; Ok (control_frames c, w');
  os_destroy := os_destroy;
  os_ok := os_ok;
  os_current_admits := os_current_admits;
  os_create_admits := os_create_admits;
  os_room w p k := os_room w p (compile w p k);
  os_live := os_live;
  os_saved w p c := exists c', os_saved w p c' /\ control_frames c' = c;
  os_borrowed := os_borrowed
|}.

Context `{!OSFibersLaws W V F Env}.
Context (frames_compile : forall w p k, os_room w p (compile w p k) -> frames (compile w p k) = k).

Lemma compiled_keeps p (w w' : W) : os_keeps (K := V) p w w' -> os_keeps (K := K) p w w'.
Proof.
  intros H q Hne Hl. destruct (H q Hne Hl) as (H1 & H2 & H3). split; [done|]. split; [|done].
  intros c (c' & Hc & <-). exists c'. split; [by apply H2|done].
Qed.

Lemma compiled_fibers_laws : OSFibersLaws W K F Env.
Proof.
  split.
  - intros e w p w' Hok Hadm E. destruct (os_current_law (K := V) e w p w' Hok Hadm E) as (? & ? & ? & ?%compiled_keeps). done.
  - intros e size f w p w' Hok Hadm E Hp. destruct (os_create_law (K := V) e size f w p w' Hok Hadm E Hp) as (? & ? & Hs & ?%compiled_keeps).
    split_and!; [done|done| |done]. by exists (Starts f).
  - intros p q k c w Hok Hp Hq Hne Hroom (c' & Hs & <-). cbn in Hroom.
    destruct (os_switch_law (K := V) p q _ c' w Hok Hp Hq Hne Hroom Hs) as (w' & E & H1 & H2 & H3 & H4 & ?%compiled_keeps).
    exists w'. cbn [os_switch compiled_fibers]. rewrite E. cbn [mbind result_bind]. split_and!; try done.
    exists (GoesOn (compile w p k)). split; [done|]. cbn. by rewrite frames_compile.
  - intros p w Hok Hp Hb. destruct (os_destroy_law (K := V) p w Hok Hp Hb) as (w' & ? & ? & ?%compiled_keeps). by exists w'.
Qed.
End compiled.

(** ** A worker on the assembly *)
Section worker.
Context {Env S : Type} `{!Allocator Env S}.
Context (sizeof alignof offset trampoline run : Z) (thread_stack : Z * Z) (stack_size : Z).

Abbreviation World := (@AsmWorld unit S).

Context (compile : World -> Z -> list Frame -> Image) (frames : Image -> list Frame).

#[local] Instance image_fibers : OSFibers World Image unit (Env * Env) :=
  asm_fibers sizeof alignof offset trampoline run thread_stack.
#[global] Instance worker_fibers : OSFibers World (list Frame) unit (Env * Env) := compiled_fibers compile frames.

Context (frames_compile : forall w p k, asm_room trampoline thread_stack w p (compile w p k) -> frames (compile w p k) = k).

#[global] Instance worker_fibers_laws : OSFibersLaws World (list Frame) unit (Env * Env).
Proof. apply compiled_fibers_laws; [apply asm_fibers_laws|done]. Qed.

(** C5. The worker on the assembly: whenever a worker and its fibers have run
    together, a fiber that is switched out stands in memory as an image of the
    frames the worker keeps for it, its registers in its context and its words on
    its stack; and from whichever other fiber [marl_fiber_swap] is called, with
    room for the call on that fiber's stack, it does not fault and ends with
    exactly that image: the machine goes on at the return address of the fiber's
    own call of [switchTo], with its stack pointer, its callee-saved registers and
    the contents of its stack.  Every step the worker makes can be made this way. *)
Theorem worker_runs_on_asm w y :
  runs_on stack_size w y ->
  (forall f k p, f <> current_fiber_ w -> impl_ <$> heap w !! f = Some k -> os_of y !! f = Some p ->
     exists v, frames v = k /\ asm_room trampoline thread_stack (world y) p v /\
       forall g q u, g <> f -> is_Some (heap w !! g) -> os_of y !! g = Some q ->
         asm_room trampoline thread_stack (world y) q u ->
         exists s, switchTo (q + offset) (p + offset) (call_site u (machine (world y))) = Ok s /\
           (forall r, r ∈ image_regs -> regs s r = image_reg v r) /\
           read_words (i_rsp v) (length (i_stack v)) (mem s) = Some (i_stack v)) /\
  (forall e w' o, legal e w -> exec e w = Some (Ok (w', o)) ->
     (forall g, heap w !! g = None -> is_Some (heap w' !! g) ->
        exists env y1, made stack_size env y y1 g /\ has_room y1 (current_fiber_ w) (stack w' (current_fiber_ w))) ->
     (is_Some (heap w !! current_fiber_ w') -> current_fiber_ w' <> current_fiber_ w ->
        has_room y (current_fiber_ w) (stack w' (current_fiber_ w))) ->
     exists y', os_step stack_size w w' y y' /\ runs_on stack_size w' y').
Proof.
  intros Hrun. pose proof (runs_on_fibers stack_size w y Hrun) as HO. split.
  - intros f k p Hf Hk Hp. destruct (of_saved w y HO f k p Hf Hk Hp) as (c & Hs & Hc).
    destruct c as [v|]; [|done]. cbn in Hc. injection Hc as <-. cbn in Hs.
    exists v. split; [done|]. split; [apply Hs|]. intros g q u Hgf Hg Hq Hroom.
    destruct (of_live w y HO g Hg) as (q' & Hq' & [fq Hfq]). rewrite Hq in Hq'. injection Hq' as <-.
    assert (p <> q) as Hpq by (intros ->; apply Hgf; by eapply (of_inj w y HO)).
    destruct Hs as ((fp & Hfp & R1 & R2 & _) & (d & Hd & Hdc) & Hws). pose proof (of_ok w y HO) as Hok. cbn in Hok.
    destruct (asm_switch_machine offset trampoline thread_stack q p u (world y) fq fp d Hok Hfq Hfp) as (s & E & Hr & _ & _ & Hch); [congruence|done..|].
    exists s. split; [done|]. split.
    + intros r Hin. rewrite Hr, Hdc by (unfold image_regs, context_regs in *; set_solver). done.
    + rewrite <- Hws. eapply (changes_words offset thread_stack _ q fq p fp); [apply Hok|done..|lia|lia].
  - intros e w' o Hl E Hnew Hroom.
    destruct (exec_on_fibers stack_size w y e w' o (runs_on_reachable stack_size w y Hrun) HO Hl E Hnew Hroom) as [y' Hos].
    exists y'. split; [done|]. by eapply runs_step.
Qed.
End worker.

(** ** A sample run: the events of WorkerProps.v on the machine, with three words
    on the stack for each frame and an allocator that answers with the addresses
    it is told. *)
Definition frame_words (k : Frame) : list Z :=
  let time o := match o with Some t => [1; t] | None => [0; 0] end in
  match k with
  | KThread => [0; 0; 0] | KStop => [1; 0; 0] | KFiberStart => [2; 0; 0] | KRunWait => [3; 0; 0]
  | KRunShutdown => [4; 0; 0] | KRunSwitch => [5; 0; 0] | KShutdownWait => [6; 0; 0]
  | KShutdownIdle => [7; 0; 0] | KWorkWait => [8; 0; 0] | KIdleSwitch => [9; 0; 0] | KIdleTask => [10; 0; 0]
  | KSuspendWait => [11; 0; 0] | KSuspendSwitch => [12; 0; 0]
  | KWait t => 13 :: time t | KWaitPred t => 14 :: time t
  end.

Definition word_frame (tag b t : Z) : Frame :=
  let time := if bool_decide (b = 1) then Some t else None in
  match tag with
  | 0 => KThread | 1 => KStop | 2 => KFiberStart | 3 => KRunWait | 4 => KRunShutdown | 5 => KRunSwitch
  | 6 => KShutdownWait | 7 => KShutdownIdle | 8 => KWorkWait | 9 => KIdleSwitch | 10 => KIdleTask
  | 11 => KSuspendWait | 12 => KSuspendSwitch | 13 => KWait time | _ => KWaitPred time
  end.

Fixpoint words_frames (l : list Z) : list Frame :=
  match l with
  | tag :: b :: t :: l => word_frame tag b t :: words_frames l
  | _ => []
  end.

Lemma words_frames_words k : words_frames (k ≫= frame_words) = k.
Proof.
  induction k as [|f k IH]; [done|]. cbn [mbind list_bind].
  assert (exists a b c, frame_words f = [a; b; c] /\ word_frame a b c = f) as (a & b & c & -> & <-)
    by (destruct f as [| | | | | | | | | | | | |[t|]|[t|]]; do 3 eexists; split; reflexivity).
  cbn [app words_frames]. by f_equal.
Qed.

Section samples.
#[local] Existing Instance sample_allocator.

Abbreviation SampleAsm := (@AsmWorld unit unit).

Definition sample_thread_stack : Z * Z := (1024, 2048).

Definition sample_compile (w : SampleAsm) (p : Z) (k : list Frame) : Image :=
  let l := k ≫= frame_words in
  let hi := match objects w !! p with Some f => (stack_range sample_thread_stack f).2 | None => 0 end in
  mkImage (zlen k) p 12 13 14 15 700 (hi - 8 * zlen l) l.

Definition sample_frames (v : Image) : list Frame := words_frames (i_stack v).

Lemma sample_frames_compile w p k : sample_frames (sample_compile w p k) = k.
Proof. apply words_frames_words. Qed.

#[local] Instance sample_asm : OSFibers SampleAsm (list Frame) unit (Z * Z) :=
  worker_fibers 128 8 16 500 600 sample_thread_stack sample_compile sample_frames.
#[local] Instance sample_asm_laws : OSFibersLaws SampleAsm (list Frame) unit (Z * Z).
Proof. apply worker_fibers_laws. intros w p k _. apply sample_frames_compile. Qed.

(** What the run asks for, decided. *)
#[local] Instance layout_pair_dec p q (f g : @AsmFiber unit) :
  Decision (clear_of (p + 16) (stack_range sample_thread_stack g) /\
            (p <> q -> apart (p + 16) (q + 16) /\
               disjoint_stacks (stack_range sample_thread_stack f) (stack_range sample_thread_stack g))).
Proof. unfold clear_of, apart, disjoint_stacks. apply _. Defined.

Definition layoutb (objs : gmap Z (@AsmFiber unit)) : bool :=
  bool_decide (map_Forall (fun p f => map_Forall (fun q g =>
    clear_of (p + 16) (stack_range sample_thread_stack g) /\
    (p <> q -> apart (p + 16) (q + 16) /\
       disjoint_stacks (stack_range sample_thread_stack f) (stack_range sample_thread_stack g))) objs) objs).

Lemma layoutb_sound objs : layoutb objs = true -> layout 16 sample_thread_stack objs.
Proof.
  intros H%bool_decide_eq_true. split; intros p q f g Hp Hq; intros; destruct (H p f Hp q g Hq) as [H1 H2];
    [by apply H2|done|by apply H2].
Qed.

Definition sample_admits (e : Z * Z) (w : SampleAsm) : bool :=
  bool_decide (objects w !! e.1 = None) &&
  layoutb (<[e.1 := mkAsmFiber None (Some (mkAllocation e.2 (asm_stack_request 4096)))]> (objects w)).

Definition sample_room (w : SampleAsm) (p : Z) (k : list Frame) : bool :=
  let v := sample_compile w p k in
  match objects w !! p with
  | Some f => bool_decide ((stack_range sample_thread_stack f).1 <= i_rsp v - 8) && bool_decide (0 <= i_rsp v < 2 ^ 64)
  | None => false
  end.

Lemma sample_admits_sound e w : sample_admits e w = true -> os_create_admits e 4096 w.
Proof.
  intros [H1%bool_decide_eq_true H2%layoutb_sound]%andb_true_iff. intros self n s stack s' Eu Ea.
  cbn in Eu. injection Eu as <- <- <-. cbn in Ea. injection Ea as <- <-. split_and!; [done|done|done|]. vm_compute. discriminate.
Qed.

Lemma sample_room_sound w p k : sample_room w p k = true -> os_room w p k.
Proof.
  unfold sample_room. intros H. cbn. unfold asm_room. destruct (objects w !! p) as [f|] eqn:Hp; [|done].
  apply andb_true_iff in H as [H1%bool_decide_eq_true H2%bool_decide_eq_true]. exists f. split_and!; try done; [|lia|lia].
  unfold sample_compile. rewrite Hp. cbn [i_rsp i_stack]. lia.
Qed.

(** The main fiber at 64 on the stack of the thread; new fibers at 256, with a
    stack at 8192. *)
Definition asm_main : @Fibers SampleAsm :=
  mkFibers {[1 := 64]} (mkAsmWorld {[64 := mkAsmFiber None None]} ()
    (mkMachine (mkRegs 0 0 0 0 0 0 0 0 0 0 0 0) (zero_words 80 10 {[12272 := 0]}))).

Definition asm_run_events (n : nat) : option (Worker * @Fibers SampleAsm) :=
  run_fibers 4096 sample_admits sample_room ((fun e => (e, (256, 8192))) <$> take n sample_events)
    (start 0 MultiThreaded 1) asm_main.

Lemma asm_main_runs : runs_on (W := SampleAsm) (Env := Z * Z) 4096 (start 0 MultiThreaded 1) asm_main.
Proof.
  apply (runs_start 4096 0 MultiThreaded 1 (64, 64)
           (mkFibers ∅ (mkAsmWorld ∅ () (mkMachine (mkRegs 0 0 0 0 0 0 0 0 0 0 0 0) {[12272 := 0]}))));
    [lia|reflexivity| | |vm_compute; reflexivity].
  - split; [by apply layoutb_sound|]. intros p f Hp. cbn in Hp. by rewrite lookup_empty in Hp.
  - intros self n s Eu. cbn in Eu. injection Eu as <- <- <-. split; [done|]. apply layoutb_sound. vm_compute. reflexivity.
Qed.

Definition asm_at (n : nat) : Worker * @Fibers SampleAsm := default (start 0 MultiThreaded 1, asm_main) (asm_run_events n).

Lemma asm_at_runs n : runs_on (W := SampleAsm) (Env := Z * Z) 4096 (asm_at n).1 (asm_at n).2.
Proof.
  unfold asm_at, asm_run_events. destruct (run_fibers _ _ _ _ _ _) as [[w y]|] eqn:E; [|apply asm_main_runs].
  by eapply run_fibers_runs; [apply sample_admits_sound|apply sample_room_sound|apply asm_main_runs|exact E].
Qed.

(** The second fiber runs; the main fiber, inside a wait, is saved, and a swap
    leads back to its six frames. *)
Lemma worker_runs_on_asm_witness :
  current_fiber_ (asm_at 25).1 = 7 /\
  exists v s, sample_frames v = stack (asm_at 25).1 1 /\ length (sample_frames v) = 6%nat /\
    switchTo (256 + 16) (64 + 16)
      (call_site (sample_compile (world (asm_at 25).2) 256 [KIdleTask]) (machine (world (asm_at 25).2))) = Ok s /\
    regs s RIP = i_rip v.
Proof.
  split; [vm_compute; reflexivity|].
  destruct (worker_runs_on_asm 128 8 16 500 600 sample_thread_stack 4096 sample_compile sample_frames
              (fun w p k _ => sample_frames_compile w p k) (asm_at 25).1 (asm_at 25).2 (asm_at_runs 25)) as [H _].
  destruct (H 1 (stack (asm_at 25).1 1) 64) as (v & Hv & _ & Hsw).
  - vm_compute. discriminate.
  - vm_compute. reflexivity.
  - vm_compute. reflexivity.
  - destruct (Hsw 7 256 (sample_compile (world (asm_at 25).2) 256 [KIdleTask])) as (s & Es & Hr & _).
    + discriminate.
    + eexists. vm_compute. reflexivity.
    + vm_compute. reflexivity.
    + apply sample_room_sound. vm_compute. reflexivity.
    + exists v, s. split; [exact Hv|]. split; [rewrite Hv; vm_compute; reflexivity|]. split; [exact Es|].
      exact (Hr RIP rip_saved).
Defined.
End samples.
