(* ===== verification/AsmDefault.v ===== *)
(** The fibers of AsmFibers.v in memory of [DefaultAllocator]: what the assembly
    asks of its allocator, that new contexts and stacks overlap nothing that is in
    use, follows from what [DefaultAllocator] promises (MemoryProps.v), as long as
    the system keeps its promises and the stack of the thread is nobody's block. *)
From stdpp Require Import base numbers strings gmap list.
From S2P Require Import Prelude Memory MemoryProps Allocators OSFiber AsmFiber WorkerFibers AsmFibers.

Local Open Scope Z_scope.

(** ** Outstanding allocations share no byte *)
Section owned.
Context (page_size : Z) (Hps : exists k, 1 <= k < 60 /\ page_size = 2 ^ k).

Definition within (a : Allocation) (x : Z) : Prop := ptr a <= x < ptr a + r_size (request a).

Lemma within_page h a b x :
  holds page_size h (a, b) -> use_guards (request a) = true -> within a x ->
  inr (x - x mod page_size) ∈ foot page_size (a, b).
Proof.
  intros [Hs Ho] Eg [Hx1 Hx2]. rewrite Eg in Ho. destruct Ho as (Hp & _ & _ & Hmod & _). unfold foot. rewrite Eg.
  pose proof (page_size_pos page_size Hps) as Hps2. apply list_elem_of_fmap. eexists. split; [reflexivity|].
  apply page_range_elem. exists ((x - b) / page_size).
  pose proof (Z.mul_div_le (x - b) page_size). pose proof (Z.mul_succ_div_gt (x - b) page_size).
  unfold guarded_pages. pose proof (Z.mul_succ_div_gt (r_size (request a) + page_size - 1) page_size).
  split; [nia|]. apply page_of; [done|by rewrite Z.mod_add by lia|lia].
Qed.

Lemma within_block h a b x :
  holds page_size h (a, b) -> use_guards (request a) = false -> within a x ->
  exists n, blocks h !! b = Some n /\ b <= x < b + n.
Proof.
  intros [Hs Ho] Eg [Hx1 Hx2]. rewrite Eg in Ho. case_bool_decide.
  - destruct Ho as (n & Hn & ? & ? & _). exists n. split; [done|lia].
  - destruct Ho as [<- Hn]. eexists. split; [done|lia].
Qed.

Lemma owned_pair h a b a' b' os x :
  heap_inv page_size h ((a, b) :: (a', b') :: os) -> within a x -> within a' x -> False.
Proof.
  intros HI Hx Hx'. pose proof (hi_holds _ _ _ HI) as [Ho [Ho' _]%Forall_cons]%Forall_cons.
  pose proof (hi_foot _ _ _ HI) as Hnd. rewrite !bind_cons in Hnd. apply NoDup_app in Hnd as (_ & Hd & _).
  assert (forall c, c ∈ foot page_size (a, b) -> c ∈ foot page_size (a', b') -> False) as Hd'.
  { intros c H1 H2. apply (Hd c H1), elem_of_app. by left. }
  destruct (use_guards (request a)) eqn:Eg, (use_guards (request a')) eqn:Eg'.
  - apply (Hd' (inr (x - x mod page_size))); by eapply within_page.
  - pose proof (holds_page _ _ _ _ Ho (within_page _ _ _ _ Ho Eg Hx)) as Hq.
    destruct (within_block _ _ _ _ Ho' Eg' Hx') as (n & Hn & ?). pose proof (page_size_pos page_size Hps).
    pose proof (Z.mod_pos_bound x page_size). destruct (wf_pages _ h (hi_wf _ _ _ HI) _ b' n Hq Hn); lia.
  - pose proof (holds_page _ _ _ _ Ho' (within_page _ _ _ _ Ho' Eg' Hx')) as Hq.
    destruct (within_block _ _ _ _ Ho Eg Hx) as (n & Hn & ?). pose proof (page_size_pos page_size Hps).
    pose proof (Z.mod_pos_bound x page_size). destruct (wf_pages _ h (hi_wf _ _ _ HI) _ b n Hq Hn); lia.
  - destruct (within_block _ _ _ _ Ho Eg Hx) as (n & Hn & ?). destruct (within_block _ _ _ _ Ho' Eg' Hx') as (n' & Hn' & ?).
    destruct (decide (b = b')) as [<-|Hne]; [|destruct (wf_disjoint _ h (hi_wf _ _ _ HI) b n b' n' Hn Hn' Hne); lia].
    apply (Hd' (inl b)); unfold foot; rewrite ?Eg, ?Eg'; left.
Qed.

Lemma heap_inv_perm h os os' : os ≡ₚ os' -> heap_inv page_size h os -> heap_inv page_size h os'.
Proof. intros Hp [H1 H2 H3]. split; [done|by rewrite <- Hp|by rewrite <- Hp]. Qed.

Lemma owns_apart h ls a a' rest x :
  default_owns page_size h ls -> ls ≡ₚ a :: a' :: rest -> within a x -> within a' x -> False.
Proof.
  intros (os & <- & HI) Hp. apply Permutation_sym, Permutation_map_inv in Hp as (os' & E & Hp).
  destruct os' as [|[c b] [|[c' b'] os']]; try done. simpl in E. injection E as -> -> ->.
  apply (owned_pair h c b c' b' os'). by eapply heap_inv_perm.
Qed.
End owned.

(** ** Fibers and what they own *)
Section fibers.
Context {F : Type}.
Context (page_size : Z) (Hps : exists k, 1 <= k < 60 /\ page_size = 2 ^ k).
Context (sizeof alignof offset trampoline run : Z) (thread_stack : Z * Z).
Context (Hcontext : 0 <= offset /\ offset + 0x50 <= sizeof < 2 ^ 64).      (* [context_] lies in its object *)
Context (Hthread : thread_stack.1 < thread_stack.2).

#[local] Instance default_memory : Allocator Z Heap := DefaultAllocator page_size.

Definition object (p : Z) : Allocation := mkAllocation p (create_request sizeof alignof).

Definition fiber_allocs (o : Z * @AsmFiber F) : list Allocation :=
  object o.1 :: match asm_stack_ o.2 with Some a => [a] | None => [] end.

Definition allocs (objs : gmap Z (@AsmFiber F)) : list Allocation := map_to_list objs ≫= fiber_allocs.

Definition off_thread (a : Allocation) : Prop :=
  forall x, within a x -> ~ (thread_stack.1 <= x < thread_stack.2).

(** The objects and stacks are outstanding allocations, away from the stack of the
    thread, which at most one fiber runs on. *)
Record owned (h : Heap) (objs : gmap Z (@AsmFiber F)) : Prop := {
  ow_outstanding : exists rest, default_owns page_size h (allocs objs ++ rest);
  ow_thread : Forall off_thread (allocs objs);
  ow_borrowed : forall p q f g, objs !! p = Some f -> objs !! q = Some g ->
    asm_stack_ f = None -> asm_stack_ g = None -> p = q;
  ow_sizes : forall p f a, objs !! p = Some f -> asm_stack_ f = Some a ->
    0 < u32 (r_size (request a)) <= r_size (request a)
}.

Lemma allocs_insert objs p f : objs !! p = None -> allocs (<[p := f]> objs) ≡ₚ fiber_allocs (p, f) ++ allocs objs.
Proof. intros Hp. unfold allocs. by rewrite map_to_list_insert by done. Qed.

Lemma allocs_lookup objs p f : objs !! p = Some f -> allocs objs ≡ₚ fiber_allocs (p, f) ++ allocs (delete p objs).
Proof.
  intros Hp. rewrite <- allocs_insert by apply lookup_delete_eq. by rewrite insert_delete_id.
Qed.

(** Two allocations of fibers share no byte. *)
Lemma owned_apart_fibers h objs p q f g a a' x :
  owned h objs -> objs !! p = Some f -> objs !! q = Some g -> p <> q ->
  a ∈ fiber_allocs (p, f) -> a' ∈ fiber_allocs (q, g) -> within a x -> within a' x -> False.
Proof.
  intros [[rest Ho] _ _ _] Hp Hq Hne Ha Ha'.
  assert (allocs objs ≡ₚ fiber_allocs (p, f) ++ fiber_allocs (q, g) ++ allocs (delete q (delete p objs))) as Hperm.
  { rewrite (allocs_lookup objs p f Hp). f_equiv. apply allocs_lookup. by rewrite lookup_delete_ne. }
  apply elem_of_Permutation in Ha as [l Hl], Ha' as [l' Hl']. rewrite Hl, Hl' in Hperm.
  eapply (owns_apart page_size Hps h _ a a' (l ++ l' ++ allocs (delete q (delete p objs)) ++ rest)); [exact Ho|].
  rewrite Hperm. simpl. f_equiv. rewrite <- app_assoc. simpl. rewrite <- app_assoc. symmetry; apply Permutation_middle.
Qed.

Lemma owned_apart_own h objs p f a x :
  owned h objs -> objs !! p = Some f -> asm_stack_ f = Some a -> within (object p) x -> within a x -> False.
Proof.
  intros [[rest Ho] _ _ _] Hp Ha. eapply (owns_apart page_size Hps h _ (object p) a (allocs (delete p objs) ++ rest)); [exact Ho|].
  rewrite (allocs_lookup objs p f Hp). unfold fiber_allocs. cbn [fst snd]. by rewrite Ha.
Qed.

Lemma ranges_apart lo hi lo' hi' :
  lo < hi -> lo' < hi' -> (forall x, lo <= x < hi -> lo' <= x < hi' -> False) -> hi <= lo' \/ hi' <= lo.
Proof.
  intros H1 H2 H. destruct (decide (hi <= lo')) as [|Hn]; [by left|right]. destruct (decide (hi' <= lo)); [done|].
  destruct (H (Z.max lo lo')); lia.
Qed.

(** The bytes of contexts and stacks belong to what the fibers own. *)
Lemma context_bytes p x : p + offset <= x < p + offset + 0x50 -> within (object p) x.
Proof. unfold within, object. cbn. lia. Qed.

Lemma stack_bytes h objs p f a x :
  owned h objs -> objs !! p = Some f -> asm_stack_ f = Some a ->
  (stack_range thread_stack f).1 <= x < (stack_range thread_stack f).2 -> within a x.
Proof.
  intros HO Hp Ha. pose proof (ow_sizes h objs HO p f a Hp Ha). unfold stack_range, within. rewrite Ha. cbn. lia.
Qed.

Lemma stack_nonempty h objs p f :
  owned h objs -> objs !! p = Some f -> (stack_range thread_stack f).1 < (stack_range thread_stack f).2.
Proof.
  intros HO Hp. unfold stack_range. destruct (asm_stack_ f) as [a|] eqn:Ha; [|done]. cbn.
  pose proof (ow_sizes h objs HO p f a Hp Ha). lia.
Qed.

Lemma owned_off_thread h objs p f a : owned h objs -> objs !! p = Some f -> a ∈ fiber_allocs (p, f) -> off_thread a.
Proof.
  intros HO Hp Ha. apply (proj1 (Forall_forall _ _) (ow_thread h objs HO)).
  rewrite (allocs_lookup objs p f Hp). apply elem_of_app. by left.
Qed.

Lemma stack_alloc p (f : @AsmFiber F) a : asm_stack_ f = Some a -> a ∈ fiber_allocs (p, f).
Proof. intros Ha. unfold fiber_allocs. cbn [fst snd]. rewrite Ha. right. by left. Qed.

Lemma object_alloc p (f : @AsmFiber F) : object p ∈ fiber_allocs (p, f).
Proof. by left. Qed.

Lemma owned_layout h objs : owned h objs -> layout offset thread_stack objs.
Proof.
  intros HO. split; unfold apart, clear_of, disjoint_stacks.
  - intros p q f g Hp Hq Hne. apply ranges_apart; [lia..|]. intros x Hx Hx'.
    apply (owned_apart_fibers h objs p q f g (object p) (object q) x); [done..|by left|by left| |]; by apply context_bytes.
  - intros p q f g Hp Hq. assert (p + offset + 0x50 <= (stack_range thread_stack g).1 \/
      (stack_range thread_stack g).2 <= p + offset); [|lia].
    apply ranges_apart; [lia|by eapply stack_nonempty|]. intros x Hx%context_bytes Hx'.
    destruct (asm_stack_ g) as [a|] eqn:Ha.
    + pose proof (stack_bytes h objs q g a x HO Hq Ha Hx') as Hw. destruct (decide (p = q)) as [->|Hne].
      * by eapply (owned_apart_own h objs q g a x).
      * eapply (owned_apart_fibers h objs p q f g (object p) a x); try done; [by left|by apply stack_alloc].
    + apply (owned_off_thread h objs p f (object p) HO Hp (object_alloc p f) x Hx). unfold stack_range in Hx'. by rewrite Ha in Hx'.
  - intros p q f g Hp Hq Hne. apply ranges_apart; [by eapply stack_nonempty..|]. intros x Hx Hx'.
    destruct (asm_stack_ f) as [a|] eqn:Ha, (asm_stack_ g) as [b|] eqn:Hb.
    + eapply (owned_apart_fibers h objs p q f g a b x); try done;
        [by apply stack_alloc|by apply stack_alloc|by apply (stack_bytes h objs p f a)|by apply (stack_bytes h objs q g b)].
    + apply (owned_off_thread h objs p f a HO Hp (stack_alloc p f a Ha) x); [by apply (stack_bytes h objs p f a)|].
      unfold stack_range in Hx'. by rewrite Hb in Hx'.
    + apply (owned_off_thread h objs q g b HO Hq (stack_alloc q g b Hb) x); [by apply (stack_bytes h objs q g b)|].
      unfold stack_range in Hx. by rewrite Ha in Hx.
    + apply Hne. by eapply (ow_borrowed h objs HO p q).
Qed.

Lemma default_owns_perm h ls ls' : ls ≡ₚ ls' -> default_owns page_size h ls -> default_owns page_size h ls'.
Proof.
  intros Hp (os & <- & HI). apply Permutation_sym, Permutation_map_inv in Hp as (os' & -> & Hp).
  exists os'. split; [done|]. by eapply heap_inv_perm.
Qed.

(** A new fiber, for which memory was taken. *)
Lemma owned_new h h' objs self f rest :
  owned h objs -> default_owns page_size h' (fiber_allocs (self, f) ++ allocs objs ++ rest) ->
  Forall off_thread (fiber_allocs (self, f)) ->
  (asm_stack_ f = None -> forall q g, objs !! q = Some g -> asm_stack_ g <> None) ->
  (forall a, asm_stack_ f = Some a -> 0 < u32 (r_size (request a)) <= r_size (request a)) ->
  objs !! self = None /\ owned h' (<[self := f]> objs).
Proof.
  intros HO Ho Ht Hb Hs.
  assert (objs !! self = None) as Hnew.
  { destruct (objs !! self) as [g|] eqn:Hg; [exfalso|done].
    apply (owns_apart page_size Hps h' _ (object self) (object self)
             (tail (fiber_allocs (self, f)) ++ tail (fiber_allocs (self, g)) ++ allocs (delete self objs) ++ rest) self Ho).
    - rewrite (allocs_lookup objs self g Hg). unfold fiber_allocs at 1 2. cbn [tail app fst snd].
      rewrite <- !app_assoc. f_equiv. symmetry. apply Permutation_middle.
    - unfold within, object. cbn. lia.
    - unfold within, object. cbn. lia. }
  split; [done|]. split.
  - exists rest. eapply default_owns_perm; [|exact Ho]. by rewrite (allocs_insert objs self f Hnew), <- app_assoc.
  - rewrite (allocs_insert objs self f Hnew). apply Forall_app. split; [done|apply HO].
  - intros p q fp fq. rewrite !lookup_insert_Some. intros [[<- <-]|[Hp1 Hp]] [[<- <-]|[Hq1 Hq]] H1 H2; try done.
    + by destruct (Hb H1 q fq Hq).
    + by destruct (Hb H2 p fp Hp).
    + by eapply (ow_borrowed h objs HO).
  - intros p fp a. rewrite lookup_insert_Some. intros [[<- <-]|[_ Hp]] Ha; [by apply Hs|by eapply (ow_sizes h objs HO)].
Qed.

Lemma make_unique_default e h :
  make_unique e sizeof alignof h =
    ('(a, h1) ← default_allocate page_size e (create_request sizeof alignof) h; Ok (ptr a, 1, h1)).
Proof.
  unfold make_unique, make_unique_n. cbn [allocate default_memory DefaultAllocator].
  rewrite bool_decide_eq_false_2 by lia. unfold u64. by rewrite Z.mul_1_r, Z.mod_small by lia.
Qed.

(** ** The answers of the system *)
Definition answers (e e' size : Z) (h : Heap) : Prop :=
  default_admits page_size e (create_request sizeof alignof) h /\
  forall a h1, default_allocate page_size e (create_request sizeof alignof) h = Ok (a, h1) -> off_thread a /\
    default_admits page_size e' (asm_stack_request size) h1 /\
    forall b h2, default_allocate page_size e' (asm_stack_request size) h1 = Ok (b, h2) -> off_thread b.

(** Fibers on the assembly in memory of [DefaultAllocator]: as long as [malloc] and
    [mmap] keep their promises and stay off the stack of the thread, and stacks are
    shorter than 4 GiB, everything that AsmFibers.v asks of the allocator for a new
    fiber holds, both allocations succeed, and the fibers own their memory again
    when the new one is made. *)
Theorem default_memory_admits e e' size (w : @AsmWorld F Heap) :
  owned (allocator_state w) (objects w) -> answers e e' size (allocator_state w) -> 32 <= size < 2 ^ 32 ->
  asm_create_admits sizeof alignof offset thread_stack e e' size w /\
  (exists self h1 stack h2, make_unique e sizeof alignof (allocator_state w) = Ok (self, 1, h1) /\
     default_allocate page_size e' (asm_stack_request size) h1 = Ok (stack, h2)) /\
  forall func p w', asm_createFiber sizeof alignof offset trampoline run e e' size func w = Ok (p, w') ->
    owned (allocator_state w') (objects w').
Proof.
  intros HO [Hadm Hans] Hsize. destruct (ow_outstanding _ _ HO) as [rest Ho].
  destruct (default_allocate_law page_size Hps _ _ _ _ Ho Hadm) as (a & h1 & E1 & Hr1 & Ho1).
  destruct (Hans a h1 E1) as (Hta & Hadm2 & Htb).
  destruct (default_allocate_law page_size Hps _ _ _ _ Ho1 Hadm2) as (b & h2 & E2 & Hr2 & Ho2).
  specialize (Htb b h2 E2). assert (make_unique e sizeof alignof (allocator_state w) = Ok (ptr a, 1, h1)) as Eu
    by (by rewrite make_unique_default, E1).
  assert (a = object (ptr a)) as Ea by (destruct a; cbn in Hr1; by subst).
  assert (u32 (r_size (request b)) = size /\ r_size (request b) = size) as [Hu Hsz].
  { rewrite Hr2. cbn. split; [apply u32_small; lia|done]. }
  assert (forall t, objects w !! ptr a = None /\ owned h2 (<[ptr a := mkAsmFiber t (Some b)]> (objects w))) as Hown.
  { intros t. apply (owned_new (allocator_state w) h2 (objects w) (ptr a) (mkAsmFiber t (Some b)) rest); [done|..].
    - eapply default_owns_perm; [|exact Ho2]. unfold fiber_allocs. cbn [fst snd asm_stack_ app]. rewrite <- Ea. constructor.
    - unfold fiber_allocs. cbn [fst snd asm_stack_]. rewrite <- Ea. by repeat constructor.
    - done.
    - intros ? [= <-]. lia. }
  split_and!.
  - intros self n s stack s' Eu' E'. rewrite Eu in Eu'. injection Eu' as <- _ <-. change (default_allocate page_size e' (asm_stack_request size) h1 = Ok (stack, s')) in E'. rewrite E2 in E'. injection E' as <- <-.
    destruct (Hown None) as [Hn Hw]. split_and!; [done|by eapply owned_layout|done|rewrite u32_small by lia; lia].
  - by exists (ptr a), h1, b, h2.
  - intros func p w' Ec. unfold asm_createFiber in Ec. inv_ok Ec. destruct a0 as [[self n] s].
    inv_ok Ec. destruct a0 as [stack s']. inv_ok Ec. injection Ec as <- <-. rewrite Eu in E. injection E as <- _ <-.
    change (default_allocate page_size e' (asm_stack_request size) h1 = Ok (stack, s')) in E0. rewrite E2 in E0. injection E0 as <- <-. cbn. apply Hown.
Qed.
End fibers.

(** From an empty heap: [malloc] answers 65536 for an object of 96 bytes, [mmap]
    1048576 for a stack of 4096 bytes between its guard pages; the stack of the
    thread ends at 2 ^ 40. *)
Example default_memory_sample (w : @AsmWorld unit Heap) :
  allocator_state w = empty_heap -> objects w = ∅ ->
  asm_create_admits (Allocator0 := DefaultAllocator 4096) 96 (2 ^ 3) 0 (2 ^ 39, 2 ^ 40) 65536 1048576 4096 w.
Proof.
  intros Es Eo. apply (default_memory_admits 4096 page_4096 96 (2 ^ 3) 0 0 0 (2 ^ 39, 2 ^ 40)); [lia|done|..|lia].
  - rewrite Es, Eo. split; [exists []; apply empty_owns|constructor|by intros ????|by intros ???].
  - rewrite Es. split; [apply small_request_admitted; [lia|lia|lia|reflexivity]|].
    intros a h1 E1. vm_compute in E1. injection E1 as <- <-. split; [intros x [? ?]; cbn in *; lia|]. split.
    + split; [split; [cbn; lia|split; [by exists 4|cbn; lia]]|].
      split; [lia|reflexivity|vm_compute; discriminate|done|].
      intros b k Hb. change (({[65536 := 112]} : gmap Z Z) !! b = Some k) in Hb.
      apply lookup_singleton_Some in Hb as [<- <-]. right. cbn. lia.
    + intros b h2 E2. vm_compute in E2. injection E2 as <- <-. intros x [? ?]. cbn in *. lia.
Qed.
