(* ===== verification/Annotations.v ===== *)
(** The annotations of [Scheduler::Worker] (src/include/marl/scheduler.hpp), which
    say what a function asks of [work_.mutex] and which members the mutex guards
    (src/include/marl/tsa.hpp).

    Clang checks them where it compiles the code; here they are checked against
    the code of Worker.v, for any state of a worker: a function that finds the
    mutex as its annotation says neither locks it twice nor unlocks it without
    holding it, reads and writes guarded members only while it is held, and leaves
    it as the annotation says. *)
From stdpp Require Import base numbers strings sets gmap list.
From S2P Require Import Prelude Task WaitingFibers Worker WorkerFrame WorkerLogic WorkerInv WorkerSafety WorkerProps WorkerFibers.

(** ** The declarations *)
Inductive Annotation := EXCLUDES | REQUIRES | TRY_ACQUIRE (result : bool) | RELEASE.

Global Instance Annotation_eq_dec : EqDecision Annotation.
Proof. solve_decision. Defined.

Inductive Operation :=
| OpStart | OpStop | OpWaitLock | OpWait | OpSuspend | OpEnqueueFiber | OpEnqueueTask | OpTryLock
| OpEnqueueAndUnlock | OpRunUntilShutdown | OpSteal | OpRun | OpCreateWorkerFiber | OpSwitchToFiber
| OpRunUntilIdle | OpWaitForWork | OpSpinForWork | OpEnqueueFiberTimeouts | OpChangeFiberState
| OpSetFiberState | OpWorkWait.

Definition annotations (o : Operation) : list Annotation :=
  match o with
  | OpStart | OpStop | OpWaitLock | OpWait => [EXCLUDES]
  | OpSuspend => [REQUIRES]
  | OpEnqueueFiber | OpEnqueueTask => [EXCLUDES]
  | OpTryLock => [EXCLUDES; TRY_ACQUIRE true]
  | OpEnqueueAndUnlock => [REQUIRES; RELEASE]
  | OpRunUntilShutdown => [REQUIRES]
  | OpSteal => [EXCLUDES]
  | OpRun | OpCreateWorkerFiber | OpSwitchToFiber | OpRunUntilIdle | OpWaitForWork => [REQUIRES]
  | OpSpinForWork => []
  | OpEnqueueFiberTimeouts | OpChangeFiberState | OpSetFiberState | OpWorkWait => [REQUIRES]
  end.

(** What is asked before, and promised after a call with the given result. *)
Definition before (o : Operation) : bool := bool_decide (REQUIRES ∈ annotations o).

Definition after (o : Operation) (result : bool) : bool :=
  if bool_decide (RELEASE ∈ annotations o) then false
  else if bool_decide (TRY_ACQUIRE result ∈ annotations o) then true
  else before o.

(** Where the code of an operation that has more than one step begins. *)
Inductive begins : Operation -> Pc -> Prop :=
| begins_start : begins OpStart PThreadStart
| begins_stop : begins OpStop PUser
| begins_wait_lock : begins OpWaitLock PUser
| begins_wait : begins OpWait PUser
| begins_suspend t : begins OpSuspend (PSuspend t)
| begins_shutdown : begins OpRunUntilShutdown PShutdownLoop
| begins_run : begins OpRun PRun
| begins_idle : begins OpRunUntilIdle PIdle
| begins_wait_work : begins OpWaitForWork PWaitForWork
| begins_spin : begins OpSpinForWork PSpin
| begins_work_wait p : begins OpWorkWait (PCvEnter p).

(** ** Triples about the mutex *)
Definition mutex_errors : list string :=
  ["mutex locked twice"; "mutex unlocked by a thread that does not hold it";
   "guarded member accessed without the mutex"].

Definition tsa {A} (h : bool) (m : M A) (Q : A -> Worker -> Prop) : Prop :=
  forall w, mutex (work_ w) = h ->
    match m w with
    | Ok (a, w', _) => Q a w'
    | Fatal _ => True
    | Undefined e => e ∉ mutex_errors
    end.

(** The mutex is held at the end, as [h] says; or as the place says that the
    code has gone on to. *)
Definition held {A} (h : A -> bool) (a : A) (w : Worker) : Prop := mutex (work_ w) = h a.
Definition at_place {A} (_ : A) (w : Worker) : Prop := mutex (work_ w) = holds_mutex (pc w).

Definition neutral {A} (h : bool) (m : M A) : Prop := tsa h m (held (fun _ => h)).
Definition clean {A} (r : Result A) : Prop := forall e, r = Undefined e -> e ∉ mutex_errors.

Lemma tsa_bind {A B} h h' (m : M A) (k : A -> M B) Q :
  tsa h m (held h') -> (forall a, tsa (h' a) (k a) Q) -> tsa h (m ≫= k) Q.
Proof.
  intros Hm Hk w Hw. specialize (Hm w Hw). unfold mbind, M_bind. destruct (m w) as [[[a w1] o1]| |]; [|done|done].
  specialize (Hk a w1 Hm). by destruct (k a w1) as [[[b w2] o2]| |].
Qed.

Lemma neutral_bind {A B} h (m : M A) (k : A -> M B) : neutral h m -> (forall a, neutral h (k a)) -> neutral h (m ≫= k).
Proof. intros Hm Hk. eapply tsa_bind; [apply Hm|]. intros a. apply Hk. Qed.

Lemma tsa_after {A B} h (m : M A) (k : A -> M B) Q : neutral h m -> (forall a, tsa h (k a) Q) -> tsa h (m ≫= k) Q.
Proof. intros Hm Hk. eapply tsa_bind; [apply Hm|done]. Qed.

Create HintDb tsa discriminated.
#[export] Hint Constants Opaque : tsa.

Lemma neutral_get h : neutral h get.
Proof. by intros w Hw. Qed.
Lemma neutral_mret {A} h (a : A) : neutral h (mret a).
Proof. by intros w Hw. Qed.
Lemma neutral_emit h o : neutral h (emit o).
Proof. by intros w Hw. Qed.
Lemma neutral_pass h : neutral h pass.
Proof. apply neutral_mret. Qed.
Lemma neutral_modify h f : (forall w, mutex (work_ (f w)) = mutex (work_ w)) -> neutral h (modify f).
Proof. intros Hf w Hw. cbn. unfold held. by rewrite Hf. Qed.
Lemma neutral_lift {A} h (r : Result A) : clean r -> neutral h (lift r).
Proof. intros Hr w Hw. unfold lift. destruct r; try done. by apply Hr. Qed.
Lemma clean_deref {A} (o : option A) what : what ∉ mutex_errors -> clean (deref o what).
Proof. intros Hw e. destruct o; [done|]. by intros [= <-]. Qed.
Lemma neutral_assert h c msg : neutral h (assert c msg).
Proof. apply neutral_lift. intros e. unfold MARL_ASSERT, fatal. by destruct c. Qed.
Lemma neutral_undefined {A} h e : e ∉ mutex_errors -> neutral h (lift (@Undefined A e)).
Proof. intros He. apply neutral_lift. by intros ? [= <-]. Qed.
#[export] Hint Resolve neutral_get neutral_mret neutral_emit neutral_pass neutral_assert : tsa.

(** Guarded members are accessed with the mutex held. *)
Lemma neutral_guard : neutral true guard.
Proof. intros w Hw. unfold guard, mbind, M_bind, get. by rewrite Hw. Qed.
Lemma neutral_get_locked : neutral true get_locked.
Proof. apply neutral_bind; [apply neutral_guard|intros ?; apply neutral_get]. Qed.
Lemma neutral_work g : (forall k, mutex (g k) = mutex k) -> neutral true (work g).
Proof. intros Hg. apply neutral_bind; [apply neutral_guard|]. intros ?. apply neutral_modify. intros w. apply Hg. Qed.
#[export] Hint Resolve neutral_guard neutral_get_locked : tsa.
#[export] Hint Extern 1 (neutral _ (mbind _ _)) => apply neutral_bind; [|intros ?] : tsa.
#[export] Hint Extern 1 (neutral _ (modify _)) => apply neutral_modify; reflexivity : tsa.
#[export] Hint Extern 1 (neutral _ (atomic _)) => apply neutral_modify; reflexivity : tsa.
#[export] Hint Extern 1 (neutral _ (work _)) => apply neutral_work; reflexivity : tsa.
#[export] Hint Extern 1 (neutral _ (goto _)) => apply neutral_modify; reflexivity : tsa.
#[export] Hint Extern 1 (neutral _ (put_fiber _ _)) => apply neutral_modify; reflexivity : tsa.
#[export] Hint Extern 1 (neutral _ (lift (Undefined _))) => apply neutral_undefined; set_solver : tsa.
#[export] Hint Extern 2 (neutral _ (match ?x with _ => _ end)) => destruct x : tsa.

(** ** The operations of one step *)
Ltac clean_cases := intros e; repeat (case_match || cbn [mbind result_bind]); try done; intros [= <-]; set_solver.

Lemma clean_take t w : clean (WaitingFibers_take t w).
Proof. unfold WaitingFibers_take, MARL_ASSERT, fatal. clean_cases. Qed.
Lemma clean_next w : clean (WaitingFibers_next w).
Proof. unfold WaitingFibers_next, MARL_ASSERT, fatal. clean_cases. Qed.
Lemma clean_add t f w : clean (WaitingFibers_add t f w).
Proof. unfold WaitingFibers_add, MARL_ASSERT, fatal. clean_cases. Qed.
Lemma clean_erase f w : clean (WaitingFibers_erase f w).
Proof. unfold WaitingFibers_erase, MARL_ASSERT, fatal. clean_cases. Qed.
#[export] Hint Extern 1 (neutral _ (lift _)) =>
  apply neutral_lift; first [apply clean_take | apply clean_next | apply clean_add | apply clean_erase] : tsa.

Lemma neutral_the_fiber h f : neutral h (the_fiber f).
Proof. apply neutral_bind; [apply neutral_get|]. intros w. apply neutral_lift, clean_deref. set_solver. Qed.
#[export] Hint Resolve neutral_the_fiber : tsa.

Ltac neutral_tac := simpl; auto 60 with tsa.

Lemma neutral_set_state f s : neutral true (setFiberState f s).
Proof. unfold setFiberState. neutral_tac. Qed.
Lemma neutral_change f s t : neutral true (changeFiberState f s t).
Proof. unfold changeFiberState. neutral_tac. Qed.
Lemma neutral_assert_state f s : neutral true (assert_fiber_state f s).
Proof. unfold assert_fiber_state. neutral_tac. Qed.
Lemma neutral_push h k : neutral h (push_frame k).
Proof. unfold push_frame. neutral_tac. Qed.
Lemma neutral_pop h : neutral h pop_frame.
Proof. unfold pop_frame. neutral_tac. Qed.
Lemma neutral_create h p : neutral h (createWorkerFiber p).
Proof. unfold createWorkerFiber. neutral_tac. Qed.
Lemma neutral_take {A} h (l : list A) : neutral h (take_front l).
Proof. unfold take_front. neutral_tac. Qed.
Lemma neutral_notify h b : neutral h (notify_if b).
Proof. unfold notify_if. neutral_tac. Qed.
#[export] Hint Resolve neutral_set_state neutral_change neutral_assert_state neutral_push neutral_pop neutral_create
  neutral_take neutral_notify : tsa.

Lemma neutral_timeouts fuel now : neutral true (enqueueFiberTimeouts fuel now).
Proof. induction fuel; neutral_tac. Qed.
#[export] Hint Resolve neutral_timeouts : tsa.

Lemma tsa_lock : tsa false lock_mutex (held (fun _ => true)).
Proof. intros w Hw. unfold lock_mutex, mbind, M_bind, get. by rewrite Hw. Qed.
Lemma tsa_unlock : tsa true unlock_mutex (held (fun _ => false)).
Proof. intros w Hw. unfold unlock_mutex, mbind, M_bind, get. by rewrite Hw. Qed.
Lemma tsa_neutral {A} h (m : M A) : neutral h m -> tsa h m (held (fun _ => h)).
Proof. done. Qed.
Lemma tsa_mret {A} h (a : A) (h' : A -> bool) : h' a = h -> tsa h (mret a) (held h').
Proof. intros Ha w Hw. cbn. unfold held. congruence. Qed.
Lemma tsa_goto p h : h = holds_mutex p -> tsa h (goto p) at_place.
Proof. intros -> w Hw. exact Hw. Qed.
Lemma tsa_stuck {A} h e (Q : A -> Worker -> Prop) : e ∉ mutex_errors -> tsa h (lift (Undefined e)) Q.
Proof. by intros He w Hw. Qed.
Lemma tsa_lock_then {B} (k : unit -> M B) Q : tsa true (k ()) Q -> tsa false (lock_mutex ≫= k) Q.
Proof. intros Hk. eapply tsa_bind; [apply tsa_lock|]. by intros []. Qed.
Lemma tsa_unlock_then {B} (k : unit -> M B) Q : tsa false (k ()) Q -> tsa true (unlock_mutex ≫= k) Q.
Proof. intros Hk. eapply tsa_bind; [apply tsa_unlock|]. by intros []. Qed.
(** The state that is read agrees about the mutex. *)
Lemma tsa_get {B} h (k : Worker -> M B) Q :
  (forall w, mutex (work_ w) = h -> tsa h (k w) Q) -> tsa h (get ≫= k) Q.
Proof.
  intros Hk w Hw. specialize (Hk w Hw w Hw). unfold mbind, M_bind, get. by destruct (k w w) as [[[b w2] o2]| |].
Qed.
#[export] Hint Resolve tsa_lock tsa_unlock : tsa.
#[export] Hint Extern 1 (tsa _ (goto _) _) => apply tsa_goto; reflexivity : tsa.
#[export] Hint Extern 1 (tsa _ (mret _) _) => apply tsa_mret; reflexivity : tsa.
#[export] Hint Extern 1 (tsa _ (lift (Undefined _)) _) => apply tsa_stuck; set_solver : tsa.
#[export] Hint Extern 3 (tsa _ _ (held (fun _ => _))) => apply tsa_neutral : tsa.
#[export] Hint Extern 1 (tsa _ (lock_mutex ≫= _) _) => apply tsa_lock_then : tsa.
#[export] Hint Extern 1 (tsa _ (unlock_mutex ≫= _) _) => apply tsa_unlock_then : tsa.
#[export] Hint Extern 2 (tsa _ (mbind _ _) _) => apply tsa_after; [|intros ?] : tsa.
#[export] Hint Extern 2 (tsa _ (match ?x with _ => _ end) _) => destruct x : tsa.

Ltac tsa_tac := repeat progress (simpl; auto 40 with tsa).

(** ** The code between two places *)
Lemma tsa_ret : tsa true ret at_place.
Proof. unfold ret. tsa_tac. Qed.
#[export] Hint Resolve tsa_ret : tsa.
Lemma tsa_resume : tsa true resume at_place.
Proof. unfold resume, suspend_resumed. tsa_tac. Qed.
#[export] Hint Resolve tsa_resume : tsa.
Lemma tsa_switch f : tsa true (switchToFiber f) at_place.
Proof. unfold switchToFiber. tsa_tac. Qed.
#[export] Hint Resolve tsa_switch : tsa.

Lemma tsa_wait_pred_loop t b : tsa false (wait_pred_loop t b) at_place.
Proof. unfold wait_pred_loop. tsa_tac. Qed.
#[export] Hint Resolve tsa_wait_pred_loop : tsa.

(** A wake-up that goes on leaves the place; one that does not stays. *)
Lemma tsa_wake p d now w :
  pc w = PCvBlocked p d -> mutex (work_ w) = false ->
  match Work_wake p d now w with
  | Ok (_, w', _) => mutex (work_ w') = holds_mutex (pc w')
  | Fatal _ => True
  | Undefined e => e ∉ mutex_errors
  end.
Proof.
  intros Hp Hw. set (w1 := upd_work (set_mutex true) w). set (b := wait_pred p w1 || match d with Some t => bool_decide (t <= now)%Z | None => false end).
  assert (Work_wake p d now w =
            (if b then (work (set_notify false);; ret) w1 else unlock_mutex w1)) as ->.
  { assert (forall k : M unit, (lock_mutex;; k) w = k w1) as Hlock.
    { intros k. unfold lock_mutex, mbind, M_bind, get. rewrite Hw. cbn. fold w1. by destruct (k w1) as [[[[] ?] ?]| |]. }
    unfold Work_wake. rewrite Hlock, get_locked_bind by done. unfold b. by destruct (wait_pred p w1 || _). }
  destruct b.
  - assert (tsa true (work (set_notify false);; ret) at_place) as Hr by tsa_tac. specialize (Hr w1 eq_refl).
    by destruct ((work (set_notify false);; ret) w1) as [[[x w2] o]| |].
  - unfold w1, unlock_mutex, mbind, M_bind, get. simpl. by rewrite Hp.
Qed.

(** Every piece of the worker's own code keeps to the places: it starts with the
    mutex as its place says, and ends so. *)
Lemma code_tsa e w m :
  external e = false -> code e w = Some m -> sleeping (pc w) = false -> tsa (holds_mutex (pc w)) m at_place.
Proof.
  intros He Hc Hs. unfold code in Hc.
  destruct (pc w), e; try done; try case_bool_decide; try done; injection Hc as <-;
    unfold task_done, wait_begin, stop_single, thread_start, run, run_body, run_end, runUntilShutdown, waitForWork,
      spin_stole, spin_end, waitForWork_wait, waitForWork_done, Work_wait, runUntilIdle, runUntilIdle_loop, suspend,
      suspend_switch, wait_end, wait_pred_suspended, wait_pred_relock, thread_end, stop_single_end; by tsa_tac.
Qed.

(** ** Operations of one step, with their result *)
Inductive Leaf : Operation -> M bool -> Prop :=
| leaf_enqueue_fiber f : Leaf OpEnqueueFiber (enqueue_fiber f;; mret true)
| leaf_enqueue_task t : Leaf OpEnqueueTask (enqueue_task t;; mret true)
| leaf_try : Leaf OpTryLock tryLock
| leaf_enqueue_unlock t : Leaf OpEnqueueAndUnlock (enqueueAndUnlock t;; mret true)
| leaf_steal : Leaf OpSteal steal
| leaf_create p : Leaf OpCreateWorkerFiber (createWorkerFiber p;; mret true)
| leaf_timeouts fuel now : Leaf OpEnqueueFiberTimeouts (enqueueFiberTimeouts fuel now;; mret true)
| leaf_change f s t : Leaf OpChangeFiberState (changeFiberState f s t;; mret true)
| leaf_set f s : Leaf OpSetFiberState (setFiberState f s;; mret true).

Lemma tsa_enqueue_fiber f : tsa false (enqueue_fiber f) (held (fun _ => false)).
Proof. unfold enqueue_fiber. tsa_tac. Qed.
Lemma tsa_enqueue_unlock t : tsa true (enqueueAndUnlock t) (held (fun _ => false)).
Proof. unfold enqueueAndUnlock. tsa_tac. Qed.
#[export] Hint Resolve tsa_enqueue_fiber tsa_enqueue_unlock : tsa.
Lemma tsa_enqueue_task t : tsa false (enqueue_task t) (held (fun _ => false)).
Proof. unfold enqueue_task. tsa_tac. Qed.
Lemma tsa_try : tsa false tryLock (held (fun b => b)).
Proof. apply tsa_get. intros w Hw. rewrite Hw. tsa_tac. Qed.
Lemma tsa_steal : tsa false steal (held (fun _ => false)).
Proof. apply tsa_get. intros w Hw. rewrite Hw. tsa_tac. Qed.
#[export] Hint Resolve tsa_enqueue_task tsa_try tsa_steal : tsa.

Lemma held_ext {A} h (m : M A) h1 h2 : tsa h m (held h1) -> (forall a, h1 a = h2 a) -> tsa h m (held h2).
Proof.
  intros Hm Heq w Hw. specialize (Hm w Hw). destruct (m w) as [[[a w'] o]| |]; try done. unfold held in *. by rewrite <- Heq.
Qed.

Lemma leaf_tsa op m : Leaf op m -> tsa (before op) m (held (after op)).
Proof.
  intros [f|t| |t| |p|fuel now|f s t|f s];
    match goal with |- tsa (before ?o) _ _ => let b := eval vm_compute in (before o) in change (before o) with b end.
  3: apply (held_ext _ _ (fun b => b)); [apply tsa_try|intros []; vm_compute; reflexivity].
  4: apply (held_ext _ _ (fun b => false)); [apply tsa_steal|intros []; vm_compute; reflexivity].
  all: eapply tsa_bind; [first [by auto with tsa | apply tsa_neutral; by auto with tsa]|intros ?; apply tsa_mret; vm_compute; reflexivity].
Qed.

(** In every reachable state the mutex is as the place of the worker says. *)
Lemma reachable_place w : reachable w -> mutex (work_ w) = holds_mutex (pc w).
Proof.
  intros [HI|[HD|[HE Hm]]]%reachable_good; [apply HI| |by rewrite HE].
  rewrite (drain_mutex w HD). destruct (drain_pc w HD) as [->|[->|[->|[->| ->]]]]; done.
Qed.


