(* ===== verification/WaitGroup.v ===== *)
(** [marl::WaitGroup] (src/include/marl/wait_group.hpp) and the waits and
    notifications of [marl::ConditionVariable]
    (src/include/marl/condition_variable.hpp) that it is made of.

    Any number of fibers and threads call [wait()], any number of threads call
    [done()], and their steps interleave at every access to shared state: the
    atomic counters, the lock, the list of waiting fibers.  Suspending a fiber
    releases the lock and makes it resumable in one step, and a notification of
    a suspended fiber makes it go on; that is what the worker guarantees
    (WorkerSpec.v).  [std::condition_variable] does the same for a thread, and
    may wake it for no reason. *)
From stdpp Require Import base numbers strings relations list.
From S2P Require Import Prelude.

Local Open Scope Z_scope.

(** Where a call of [wait()] is. *)
Inductive WPc :=
| WEnter                 (* before marl::lock lock(data_->mutex) *)
| WCheck                 (* if (pred()) return; ++num_waiting_ *)
| WRegister              (* waiting_.emplace_front, or ++num_waiting_on_condition *)
| WTest                  (* while (!pred()) *)
| WSleepy                (* pred() was false: release the lock and suspend *)
| WAsleep
| WWoken                 (* take the lock again *)
| WUnregister            (* waiting_.erase, or --num_waiting_on_condition *)
| WLeave                 (* --num_waiting_; the lock is released *)
| WReturn.

Global Instance WPc_eq_dec : EqDecision WPc.
Proof. solve_decision. Defined.

(** Where a call of [done()] is; [DIdle] has not been made. *)
Inductive DPc := DIdle | DAssert | DDecr | DLock | DNotify | DUnlock | DDone (last : bool).

Global Instance DPc_eq_dec : EqDecision DPc.
Proof. solve_decision. Defined.

Inductive Who := ByWaiter (n : nat) | ByDoer (d : nat).

Global Instance Who_eq_dec : EqDecision Who.
Proof. solve_decision. Defined.

(** A waiter is in a fiber or, where [Fiber::current()] is null, in a thread. *)
Record Waiter := mkWaiter { is_fiber : bool; wpc : WPc }.

Record State := mkState {
  count : Z;                        (* data_->count, unsigned int *)
  mutex : option Who;               (* data_->mutex *)
  waiting_ : list nat;              (* cv.waiting_: the fibers, newest first *)
  num_waiting_ : Z;                 (* cv *)
  num_waiting_on_condition : Z;     (* cv *)
  waiters : list Waiter;
  doers : list DPc;
  credits : Z;                      (* done() calls the users still may make *)
  grown : bool                      (* add() was called since the start *)
}.

Definition set_waiter (n : nat) (w : Waiter) (p : WPc) (s : State) : State :=
  mkState (count s) (mutex s) (waiting_ s) (num_waiting_ s) (num_waiting_on_condition s)
    (<[n := mkWaiter (is_fiber w) p]> (waiters s)) (doers s) (credits s) (grown s).
Definition set_doer (d : nat) (p : DPc) (s : State) : State :=
  mkState (count s) (mutex s) (waiting_ s) (num_waiting_ s) (num_waiting_on_condition s)
    (waiters s) (<[d := p]> (doers s)) (credits s) (grown s).
Definition set_mutex (m : option Who) (s : State) : State :=
  mkState (count s) m (waiting_ s) (num_waiting_ s) (num_waiting_on_condition s)
    (waiters s) (doers s) (credits s) (grown s).
Definition set_count (c : Z) (s : State) : State :=
  mkState c (mutex s) (waiting_ s) (num_waiting_ s) (num_waiting_on_condition s)
    (waiters s) (doers s) (credits s) (grown s).
Definition set_waiting (l : list nat) (s : State) : State :=
  mkState (count s) (mutex s) l (num_waiting_ s) (num_waiting_on_condition s)
    (waiters s) (doers s) (credits s) (grown s).
Definition set_nums (n k : Z) (s : State) : State :=
  mkState (count s) (mutex s) (waiting_ s) n k (waiters s) (doers s) (credits s) (grown s).
Definition set_waiters (l : list Waiter) (s : State) : State :=
  mkState (count s) (mutex s) (waiting_ s) (num_waiting_ s) (num_waiting_on_condition s)
    l (doers s) (credits s) (grown s).

(** The predicate of [WaitGroup::wait]. *)
Definition pred (s : State) : bool := bool_decide (count s = 0).

(** One step of [WaitGroup::wait] and the [ConditionVariable::wait] it calls. *)
Definition wait_step (n : nat) (s : State) : option State :=
  w ← waiters s !! n;
  match wpc w with
  | WEnter =>
      if bool_decide (mutex s = None)
      then Some (set_waiter n w WCheck (set_mutex (Some (ByWaiter n)) s)) else None
  | WCheck =>
      if pred s then Some (set_waiter n w WReturn (set_mutex None s))
      else Some (set_waiter n w WRegister (set_nums (num_waiting_ s + 1) (num_waiting_on_condition s) s))
  | WRegister =>
      Some (set_waiter n w WTest
              (if is_fiber w then set_waiting (n :: waiting_ s) s
               else set_nums (num_waiting_ s) (num_waiting_on_condition s + 1) s))
  | WTest => Some (set_waiter n w (if pred s then WUnregister else WSleepy) s)
  | WSleepy => Some (set_waiter n w WAsleep (set_mutex None s))
  | WAsleep => None
  | WWoken =>
      if bool_decide (mutex s = None)
      then Some (set_waiter n w WTest (set_mutex (Some (ByWaiter n)) s)) else None
  | WUnregister =>
      Some (set_waiter n w WLeave
              (if is_fiber w then set_waiting (filter (fun m => m <> n) (waiting_ s)) s
               else set_nums (num_waiting_ s) (num_waiting_on_condition s - 1) s))
  | WLeave =>
      Some (set_waiter n w WReturn
              (set_mutex None (set_nums (num_waiting_ s - 1) (num_waiting_on_condition s) s)))
  | WReturn => None
  end.

(** [ConditionVariable::notify_all]: every listed fiber is notified, and the
    threads if there are any. *)
Definition wake (w : Waiter) : Waiter :=
  if bool_decide (wpc w = WAsleep) then mkWaiter (is_fiber w) WWoken else w.

Definition notify_all (s : State) : State :=
  if bool_decide (num_waiting_ s = 0) then s
  else
    set_waiters
      (imap (fun n w =>
         if is_fiber w then (if bool_decide (n ∈ waiting_ s) then wake w else w)
         else (if bool_decide (num_waiting_on_condition s > 0) then wake w else w)) (waiters s)) s.

(** One step of [WaitGroup::done]. *)
Definition done_step (d : nat) (s : State) : option (Result State) :=
  p ← doers s !! d;
  match p with
  | DIdle | DDone _ => None
  | DAssert =>
      Some (_ ← MARL_ASSERT (bool_decide (count s > 0)) "marl::WaitGroup::done() called too many times";
            Ok (set_doer d DDecr s))
  | DDecr =>
      let c := u32 (count s - 1) in
      Some (Ok (set_doer d (if bool_decide (c = 0) then DLock else DDone false) (set_count c s)))
  | DLock =>
      if bool_decide (mutex s = None)
      then Some (Ok (set_doer d DNotify (set_mutex (Some (ByDoer d)) s))) else None
  | DNotify => Some (Ok (set_doer d DUnlock (notify_all s)))
  | DUnlock => Some (Ok (set_doer d (DDone true) (set_mutex None s)))
  end.

(** Everything that can happen. *)
Inductive Event :=
| EWait (n : nat)                   (* a step of a wait() *)
| EDone (d : nat)                   (* a step of a done() *)
| ESpurious (n : nat)               (* a thread wakes up for no reason *)
| EAdd (k : Z)                      (* add(k) *)
| ECall (d : nat).                  (* done() is called *)

Definition wg_step (e : Event) (s : State) : option (Result State) :=
  match e with
  | EWait n => s' ← wait_step n s; Some (Ok s')
  | EDone d => done_step d s
  | ESpurious n =>
      w ← waiters s !! n;
      if negb (is_fiber w) && bool_decide (wpc w = WAsleep) then Some (Ok (set_waiter n w WWoken s)) else None
  | EAdd k =>
      if bool_decide (0 <= k /\ count s + k < 2 ^ 32)
      then Some (Ok (mkState (u32 (count s + k)) (mutex s) (waiting_ s) (num_waiting_ s)
                       (num_waiting_on_condition s) (waiters s) (doers s) (credits s + k) true))
      else None
  | ECall d =>
      if bool_decide (doers s !! d = Some DIdle) && bool_decide (0 < credits s)
      then Some (Ok (mkState (count s) (mutex s) (waiting_ s) (num_waiting_ s)
                       (num_waiting_on_condition s) (waiters s) (<[d := DAssert]> (doers s))
                       (credits s - 1) (grown s)))
      else None
  end.

(** [WaitGroup(initial_count)], with waiters of the given kinds. *)
Definition wg_new (initial_count : Z) (kinds : list bool) (ndoers : nat) : State :=
  mkState initial_count None [] 0 0 ((fun k => mkWaiter k WEnter) <$> kinds)
    (replicate ndoers DIdle) initial_count false.

Inductive wg_reach : State -> Prop :=
| wg_start c kinds nd : 0 <= c < 2 ^ 32 -> wg_reach (wg_new c kinds nd)
| wg_reach_step s e s' : wg_reach s -> wg_step e s = Some (Ok s') -> wg_reach s'.

(** ** The invariant *)
Definition holding (p : WPc) : bool :=
  match p with WCheck | WRegister | WTest | WSleepy | WUnregister | WLeave => true | _ => false end.
Definition registered (p : WPc) : bool :=
  match p with WTest | WSleepy | WAsleep | WWoken | WUnregister => true | _ => false end.
Definition counted (p : WPc) : bool :=
  match p with WEnter | WCheck | WReturn => false | _ => true end.
Definition drowsy (p : WPc) : bool := match p with WSleepy | WAsleep => true | _ => false end.
Definition past (p : WPc) : bool := match p with WUnregister | WLeave | WReturn => true | _ => false end.

Definition dpending (p : DPc) : bool := match p with DAssert | DDecr => true | _ => false end.
Definition dholding (p : DPc) : bool := match p with DNotify | DUnlock => true | _ => false end.
Definition dcoming (p : DPc) : bool := match p with DLock | DNotify => true | _ => false end.

Definition on_condition (w : Waiter) : bool := negb (is_fiber w) && registered (wpc w).

(** Some [done()] is on its way to [notify_all]. *)
Definition notifier (s : State) : Prop := exists d p, doers s !! d = Some p /\ dcoming p = true.

Record Inv (s : State) : Prop := {
  i_waiter n w : waiters s !! n = Some w -> (holding (wpc w) = true <-> mutex s = Some (ByWaiter n));
  i_doer d p : doers s !! d = Some p -> (dholding p = true <-> mutex s = Some (ByDoer d));
  i_who : match mutex s with
          | None => True
          | Some (ByWaiter n) => is_Some (waiters s !! n)
          | Some (ByDoer d) => is_Some (doers s !! d)
          end;
  i_list n : n ∈ waiting_ s <->
             exists w, waiters s !! n = Some w /\ is_fiber w = true /\ registered (wpc w) = true;
  i_num : num_waiting_ s = cnt (fun w => counted (wpc w)) (waiters s);
  i_cond : num_waiting_on_condition s = cnt on_condition (waiters s);
  i_count : count s = cnt dpending (doers s) + credits s /\ 0 <= credits s /\ count s < 2 ^ 32;
  i_awake n w : waiters s !! n = Some w -> drowsy (wpc w) = true -> 0 < count s \/ notifier s;
  i_past n w : grown s = false -> waiters s !! n = Some w -> past (wpc w) = true -> count s = 0
}.

Lemma count_nonneg s : Inv s -> 0 <= count s.
Proof. intros HI. destruct (i_count s HI) as (-> & ? & _). pose proof (cnt_nonneg dpending (doers s)). lia. Qed.

Lemma wg_new_inv c kinds nd : 0 <= c < 2 ^ 32 -> Inv (wg_new c kinds nd).
Proof.
  intros Hc.
  assert (forall n w, waiters (wg_new c kinds nd) !! n = Some w -> wpc w = WEnter) as Hw.
  { intros n w. simpl. rewrite list_lookup_fmap. destruct (kinds !! n); naive_solver. }
  assert (forall d p, doers (wg_new c kinds nd) !! d = Some p -> p = DIdle) as Hd.
  { intros d p. simpl. by intros [-> _]%lookup_replicate. }
  split.
  - intros n w ->%Hw. done.
  - intros d p ->%Hd. done.
  - done.
  - intros n. split; [by intros ?%elem_of_nil|]. by intros (w & ->%Hw & _ & ?).
  - symmetry. apply cnt_fmap_zero. done.
  - symmetry. apply cnt_fmap_zero. intros x. unfold on_condition. apply andb_false_r.
  - simpl. rewrite cnt_replicate by done. lia.
  - intros n w ->%Hw. done.
  - intros n w _ ->%Hw. done.
Qed.

(** A step of waiter [n]: what it may do to the rest of the state. *)
Lemma inv_waiter s s' n w p :
  Inv s -> waiters s !! n = Some w ->
  waiters s' = <[n := mkWaiter (is_fiber w) p]> (waiters s) ->
  count s' = count s -> doers s' = doers s -> credits s' = credits s -> grown s' = grown s ->
  (mutex s' = mutex s /\ holding p = holding (wpc w) \/
   mutex s = None /\ mutex s' = Some (ByWaiter n) /\ holding p = true \/
   mutex s = Some (ByWaiter n) /\ mutex s' = None /\ holding p = false) ->
  (forall m, m ∈ waiting_ s' <-> if decide (m = n) then is_fiber w = true /\ registered p = true
                                 else m ∈ waiting_ s) ->
  num_waiting_ s' = num_waiting_ s - b2z (counted (wpc w)) + b2z (counted p) ->
  num_waiting_on_condition s' = num_waiting_on_condition s - b2z (on_condition w)
                                + b2z (negb (is_fiber w) && registered p) ->
  (drowsy p = true -> 0 < count s \/ notifier s) ->
  (past p = true -> grown s = false -> count s = 0) ->
  Inv s'.
Proof.
  intros HI Hw Ew Ec Ed Er Eg Hm Hl Hn Hc Hdr Hp.
  pose proof (i_waiter s HI n w Hw) as Hwn.
  assert (forall k v, waiters s' !! k = Some v ->
    k = n /\ v = mkWaiter (is_fiber w) p \/ k <> n /\ waiters s !! k = Some v) as Hlook.
  { intros k v. rewrite Ew. destruct (decide (k = n)) as [->|Hne].
    - rewrite list_lookup_insert_eq by (by eapply lookup_lt_Some). intros [= <-]. by left.
    - rewrite list_lookup_insert_ne by done. by right. }
  assert (waiters s' !! n = Some (mkWaiter (is_fiber w) p)) as Hself.
  { rewrite Ew. apply list_lookup_insert_eq. by eapply lookup_lt_Some. }
  assert (notifier s' <-> notifier s) as Hnot by (unfold notifier; by rewrite Ed).
  split.
  - intros k v [[-> ->]|[Hne Hv]]%Hlook; simpl.
    + destruct Hm as [[-> ->]|[(_ & -> & ->)|(_ & -> & ->)]]; [done|done|done].
    + rewrite (i_waiter s HI k v Hv). destruct Hm as [[-> _]|[(-> & -> & _)|(-> & -> & _)]]; naive_solver.
  - intros d q. rewrite Ed. intros Hd. rewrite (i_doer s HI d q Hd).
    destruct Hm as [[-> _]|[(-> & -> & _)|(-> & -> & _)]]; naive_solver.
  - pose proof (i_who s HI) as Hwho. rewrite Ed. destruct Hm as [[-> _]|[(_ & -> & _)|(_ & -> & _)]]; [|by eauto|done].
    destruct (mutex s) as [[k|]|]; [|done|done]. rewrite Ew. destruct (decide (k = n)) as [->|].
    + rewrite list_lookup_insert_eq by (by eapply lookup_lt_Some). eauto.
    + by rewrite list_lookup_insert_ne.
  - intros k. rewrite Hl. destruct (decide (k = n)) as [->|Hne].
    + split; [intros [? ?]; eauto|]. rewrite Hself. naive_solver.
    + rewrite (i_list s HI k), Ew, list_lookup_insert_ne by done. done.
  - rewrite Hn, (i_num s HI), Ew, (cnt_insert _ _ _ w) by done. done.
  - rewrite Hc, (i_cond s HI), Ew, (cnt_insert _ _ _ w) by done. done.
  - rewrite Ec, Ed, Er. apply HI.
  - intros k v [[-> ->]|[Hne Hv]]%Hlook Hv'; rewrite Ec, Hnot; [by apply Hdr|by eapply (i_awake s HI)].
  - intros k v. rewrite Eg, Ec. intros Hg [[-> ->]|[Hne Hv]]%Hlook Hv'; [by apply Hp|by eapply (i_past s HI)].
Qed.

Lemma wait_step_inv s n s' : Inv s -> wait_step n s = Some s' -> Inv s'.
Proof.
  intros HI. unfold wait_step. destruct (waiters s !! n) as [w|] eqn:Hw; [|done]. cbn [mbind option_bind].
  pose proof (i_waiter s HI n w Hw) as Hh. pose proof (i_list s HI n) as Hin.
  pose proof (count_nonneg s HI) as Hc0.
  destruct w as [fb p]. cbn [is_fiber wpc] in *.
  assert (n ∈ waiting_ s <-> fb = true /\ registered p = true) as Hin'.
  { rewrite Hin. split; [intros (w & Hw' & ? & ?); rewrite Hw in Hw'; simplify_eq/=; done|].
    intros [? ?]. by exists (mkWaiter fb p). }
  clear Hin. pose proof (i_awake s HI n _ Hw) as Haw. pose proof (i_past s HI n) as Hpa.
  specialize (fun Hg => Hpa _ Hg Hw). cbn [wpc] in *. unfold pred.
  destruct p; try done; repeat case_bool_decide; intros [= <-]; destruct fb; simpl in Hin', Hh, Haw, Hpa.
  all: eapply (inv_waiter s _ n _ _ HI Hw); try reflexivity; unfold on_condition; simpl; try lia; try done.
  all: try solve [left; split; reflexivity | right; left; split_and!; done
                 | right; right; split_and!; [by apply Hh|done|done]].
  all: try solve [auto | left; lia | intros _ ?; by apply Hpa].
  all: intros m; destruct (decide (m = n)) as [->|Hmn]; rewrite ?elem_of_cons, ?list_elem_of_filter, ?Hin'; (tauto || intuition congruence).
Qed.

(** A step of a [done()] that leaves the waiters alone. *)
Lemma inv_doer s s' d q p :
  Inv s -> doers s !! d = Some q -> doers s' = <[d := p]> (doers s) ->
  waiters s' = waiters s -> waiting_ s' = waiting_ s -> num_waiting_ s' = num_waiting_ s ->
  num_waiting_on_condition s' = num_waiting_on_condition s -> grown s' = grown s ->
  (mutex s' = mutex s /\ dholding p = dholding q \/
   mutex s = None /\ mutex s' = Some (ByDoer d) /\ dholding p = true \/
   mutex s = Some (ByDoer d) /\ mutex s' = None /\ dholding p = false) ->
  count s' = count s - b2z (dpending q) + b2z (dpending p) + credits s' - credits s ->
  0 <= credits s' -> count s' < 2 ^ 32 ->
  (forall n w, waiters s !! n = Some w -> drowsy (wpc w) = true ->
     0 < count s \/ notifier s -> 0 < count s' \/ notifier s') ->
  (count s = 0 -> count s' = 0) ->
  Inv s'.
Proof.
  intros HI Hd Ed Ew El En Ek Eg Hm Hc Hcr Hlt Haw Hz.
  pose proof (i_doer s HI d q Hd) as Hdq.
  assert (forall k v, doers s' !! k = Some v -> k = d /\ v = p \/ k <> d /\ doers s !! k = Some v) as Hlook.
  { intros k v. rewrite Ed. destruct (decide (k = d)) as [->|Hne].
    - rewrite list_lookup_insert_eq by (by eapply lookup_lt_Some). intros [= <-]. by left.
    - rewrite list_lookup_insert_ne by done. by right. }
  split.
  - intros k v. rewrite Ew. intros Hv. rewrite (i_waiter s HI k v Hv).
    destruct Hm as [[-> _]|[(-> & -> & _)|(-> & -> & _)]]; naive_solver.
  - intros k v [[-> ->]|[Hne Hv]]%Hlook.
    + destruct Hm as [[-> ->]|[(_ & -> & ->)|(_ & -> & ->)]]; done.
    + rewrite (i_doer s HI k v Hv). destruct Hm as [[-> _]|[(-> & -> & _)|(-> & -> & _)]]; naive_solver.
  - pose proof (i_who s HI) as Hwho. rewrite Ew, Ed.
    assert (is_Some (<[d := p]> (doers s) !! d)) as Hself
      by (rewrite list_lookup_insert_eq by (by eapply lookup_lt_Some); eauto).
    destruct Hm as [[-> _]|[(_ & -> & _)|(_ & -> & _)]]; [|done|done].
    destruct (mutex s) as [[|k]|]; [done| |done].
    destruct (decide (k = d)) as [->|]; [done|by rewrite list_lookup_insert_ne].
  - intros k. rewrite El, Ew. apply HI.
  - rewrite En, Ew. apply HI.
  - rewrite Ek, Ew. apply HI.
  - destruct (i_count s HI) as (Ec & _). split_and!; [|done|done].
    rewrite Hc, Ed, (cnt_insert _ _ _ q) by done. lia.
  - intros k v. rewrite Ew. intros Hv Hv'. eapply Haw; [done|done|by eapply (i_awake s HI)].
  - intros k v. rewrite Eg, Ew. intros Hg Hv Hv'. by eapply Hz, (i_past s HI).
Qed.

(** *** The notification reaches everybody who is asleep *)
Lemma notify_all_wakes s : Inv s -> waiters (notify_all s) = wake <$> waiters s.
Proof.
  intros HI. unfold notify_all. rewrite (i_num s HI). case_bool_decide as Hz; simpl.
  - symmetry. apply list_eq. intros n. rewrite list_lookup_fmap.
    destruct (waiters s !! n) as [w|] eqn:Hw; [|done]. simpl. f_equal. unfold wake.
    pose proof (cnt_zero _ _ n w Hw Hz) as Hc. cbn beta in Hc. case_bool_decide as Ha; [|done]. by rewrite Ha in Hc.
  - apply list_eq. intros n. rewrite list_lookup_imap, list_lookup_fmap.
    destruct (waiters s !! n) as [w|] eqn:Hw; [|done]. simpl. f_equal.
    destruct (decide (wpc w = WAsleep)) as [Ha|Ha].
    + destruct (is_fiber w) eqn:Ef.
      * rewrite bool_decide_eq_true_2; [done|]. apply (i_list s HI). exists w. by rewrite Ha.
      * rewrite bool_decide_eq_true_2; [done|]. rewrite (i_cond s HI).
        assert (0 < cnt on_condition (waiters s)); [|lia].
        apply (cnt_lookup _ _ n w Hw). unfold on_condition. by rewrite Ef, Ha.
    + assert (wake w = w) as -> by (unfold wake; by rewrite bool_decide_eq_false_2).
      by repeat case_match.
Qed.

Lemma wake_keeps w :
  is_fiber (wake w) = is_fiber w /\ holding (wpc (wake w)) = holding (wpc w) /\
  registered (wpc (wake w)) = registered (wpc w) /\ counted (wpc (wake w)) = counted (wpc w) /\
  past (wpc (wake w)) = past (wpc w) /\ (wpc (wake w) <> WAsleep).
Proof. unfold wake. case_bool_decide as Ha; simpl; [by rewrite Ha|done]. Qed.

Lemma notify_step_inv s d :
  Inv s -> doers s !! d = Some DNotify -> Inv (set_doer d DUnlock (notify_all s)).
Proof.
  intros HI Hd. pose proof (notify_all_wakes s HI) as Ew.
  assert (mutex s = Some (ByDoer d)) as Hm by (by apply (i_doer s HI d _ Hd)).
  assert (forall n w, (wake <$> waiters s) !! n = Some w -> exists v, waiters s !! n = Some v /\ w = wake v) as Hv.
  { intros n w. rewrite list_lookup_fmap. destruct (waiters s !! n); naive_solver. }
  assert (forall n w, waiters s !! n = Some w -> (wake <$> waiters s) !! n = Some (wake w)) as Hv2.
  { intros n w Hw. by rewrite list_lookup_fmap, Hw. }
  assert (mutex (notify_all s) = mutex s /\ count (notify_all s) = count s /\ waiting_ (notify_all s) = waiting_ s /\
    num_waiting_ (notify_all s) = num_waiting_ s /\ doers (notify_all s) = doers s /\
    num_waiting_on_condition (notify_all s) = num_waiting_on_condition s /\
    credits (notify_all s) = credits s /\ grown (notify_all s) = grown s) as (E1 & E2 & E3 & E4 & E5 & E6 & E7 & E8).
  { unfold notify_all. case_bool_decide; done. }
  split; cbn [count mutex waiting_ num_waiting_ num_waiting_on_condition waiters doers credits grown set_doer];
    rewrite ?E1, ?E2, ?E3, ?E4, ?E5, ?E6, ?E7, ?E8, ?Ew.
  - intros n w (v & Hn & ->)%Hv. destruct (wake_keeps v) as (_ & -> & _). by apply HI.
  - intros k p. destruct (decide (k = d)) as [->|Hne].
    + rewrite list_lookup_insert_eq by (by eapply lookup_lt_Some). by intros [= <-].
    + rewrite list_lookup_insert_ne by done. apply HI.
  - rewrite Hm, list_lookup_insert_eq by (by eapply lookup_lt_Some). eauto.
  - intros n. rewrite (i_list s HI n). split.
    + intros (w & Hw & ? & ?). exists (wake w). destruct (wake_keeps w) as (-> & _ & -> & _). auto.
    + intros (w & (v & Hn & ->)%Hv & H1 & H2). destruct (wake_keeps v) as (E & _ & E' & _).
      rewrite E in H1. rewrite E' in H2. eauto.
  - rewrite (i_num s HI). apply cnt_ext; [by rewrite length_fmap|]. intros n x y Hx (v & Hn & ->)%Hv.
    rewrite Hx in Hn. injection Hn as <-. by destruct (wake_keeps x) as (_ & _ & _ & -> & _).
  - rewrite (i_cond s HI). apply cnt_ext; [by rewrite length_fmap|]. intros n x y Hx (v & Hn & ->)%Hv.
    rewrite Hx in Hn. injection Hn as <-. unfold on_condition. by destruct (wake_keeps x) as (-> & _ & -> & _).
  - rewrite (cnt_insert _ _ _ DNotify) by done. simpl. destruct (i_count s HI) as (Ec & H1 & H2). split_and!; lia.
  - intros n w (v & Hn & ->)%Hv Hdr. exfalso.
    pose proof (i_waiter s HI n v Hn) as Hh. rewrite Hm in Hh. destruct (wake_keeps v) as (_ & Eh & _ & _ & _ & Hna).
    destruct (wpc (wake v)); try done. simpl in Eh. rewrite <- Eh in Hh. naive_solver.
  - intros n w Hg (v & Hn & ->)%Hv. destruct (wake_keeps v) as (_ & _ & _ & _ & -> & _). by apply (i_past s HI n).
Qed.

Lemma notifier_insert s s' d q p :
  doers s !! d = Some q -> dcoming q = false -> doers s' = <[d := p]> (doers s) ->
  notifier s -> notifier s'.
Proof.
  intros Hd Hq Ed (k & r & Hk & Hr). exists k, r. split; [|done]. rewrite Ed.
  destruct (decide (k = d)) as [->|]; [congruence|by rewrite list_lookup_insert_ne].
Qed.

Lemma insert_notifier s d q p s' :
  doers s !! d = Some q -> dcoming p = true -> doers s' = <[d := p]> (doers s) -> notifier s'.
Proof.
  intros Hd Hp Ed. exists d, p. rewrite Ed, list_lookup_insert_eq by (by eapply lookup_lt_Some). done.
Qed.

(** No step of [done()] trips its assertion, and each keeps the invariant. *)
Lemma done_step_inv s d r : Inv s -> done_step d s = Some r -> exists s', r = Ok s' /\ Inv s'.
Proof.
  intros HI. unfold done_step. destruct (doers s !! d) as [q|] eqn:Hd; [|done]. cbn [mbind option_bind].
  pose proof (i_doer s HI d q Hd) as Hh. destruct (i_count s HI) as (Ec & Hcr & Hlt).
  assert (dpending q = true -> 0 < count s) as Hpos.
  { intros Hq. pose proof (cnt_lookup dpending _ _ _ Hd Hq). lia. }
  destruct q; try done; simpl in Hh, Hpos.
  - rewrite bool_decide_eq_true_2 by lia. intros [= <-]. eexists. split; [done|].
    eapply (inv_doer s _ d DAssert DDecr HI Hd); try done; simpl; [by left|lia|].
    intros n w _ _ [?|Hn]; [by left|right]. by eapply notifier_insert.
  - rewrite u32_small by lia. intros [= <-]. eexists. split; [done|].
    eapply (inv_doer s _ d DDecr _ HI Hd); try done; simpl; try lia.
    + left. split; [done|]. by case_bool_decide.
    + case_bool_decide; simpl; lia.
    + intros n w _ _ Hc. case_bool_decide as Hz.
      * right. by eapply (insert_notifier s d DDecr DLock).
      * left. lia.
  - case_bool_decide as Hm; [|done]. intros [= <-]. eexists. split; [done|].
    eapply (inv_doer s _ d DLock DNotify HI Hd); try done; simpl; [by right; left|lia|].
    intros n w _ _ _. right. by eapply (insert_notifier s d DLock DNotify).
  - intros [= <-]. eexists. split; [done|]. by apply notify_step_inv.
  - intros [= <-]. eexists. split; [done|].
    eapply (inv_doer s _ d DUnlock _ HI Hd); try done; simpl; [right; right; split_and!; [by apply Hh|done|done]|lia|].
    intros n w _ _ [?|Hn]; [by left|right]. by eapply notifier_insert.
Qed.

Lemma wg_step_inv e s r : Inv s -> wg_step e s = Some r -> exists s', r = Ok s' /\ Inv s'.
Proof.
  intros HI. destruct e as [n|d|n|k|d]; simpl.
  - destruct (wait_step n s) as [s'|] eqn:E; [|done]. intros [= <-]. exists s'. split; [done|].
    by eapply wait_step_inv.
  - by apply done_step_inv.
  - destruct (waiters s !! n) as [[[] p]|] eqn:Hw; [done| |done]. cbn. case_bool_decide as Hp; [|done]. subst p.
    intros [= <-]. eexists. split; [done|].
    eapply (inv_waiter s _ n _ WWoken HI Hw); try done; unfold on_condition; simpl; try lia; [by left|].
    intros m. destruct (decide (m = n)) as [->|]; [|done]. rewrite (i_list s HI n), Hw. naive_solver.
  - case_bool_decide as Hk; [|done]. intros [= <-]. eexists. split; [done|]. destruct Hk as [Hk Hov].
    pose proof (count_nonneg s HI). destruct (i_count s HI) as (Ec & Hcr & Hlt).
    split; simpl; rewrite ?u32_small by lia; try apply HI; [split_and!; lia| |done].
    intros n w Hw Hdr. destruct (i_awake s HI n w Hw Hdr); [left; lia|by right].
  - case_bool_decide as Hd; [|done]. case_bool_decide as Hc; [|done]. intros [= <-]. eexists. split; [done|].
    destruct (i_count s HI) as (Ec & Hcr & Hlt).
    eapply (inv_doer s _ d DIdle DAssert HI Hd); try done; simpl; try lia; [by left|].
    intros n w _ _ [?|Hn]; [by left|right]. by eapply notifier_insert.
Qed.

Lemma wg_reach_inv s : wg_reach s -> Inv s.
Proof.
  induction 1 as [c kinds nd Hc|s e s' _ IH E]; [by apply wg_new_inv|].
  destruct (wg_step_inv e s _ IH E) as (s1 & [= <-] & HI). done.
Qed.

(** ** After the last done() *)

(** Every call of [done()] that was made has returned. *)
Definition doers_returned (s : State) : Prop :=
  forall d p, doers s !! d = Some p -> p = DIdle \/ exists b, p = DDone b.

Definition settled (s : State) : Prop := count s = 0 /\ doers_returned s.

Definition rank (p : WPc) : nat :=
  match p with
  | WEnter => 8 | WCheck => 7 | WRegister => 6 | WWoken => 5 | WTest => 4
  | WSleepy => 3 | WAsleep => 3 | WUnregister => 2 | WLeave => 1 | WReturn => 0
  end.
Definition ranks (s : State) : nat := sum_list_with (fun w => rank (wpc w)) (waiters s).

Lemma settled_no_notifier s : settled s -> ~ notifier s.
Proof. intros [_ Hd] (d & p & Hp & Hc). destruct (Hd d p Hp) as [->|[b ->]]; done. Qed.

Lemma settled_awake s n w : Inv s -> settled s -> waiters s !! n = Some w -> drowsy (wpc w) = false.
Proof.
  intros HI Hs Hw. destruct (drowsy (wpc w)) eqn:E; [|done].
  destruct (i_awake s HI n w Hw E) as [Hc|Hn]; [destruct Hs; lia|by apply settled_no_notifier in Hn].
Qed.

(** Whoever has not returned holds the lock or can go on when it is free. *)
Lemma settled_progress s n w :
  Inv s -> settled s -> waiters s !! n = Some w -> wpc w <> WReturn ->
  exists k s', wait_step k s = Some s'.
Proof.
  intros HI Hs Hw Hr. pose proof (settled_awake s n w HI Hs Hw) as Hdr.
  destruct (mutex s) as [[k|d]|] eqn:Hm.
  - pose proof (i_who s HI) as Hwho. rewrite Hm in Hwho. destruct Hwho as [v Hv].
    pose proof (i_waiter s HI k v Hv) as Hh. exists k. unfold wait_step. rewrite Hv. cbn [mbind option_bind].
    destruct Hh as [_ Hh]. specialize (Hh Hm). destruct (wpc v); try done; try (by eexists); destruct (pred s); by eexists.
  - pose proof (i_who s HI) as Hwho. rewrite Hm in Hwho. destruct Hwho as [p Hp].
    pose proof (i_doer s HI d p Hp) as [_ Hh]. specialize (Hh Hm).
    destruct Hs as [_ Hd]. destruct (Hd d p Hp) as [->|[b ->]]; done.
  - pose proof (i_waiter s HI n w Hw) as [Hh _]. exists n. unfold wait_step. rewrite Hw. cbn [mbind option_bind].
    destruct (wpc w); try done; try (specialize (Hh eq_refl); congruence); rewrite Hm; by eexists.
Qed.

(** Each step of a waiter brings it nearer to its end. *)
Lemma settled_step s n s' :
  Inv s -> settled s -> wait_step n s = Some s' -> settled s' /\ (ranks s' < ranks s)%nat.
Proof.
  intros HI Hs. unfold wait_step. destruct (waiters s !! n) as [w|] eqn:Hw; [|done]. cbn [mbind option_bind].
  pose proof (settled_awake s n w HI Hs Hw) as Hdr. unfold pred. rewrite (bool_decide_eq_true_2 (count s = 0)) by apply Hs.
  assert (forall p t, settled t -> waiters t = waiters s -> (rank p < rank (wpc w))%nat ->
    settled (set_waiter n w p t) /\ (ranks (set_waiter n w p t) < ranks s)%nat) as Hgo.
  { intros p t Ht Et Hp. split; [done|]. unfold ranks at 1. simpl. rewrite Et.
    unfold ranks. pose proof (sum_insert (fun w => rank (wpc w)) (waiters s) n w (mkWaiter (is_fiber w) p) Hw). simpl in *. lia. }
  destruct (wpc w); try done; try (case_bool_decide; [|done]); intros [= <-]; apply Hgo; simpl; try done; try lia;
    by destruct (is_fiber w).
Qed.

(** ** Properties *)
Definition waits (s s' : State) : Prop := exists n, wait_step n s = Some s'.

Lemma settled_steps k s s' :
  wg_reach s -> settled s -> nsteps waits k s s' ->
  wg_reach s' /\ settled s' /\ (k + ranks s' <= ranks s)%nat.
Proof.
  intros Hr Hs. induction 1 as [s|k s s1 s' [n E] _ IH]; [split_and!; [done|done|lia]|].
  destruct (settled_step s n s1 (wg_reach_inv s Hr) Hs E) as [Hs1 Hlt].
  destruct IH as (H1 & H2 & H3); [|done|].
  - apply (wg_reach_step s (EWait n)); [done|]. simpl. by rewrite E.
  - split_and!; [done|done|lia].
Qed.

Fixpoint wg_run (es : list Event) (s : State) : option State :=
  match es with
  | [] => Some s
  | e :: es => match wg_step e s with Some (Ok s') => wg_run es s' | _ => None end
  end.

Lemma wg_run_reach es s s' : wg_reach s -> wg_run es s = Some s' -> wg_reach s'.
Proof.
  revert s. induction es as [|e es IH]; simpl; intros s Hr H; [by simplify_eq|].
  destruct (wg_step e s) as [[s1| |]|] eqn:E; try done. by eapply IH; [eapply wg_reach_step|].
Qed.

(** Every [done()] that was counted has been made, and has taken itself off. *)
Definition all_done (s : State) : Prop :=
  count s = 0 /\ credits s = 0 /\ forall d p, doers s !! d = Some p -> dpending p = false.

Lemma zero_all_done s : Inv s -> count s = 0 -> all_done s.
Proof.
  intros HI Hz. destruct (i_count s HI) as (Ec & Hcr & _). pose proof (cnt_nonneg dpending (doers s)).
  split_and!; [done|lia|]. intros d p Hd. apply (cnt_zero dpending (doers s) d p Hd). lia.
Qed.

(** A waiter makes up its mind to return only on a count of zero. *)
Lemma decides_on_zero n s s' w w' :
  wait_step n s = Some s' -> waiters s !! n = Some w -> waiters s' !! n = Some w' ->
  past (wpc w) = false -> past (wpc w') = true -> count s = 0.
Proof.
  intros E Hw Hw'. unfold wait_step in E. rewrite Hw in E. cbn in E. pose proof (lookup_lt_Some _ _ _ Hw) as Hlt.
  assert (forall v p t, waiters (set_waiter n v p t) !! n = Some w' -> waiters t = waiters s -> wpc w' = p) as Hp.
  { intros v p t H Et. cbn in H. rewrite Et, list_lookup_insert_eq in H by done. by injection H as <-. }
  unfold pred in E. destruct (wpc w); cbn; try done; intros _; repeat case_bool_decide; simplify_eq; try done.
  all: apply Hp in Hw'; [|by destruct (is_fiber w)]; by rewrite Hw'.
Qed.

(** C18. In every interleaving of [wait()], [done()] and [add()] calls in which
    [done()] is never called more often than was counted by then and the count
    stays below [2^32], no assertion fails; a waiter is asleep only while the
    count is positive or some [done()] that saw it reach zero has yet to notify;
    and a [wait()] makes up its mind to return only at a moment when every
    [done()] counted so far, by the constructor or by [add()], was made; if [add()]
    is never called, that is still so when it has returned.  A [done()] that finds
    the count at zero fails the assertion. *)
Theorem wait_group_sound s :
  wg_reach s ->
  (forall e, match wg_step e s with Some (Fatal _) | Some (Undefined _) => False | _ => True end) /\
  (forall n w, waiters s !! n = Some w -> wpc w = WAsleep -> 0 < count s \/ notifier s) /\
  (forall n w s' w', waiters s !! n = Some w -> past (wpc w) = false ->
     wg_step (EWait n) s = Some (Ok s') -> waiters s' !! n = Some w' -> past (wpc w') = true -> all_done s) /\
  (forall n w, grown s = false -> waiters s !! n = Some w -> wpc w = WReturn -> all_done s) /\
  (forall t d, doers t !! d = Some DAssert -> count t = 0 -> exists m, done_step d t = Some (Fatal m)).
Proof.
  intros Hr. pose proof (wg_reach_inv s Hr) as HI. split_and!.
  - intros e. destruct (wg_step e s) as [r|] eqn:E; [|done].
    destruct (wg_step_inv e s r HI E) as (s' & -> & _). done.
  - intros n w Hw Ha. apply (i_awake s HI n w Hw). by rewrite Ha.
  - intros n w s' w' Hw Hp E Hw' Hp'. apply zero_all_done; [done|]. simpl in E.
    destruct (wait_step n s) as [t|] eqn:Et; simplify_eq/=. by eapply decides_on_zero.
  - intros n w Hg Hw Ha. apply zero_all_done; [done|]. apply (i_past s HI n w Hg Hw). by rewrite Ha.
  - intros t d Hd Hz. unfold done_step. rewrite Hd. cbn. rewrite bool_decide_eq_false_2 by lia. by eexists.
Qed.

(** C17. No waiter is left behind: once the count is zero and every [done()] that
    was called has returned, the waiters' own steps bring all of them to their
    ends, fibers and threads alike: there are never more than [ranks s] steps,
    and when none is possible any more every [wait()] has returned. *)
Theorem wait_group_releases_all s k s' :
  wg_reach s -> settled s -> nsteps waits k s s' ->
  (k <= ranks s)%nat /\
  ((forall s'', ~ waits s' s'') -> forall n w, waiters s' !! n = Some w -> wpc w = WReturn).
Proof.
  intros Hr Hs Hk. destruct (settled_steps k s s' Hr Hs Hk) as (Hr' & Hs' & Hle). split; [lia|].
  intros Hstuck n w Hw. destruct (decide (wpc w = WReturn)) as [|Hne]; [done|].
  destruct (settled_progress s' n w (wg_reach_inv s' Hr') Hs' Hw Hne) as (m & s'' & E).
  destruct (Hstuck s''). by exists m.
Qed.

(** A fiber and a thread wait for two calls of [done()]; the second call is
    made while both are asleep. *)
Definition sample_events : list Event :=
  [EWait 0; EWait 0; EWait 0; EWait 0; EWait 0; ECall 0; EDone 0; EDone 0;
   EWait 1; EWait 1; EWait 1; EWait 1; EWait 1; ECall 1; EDone 1; EDone 1; EDone 1; EDone 1; EDone 1].
Definition sample_wg : State := default (wg_new 0 [] 0) (wg_run sample_events (wg_new 2 [true; false] 2)).

Lemma sample_wg_reach : wg_reach sample_wg.
Proof.
  apply (wg_run_reach sample_events (wg_new 2 [true; false] 2)); [apply wg_start; lia|].
  vm_compute. reflexivity.
Qed.

Lemma wait_group_sound_witness :
  exists s, wg_run (take 13 sample_events) (wg_new 2 [true; false] 2) = Some s /\
    waiters s = [mkWaiter true WAsleep; mkWaiter false WAsleep] /\ (0 < count s \/ notifier s).
Proof.
  destruct (wg_run (take 13 sample_events) (wg_new 2 [true; false] 2)) as [s|] eqn:E; [|vm_compute in E; discriminate].
  exists s. split; [reflexivity|].
  assert (waiters s = [mkWaiter true WAsleep; mkWaiter false WAsleep]) as Hw
    by (vm_compute in E; injection E as <-; reflexivity).
  split; [exact Hw|]. apply (wait_group_sound s) with (n := 0%nat) (w := mkWaiter true WAsleep).
  - apply (wg_run_reach (take 13 sample_events) (wg_new 2 [true; false] 2)); [apply wg_start; lia|exact E].
  - rewrite Hw. reflexivity.
  - reflexivity.
Defined.

Lemma wait_group_releases_all_witness :
  waiters sample_wg = [mkWaiter true WWoken; mkWaiter false WWoken] /\
  exists s', nsteps waits 2 sample_wg s' /\ (2 <= ranks sample_wg)%nat.
Proof.
  split; [vm_compute; reflexivity|].
  destruct (wait_step 0 sample_wg) as [s1|] eqn:E1; [|vm_compute in E1; discriminate].
  destruct (wait_step 0 s1) as [s2|] eqn:E2; [|vm_compute in E1; injection E1 as <-; vm_compute in E2; discriminate].
  assert (nsteps waits 2 sample_wg s2) as Hn.
  { eapply nsteps_l; [exists 0%nat; exact E1|]. eapply nsteps_l; [exists 0%nat; exact E2|]. constructor. }
  exists s2. split; [exact Hn|].
  apply (wait_group_releases_all sample_wg 2 s2 sample_wg_reach); [|exact Hn].
  split; [vm_compute; reflexivity|]. intros d p Hd.
  change (doers sample_wg) with [DDone false; DDone true] in Hd.
  destruct d as [|[|d]]; simpl in Hd; [injection Hd as <-; right; eauto..|discriminate].
Defined.
