(* ===== verification/CondVar.v ===== *)
(** [marl::ConditionVariable] (src/include/marl/condition_variable.hpp): waits
    with and without a timeout, of fibers and of threads, and both
    notifications, over any predicate.

    A call of [wait] or [wait_until] is a [Waiter]; [cv_wait_step] is one step
    of it, up to the next access to shared state.  The caller's lock is not
    part of the component: a step says what it does to that lock ([LockOp]),
    and the owner of the lock (Event.v) applies it.  A fiber waits through
    [Worker::wait] and a thread through [std::condition_variable]; suspending
    releases the lock and makes the waiter wakeable in one step, which for a
    fiber is the work of the worker (WorkerSpec.v). *)
From stdpp Require Import base numbers strings relations list.
From S2P Require Import Prelude.

Local Open Scope Z_scope.

(** Where a call is.  [res] is what [wait_until] will return; [wait], which
    returns nothing, ends with [true]. *)
Inductive WPc :=
| WEnter                  (* before the caller's lock is taken *)
| WCheck                  (* if (pred()) return true; ++num_waiting_ *)
| WRegister               (* waiting_.emplace_front, or ++num_waiting_on_condition *)
| WTest                   (* while (!pred()) *)
| WSleepy                 (* pred() was false: release the lock and suspend *)
| WAsleep
| WWoken                  (* take the lock again *)
| WExpired                (* a thread whose timed wait ended: take the lock again *)
| WUnregister (res : bool) (* waiting_.erase, or --num_waiting_on_condition *)
| WLeave (res : bool)     (* --num_waiting_ *)
| WFinish (res : bool)    (* back in the caller, the lock held *)
| WReturn (res : bool).

Global Instance WPc_eq_dec : EqDecision WPc.
Proof. solve_decision. Defined.

(** A waiter is in a fiber or, where [Fiber::current()] is null, in a thread. *)
Record Waiter := mkWaiter { is_fiber : bool; deadline : option Z; wpc : WPc }.

Global Instance Waiter_eq_dec : EqDecision Waiter.
Proof. solve_decision. Defined.

Definition at_pc (w : Waiter) (p : WPc) : Waiter := mkWaiter (is_fiber w) (deadline w) p.

(** The three ways to wait; [wait_for] is [wait_until] with
    [system_clock::now() + duration]. *)
Inductive Timeout := Forever | For (now duration : Z) | Until (timepoint : Z).

Definition deadline_of (t : Timeout) : option Z :=
  match t with
  | Forever => None
  | For now duration => Some (now + duration)
  | Until timepoint => Some timepoint
  end.

Record ConditionVariable := mkCV {
  waiting_ : list nat;              (* the fibers, newest first *)
  num_waiting_ : Z;
  num_waiting_on_condition : Z
}.

Definition cv_new : ConditionVariable := mkCV [] 0 0.

Inductive LockOp := Keep | Acquire | Release.

(** [now >= *timeout], where there is a timeout. *)
Definition expired (w : Waiter) (now : Z) : bool :=
  match deadline w with None => false | Some t => bool_decide (t <= now) end.

(** One step of [wait] and [wait_until].  [pred] is the value of the predicate,
    [free] whether the caller's lock can be taken, [now] the clock. *)
Definition cv_wait_step (pred free : bool) (now : Z) (n : nat) (w : Waiter) (c : ConditionVariable)
    : option (WPc * ConditionVariable * LockOp) :=
  match wpc w with
  | WCheck =>
      if pred then Some (WFinish true, c, Keep)
      else Some (WRegister, mkCV (waiting_ c) (num_waiting_ c + 1) (num_waiting_on_condition c), Keep)
  | WRegister =>
      Some (WTest,
            if is_fiber w then mkCV (n :: waiting_ c) (num_waiting_ c) (num_waiting_on_condition c)
            else mkCV (waiting_ c) (num_waiting_ c) (num_waiting_on_condition c + 1), Keep)
  | WTest => Some (if pred then WUnregister true else WSleepy, c, Keep)
  | WSleepy => Some (WAsleep, c, Release)
  | WWoken =>
      (* Worker::wait looks at the clock first, std::condition_variable at the predicate *)
      if free then Some (if is_fiber w && expired w now then WUnregister false else WTest, c, Acquire)
      else None
  | WExpired => if free then Some (WUnregister pred, c, Acquire) else None
  | WUnregister res =>
      Some (WLeave res,
            if is_fiber w
            then mkCV (filter (fun m => m <> n) (waiting_ c)) (num_waiting_ c) (num_waiting_on_condition c)
            else mkCV (waiting_ c) (num_waiting_ c) (num_waiting_on_condition c - 1), Keep)
  | WLeave res => Some (WFinish res, mkCV (waiting_ c) (num_waiting_ c - 1) (num_waiting_on_condition c), Keep)
  | WEnter | WAsleep | WFinish _ | WReturn _ => None
  end.

(** [Fiber::notify] on a fiber, or a thread unblocked: no effect on one that is
    not suspended. *)
Definition wake (w : Waiter) : Waiter :=
  if bool_decide (wpc w = WAsleep) then at_pc w WWoken else w.

(** The clock reaches the deadline of a suspended waiter. *)
Definition time_out (now : Z) (w : Waiter) : option Waiter :=
  if bool_decide (wpc w = WAsleep) && expired w now
  then Some (at_pc w (if is_fiber w then WWoken else WExpired)) else None.

Definition sleeping_thread (w : Waiter) : bool :=
  negb (is_fiber w) && bool_decide (wpc w = WAsleep).

(** [condition_.notify_one()]: some thread that is blocked, [choice], goes on. *)
Definition condition_notify_one (choice : nat) (ws : list Waiter) : option (list Waiter) :=
  if existsb sleeping_thread ws
  then w ← ws !! choice; if sleeping_thread w then Some (<[choice := wake w]> ws) else None
  else Some ws.

Definition notify_one (choice : nat) (c : ConditionVariable) (ws : list Waiter) : option (list Waiter) :=
  if bool_decide (num_waiting_ c = 0) then Some ws
  else match waiting_ c with
       | fiber :: _ => Some (alter wake fiber ws)
       | [] => if bool_decide (num_waiting_on_condition c > 0) then condition_notify_one choice ws else Some ws
       end.

Definition notify_all (c : ConditionVariable) (ws : list Waiter) : list Waiter :=
  if bool_decide (num_waiting_ c = 0) then ws
  else
    imap (fun n w =>
      if is_fiber w then (if bool_decide (n ∈ waiting_ c) then wake w else w)
      else (if bool_decide (num_waiting_on_condition c > 0) then wake w else w)) ws.

(** ** What a place in the code implies *)

(** The caller's lock is held. *)
Definition holding (p : WPc) : bool :=
  match p with
  | WCheck | WRegister | WTest | WSleepy | WUnregister _ | WLeave _ | WFinish _ => true
  | _ => false
  end.
Definition registered (p : WPc) : bool :=
  match p with WTest | WSleepy | WAsleep | WWoken | WExpired | WUnregister _ => true | _ => false end.
Definition counted (p : WPc) : bool :=
  match p with WEnter | WCheck | WFinish _ | WReturn _ => false | _ => true end.
Definition drowsy (p : WPc) : bool := match p with WSleepy | WAsleep => true | _ => false end.
Definition on_condition (w : Waiter) : bool := negb (is_fiber w) && registered (wpc w).

(** The result a call has already decided on. *)
Definition decided (p : WPc) : option bool :=
  match p with WUnregister res | WLeave res | WFinish res | WReturn res => Some res | _ => None end.

(** The list and the counters are exact. *)
Record cv_ok (c : ConditionVariable) (ws : list Waiter) : Prop := {
  cv_list n : n ∈ waiting_ c <->
              exists w, ws !! n = Some w /\ is_fiber w = true /\ registered (wpc w) = true;
  cv_num : num_waiting_ c = cnt (fun w => counted (wpc w)) ws;
  cv_cond : num_waiting_on_condition c = cnt on_condition ws
}.

(** ** Each step keeps the list and the counters exact *)

(** A change of one waiter that the list and the counters follow. *)
Lemma cv_ok_insert c c' ws n w v :
  cv_ok c ws -> ws !! n = Some w -> is_fiber v = is_fiber w ->
  (forall m, m ∈ waiting_ c' <->
     if decide (m = n) then is_fiber w = true /\ registered (wpc v) = true else m ∈ waiting_ c) ->
  num_waiting_ c' = num_waiting_ c - b2z (counted (wpc w)) + b2z (counted (wpc v)) ->
  num_waiting_on_condition c' = num_waiting_on_condition c - b2z (on_condition w) + b2z (on_condition v) ->
  cv_ok c' (<[n := v]> ws).
Proof.
  intros HI Hw Ef Hl Hn Hc. assert (<[n := v]> ws !! n = Some v) as Hself by (apply insert_self; eauto).
  split.
  - intros m. rewrite Hl. destruct (decide (m = n)) as [->|Hne].
    + rewrite <- Ef. split; [intros [? ?]; by exists v|]. rewrite Hself. by intros (? & [= <-] & ? & ?).
    + by rewrite (cv_list c ws HI m), list_lookup_insert_ne.
  - by rewrite Hn, (cv_num c ws HI), (cnt_insert _ _ _ w).
  - by rewrite Hc, (cv_cond c ws HI), (cnt_insert _ _ _ w).
Qed.

(** A change the condition variable does not see. *)
Lemma cv_ok_pc c ws n w p :
  cv_ok c ws -> ws !! n = Some w -> registered p = registered (wpc w) -> counted p = counted (wpc w) ->
  cv_ok c (<[n := at_pc w p]> ws).
Proof.
  intros HI Hw Hr Hc. apply (cv_ok_insert c c ws n w); simpl; rewrite ?Hr, ?Hc; try done; [|lia|].
  - intros m. destruct (decide (m = n)) as [->|]; [|done]. rewrite (cv_list c ws HI), Hw. naive_solver.
  - unfold on_condition. simpl. rewrite Hr. lia.
Qed.

Lemma cv_step_ok pred free now n w c ws p c' op :
  cv_ok c ws -> ws !! n = Some w -> cv_wait_step pred free now n w c = Some (p, c', op) ->
  cv_ok c' (<[n := at_pc w p]> ws).
Proof.
  intros HI Hw. pose proof (cv_list c ws HI n) as Hin.
  assert (n ∈ waiting_ c <-> is_fiber w = true /\ registered (wpc w) = true) as Hin'.
  { rewrite Hin, Hw. naive_solver. }
  clear Hin. unfold cv_wait_step. destruct w as [fb dl q]. simpl in *.
  destruct q; try done; destruct pred, free, fb; try done; cbn [andb]; intros [= <- <- <-].
  all: try (apply (cv_ok_pc _ _ _ _ _ HI Hw); simpl; by repeat case_match).
  all: try (match goal with |- context [at_pc _ (if ?b then _ else _)] => destruct b end;
            by apply (cv_ok_pc _ _ _ _ _ HI Hw)).
  all: apply (cv_ok_insert c _ ws n _ _ HI Hw); try done; unfold on_condition; simpl; try lia.
  all: intros m; destruct (decide (m = n)) as [->|Hmn];
    rewrite ?elem_of_cons, ?list_elem_of_filter, ?Hin'; (tauto || intuition congruence).
Qed.

Lemma cv_ok_snoc c ws w :
  cv_ok c ws -> registered (wpc w) = false -> counted (wpc w) = false -> cv_ok c (ws ++ [w]).
Proof.
  intros HI Hr Hc. split.
  - intros n. rewrite (cv_list c ws HI n). split.
    + intros (v & Hv & ? & ?). exists v. split; [|done]. by apply lookup_app_l_Some.
    + intros (v & [Hv|[_ ->]]%lookup_snoc_cases & ? & ?); [eauto|congruence].
  - rewrite cnt_app, (cv_num c ws HI). simpl. rewrite Hc. simpl. lia.
  - rewrite cnt_app, (cv_cond c ws HI). simpl. unfold on_condition at 3. rewrite Hr, andb_false_r. simpl. lia.
Qed.

(** ** Notifications *)
Lemma cv_wake_keeps w :
  is_fiber (wake w) = is_fiber w /\ deadline (wake w) = deadline w /\
  holding (wpc (wake w)) = holding (wpc w) /\ registered (wpc (wake w)) = registered (wpc w) /\
  counted (wpc (wake w)) = counted (wpc w) /\ decided (wpc (wake w)) = decided (wpc w) /\
  wpc (wake w) <> WAsleep /\ (wpc (wake w) = WSleepy -> wpc w = WSleepy).
Proof. unfold wake. case_bool_decide as Ha; simpl; [by rewrite Ha|done]. Qed.

Lemma wake_id w : wpc w <> WAsleep -> wake w = w.
Proof. intros H. unfold wake. by rewrite bool_decide_eq_false_2. Qed.

Lemma wake_wake w : wake (wake w) = wake w.
Proof. apply wake_id, cv_wake_keeps. Qed.

Lemma wake_pc w p : wpc (wake w) = p -> p <> WWoken -> wpc w = p /\ wake w = w.
Proof. unfold wake. case_bool_decide; simpl; [by intros <-|by intros <-]. Qed.

(** What a notification may do: wake some. *)
Definition woken_some (ws ws' : list Waiter) : Prop :=
  Forall2 (fun w v => v = w \/ v = wake w) ws ws'.

Lemma woken_lookup ws ws' n v :
  woken_some ws ws' -> ws' !! n = Some v -> exists w, ws !! n = Some w /\ (v = w \/ v = wake w).
Proof. intros HW Hv. destruct (Forall2_lookup_r _ _ _ _ _ HW Hv) as (w & ? & ?). eauto. Qed.

Lemma woken_refl ws : woken_some ws ws.
Proof. induction ws; constructor; auto. Qed.

Lemma woken_insert ws n w : ws !! n = Some w -> woken_some ws (<[n := wake w]> ws).
Proof.
  intros Hw. apply Forall2_same_length_lookup. rewrite length_insert. split; [done|].
  intros i x y Hx [[-> ->]|[Hne Hy]]%lookup_insert_cases; [right; congruence|left; congruence].
Qed.

Lemma woken_alter ws n : woken_some ws (alter wake n ws).
Proof.
  apply Forall2_same_length_lookup. rewrite length_alter. split; [done|]. intros i x y Hx.
  destruct (decide (i = n)) as [->|Hne]; [rewrite list_lookup_alter_eq, Hx|rewrite list_lookup_alter_ne, Hx by done].
  - intros [= <-]. by right.
  - intros [= <-]. by left.
Qed.

Lemma woken_cnt (f : Waiter -> bool) ws ws' :
  (forall w, f (wake w) = f w) -> woken_some ws ws' -> cnt f ws' = cnt f ws.
Proof. intros Hf. induction 1 as [|w v ws ws' [->| ->] _ IH]; simpl; rewrite ?Hf, ?IH; done. Qed.

Lemma cv_ok_woken c ws ws' : cv_ok c ws -> woken_some ws ws' -> cv_ok c ws'.
Proof.
  intros HI HW. split.
  - intros n. rewrite (cv_list c ws HI n). split.
    + intros (w & Hw & Hf & Hr). destruct (Forall2_lookup_l _ _ _ _ _ HW Hw) as (v & Hv & [->| ->]); [by eauto|].
      exists (wake w). destruct (cv_wake_keeps w) as (-> & _ & _ & -> & _). done.
    + intros (v & (w & Hw & [->| ->])%(woken_lookup _ _ _ _ HW) & Hf & Hr); [by eauto|].
      destruct (cv_wake_keeps w) as (Ef & _ & _ & Er & _). rewrite Ef in Hf. rewrite Er in Hr. eauto.
  - rewrite (woken_cnt _ ws ws'); [apply HI| |done]. intros w.
    by destruct (cv_wake_keeps w) as (_ & _ & _ & _ & -> & _).
  - rewrite (woken_cnt _ ws ws'); [apply HI| |done]. intros w. unfold on_condition.
    by destruct (cv_wake_keeps w) as (-> & _ & _ & -> & _).
Qed.

Lemma cv_notify_all_wakes c ws : cv_ok c ws -> notify_all c ws = wake <$> ws.
Proof.
  intros HI. apply list_eq. intros n. unfold notify_all. rewrite (cv_num c ws HI), list_lookup_fmap.
  case_bool_decide as Hz; rewrite ?list_lookup_imap; destruct (ws !! n) as [w|] eqn:Hw; try done; simpl; f_equal.
  - symmetry. apply wake_id. intros Ha. pose proof (cnt_zero _ _ n w Hw Hz) as Hc. cbn beta in Hc. by rewrite Ha in Hc.
  - destruct (decide (wpc w = WAsleep)) as [Ha|Ha]; [|rewrite (wake_id w) by done; by repeat case_match].
    destruct (is_fiber w) eqn:Ef.
    + rewrite bool_decide_eq_true_2; [done|]. apply (cv_list c ws HI). exists w. by rewrite Ha.
    + rewrite bool_decide_eq_true_2; [done|]. rewrite (cv_cond c ws HI).
      assert (0 < cnt on_condition ws); [|lia]. apply (cnt_lookup _ _ n w Hw). unfold on_condition. by rewrite Ef, Ha.
Qed.

Lemma notify_all_woken c ws : cv_ok c ws -> woken_some ws (notify_all c ws).
Proof. intros ->%cv_notify_all_wakes. induction ws; constructor; auto. Qed.

Lemma notify_one_woken k c ws ws' : notify_one k c ws = Some ws' -> woken_some ws ws'.
Proof.
  unfold notify_one, condition_notify_one. case_bool_decide; [intros [= <-]; apply woken_refl|].
  destruct (waiting_ c) as [|f l].
  - case_bool_decide; [|intros [= <-]; apply woken_refl].
    destruct (existsb _ ws); [|intros [= <-]; apply woken_refl].
    destruct (ws !! k) as [w|] eqn:Hw; [|done]. simpl. destruct (sleeping_thread w); [|done].
    intros [= <-]. by apply woken_insert.
  - intros [= <-]. apply woken_alter.
Qed.

(** ** What the owner of the lock relies on *)

(** This waiter will find the predicate true if it is, unless it gives up at
    its deadline. *)
Definition roused (p : WPc) : bool :=
  match p with
  | WWoken | WExpired | WTest | WUnregister true | WLeave true | WFinish true => true
  | _ => false
  end.

Record step_contract (pred free : bool) (w : Waiter) (p : WPc) (op : LockOp) : Prop := {
  st_lock : match op with
            | Keep => holding p = holding (wpc w)
            | Acquire => free = true /\ holding (wpc w) = false /\ holding p = true
            | Release => holding (wpc w) = true /\ holding p = false
            end;
  st_return res : p <> WReturn res /\ wpc w <> WReturn res;
  st_true : decided p = Some true -> pred = true \/ (decided (wpc w) = Some true /\ holding (wpc w) = true);
  st_false : decided p = Some false ->
             is_Some (deadline w) \/ wpc w = WExpired \/ decided (wpc w) = Some false;
  st_sleepy : p = WSleepy -> pred = false;
  st_asleep : p = WAsleep -> wpc w = WSleepy;
  st_expired : p <> WExpired;
  st_roused : roused (wpc w) = true -> pred = true ->
              roused p = true \/ (is_fiber w = true /\ is_Some (deadline w))
}.

Lemma cv_step_contract pred free now n w c p c' op :
  cv_wait_step pred free now n w c = Some (p, c', op) -> step_contract pred free w p op.
Proof.
  unfold cv_wait_step, expired. destruct w as [fb [dl|] q]; simpl;
    destruct q, pred, free, fb; try done; cbn [andb]; repeat case_bool_decide; intros [= <- <- <-];
    split; simpl; (done || eauto || naive_solver).
Qed.

(** A waiter that is about to look at the predicate with the lock. *)
Definition rousing (p : WPc) : bool := match p with WWoken | WExpired => true | _ => false end.

(** [notify_one], called with the lock held by the caller, so that no waiter
    holds it: afterwards somebody is on the way to look at the predicate, unless
    nobody was registered. *)
Lemma notify_one_reaches k c ws ws' n w :
  cv_ok c ws -> (forall m v, ws !! m = Some v -> holding (wpc v) = false) ->
  notify_one k c ws = Some ws' -> ws' !! n = Some w -> wpc w = WAsleep ->
  exists m v, ws' !! m = Some v /\ rousing (wpc v) = true.
Proof.
  intros HI Hfree E Hn Ha. pose proof (notify_one_woken k c ws ws' E) as HW.
  destruct (woken_lookup _ _ _ _ HW Hn) as (w0 & Hw0 & [->| ->]); [|by apply cv_wake_keeps in Ha].
  assert (forall m v, ws !! m = Some v -> registered (wpc v) = true -> rousing (wpc (wake v)) = true) as Hrouse.
  { intros m v Hv Hr. specialize (Hfree m v Hv). unfold wake. case_bool_decide; [done|]. by destruct (wpc v). }
  revert E. unfold notify_one, condition_notify_one. rewrite (cv_num c ws HI), (cv_cond c ws HI).
  pose proof (cnt_lookup (fun w => counted (wpc w)) ws n w0 Hw0) as Hc. cbn beta in Hc. rewrite Ha in Hc.
  specialize (Hc eq_refl). rewrite bool_decide_eq_false_2 by lia.
  destruct (waiting_ c) as [|f l] eqn:El.
  - assert (is_fiber w0 = false) as Ef.
    { destruct (is_fiber w0) eqn:Ef; [|done]. assert (n ∈ waiting_ c) as Hin; [|by rewrite El, elem_of_nil in Hin].
      apply (cv_list c ws HI). exists w0. by rewrite Ha. }
    pose proof (cnt_lookup on_condition ws n w0 Hw0) as Hoc. unfold on_condition at 1 in Hoc. rewrite Ef, Ha in Hoc.
    specialize (Hoc eq_refl). rewrite bool_decide_eq_true_2 by lia.
    assert (existsb sleeping_thread ws = true) as ->.
    { apply existsb_exists. exists w0. split; [by apply list_elem_of_In, (list_elem_of_lookup_2 _ n)|].
      unfold sleeping_thread. by rewrite Ef, Ha, bool_decide_eq_true_2. }
    destruct (ws !! k) as [v|] eqn:Hk; [|done]. simpl. destruct (sleeping_thread v) eqn:Hs; [|done].
    intros [= <-]. exists k, (wake v). split; [apply insert_self; eauto|]. apply (Hrouse k v Hk).
    unfold sleeping_thread in Hs. apply andb_true_iff in Hs as [_ Hs%bool_decide_eq_true_1]. by rewrite Hs.
  - intros [= <-]. assert (f ∈ waiting_ c) as (v & Hv & _ & Hr)%(cv_list c ws HI) by (rewrite El; left).
    exists f, (wake v). split; [by rewrite list_lookup_alter_eq, Hv|]. by apply (Hrouse f).
Qed.

(** [notify_one] can always be carried out. *)
Lemma notify_one_total c ws : exists k ws', notify_one k c ws = Some ws'.
Proof.
  unfold notify_one, condition_notify_one. case_bool_decide; [by exists 0%nat, ws|].
  destruct (waiting_ c); [|by exists 0%nat; eexists]. case_bool_decide; [|by exists 0%nat, ws].
  destruct (existsb sleeping_thread ws) eqn:E; [|by exists 0%nat, ws].
  apply existsb_exists in E as (w & [k Hk]%list_elem_of_In%list_elem_of_lookup_1 & Hw).
  exists k. eexists. rewrite Hk. simpl. by rewrite Hw.
Qed.

(** ** A second notification before the first waiter runs *)

(** [notify_one] looks at the newest registered fiber, whether it has been
    notified already or not: calls made before that fiber runs change nothing,
    however many fibers are asleep behind it.  ([std::condition_variable] would
    unblock another one.) *)
Lemma notify_one_twice k k' c ws ws' f l :
  cv_ok c ws -> waiting_ c = f :: l -> notify_one k c ws = Some ws' -> notify_one k' c ws' = Some ws'.
Proof.
  intros HI El. unfold notify_one. rewrite El. assert (f ∈ waiting_ c) as Hin by (rewrite El; left).
  apply (cv_list c ws HI) in Hin as (v & Hv & _ & _). case_bool_decide; intros [= <-]; f_equal.
  apply list_eq. intros i. destruct (decide (i = f)) as [->|Hne]; [|by rewrite list_lookup_alter_ne].
  rewrite !list_lookup_alter_eq, Hv. simpl. by rewrite wake_wake.
Qed.

(** However often [notify_one] is called before the notified fiber runs,
    only that fiber, the newest registered one, is woken: every other waiter is
    left as it was. *)
Theorem notify_one_wakes_newest ks c ws ws' f l :
  cv_ok c ws -> waiting_ c = f :: l ->
  foldl (fun o k => o ≫= notify_one k c) (Some ws) ks = Some ws' ->
  forall n, n <> f -> ws' !! n = ws !! n.
Proof.
  intros HI El E n Hn. destruct ks as [|k ks]; [by injection E as <-|]. simpl in E.
  assert (exists w1, notify_one k c ws = Some w1 /\ w1 !! n = ws !! n) as (w1 & E1 & Hn1).
  { unfold notify_one. rewrite El. case_bool_decide; eexists; split; try done. by rewrite list_lookup_alter_ne. }
  rewrite E1 in E. rewrite <- Hn1. enough (ws' = w1) as -> by done. revert E. clear Hn1.
  induction ks as [|k' ks IH]; simpl; [by intros [= <-]|].
  by rewrite (notify_one_twice k k' c ws w1 f l HI El E1).
Qed.

(** Two fibers are asleep and [notify_one] is called twice. *)
Lemma notify_one_wakes_newest_witness :
  let c := mkCV [1%nat; 0%nat] 2 0 in
  let ws := [mkWaiter true None WAsleep; mkWaiter true None WAsleep] in
  exists ws', foldl (fun o k => o ≫= notify_one k c) (Some ws) [0%nat; 0%nat] = Some ws' /\ ws' !! 0%nat = ws !! 0%nat.
Proof.
  intros c ws. eexists. split; [vm_compute; reflexivity|].
  apply (notify_one_wakes_newest [0%nat; 0%nat] c ws _ 1%nat [0%nat]); [|reflexivity|vm_compute; reflexivity|discriminate].
  split; [|vm_compute; reflexivity..]. intros n. unfold c, ws. simpl. rewrite !elem_of_cons, elem_of_nil. split.
  - intros [->|[->|[]]]; eexists; split_and!; reflexivity.
  - intros (w & Hw & _). destruct n as [|[|n]]; simpl in Hw; [right; left; reflexivity|left; reflexivity|discriminate].
Defined.
