(* ===== verification/WaitGroupCV.v ===== *)
(** [WaitGroup::wait] and the notification of [WaitGroup::done]
    (src/include/marl/wait_group.hpp) as calls of the [ConditionVariable] of
    CondVar.v: the steps that WaitGroup.v gives them are those of its waits without
    a timeout and of its [notify_all], under the lock of the wait group. *)
From stdpp Require Import base numbers strings list.
From S2P Require Import Prelude WaitGroup CondVar.

Local Open Scope Z_scope.

(** ** The condition variable and the waiters of a wait group *)
Definition cv_of (s : State) : ConditionVariable :=
  mkCV (WaitGroup.waiting_ s) (WaitGroup.num_waiting_ s) (WaitGroup.num_waiting_on_condition s).

(** Places of the call in both components.  The wait group goes from the last step
    of the condition variable to its own end, which releases the lock, at once. *)
Definition pc_of (p : WaitGroup.WPc) : CondVar.WPc :=
  match p with
  | WaitGroup.WEnter => WEnter | WaitGroup.WCheck => WCheck | WaitGroup.WRegister => WRegister
  | WaitGroup.WTest => WTest | WaitGroup.WSleepy => WSleepy | WaitGroup.WAsleep => WAsleep
  | WaitGroup.WWoken => WWoken | WaitGroup.WUnregister => WUnregister true
  | WaitGroup.WLeave => WLeave true | WaitGroup.WReturn => WReturn true
  end.

Definition pc_to (p : CondVar.WPc) : WaitGroup.WPc :=
  match p with
  | WEnter => WaitGroup.WEnter | WCheck => WaitGroup.WCheck | WRegister => WaitGroup.WRegister
  | WTest => WaitGroup.WTest | WSleepy => WaitGroup.WSleepy | WAsleep => WaitGroup.WAsleep
  | WWoken | WExpired => WaitGroup.WWoken | WUnregister _ => WaitGroup.WUnregister
  | WLeave _ => WaitGroup.WLeave | WFinish _ | WReturn _ => WaitGroup.WReturn
  end.

(** A waiter of a wait group has no deadline. *)
Definition waiter_of (w : WaitGroup.Waiter) : CondVar.Waiter :=
  mkWaiter (WaitGroup.is_fiber w) None (pc_of (WaitGroup.wpc w)).

(** [WaitGroup::wait]: [marl::lock lock(data_->mutex); data_->cv.wait(lock, pred)]. *)
Definition wait_on_cv (now : Z) (n : nat) (s : State) : option State :=
  w ← WaitGroup.waiters s !! n;
  match WaitGroup.wpc w with
  | WaitGroup.WEnter =>
      if bool_decide (mutex s = None)
      then Some (set_waiter n w WaitGroup.WCheck (set_mutex (Some (ByWaiter n)) s)) else None
  | _ =>
      r ← cv_wait_step (pred s) (bool_decide (mutex s = None)) now n (waiter_of w) (cv_of s);
      let '(p, c, op) := r in
      let m := match p, op with
               | WFinish _, _ => None            (* ~lock *)
               | _, Keep => mutex s
               | _, Acquire => Some (ByWaiter n)
               | _, Release => None
               end in
      Some (mkState (count s) m (waiting_ c) (num_waiting_ c) (num_waiting_on_condition c)
              (<[n := WaitGroup.mkWaiter (WaitGroup.is_fiber w) (pc_to p)]> (WaitGroup.waiters s))
              (doers s) (credits s) (grown s))
  end.

(** [notify_all] of [WaitGroup::done]. *)
Lemma notify_waiters s :
  waiter_of <$> WaitGroup.waiters (WaitGroup.notify_all s) =
    CondVar.notify_all (cv_of s) (waiter_of <$> WaitGroup.waiters s).
Proof.
  assert (forall w, waiter_of (WaitGroup.wake w) = CondVar.wake (waiter_of w)) as Hwake.
  { intros [f p]. unfold WaitGroup.wake, CondVar.wake. simpl. by destruct p. }
  unfold WaitGroup.notify_all, CondVar.notify_all. cbn [cv_of num_waiting_ waiting_ num_waiting_on_condition].
  case_bool_decide; [done|]. cbn [set_waiters WaitGroup.waiters]. apply list_eq. intros n.
  rewrite list_lookup_fmap, !list_lookup_imap, list_lookup_fmap.
  destruct (WaitGroup.waiters s !! n) as [w|]; [|done]. cbn [fmap option_fmap option_map]. f_equal.
  cbn [waiter_of is_fiber]. by repeat case_match; rewrite ?Hwake.
Qed.

(** A wait group waits with its condition variable: a step of [WaitGroup::wait] is
    the lock, a step of [ConditionVariable::wait] with the predicate of the wait
    group and no deadline, whatever the clock says, and at its end the release of
    the lock; and its notification is [notify_all], which changes nothing else. *)
Theorem wait_group_on_cv now n s :
  wait_on_cv now n s = WaitGroup.wait_step n s /\
  waiter_of <$> WaitGroup.waiters (WaitGroup.notify_all s) =
    CondVar.notify_all (cv_of s) (waiter_of <$> WaitGroup.waiters s) /\
  WaitGroup.notify_all s = set_waiters (WaitGroup.waiters (WaitGroup.notify_all s)) s.
Proof.
  split_and!; [|apply notify_waiters|].
  - unfold wait_on_cv, WaitGroup.wait_step. destruct (WaitGroup.waiters s !! n) as [[f p]|] eqn:Hn; [|done].
    cbn [mbind option_bind WaitGroup.wpc]. unfold cv_wait_step, waiter_of, cv_of. destruct s.
    destruct p; cbn [pc_of wpc WaitGroup.wpc WaitGroup.is_fiber is_fiber expired deadline andb]; try done.
    all: repeat first [case_bool_decide | destruct (pred _) | destruct f]; done.
  - unfold WaitGroup.notify_all. case_bool_decide; [|done]. by destruct s.
Qed.
