(* ===== verification/Event.v ===== *)
(** [marl::Event] (src/include/marl/event.hpp), over the condition variable of
    CondVar.v.

    The state is [Event::Shared] and the calls in progress: any number of
    fibers and threads are in [wait], [wait_for] or [wait_until], any number of
    threads in [signal], and [any] is linking further events to this one.
    [test], [isSignalled] and [clear] are one critical section each.  The loop
    of [signal] over the dependent events is followed here one dependent at a
    time, with the lock held; EventAny.v makes the calls. *)
From stdpp Require Import base numbers strings relations list.
From S2P Require Import Prelude CondVar.

Local Open Scope Z_scope.

Inductive Mode := Auto | Manual.

Global Instance Mode_eq_dec : EqDecision Mode.
Proof. solve_decision. Defined.

(** Where a call of [signal()] is, and the part of [any] that runs with the
    lock of one of its members, to which it links the new event [dep]. *)
Inductive CPc :=
| SEnter                     (* marl::lock lock(mutex) *)
| SCheck                     (* if (signalled) return; signalled = true *)
| SNotify                    (* cv.notify_one() or cv.notify_all() *)
| SDeps (rest : list nat)    (* for (const auto &dep : deps) dep->signal() *)
| SReturn (raised : bool)
| AEnter (dep : nat)         (* marl::lock lock(s->mutex) *)
| ACheck (dep : nat)         (* if (s->signalled) any.signal() *)
| APush (dep : nat)          (* s->deps.push_back(any.shared_) *)
| AReturn.

Global Instance CPc_eq_dec : EqDecision CPc.
Proof. solve_decision. Defined.

Inductive Who := ByWaiter (n : nat) | ByCaller (k : nat).

Global Instance Who_eq_dec : EqDecision Who.
Proof. solve_decision. Defined.

Record Shared := mkShared {
  mode : Mode;
  signalled : bool;
  mutex : option Who;
  cv : ConditionVariable;
  deps : list nat;
  waiters : list Waiter;       (* the calls of wait, wait_for, wait_until *)
  callers : list CPc;          (* the calls of signal and any *)
  initial : bool;              (* initial_state of the constructor *)
  tested : Z;                  (* calls of test() that reset the signal *)
  cleared : Z                  (* calls of clear() that reset the signal *)
}.

(** [Event(mode, initial_state)]. *)
Definition event_new (m : Mode) (initial_state : bool) : Shared :=
  mkShared m initial_state None cv_new [] [] [] initial_state 0 0.

Definition free (s : Shared) : bool := bool_decide (mutex s = None).

Definition lock_op (op : LockOp) (who : Who) (m : option Who) : option Who :=
  match op with Keep => m | Acquire => Some who | Release => None end.

(** Waiter [w] of index [n] goes on to [p]. *)
Definition step_waiter (n : nat) (w : Waiter) (p : WPc) (sg : bool) (m : option Who)
    (c : ConditionVariable) (s : Shared) : Shared :=
  mkShared (mode s) sg m c (deps s) (<[n := at_pc w p]> (waiters s)) (callers s)
    (initial s) (tested s) (cleared s).

(** Caller [k] goes on to [p]. *)
Definition step_caller (k : nat) (p : CPc) (sg : bool) (m : option Who) (ds : list nat)
    (ws : list Waiter) (s : Shared) : Shared :=
  mkShared (mode s) sg m (cv s) ds ws (<[k := p]> (callers s)) (initial s) (tested s) (cleared s).

(** One step of [Shared::wait], [Shared::wait_for] and [Shared::wait_until]. *)
Definition wait_step (n : nat) (now : Z) (s : Shared) : option Shared :=
  w ← waiters s !! n;
  match wpc w with
  | WEnter =>
      if free s then Some (step_waiter n w WCheck (signalled s) (Some (ByWaiter n)) (cv s) s) else None
  | WFinish res =>
      let sg := if res && bool_decide (mode s = Auto) then false else signalled s in
      Some (step_waiter n w (WReturn res) sg None (cv s) s)
  | _ =>
      r ← cv_wait_step (signalled s) (free s) now n w (cv s);
      let '(p, c, op) := r in
      Some (step_waiter n w p (signalled s) (lock_op op (ByWaiter n) (mutex s)) c s)
  end.

(** One step of [Shared::signal], or of the loop body of [any] on this member. *)
Definition caller_step (k choice : nat) (s : Shared) : option Shared :=
  p ← callers s !! k;
  match p with
  | SEnter =>
      if free s
      then Some (step_caller k SCheck (signalled s) (Some (ByCaller k)) (deps s) (waiters s) s) else None
  | SCheck =>
      if signalled s
      then Some (step_caller k (SReturn false) (signalled s) None (deps s) (waiters s) s)
      else Some (step_caller k SNotify true (mutex s) (deps s) (waiters s) s)
  | SNotify =>
      ws ← match mode s with
           | Auto => notify_one choice (cv s) (waiters s)
           | Manual => Some (notify_all (cv s) (waiters s))
           end;
      Some (step_caller k (SDeps (deps s)) (signalled s) (mutex s) (deps s) ws s)
  | SDeps [] => Some (step_caller k (SReturn true) (signalled s) None (deps s) (waiters s) s)
  | SDeps (_ :: rest) =>
      Some (step_caller k (SDeps rest) (signalled s) (mutex s) (deps s) (waiters s) s)
  | AEnter dep =>
      if free s
      then Some (step_caller k (ACheck dep) (signalled s) (Some (ByCaller k)) (deps s) (waiters s) s) else None
  | ACheck dep => Some (step_caller k (APush dep) (signalled s) (mutex s) (deps s) (waiters s) s)
  | APush dep => Some (step_caller k AReturn (signalled s) None (deps s ++ [dep]) (waiters s) s)
  | SReturn _ | AReturn => None
  end.

(** [test], [isSignalled] and [clear]: the new state and the answer. *)
Definition test (s : Shared) : Shared * bool :=
  if signalled s
  then (if bool_decide (mode s = Auto)
        then mkShared (mode s) false (mutex s) (cv s) (deps s) (waiters s) (callers s)
               (initial s) (tested s + 1) (cleared s)
        else s, true)
  else (s, false).

Definition isSignalled (s : Shared) : Shared * bool := (s, signalled s).

Definition clear (s : Shared) : Shared :=
  mkShared (mode s) false (mutex s) (cv s) (deps s) (waiters s) (callers s)
    (initial s) (tested s) (cleared s + b2z (signalled s)).

(** Everything that can happen to an event. *)
Inductive Step :=
| EWait (n : nat) (now : Z)         (* a step of a wait *)
| ETimeout (n : nat) (now : Z)      (* the deadline of a sleeping waiter *)
| ESpurious (n : nat)               (* a waiter goes on for no reason *)
| ECaller (k choice : nat)          (* a step of signal() or any() *)
| ETest | EClear                    (* test() and clear() *)
| ECallWait (fb : bool) (t : Timeout)
| ECallSignal
| ECallAny (dep : nat).

Definition set_waiters (ws : list Waiter) (s : Shared) : Shared :=
  mkShared (mode s) (signalled s) (mutex s) (cv s) (deps s) ws (callers s)
    (initial s) (tested s) (cleared s).

Definition set_callers (cs : list CPc) (s : Shared) : Shared :=
  mkShared (mode s) (signalled s) (mutex s) (cv s) (deps s) (waiters s) cs
    (initial s) (tested s) (cleared s).

Definition ev_step (e : Step) (s : Shared) : option Shared :=
  match e with
  | EWait n now => wait_step n now s
  | ETimeout n now =>
      w ← waiters s !! n; v ← time_out now w; Some (set_waiters (<[n := v]> (waiters s)) s)
  | ESpurious n => w ← waiters s !! n; Some (set_waiters (<[n := wake w]> (waiters s)) s)
  | ECaller k choice => caller_step k choice s
  | ETest => if free s then Some (fst (test s)) else None
  | EClear => if free s then Some (clear s) else None
  | ECallWait fb t => Some (set_waiters (waiters s ++ [mkWaiter fb (deadline_of t) WEnter]) s)
  | ECallSignal => Some (set_callers (callers s ++ [SEnter]) s)
  | ECallAny dep => Some (set_callers (callers s ++ [AEnter dep]) s)
  end.

Inductive ev_reach : Shared -> Prop :=
| ev_start m i : ev_reach (event_new m i)
| ev_reach_step s e s' : ev_reach s -> ev_step e s = Some s' -> ev_reach s'.

(** ** The invariant *)
Definition cholding (p : CPc) : bool :=
  match p with SCheck | SNotify | SDeps _ | ACheck _ | APush _ => true | _ => false end.
(** This call set [signalled]. *)
Definition craised (p : CPc) : bool :=
  match p with SNotify | SDeps _ | SReturn true => true | _ => false end.
Definition creturned (p : CPc) : bool := match p with SReturn _ | AReturn => true | _ => false end.
Definition after_raise (p : CPc) : bool := match p with SNotify | SDeps _ => true | _ => false end.

Definition released (w : Waiter) : bool := bool_decide (wpc w = WReturn true).

(** Somebody has set [signalled] and is about to notify. *)
Definition notifier (s : Shared) : Prop := exists k, callers s !! k = Some SNotify.

(** No fiber waits with a timeout (threads may). *)
Definition no_timed_fiber (s : Shared) : Prop :=
  forall n w, waiters s !! n = Some w -> is_fiber w = true -> deadline w = None.

(** The signals of an [Auto] event that were used up by waits and tests. *)
Definition consumed (s : Shared) : Z :=
  match mode s with Auto => cnt released (waiters s) + tested s | Manual => 0 end.

Record Inv (s : Shared) : Prop := {
  v_waiter n w : waiters s !! n = Some w -> (holding (wpc w) = true <-> mutex s = Some (ByWaiter n));
  v_caller k p : callers s !! k = Some p -> (cholding p = true <-> mutex s = Some (ByCaller k));
  v_who : match mutex s with
          | None => True
          | Some (ByWaiter n) => is_Some (waiters s !! n)
          | Some (ByCaller k) => is_Some (callers s !! k)
          end;
  v_cv : cv_ok (cv s) (waiters s);
  v_true n w : waiters s !! n = Some w -> decided (wpc w) = Some true -> holding (wpc w) = true ->
               signalled s = true;
  v_false n w : waiters s !! n = Some w -> decided (wpc w) = Some false -> is_Some (deadline w);
  v_sleepy n w : waiters s !! n = Some w -> wpc w = WSleepy -> signalled s = false;
  v_expired n w : waiters s !! n = Some w -> wpc w = WExpired ->
                  is_fiber w = false /\ is_Some (deadline w);
  v_raised k p : callers s !! k = Some p -> after_raise p = true -> signalled s = true;
  v_lost n w : waiters s !! n = Some w -> wpc w = WAsleep -> signalled s = true ->
               mode s = Manual \/ no_timed_fiber s ->
               notifier s \/
               mode s = Auto /\ exists m v, waiters s !! m = Some v /\ roused (wpc v) = true;
  v_count : b2z (initial s) + cnt craised (callers s) = consumed s + cleared s + b2z (signalled s);
  v_nonneg : 0 <= tested s /\ 0 <= cleared s
}.

Lemma event_new_inv m i : Inv (event_new m i).
Proof.
  split; simpl; try done.
  - split; simpl; try done. intros n. split; [by intros ?%elem_of_nil|by intros (? & ? & _)].
  - unfold consumed. simpl. destruct m; lia.
Qed.

(** How the lock moves in a step of its holder or of one that takes it. *)
Definition lock_moves (s s' : Shared) (who : Who) (h h' : bool) : Prop :=
  (mutex s' = mutex s /\ h' = h) \/
  (mutex s = None /\ mutex s' = Some who /\ h' = true) \/
  (mutex s = Some who /\ mutex s' = None /\ h' = false).

Lemma lock_moves_other s s' who h h' who' :
  lock_moves s s' who h h' -> who' <> who -> mutex s' = Some who' <-> mutex s = Some who'.
Proof. intros [[-> _]|[(-> & -> & _)|(-> & -> & _)]] Hne; naive_solver. Qed.

Lemma lock_moves_self s s' who h h' :
  lock_moves s s' who h h' -> (h = true <-> mutex s = Some who) -> (h' = true <-> mutex s' = Some who).
Proof. intros [[-> ->]|[(-> & -> & ->)|(-> & -> & ->)]]; naive_solver. Qed.

(** A waiter that sleeps past a signal still has somebody coming for it. *)
Lemma ev_waiter_lost s s' n w p k v :
  Inv s -> waiters s !! n = Some w ->
  waiters s' = <[n := at_pc w p]> (waiters s) -> callers s' = callers s -> mode s' = mode s ->
  (signalled s' = signalled s \/ holding (wpc w) = true /\ signalled s' = false) ->
  (p = WSleepy \/ p = WAsleep -> signalled s' = false) ->
  (roused (wpc w) = true -> signalled s' = true -> mode s = Auto ->
     roused p = true \/ is_fiber w = true /\ is_Some (deadline w)) ->
  waiters s' !! k = Some v -> wpc v = WAsleep -> signalled s' = true -> mode s' = Manual \/ no_timed_fiber s' ->
  notifier s' \/ mode s' = Auto /\ exists m v, waiters s' !! m = Some v /\ roused (wpc v) = true.
Proof.
  intros HI Hw Ew Ek Em Hsg Hsleep Hrouse Hv Ha Hs Hmode.
  assert (waiters s' !! n = Some (at_pc w p)) as Hself by (rewrite Ew; apply insert_self; eauto).
  assert (k = n /\ v = at_pc w p \/ k <> n /\ waiters s !! k = Some v) as Hlook
    by (rewrite Ew in Hv; by apply lookup_insert_cases in Hv).
  destruct Hlook as [[-> ->]|[Hne Hv']].
  { rewrite Hsleep in Hs by (by right). done. }
  assert (signalled s = true) as Hs0 by (destruct Hsg as [<-|[_ E]]; congruence).
  destruct (v_lost s HI k v Hv' Ha Hs0) as [(d & Hd)|(Hauto & m & x & Hm & Hx)].
  - destruct Hmode as [?|Hnt]; [left; congruence|right]. intros j y Hy Hf. destruct (decide (j = n)) as [->|].
    + assert (y = w) as -> by congruence. by apply (Hnt n (at_pc w p)).
    + apply (Hnt j y); [|done]. by rewrite Ew, list_lookup_insert_ne.
  - left. exists d. by rewrite Ek.
  - right. rewrite Em. split; [done|]. destruct (decide (m = n)) as [->|]; cycle 1.
    { exists m, x. split; [|done]. by rewrite Ew, list_lookup_insert_ne. }
    assert (x = w) as -> by congruence. exists n, (at_pc w p). split; [done|].
    destruct (Hrouse Hx Hs Hauto) as [?|[Hf [t Ht]]]; [done|]. exfalso.
    destruct Hmode as [?|Hnt]; [congruence|]. specialize (Hnt n (at_pc w p) Hself Hf). simpl in Hnt. congruence.
Qed.

(** A step of waiter [n] to [p]. *)
Lemma ev_inv_waiter s s' n w p :
  Inv s -> waiters s !! n = Some w ->
  waiters s' = <[n := at_pc w p]> (waiters s) -> callers s' = callers s -> mode s' = mode s ->
  initial s' = initial s -> tested s' = tested s -> cleared s' = cleared s ->
  cv_ok (cv s') (waiters s') ->
  lock_moves s s' (ByWaiter n) (holding (wpc w)) (holding p) ->
  (signalled s' = signalled s \/ holding (wpc w) = true /\ signalled s' = false) ->
  (decided p = Some true -> holding p = true -> signalled s' = true) ->
  (decided p = Some false -> is_Some (deadline w)) ->
  (p = WSleepy \/ p = WAsleep -> signalled s' = false) ->
  (p = WExpired -> is_fiber w = false /\ is_Some (deadline w)) ->
  (roused (wpc w) = true -> signalled s' = true -> mode s = Auto ->
     roused p = true \/ is_fiber w = true /\ is_Some (deadline w)) ->
  match mode s with Auto => b2z (released (at_pc w p)) - b2z (released w) | Manual => 0 end
    = b2z (signalled s) - b2z (signalled s') ->
  Inv s'.
Proof.
  intros HI Hw Ew Ek Em Ei Et Ec Hcv Hlk Hsg Htrue Hfalse Hsleep Hexp Hrouse Hcount.
  pose proof (v_waiter s HI n w Hw) as Hwn.
  assert (forall k v, waiters s' !! k = Some v ->
    k = n /\ v = at_pc w p \/ k <> n /\ waiters s !! k = Some v) as Hlook.
  { intros k v. rewrite Ew. apply lookup_insert_cases. }
  assert (waiters s' !! n = Some (at_pc w p)) as Hself by (rewrite Ew; apply insert_self; eauto).
  split.
  - intros k v [[-> ->]|[Hne Hv]]%Hlook; [by apply (lock_moves_self _ _ _ _ _ Hlk)|].
    rewrite (v_waiter s HI k v Hv), (lock_moves_other _ _ _ _ _ _ Hlk); [done|congruence].
  - intros k q. rewrite Ek. intros Hq. by rewrite (v_caller s HI k q Hq), (lock_moves_other _ _ _ _ _ _ Hlk).
  - pose proof (v_who s HI) as Hwho. rewrite Ek. destruct (mutex s') as [[k|k]|] eqn:Hm; [| |done].
    + destruct (decide (k = n)) as [->|Hne]; [by eauto|].
      apply (lock_moves_other _ _ _ _ _ _ Hlk) in Hm; [|congruence]. rewrite Hm in Hwho.
      by rewrite Ew, list_lookup_insert_ne.
    + apply (lock_moves_other _ _ _ _ _ _ Hlk) in Hm; [|done]. by rewrite Hm in Hwho.
  - done.
  - intros k v [[-> ->]|[Hne Hv]]%Hlook Hd Hh; [by apply Htrue|].
    destruct Hsg as [->|[Hwh _]]; [by eapply (v_true s HI)|].
    apply Hwn in Hwh. apply (v_waiter s HI k v Hv) in Hh. congruence.
  - intros k v [[-> ->]|[Hne Hv]]%Hlook Hd; [by apply Hfalse|by eapply (v_false s HI)].
  - intros k v [[-> ->]|[Hne Hv]]%Hlook Hp; [apply Hsleep; by left|].
    destruct Hsg as [->|[_ ->]]; [by eapply (v_sleepy s HI)|done].
  - intros k v [[-> ->]|[Hne Hv]]%Hlook Hp; [by apply Hexp|by eapply (v_expired s HI)].
  - intros k q. rewrite Ek. intros Hq Hr. destruct Hsg as [->|[Hwh _]]; [by eapply (v_raised s HI)|].
    apply Hwn in Hwh. assert (cholding q = true) as Hh by (by destruct q).
    apply (v_caller s HI k q Hq) in Hh. congruence.
  - intros k v. by apply (ev_waiter_lost s s' n w p).
  - rewrite Ek, Ei, Ec, (v_count s HI). unfold consumed. rewrite Em, Et, Ew, (cnt_insert _ _ _ w) by done.
    destruct (mode s); lia.
  - rewrite Et, Ec. apply HI.
Qed.

Lemma ev_wait_step_inv s n now s' : Inv s -> wait_step n now s = Some s' -> Inv s'.
Proof.
  intros HI. unfold wait_step. destruct (waiters s !! n) as [w|] eqn:Hw; [|done]. cbn [mbind option_bind].
  pose proof (v_waiter s HI n w Hw) as Hh. pose proof (v_cv s HI) as Hcv.
  assert (forall r, cv_wait_step (signalled s) (free s) now n w (cv s) = Some r ->
    let '(p, c, op) := r in Inv (step_waiter n w p (signalled s) (lock_op op (ByWaiter n) (mutex s)) c s)) as Hgo.
  { intros [[p c] op] E. pose proof (cv_step_contract _ _ _ _ _ _ _ _ _ E) as [Hl Hr Ht Hf Hs Ha Hx Ho].
    eapply (ev_inv_waiter s _ n w p HI Hw); try done; simpl.
    - by eapply cv_step_ok.
    - unfold lock_moves, lock_op. simpl. destruct op; [by left|right; left|right; right].
      + destruct Hl as (Hfree%bool_decide_eq_true_1 & _ & ->). done.
      + destruct Hl as (Hhold & ->). split_and!; [by apply Hh|done|done].
    - by left.
    - intros Hd _. destruct (Ht Hd) as [?|[? ?]]; [done|by eapply (v_true s HI)].
    - intros Hd. destruct (Hf Hd) as [?|[?|?]]; [done|by eapply (v_expired s HI)|by eapply (v_false s HI)].
    - intros [?|?]; [by apply Hs|]. by eapply (v_sleepy s HI n w Hw), Ha.
    - intros ? ? _. by apply Ho.
    - unfold released. rewrite !bool_decide_eq_false_2 by apply Hr. simpl. destruct (mode s); lia. }
  destruct (wpc w) eqn:Hp; try (destruct (cv_wait_step _ _ _ _ _ _) as [[[p c] op]|] eqn:E; [|done];
    intros [= <-]; by apply (Hgo _ eq_refl)).
  - unfold free. case_bool_decide as Hm; [|done]. intros [= <-].
    eapply (ev_inv_waiter s _ n w WCheck HI Hw); try done; simpl; rewrite ?Hp; try (by left); try (by intros [?|?]).
    + apply cv_ok_pc; by rewrite ?Hp.
    + right. left. done.
    + unfold released. simpl. rewrite Hp. destruct (mode s); simpl; lia.
  - intros [= <-].
    assert (res = true -> signalled s = true) as Hsig.
    { intros ->. by eapply (v_true s HI n w Hw); rewrite Hp. }
    eapply (ev_inv_waiter s _ n w (WReturn res) HI Hw); try done; simpl; rewrite ?Hp.
    + apply cv_ok_pc; by rewrite ?Hp.
    + right. right. split_and!; [by apply Hh|done|done].
    + case_match; [right; done|by left].
    + intros [= ->]. eapply (v_false s HI n w Hw). by rewrite Hp.
    + naive_solver.
    + destruct res; [|done]. intros _ Hsg E. by rewrite bool_decide_eq_true_2 in Hsg.
    + unfold released. simpl. rewrite Hp. destruct res; [rewrite (Hsig eq_refl)|]; destruct (mode s); simpl; lia.
Qed.

(** A step of caller [k] to [p] that leaves the waiters alone. *)
Lemma inv_caller s s' k q p :
  Inv s -> callers s !! k = Some q ->
  callers s' = <[k := p]> (callers s) -> waiters s' = waiters s -> cv s' = cv s -> mode s' = mode s ->
  initial s' = initial s -> tested s' = tested s -> cleared s' = cleared s ->
  lock_moves s s' (ByCaller k) (cholding q) (cholding p) ->
  (signalled s' = signalled s \/ cholding q = true /\ signalled s' = true /\ p = SNotify) ->
  q <> SNotify -> (after_raise p = true -> signalled s' = true) ->
  b2z (craised p) - b2z (craised q) = b2z (signalled s') - b2z (signalled s) ->
  Inv s'.
Proof.
  intros HI Hq Ek Ew Ev Em Ei Et Ec Hlk Hsg Hnq Hraise Hcount. pose proof (v_caller s HI k q Hq) as Hkq.
  assert (forall j r, callers s' !! j = Some r -> j = k /\ r = p \/ j <> k /\ callers s !! j = Some r) as Hlook.
  { intros j r. rewrite Ek. apply lookup_insert_cases. }
  assert (callers s' !! k = Some p) as Hself by (rewrite Ek; apply insert_self; eauto).
  split; rewrite ?Ew, ?Ev; try (intros n w Hw).
  - by rewrite (v_waiter s HI n w Hw), (lock_moves_other _ _ _ _ _ _ Hlk).
  - destruct (Hlook n w Hw) as [[-> ->]|[Hne Hv]]; [by apply (lock_moves_self _ _ _ _ _ Hlk)|].
    rewrite (v_caller s HI n w Hv), (lock_moves_other _ _ _ _ _ _ Hlk); [done|congruence].
  - pose proof (v_who s HI) as Hwho. destruct (mutex s') as [[j|j]|] eqn:Hm; [| |done].
    + apply (lock_moves_other _ _ _ _ _ _ Hlk) in Hm; [|done]. by rewrite Hm in Hwho.
    + destruct (decide (j = k)) as [->|Hne]; [by eauto|].
      apply (lock_moves_other _ _ _ _ _ _ Hlk) in Hm; [|congruence]. rewrite Hm in Hwho.
      by rewrite Ek, list_lookup_insert_ne.
  - apply HI.
  - intros Hd Hh. destruct Hsg as [->|(_ & -> & _)]; [by eapply (v_true s HI)|done].
  - by eapply (v_false s HI).
  - intros Hp. destruct Hsg as [->|(Hkh & _)]; [by eapply (v_sleepy s HI)|].
    apply Hkq in Hkh. pose proof (v_waiter s HI n w Hw) as [Hh _]. rewrite Hp in Hh. specialize (Hh eq_refl). congruence.
  - by eapply (v_expired s HI).
  - destruct (Hlook n w Hw) as [[-> ->]|[Hne Hv]]; [done|].
    intros Hr. destruct Hsg as [->|(_ & -> & _)]; [by eapply (v_raised s HI)|done].
  - intros Ha Hs Hmode. destruct Hsg as [Hsg|(_ & _ & ->)]; [|left; by exists k].
    rewrite Em in *. unfold no_timed_fiber in Hmode. rewrite Ew in Hmode.
    destruct (v_lost s HI n w Hw Ha) as [(d & Hd)|?]; [congruence|done| |by right].
    left. exists d. rewrite Ek, list_lookup_insert_ne; [done|congruence].
  - rewrite Ek, (cnt_insert _ _ _ q) by done. pose proof (v_count s HI) as Hc. unfold consumed in *.
    rewrite Em, Ew, Et, Ei, Ec in *. lia.
  - rewrite Et, Ec. apply HI.
Qed.

Lemma woken_back ws ws' n v :
  woken_some ws ws' -> ws' !! n = Some v ->
  exists w, ws !! n = Some w /\ holding (wpc v) = holding (wpc w) /\ decided (wpc v) = decided (wpc w) /\
    deadline v = deadline w /\ is_fiber v = is_fiber w /\
    (wpc v <> WWoken -> v = w) /\ (wpc w = WAsleep \/ v = w).
Proof.
  intros HW (w & Hw & Hv)%(woken_lookup _ _ _ _ HW). exists w. split; [done|].
  destruct Hv as [->| ->]; [split_and!; auto|]. destruct (cv_wake_keeps w) as (-> & -> & -> & _ & _ & -> & _).
  unfold wake. case_bool_decide; split_and!; simpl; auto; done.
Qed.

(** The notification of [signal()]. *)
Lemma ev_notify_inv s k choice s' :
  Inv s -> callers s !! k = Some SNotify -> caller_step k choice s = Some s' -> Inv s'.
Proof.
  intros HI Hk. unfold caller_step. rewrite Hk. cbn [mbind option_bind].
  assert (mutex s = Some (ByCaller k)) as Hm by (by apply (v_caller s HI k _ Hk)).
  assert (forall m v, waiters s !! m = Some v -> holding (wpc v) = false) as Hnh.
  { intros m v Hv. apply not_true_is_false. intros Hh. apply (v_waiter s HI m v Hv) in Hh. congruence. }
  destruct (match mode s with Auto => _ | Manual => _ end) as [ws|] eqn:E; [|done]. intros [= <-].
  pose proof (v_cv s HI) as Hcv.
  assert (woken_some (waiters s) ws) as HW.
  { destruct (mode s); [by eapply notify_one_woken|]. injection E as <-. by apply notify_all_woken. }
  assert (forall n v, ws !! n = Some v -> holding (wpc v) = false) as Hnh'.
  { intros n v (w & Hw & -> & _)%(woken_back _ _ _ _ HW). by apply (Hnh n). }
  assert (forall j p, <[k := SDeps (deps s)]> (callers s) !! j = Some p ->
    j = k /\ p = SDeps (deps s) \/ j <> k /\ callers s !! j = Some p) as Hlook by (intros; by apply lookup_insert_cases).
  split; cbn [step_caller waiters callers mutex signalled mode cv initial tested cleared].
  - intros n v Hv. rewrite Hm, (Hnh' n v Hv). done.
  - intros j p [[-> ->]|[Hne Hj]]%Hlook; [by rewrite Hm|by apply (v_caller s HI)].
  - rewrite Hm. rewrite insert_self by eauto. eauto.
  - by eapply cv_ok_woken.
  - intros n v Hv _ Hh. by rewrite (Hnh' n v Hv) in Hh.
  - intros n v (w & Hw & _ & -> & -> & _)%(woken_back _ _ _ _ HW). by apply (v_false s HI n).
  - intros n v Hv Hp. pose proof (Hnh' n v Hv) as Hh. by rewrite Hp in Hh.
  - intros n v (w & Hw & _ & _ & -> & -> & Hvw & _)%(woken_back _ _ _ _ HW) Hp.
    apply (v_expired s HI n w Hw). by rewrite <- Hvw by (by rewrite Hp).
  - intros j p [[-> ->]|[Hne Hj]]%Hlook _; [by apply (v_raised s HI k _ Hk)|].
    by apply (v_raised s HI k _ Hk).
  - intros n v Hv Ha Hs _. right. destruct (mode s) eqn:Emode.
    + split; [done|]. destruct (notify_one_reaches choice (cv s) (waiters s) ws n v) as (m & x & Hx & Hr); try done.
      exists m, x. split; [done|]. by destruct (wpc x).
    + exfalso. injection E as <-. rewrite (cv_notify_all_wakes _ _ Hcv), list_lookup_fmap in Hv.
      destruct (waiters s !! n) as [w|]; [|done]. injection Hv as <-. by apply cv_wake_keeps in Ha.
  - rewrite (cnt_insert _ _ _ SNotify) by done. pose proof (v_count s HI) as Hc. unfold consumed in *.
    cbn [step_caller mode waiters tested craised b2z]. rewrite (woken_cnt released (waiters s) ws); [lia| |done].
    intros w. unfold released, wake. destruct (bool_decide (wpc w = WAsleep)) eqn:Ha; [|done].
    apply bool_decide_eq_true_1 in Ha. simpl. by rewrite Ha.
  - apply HI.
Qed.

Lemma caller_step_inv s k choice s' : Inv s -> caller_step k choice s = Some s' -> Inv s'.
Proof.
  intros HI E. destruct (callers s !! k) as [q|] eqn:Hk; [|unfold caller_step in E; by rewrite Hk in E].
  destruct (decide (q = SNotify)) as [->|Hq]; [by eapply ev_notify_inv|].
  pose proof (v_caller s HI k q Hk) as Hh. pose proof (v_raised s HI k q Hk) as Hr.
  revert E. unfold caller_step. rewrite Hk. cbn [mbind option_bind]. unfold free.
  destruct q as [| | |[|d rest]|r|d|d|d|]; try done; cbn [cholding after_raise] in *.
  all: try (case_bool_decide as Hm; [|done]).
  all: try (destruct (signalled s) eqn:Hs).
  all: intros [= <-]; eapply (inv_caller s _ k _ _ HI Hk); try done; simpl; rewrite ?Hs; try done.
  all: try solve [by left | by right; left | right; right; split_and!; [by apply Hh|done|done]
                 | by right | intros; by apply Hr | rewrite ?Hr by done; lia].
Qed.

Lemma cleared_inv s sg t c :
  Inv s -> mutex s = None -> (signalled s = false -> sg = false) ->
  (if bool_decide (mode s = Auto) then t - tested s else 0) + (c - cleared s) = b2z (signalled s) - b2z sg ->
  0 <= t /\ 0 <= c -> Inv (mkShared (mode s) sg (mutex s) (cv s) (deps s) (waiters s) (callers s) (initial s) t c).
Proof.
  intros HI Hm Hsg Hc Hnn. split; simpl; try done; try apply HI.
  - intros n w Hw _ Hh. apply (v_waiter s HI n w Hw) in Hh. congruence.
  - intros n w Hw Hp. apply Hsg. by eapply (v_sleepy s HI).
  - intros k p Hp Hr. assert (cholding p = true) as Hh by (by destruct p).
    apply (v_caller s HI k p Hp) in Hh. congruence.
  - intros n w Hw Ha Hs Hmode. assert (signalled s = true) as Hs0 by (destruct (signalled s); [done|by rewrite Hsg in Hs]).
    destruct (v_lost s HI n w Hw Ha Hs0 Hmode) as [Hn|Hn]; [by left|by right].
  - pose proof (v_count s HI) as Hc0. unfold consumed in *. simpl. destruct (mode s); simpl in Hc; lia.
Qed.

Lemma new_waiter_inv s fb t :
  Inv s -> Inv (set_waiters (waiters s ++ [mkWaiter fb (deadline_of t) WEnter]) s).
Proof.
  intros HI. split; simpl; try (intros n w [Hw|[-> ->]]%lookup_snoc_cases).
  - by apply (v_waiter s HI).
  - split; [done|]. intros Hm. pose proof (v_who s HI) as Hwho. rewrite Hm in Hwho. destruct Hwho as [x Hx].
    apply lookup_lt_Some in Hx. lia.
  - apply HI.
  - pose proof (v_who s HI) as Hwho. destruct (mutex s) as [[n|k]|]; [|done|done].
    destruct Hwho as [x Hx]. exists x. by apply lookup_app_l_Some.
  - by apply cv_ok_snoc; [apply HI| |].
  - by apply (v_true s HI n).
  - done.
  - by apply (v_false s HI n).
  - done.
  - by apply (v_sleepy s HI n).
  - done.
  - by apply (v_expired s HI n).
  - done.
  - apply HI.
  - intros Ha Hs Hmode. destruct (v_lost s HI n w Hw Ha Hs) as [?|(? & m & v & Hv & ?)]; [|by left|right].
    + destruct Hmode as [?|Hnt]; [by left|right]. intros j y Hy. apply (Hnt j y). simpl. by apply lookup_app_l_Some.
    + split; [done|]. exists m, v. split; [by apply lookup_app_l_Some|done].
  - done.
  - pose proof (v_count s HI) as Hc. unfold consumed in *. simpl. rewrite cnt_app. simpl. destruct (mode s); lia.
  - apply HI.
Qed.

Lemma new_caller_inv s p :
  Inv s -> cholding p = false -> craised p = false -> Inv (set_callers (callers s ++ [p]) s).
Proof.
  intros HI Hh Hr. split; simpl; try apply HI.
  - intros k q [Hq|[-> ->]]%lookup_snoc_cases; [by apply (v_caller s HI)|].
    rewrite Hh. split; [done|]. intros Hm. pose proof (v_who s HI) as Hwho. rewrite Hm in Hwho. destruct Hwho as [x Hx].
    apply lookup_lt_Some in Hx. lia.
  - pose proof (v_who s HI) as Hwho. destruct (mutex s) as [[n|k]|]; [done| |done].
    destruct Hwho as [x Hx]. exists x. by apply lookup_app_l_Some.
  - intros k q [Hq|[-> ->]]%lookup_snoc_cases Ha; [by eapply (v_raised s HI)|by destruct p].
  - intros n w Hw Ha Hs Hmode. destruct (v_lost s HI n w Hw Ha Hs Hmode) as [(d & Hd)|?]; [left|by right].
    exists d. by apply lookup_app_l_Some.
  - pose proof (v_count s HI) as Hc. unfold consumed in *. simpl. rewrite cnt_app. simpl. rewrite Hr. simpl. lia.
Qed.

(** A sleeping waiter goes on. *)
Lemma roused_waiter_inv s n w p :
  Inv s -> waiters s !! n = Some w -> wpc w = WAsleep ->
  p = WWoken \/ p = WExpired /\ is_fiber w = false /\ is_Some (deadline w) ->
  Inv (set_waiters (<[n := at_pc w p]> (waiters s)) s).
Proof.
  intros HI Hw Ha Hp. pose proof (v_cv s HI).
  eapply (ev_inv_waiter s _ n w p HI Hw); try done; simpl.
  - apply cv_ok_pc; [done|done|..]; rewrite Ha; by destruct Hp as [->|[-> _]].
  - left. split; [done|]. rewrite Ha. by destruct Hp as [->|[-> _]].
  - by left.
  - by destruct Hp as [->|[-> _]].
  - by destruct Hp as [->|[-> _]].
  - destruct Hp as [->|[-> _]]; by intros [?|?].
  - by destruct Hp as [->|[-> ?]].
  - by rewrite Ha.
  - unfold released. simpl. rewrite Ha. destruct Hp as [->|[-> _]]; destruct (mode s); simpl; lia.
Qed.

Lemma ev_step_inv e s s' : Inv s -> ev_step e s = Some s' -> Inv s'.
Proof.
  intros HI. pose proof (v_nonneg s HI) as Hnn.
  destruct e as [n now|n now|n|k choice| | |fb t| |dep]; cbn [ev_step].
  - by apply ev_wait_step_inv.
  - destruct (waiters s !! n) as [w|] eqn:Hw; [|done]. cbn [mbind option_bind]. unfold time_out.
    case_bool_decide as Ha; [|done]. destruct (expired w now) eqn:Ex; [|done]. intros [= <-].
    apply roused_waiter_inv; try done. unfold expired in Ex. destruct (is_fiber w); [by left|right].
    split_and!; [done|done|]. destruct (deadline w); [eauto|done].
  - destruct (waiters s !! n) as [w|] eqn:Hw; [|done]. intros [= <-]. unfold wake. case_bool_decide as Ha.
    + apply roused_waiter_inv; try done. by left.
    + rewrite list_insert_id by done. by destruct s.
  - by apply caller_step_inv.
  - unfold free, test. case_bool_decide as Hm; [|done]. destruct (signalled s) eqn:Hs; [|by intros [= <-]].
    case_bool_decide as Ha; intros [= <-]; [|done]. apply cleared_inv; try done; [|lia]. rewrite Hs, Ha. simpl. lia.
  - unfold free. case_bool_decide as Hm; [|done]. intros [= <-]. apply cleared_inv; try done; [case_match; simpl; lia|].
    destruct (signalled s); simpl; lia.
  - intros [= <-]. by apply new_waiter_inv.
  - intros [= <-]. by apply new_caller_inv.
  - intros [= <-]. by apply new_caller_inv.
Qed.

Lemma ev_reach_inv s : ev_reach s -> Inv s.
Proof. induction 1 as [m i|s e s' _ IH E]; [apply event_new_inv|by eapply ev_step_inv]. Qed.
