(* ===== verification/EventProps.v ===== *)
(** What an [Event] promises, from the invariant of Event.v: a signal is not
    lost, an [Auto] signal is used once, and what timeouts of fibers do to
    it. *)
From stdpp Require Import base numbers strings relations list.
From S2P Require Import Prelude CondVar Event.

Local Open Scope Z_scope.

(** ** The waiters on their own *)
Definition rank (p : WPc) : nat :=
  match p with
  | WEnter => 10 | WCheck => 9 | WRegister => 8 | WWoken | WExpired => 7 | WTest => 6 | WSleepy => 5
  | WAsleep => 4 | WUnregister _ => 3 | WLeave _ => 2 | WFinish _ => 1 | WReturn _ => 0
  end.
Definition ranks (s : Shared) : nat := sum_list_with (fun w => rank (wpc w)) (waiters s).

Definition waits (s s' : Shared) : Prop := exists n now, wait_step n now s = Some s'.

(** No call of [signal()] or [any()] is in progress. *)
Definition quiet (s : Shared) : Prop := forall k p, callers s !! k = Some p -> creturned p = true.

Definition at_rest (s : Shared) : Prop := forall s', ~ waits s s'.

(** A step of a waiter: what it changes, and that it gets nearer to its end. *)
Lemma wait_step_shape n now s s' :
  wait_step n now s = Some s' ->
  exists w p, waiters s !! n = Some w /\ waiters s' = <[n := at_pc w p]> (waiters s) /\
    (rank p < rank (wpc w))%nat /\ callers s' = callers s /\ mode s' = mode s /\
    initial s' = initial s /\ tested s' = tested s /\ cleared s' = cleared s.
Proof.
  unfold wait_step. destruct (waiters s !! n) as [w|] eqn:Hw; [|done]. cbn [mbind option_bind]. intros E.
  exists w. destruct (wpc w) eqn:Hp; try destruct (cv_wait_step _ _ _ _ _ _) as [[[p c] op]|] eqn:E'; try done.
  all: unfold cv_wait_step in *; try rewrite Hp in E'; repeat case_match; simplify_eq/=.
  all: eexists; split_and!; try done; simpl; lia.
Qed.

Lemma waits_ranks s s' : waits s s' -> (ranks s' < ranks s)%nat.
Proof.
  intros (n & now & (w & p & Hw & Ew & Hlt & _)%wait_step_shape). unfold ranks. rewrite Ew.
  pose proof (sum_insert (fun w => rank (wpc w)) (waiters s) n w (at_pc w p) Hw). simpl in *. lia.
Qed.

Lemma waits_keeps s s' :
  waits s s' -> quiet s ->
  quiet s' /\ mode s' = mode s /\ (no_timed_fiber s -> no_timed_fiber s') /\
  callers s' = callers s /\ initial s' = initial s /\ tested s' = tested s /\ cleared s' = cleared s.
Proof.
  intros (n & now & (w & p & Hw & Ew & Hlt & Ek & Em & Ei & Et & Ec)%wait_step_shape) Hq.
  split_and!; try done; [unfold quiet; by rewrite Ek|].
  intros Hnt k v. rewrite Ew. intros [[-> ->]|[_ Hv]]%lookup_insert_cases; [apply (Hnt n w Hw)|by apply (Hnt k)].
Qed.

Lemma waits_steps k s s' :
  ev_reach s -> quiet s -> nsteps waits k s s' ->
  ev_reach s' /\ quiet s' /\ (k + ranks s' <= ranks s)%nat /\ mode s' = mode s /\
  (no_timed_fiber s -> no_timed_fiber s') /\
  callers s' = callers s /\ initial s' = initial s /\ tested s' = tested s /\ cleared s' = cleared s.
Proof.
  intros Hr Hq Hk. revert Hr Hq. induction Hk as [s|k s s1 s' E _ IH]; intros Hr Hq; [split_and!; try done; lia|].
  pose proof (waits_ranks s s1 E). destruct (waits_keeps s s1 E Hq) as (Hq1 & Em & Hnt & Ek & Ei & Et & Ec).
  destruct IH as (? & ? & ? & -> & ? & -> & -> & -> & ->); [|done|split_and!; try done; [lia|auto]].
  destruct E as (n & now & E). by apply (ev_reach_step s (EWait n now)).
Qed.

(** A waiter that holds the lock can always go on. *)
Lemma holder_steps s n now w :
  waiters s !! n = Some w -> holding (wpc w) = true -> exists s', wait_step n now s = Some s'.
Proof.
  intros Hw Hh. unfold wait_step. rewrite Hw. cbn [mbind option_bind].
  unfold cv_wait_step. destruct (wpc w); try done; repeat case_match; simplify_eq/=; eauto.
Qed.

(** With the lock free every waiter that is neither asleep nor finished can
    go on; the holder of the lock always can. *)
Lemma at_rest_waiters s n w :
  Inv s -> quiet s -> at_rest s -> waiters s !! n = Some w -> wpc w = WAsleep \/ exists res, wpc w = WReturn res.
Proof.
  intros HI Hq Hrest Hw. assert (mutex s = None) as Hm.
  { destruct (mutex s) as [[k|k]|] eqn:Hm; [| |done]; pose proof (v_who s HI) as Hwho; rewrite Hm in Hwho; destruct Hwho as [v Hv].
    - pose proof (v_waiter s HI k v Hv) as [_ Hh]. specialize (Hh Hm).
      destruct (holder_steps s k 0 v Hv Hh) as [s' E]. by destruct (Hrest s'); exists k, 0.
    - pose proof (v_caller s HI k v Hv) as [_ Hh]. specialize (Hh Hm). specialize (Hq k v Hv). by destruct v. }
  destruct (wpc w) eqn:Hp; eauto; exfalso.
  all: assert (exists s', wait_step n 0 s = Some s') as [s' E]; [|by destruct (Hrest s'); exists n, 0].
  all: unfold wait_step, free; rewrite Hw; cbn [mbind option_bind]; rewrite Hp; unfold cv_wait_step; rewrite ?Hp, ?Hm.
  all: rewrite ?bool_decide_eq_true_2 by done; repeat case_match; simplify_eq/=; eauto.
Qed.

Definition returned (s : Shared) : Prop :=
  forall n w, waiters s !! n = Some w -> exists res, wpc w = WReturn res.

(** C19. A signal is not lost.  When no call of [signal()] is in progress, the
    steps of the waiters come to rest within [ranks s] steps.  At rest, a
    signalled [Manual] event has released every waiter, fibers and threads, with
    and without timeout; a signalled [Auto] event on which no fiber waits with a
    timeout has released exactly one of them, or all of them had returned.  A
    wait without timeout never ends with false. *)
Theorem event_releases s k s' :
  ev_reach s -> quiet s -> signalled s = true -> mode s = Manual \/ no_timed_fiber s ->
  nsteps waits k s s' ->
  (k <= ranks s)%nat /\
  (forall n w, waiters s' !! n = Some w -> wpc w = WReturn false -> deadline w <> None) /\
  (at_rest s' ->
     match mode s with
     | Manual => returned s'
     | Auto => signalled s' = false /\ cnt released (waiters s') = cnt released (waiters s) + 1 \/
               signalled s' = true /\ returned s'
     end).
Proof.
  intros Hr Hq Hs Hmode Hk. destruct (waits_steps k s s' Hr Hq Hk) as (Hr' & Hq' & Hle & Em & Hnt & Ek & Ei & Et & Ec).
  pose proof (ev_reach_inv s' Hr') as HI'. pose proof (v_count s' HI') as Hc'. pose proof (v_count s (ev_reach_inv s Hr)) as Hc.
  unfold consumed in *. rewrite Ek, Ei, Et, Ec, Em in Hc'. split_and!; [lia| |].
  - intros n w Hw Hp. assert (is_Some (deadline w)) as [t ->]; [|done]. apply (v_false s' HI' n w Hw). by rewrite Hp.
  - intros Hrest.
    assert (signalled s' = true -> returned s') as Hall.
    { intros Hs' n w Hw. destruct (at_rest_waiters s' n w HI' Hq' Hrest Hw) as [Ha|]; [|done]. exfalso.
      destruct (v_lost s' HI' n w Hw Ha Hs') as [(d & Hd)|(Ha' & m & v & Hv & Hr2)].
      - rewrite Em. destruct Hmode; [by left|right; auto].
      - by specialize (Hq' d _ Hd).
      - destruct (at_rest_waiters s' m v HI' Hq' Hrest Hv) as [E|[res E]]; by rewrite E in Hr2. }
    rewrite Hs in Hc. destruct (mode s) eqn:Emode.
    + destruct (signalled s') eqn:Hs'; [right; auto|left]. split; [done|]. simpl in *. lia.
    + apply Hall. destruct (signalled s'); [done|]. simpl in *. lia.
Qed.

(** C20. Every signal is accounted for: the calls of [signal()] that set
    [signalled] (and the initial state) are matched by the waits and tests that
    used a signal of an [Auto] event, the calls of [clear()] that removed one,
    and the one that is pending.  So one [signal()] of an [Auto] event releases
    at most one wait; a wait that is about to return true holds the lock and
    finds [signalled] set; and the counters and the list of the condition
    variable are exact. *)
Theorem event_signals_accounted s :
  ev_reach s ->
  b2z (initial s) + cnt craised (callers s) = consumed s + cleared s + b2z (signalled s) /\
  (mode s = Auto -> cnt released (waiters s) + tested s + cleared s <= b2z (initial s) + zlen (callers s)) /\
  (forall n w, waiters s !! n = Some w -> decided (wpc w) = Some true -> wpc w <> WReturn true ->
     mutex s = Some (ByWaiter n) /\ signalled s = true) /\
  cv_ok (cv s) (waiters s).
Proof.
  intros Hr. pose proof (ev_reach_inv s Hr) as HI. pose proof (v_count s HI) as Hc. split_and!; [done| |..].
  - intros Ha. unfold consumed in Hc. rewrite Ha in Hc.
    assert (forall l, cnt craised l <= zlen l) as Hle.
    { intros l. induction l as [|x l IH]; cbn [cnt length]; [done|]. destruct (craised x); cbn [b2z]; lia. }
    specialize (Hle (callers s)). destruct (signalled s); cbn [b2z] in Hc; lia.
  - intros n w Hw Hd Hp. assert (holding (wpc w) = true) as Hh by (destruct (wpc w); simplify_eq/=; done).
    split; [by apply (v_waiter s HI n w Hw)|by eapply (v_true s HI)].
  - apply HI.
Qed.

(** ** Runs *)
Fixpoint ev_run (es : list Step) (s : Shared) : option Shared :=
  match es with [] => Some s | e :: es => s' ← ev_step e s; ev_run es s' end.

Lemma ev_run_reach es s s' : ev_reach s -> ev_run es s = Some s' -> ev_reach s'.
Proof.
  revert s. induction es as [|e es IH]; simpl; intros s Hr H; [by simplify_eq|].
  destruct (ev_step e s) as [s1|] eqn:E; [|done]. by eapply IH; [eapply ev_reach_step|].
Qed.

(** ** A timed wait of a fiber can swallow an Auto signal *)
Definition signalling (e : Step) : bool :=
  match e with ECallSignal | ECaller _ _ => true | _ => false end.

Definition passing (p : CPc) : bool := match p with SEnter | SCheck | SReturn _ => true | _ => false end.

(** [signal()] on a signalled event returns at once, whoever sleeps on it. *)
Lemma signal_when_signalled e s s' :
  signalling e = true -> ev_step e s = Some s' -> signalled s = true -> Forall (fun p => passing p = true) (callers s) ->
  signalled s' = true /\ waiters s' = waiters s /\ Forall (fun p => passing p = true) (callers s').
Proof.
  intros He E Hs Hf. destruct e; try done; cbn [ev_step] in E; [|simplify_eq/=; split_and!; try done;
    apply Forall_app; split; [done|by constructor]].
  unfold caller_step in E. destruct (callers s !! k) as [p|] eqn:Hk; [|done]. cbn [mbind option_bind] in E.
  pose proof (Forall_lookup_1 _ _ _ _ Hf Hk) as Hp. cbn beta in Hp. rewrite Hs in E.
  destruct p; try done; [destruct (free s); [|done]|]; simplify_eq/=; rewrite ?Hs; split_and!; try done; by apply Forall_insert.
Qed.

Lemma signals_change_nothing es s s' :
  Forall (fun e => signalling e = true) es -> ev_run es s = Some s' -> signalled s = true ->
  Forall (fun p => passing p = true) (callers s) -> waiters s' = waiters s.
Proof.
  intros Hes. revert s. induction Hes as [|e es He _ IH]; simpl; intros s E Hs Hf; [by simplify_eq|].
  destruct (ev_step e s) as [s1|] eqn:E1; [|done]. simpl in E.
  destruct (signal_when_signalled e s s1 He E1 Hs Hf) as (Hs1 & <- & Hf1). by apply IH.
Qed.

(** Fiber 0 waits without, fiber 1 with a timeout; the signal goes to fiber 1,
    which runs again only after its deadline. *)
Definition swallowed : list Step :=
  [ECallWait true Forever; EWait 0 0; EWait 0 0; EWait 0 0; EWait 0 0; EWait 0 0;
   ECallWait true (Until 10); EWait 1 1; EWait 1 1; EWait 1 1; EWait 1 1; EWait 1 1;
   ECallSignal; ECaller 0 0; ECaller 0 0; ECaller 0 0; ECaller 0 0;
   EWait 1 12; EWait 1 12; EWait 1 12; EWait 1 12].

(** C31. A defect: [wait_until] of a fiber that was notified and runs again
    after its deadline returns false without looking at the signal.  On an
    [Auto] event the signal stays set, nobody else is notified, and every later
    [signal()] returns at once: a fiber in [wait()] sleeps on although the event
    is signalled, whatever the signallers do. *)
Theorem timed_fiber_swallows_signal :
  exists s, ev_run swallowed (event_new Auto false) = Some s /\
    signalled s = true /\ quiet s /\ at_rest s /\
    waiters s = [mkWaiter true None WAsleep; mkWaiter true (Some 10) (WReturn false)] /\
    forall es s', Forall (fun e => signalling e = true) es -> ev_run es s = Some s' -> waiters s' = waiters s.
Proof.
  eexists. split; [vm_compute; reflexivity|]. split_and!; [done|..|done|].
  - intros [|k] p Hk; simplify_eq/=. done.
  - intros s' (n & now & E). destruct n as [|[|n]]; vm_compute in E; done.
  - intros es s' Hes E. eapply signals_change_nothing; [done|done|done|]. by repeat constructor.
Qed.

(** ** Samples *)

(** A fiber and a thread with a timeout wait for a [Manual] event. *)
Definition sample_manual : list Step :=
  [ECallWait true Forever; EWait 0 0; EWait 0 0; EWait 0 0; EWait 0 0; EWait 0 0;
   ECallWait false (For 1 9); EWait 1 1; EWait 1 1; EWait 1 1; EWait 1 1; EWait 1 1;
   ECallSignal; ECaller 0 0; ECaller 0 0; ECaller 0 0; ECaller 0 0].
Definition sample_event (m : Mode) : Shared :=
  default (event_new m false) (ev_run sample_manual (event_new m false)).

Lemma sample_event_reach m : ev_reach (sample_event m).
Proof.
  apply (ev_run_reach sample_manual (event_new m false)); [constructor|]. destruct m; vm_compute; reflexivity.
Qed.

Lemma event_signals_accounted_witness :
  waiters (sample_event Auto) = [mkWaiter true None WWoken; mkWaiter false (Some 10) WAsleep] /\
  cv_ok (cv (sample_event Auto)) (waiters (sample_event Auto)).
Proof.
  split; [vm_compute; reflexivity|]. apply (event_signals_accounted (sample_event Auto) (sample_event_reach Auto)).
Defined.

Lemma event_releases_witness :
  waiters (sample_event Manual) = [mkWaiter true None WWoken; mkWaiter false (Some 10) WWoken] /\
  exists s', nsteps waits 2 (sample_event Manual) s' /\ (2 <= ranks (sample_event Manual))%nat.
Proof.
  split; [vm_compute; reflexivity|].
  destruct (wait_step 0 0 (sample_event Manual)) as [s1|] eqn:E1; [|vm_compute in E1; discriminate].
  destruct (wait_step 0 0 s1) as [s2|] eqn:E2; [|vm_compute in E1; injection E1 as <-; vm_compute in E2; discriminate].
  assert (nsteps waits 2 (sample_event Manual) s2) as Hn.
  { eapply nsteps_l; [exists 0%nat, 0; exact E1|]. eapply nsteps_l; [exists 0%nat, 0; exact E2|]. constructor. }
  exists s2. split; [exact Hn|].
  refine (proj1 (event_releases (sample_event Manual) 2 s2 (sample_event_reach Manual) _ _ _ Hn));
    [|vm_compute; reflexivity|left; vm_compute; reflexivity].
  intros k p Hk. change (callers (sample_event Manual)) with [SReturn true] in Hk.
  destruct k as [|k]; simpl in Hk; [injection Hk as <-; reflexivity|discriminate].
Defined.
