(* ===== verification/EventAny.v ===== *)
(** Events that depend on each other: [Event::any]
    (src/include/marl/event.hpp) and the recursion of [signal()] over the
    dependent events.

    A system has any number of events, each with the state of Event.v, and
    agents: a thread in a call of [signal()], with one frame for each nested
    [dep->signal()], or in a call of [any()].  A frame is an event and the
    index of the call among its callers.  A nested call is made with the locks
    of all the calls below it held. *)
From stdpp Require Import base numbers strings relations list sorting.
From S2P Require Import Prelude CondVar Event EventProps.

Local Open Scope nat_scope.

Record Agent := mkAgent {
  members : list nat;            (* any(): the events of the range *)
  todo : list nat;               (* any(): those the loop has not reached *)
  target : nat;                  (* any(): the event it made *)
  frames : list (nat * nat)      (* innermost call first *)
}.

Record Sys := mkSys { evs : list Shared; agents : list Agent }.

Definition set_frames (A : Agent) (fs : list (nat * nat)) : Agent :=
  mkAgent (members A) (todo A) (target A) fs.

(** Agent [a] makes a call on event [d]: [dep->signal()], or the loop body of
    [any] on its next member. *)
Definition push (a : nat) (A : Agent) (d : nat) (p : CPc) (s : Sys) : option Sys :=
  dv ← evs s !! d;
  Some (mkSys (<[d := set_callers (callers dv ++ [p]) dv]> (evs s))
              (<[a := set_frames A ((d, length (callers dv)) :: frames A)]> (agents s))).

(** The call of frame [(e, k)] makes a step. *)
Definition advance (e k choice : nat) (s : Sys) : option Sys :=
  ev ← evs s !! e; ev' ← caller_step k choice ev;
  Some (mkSys (<[e := ev']> (evs s)) (agents s)).

(** One step of agent [a]. *)
Definition run_agent (a choice : nat) (s : Sys) : option Sys :=
  A ← agents s !! a;
  match frames A with
  | [] =>
      match todo A with
      | [] => None
      | m :: rest => push a (mkAgent (members A) rest (target A) []) m (AEnter (target A)) s
      end
  | (e, k) :: below =>
      ev ← evs s !! e; p ← callers ev !! k;
      match p with
      | SReturn _ | AReturn => Some (mkSys (evs s) (<[a := set_frames A below]> (agents s)))
      | SDeps (d :: _) => s1 ← push a A d SEnter s; advance e k choice s1
      | ACheck d =>
          if signalled ev then s1 ← push a A d SEnter s; advance e k choice s1
          else advance e k choice s
      | _ => advance e k choice s
      end
  end.

(** What happens to one event without its callers. *)
Definition local (st : Step) : bool :=
  match st with ECaller _ _ | ECallSignal | ECallAny _ => false | _ => true end.

Inductive YStep :=
| YNew (m : Mode) (initial_state : bool)      (* Event(mode, initial_state) *)
| YAny (m : Mode) (range : list nat)          (* any(mode, begin, end) *)
| YSignal (e : nat)                           (* signal() *)
| YLocal (e : nat) (st : Step)                (* wait, test, clear, timeouts *)
| YRun (a choice : nat).

Definition sys_step (y : YStep) (s : Sys) : option Sys :=
  match y with
  | YNew m i => Some (mkSys (evs s ++ [event_new m i]) (agents s))
  | YAny m range =>
      if forallb (fun x => bool_decide (x < length (evs s))) range
      then Some (mkSys (evs s ++ [event_new m false])
                       (agents s ++ [mkAgent range range (length (evs s)) []]))
      else None
  | YSignal e =>
      push (length (agents s)) (mkAgent [] [] 0 []) e SEnter
        (mkSys (evs s) (agents s ++ [mkAgent [] [] 0 []]))
  | YLocal e st =>
      if local st then ev ← evs s !! e; ev' ← ev_step st ev; Some (mkSys (<[e := ev']> (evs s)) (agents s))
      else None
  | YRun a choice => run_agent a choice s
  end.

Inductive sys_reach : Sys -> Prop :=
| sys_start : sys_reach (mkSys [] [])
| sys_reach_step s y s' : sys_reach s -> sys_step y s = Some s' -> sys_reach s'.

(** ** The calls of one event *)
Definition next_pc (s : Shared) (p : CPc) : CPc :=
  match p with
  | SEnter => SCheck
  | SCheck => if signalled s then SReturn false else SNotify
  | SNotify => SDeps (deps s)
  | SDeps [] => SReturn true
  | SDeps (_ :: rest) => SDeps rest
  | AEnter d => ACheck d
  | ACheck d => APush d
  | APush _ => AReturn
  | p => p
  end.

Lemma caller_step_next k choice s s' p :
  caller_step k choice s = Some s' -> callers s !! k = Some p ->
  creturned p = false /\ callers s' = <[k := next_pc s p]> (callers s) /\
  deps s' = (match p with APush d => deps s ++ [d] | _ => deps s end) /\
  signalled s' = signalled s || bool_decide (p = SCheck) /\ initial s' = initial s /\
  (mutex s = None \/ cholding p = true).
Proof.
  intros E Hk. unfold caller_step in E. rewrite Hk in E. cbn [mbind option_bind] in E. unfold free in E.
  destruct p as [| | |[|d rest]|r|d|d|d|]; try done;
    try (case_bool_decide as Hm; [|done]); try destruct (signalled s) eqn:Hs;
    try (destruct (match mode s with Auto => _ | Manual => _ end); [|done]); injection E as <-;
    simpl; rewrite ?Hs; split_and!; auto.
Qed.

Lemma caller_can_step k s p :
  callers s !! k = Some p -> creturned p = false -> cholding p = true \/ mutex s = None ->
  exists choice s', caller_step k choice s = Some s'.
Proof.
  intros Hk Hr Hm. unfold caller_step, free. rewrite Hk. cbn [mbind option_bind].
  destruct (decide (p = SNotify)) as [->|Hn].
  - destruct (mode s); [|by exists 0; eexists]. destruct (notify_one_total (cv s) (waiters s)) as (c & ws & E).
    exists c. rewrite E. by eexists.
  - exists 0. destruct p as [| | |[|d rest]|r|d|d|d|]; try done; try (by eexists); [|by case_match; eexists|].
    all: destruct Hm as [?|Hm]; [done|]; rewrite bool_decide_eq_true_2 by done; by eexists.
Qed.

Lemma local_step_callers st s s' :
  local st = true -> ev_step st s = Some s' ->
  callers s' = callers s /\ deps s' = deps s /\ initial s' = initial s /\
  (signalled s' = true -> signalled s = true).
Proof.
  destruct st as [n now|n now|n|k c| | |fb t| |d]; try done; intros _; cbn [ev_step]; intros E.
  - unfold wait_step in E. destruct (waiters s !! n) as [w|]; [|done]. cbn [mbind option_bind] in E.
    destruct (wpc w); try destruct (cv_wait_step _ _ _ _ _ _) as [[[p c] op]|]; try done;
      repeat case_match; simplify_eq/=; done.
  - destruct (waiters s !! n) as [w|]; [|done]. cbn [mbind option_bind] in E.
    destruct (time_out now w); simplify_eq/=; done.
  - destruct (waiters s !! n) as [w|]; simplify_eq/=; done.
  - destruct (free s); [|done]. injection E as <-. unfold test.
    destruct (signalled s) eqn:Hs; simpl; [case_bool_decide|]; simpl; split_and!; congruence.
  - destruct (free s); [|done]. injection E as <-. done.
  - by injection E as <-.
Qed.

(** ** The invariant of the system *)

(** The event was signalled at some time. *)
Definition fired (s : Shared) : Prop := (0 < b2z (initial s) + cnt craised (callers s))%Z.

(** It was, or a call of [signal()] is going to see to it. *)
Definition served (s : Shared) : Prop :=
  fired s \/ exists k p, callers s !! k = Some p /\ (p = SEnter \/ p = SCheck).

(** A call of [signal()] that has yet to call [signal()] of [d]. *)
Definition coming (d : nat) (p : CPc) : Prop := p = SNotify \/ exists rest, p = SDeps rest /\ d ∈ rest.

(** [any()] is linking [t] to the event of this call. *)
Definition linking (t : nat) (p : CPc) : Prop := p = AEnter t \/ p = ACheck t \/ p = APush t.

(** The events a call goes on to. *)
Definition pc_deps (p : CPc) : list nat :=
  match p with SDeps rest => rest | AEnter d | ACheck d | APush d => [d] | _ => [] end.

Definition pc_at (s : Sys) (f : nat * nat) : option CPc := ev ← evs s !! fst f; callers ev !! snd f.

Definition above (f g : nat * nat) : Prop := fst g < fst f.

Record frames_ok (s : Sys) (fs : list (nat * nat)) : Prop := {
  f_sorted : StronglySorted above fs;
  f_live : Forall (fun f => is_Some (pc_at s f)) fs;
  f_held : Forall (fun f => exists p, pc_at s f = Some p /\ cholding p = true) (tail fs)
}.

Record YInv (s : Sys) : Prop := {
  y_reach e ev : evs s !! e = Some ev -> ev_reach ev;
  y_deps e ev d : evs s !! e = Some ev -> d ∈ deps ev -> e < d < length (evs s);
  y_pcs f p d : pc_at s f = Some p -> d ∈ pc_deps p -> fst f < d < length (evs s);
  y_todo a A : agents s !! a = Some A -> Forall (fun m => m < target A) (todo A) /\
               (todo A <> [] -> target A < length (evs s));
  y_frames a A : agents s !! a = Some A -> frames_ok s (frames A);
  y_disj a b A B f : agents s !! a = Some A -> agents s !! b = Some B ->
                     f ∈ frames A -> f ∈ frames B -> a = b;
  y_owner f p : pc_at s f = Some p -> creturned p = false ->
                exists a A, agents s !! a = Some A /\ f ∈ frames A;
  y_prop e ev d dv : evs s !! e = Some ev -> evs s !! d = Some dv -> d ∈ deps ev -> signalled ev = true ->
                     served dv \/ exists k p, callers ev !! k = Some p /\ coming d p;
  y_push e ev d dv k : evs s !! e = Some ev -> evs s !! d = Some dv -> callers ev !! k = Some (APush d) ->
                       signalled ev = true -> served dv;
  y_linked a A m : agents s !! a = Some A -> m ∈ members A ->
                   m ∈ todo A \/
                   (exists k p, (m, k) ∈ frames A /\ pc_at s (m, k) = Some p /\ linking (target A) p) \/
                   exists ev, evs s !! m = Some ev /\ target A ∈ deps ev
}.

Lemma sys_start_inv : YInv (mkSys [] []).
Proof. split; try done. Qed.

(** Steps that no call and no agent sees. *)
Definition unseen (s s' : Sys) : Prop :=
  length (evs s) <= length (evs s') /\
  (forall e ev, evs s !! e = Some ev -> exists ev', evs s' !! e = Some ev') /\
  forall e ev', evs s' !! e = Some ev' -> ev_reach ev' /\
    ((exists ev, evs s !! e = Some ev /\ callers ev' = callers ev /\ deps ev' = deps ev /\
        initial ev' = initial ev /\ (signalled ev' = true -> signalled ev = true)) \/
     (evs s !! e = None /\ callers ev' = [] /\ deps ev' = [])).

Lemma unseen_pc s s' f : unseen s s' -> pc_at s' f = pc_at s f.
Proof.
  intros (_ & Hex & Hev). unfold pc_at. destruct (evs s' !! fst f) as [ev'|] eqn:E'.
  - destruct (Hev _ _ E') as [_ [(ev & -> & Ek & _)|(-> & Ek & _)]]; simpl; by rewrite Ek.
  - destruct (evs s !! fst f) as [ev|] eqn:E; [|done]. destruct (Hex _ _ E) as [? ?]. congruence.
Qed.

Lemma frames_ok_ext s s' fs :
  (forall f, f ∈ fs -> pc_at s' f = pc_at s f) -> frames_ok s fs -> frames_ok s' fs.
Proof.
  intros Heq [Hs Hl Hh]. split; [done|..].
  - apply Forall_forall. intros f Hf. rewrite Heq by done. by apply (proj1 (Forall_forall _ _) Hl).
  - apply Forall_forall. intros f Hf. rewrite Heq by (by destruct fs; [|right]).
    by apply (proj1 (Forall_forall _ _) Hh).
Qed.

Lemma unseen_inv s s' : YInv s -> unseen s s' -> agents s' = agents s -> YInv s'.
Proof.
  intros HY HU Ea. pose proof (fun f => unseen_pc s s' f HU) as Hpc. destruct HU as (Hlen & Hex & Hev).
  assert (forall e ev' x, evs s' !! e = Some ev' -> x ∈ deps ev' ->
    exists ev, evs s !! e = Some ev /\ x ∈ deps ev) as Hd.
  { intros e ev' x E Hx. destruct (Hev e ev' E) as [_ [(ev & ? & _ & Ed & _)|(_ & _ & Ed)]]; rewrite Ed in Hx; [eauto|by apply elem_of_nil in Hx]. }
  assert (forall e ev ev', evs s !! e = Some ev -> evs s' !! e = Some ev' -> served ev -> served ev') as Hsv.
  { intros e ev ev' E E'. destruct (Hev e ev' E') as [_ [(ev0 & E0 & Ek & _ & Ei & _)|(? & _)]]; [|congruence].
    assert (ev0 = ev) as -> by congruence. unfold served, fired. by rewrite Ek, Ei. }
  split; rewrite ?Ea.
  - intros e ev E. apply (Hev e ev E).
  - intros e ev d E Hdd. destruct (Hd e ev d E Hdd) as (ev0 & E0 & Hd0). pose proof (y_deps s HY e ev0 d E0 Hd0). lia.
  - intros f p d. rewrite Hpc. intros Hp Hx. pose proof (y_pcs s HY f p d Hp Hx). lia.
  - intros a A HA. destruct (y_todo s HY a A HA) as [H1 H2]. split; [done|]. intros H3. specialize (H2 H3). lia.
  - intros a A HA. apply (frames_ok_ext s); [auto|]. by apply (y_frames s HY a).
  - apply HY.
  - intros f p. rewrite Hpc. apply HY.
  - intros e ev d dv E Ed Hdd Hs. destruct (Hev e ev E) as [_ [(ev0 & E0 & Ek & Edp & _ & Hs0)|(_ & _ & Edp)]];
      rewrite Edp in Hdd; [|by apply elem_of_nil in Hdd].
    pose proof (y_deps s HY e ev0 d E0 Hdd) as [_ Hlt]. apply lookup_lt_is_Some in Hlt as [dv0 Ed0].
    destruct (y_prop s HY e ev0 d dv0 E0 Ed0 Hdd (Hs0 Hs)) as [?|?]; [left; by eapply Hsv|right; by rewrite Ek].
  - intros e ev d dv k E Ed Hk Hs. destruct (Hev e ev E) as [_ [(ev0 & E0 & Ek & _ & _ & Hs0)|(_ & Ek & _)]];
      rewrite Ek in Hk; [|done].
    assert (d < length (evs s)) as [dv0 Ed0]%lookup_lt_is_Some.
    { eapply (y_pcs s HY (e, k) (APush d) d); [|by left]. unfold pc_at. simpl. by rewrite E0. }
    eapply Hsv; [done|done|]. by eapply (y_push s HY e ev0 d dv0 k E0 Ed0 Hk), Hs0.
  - intros a A m HA Hm. destruct (y_linked s HY a A m HA Hm) as [?|[(k & p & ? & ? & ?)|(ev & E & Ht)]]; [by left|..].
    + right. left. exists k, p. by rewrite Hpc.
    + right. right. destruct (Hex m ev E) as [ev' E']. exists ev'. split; [done|].
      destruct (Hev m ev' E') as [_ [(ev0 & E0 & _ & Edp & _)|(? & _)]]; congruence.
Qed.

(** *** A step of a call *)
Lemma signalled_fired ev : Inv ev -> signalled ev = true -> fired ev.
Proof.
  intros HI Hs. pose proof (v_count ev HI) as Hc. pose proof (v_nonneg ev HI) as [Ht Hcl]. unfold fired, consumed in *.
  rewrite Hs in Hc. pose proof (cnt_nonneg released (waiters ev)). simpl in Hc. destruct (mode ev); lia.
Qed.

Lemma craised_next ev p : craised p = true -> craised (next_pc ev p) = true.
Proof. by destruct p as [| | |[|]|[]| | | |]. Qed.

Lemma served_step k choice ev ev' p :
  Inv ev -> callers ev !! k = Some p -> caller_step k choice ev = Some ev' -> served ev -> served ev'.
Proof.
  intros HI Hk E. pose proof (caller_step_inv ev k choice ev' HI E) as HI'.
  destruct (caller_step_next k choice ev ev' p E Hk) as (_ & Ek & _ & Es & Ei & _). intros [Hf|(j & q & Hj & Hq)].
  - left. unfold fired in *. rewrite Ei, Ek, (cnt_insert _ _ _ p) by done.
    pose proof (craised_next ev p). destruct (craised p); simpl; [rewrite H by done; simpl; lia|].
    destruct (craised (next_pc ev p)); simpl; lia.
  - destruct (decide (j = k)) as [->|Hne]; [|right; exists j, q; by rewrite Ek, list_lookup_insert_ne].
    assert (q = p) as -> by congruence. destruct Hq as [->| ->].
    + right. exists k, SCheck. rewrite Ek, insert_self by eauto. auto.
    + left. apply signalled_fired; [done|]. rewrite Es. by rewrite orb_true_r.
Qed.

Lemma advance_pc e ev ev' k s j p' :
  evs s !! e = Some ev -> callers ev' = <[k := p']> (callers ev) -> is_Some (callers ev !! k) ->
  pc_at (mkSys (<[e := ev']> (evs s)) (agents s)) j = (if decide (j = (e, k)) then Some p' else pc_at s j).
Proof.
  intros E Ek Hk. destruct j as [x y]. unfold pc_at. simpl. destruct (decide (x = e)) as [->|Hne].
  - rewrite insert_self by eauto. simpl. rewrite Ek, E. simpl. destruct (decide (y = k)) as [->|Hne].
    + rewrite decide_True by done. by apply insert_self.
    + rewrite decide_False by congruence. by rewrite list_lookup_insert_ne.
  - rewrite decide_False by congruence. by rewrite list_lookup_insert_ne.
Qed.

Lemma frames_ok_advance s s' fs f p' :
  frames_ok s fs -> (forall g, pc_at s' g = if decide (g = f) then Some p' else pc_at s g) ->
  (f ∈ tail fs -> cholding p' = true) -> frames_ok s' fs.
Proof.
  intros [Hs Hl Hh] Hpc Hf. split; [done|..].
  - eapply Forall_impl; [exact Hl|]. intros g Hg. rewrite Hpc. case_decide; eauto.
  - apply Forall_forall. intros g Hg. rewrite Hpc. case_decide as Heq.
    + subst g. eexists. split; [done|]. by apply Hf.
    + by apply (proj1 (Forall_forall _ _) Hh).
Qed.

(** Where the calls and links of event [e] go on to after a step of call [k]. *)
Lemma advance_pc_deps ev p d :
  d ∈ pc_deps (next_pc ev p) -> d ∈ pc_deps p \/ d ∈ deps ev.
Proof.
  destruct p as [| | |[|x rest]|r|x|x|x|]; simpl; repeat case_match; simpl;
    rewrite ?elem_of_cons, ?elem_of_nil; tauto.
Qed.

Lemma coming_next ev p d :
  coming d p -> d ∈ deps ev -> (exists rest, p = SDeps (d :: rest)) \/ coming d (next_pc ev p).
Proof.
  intros [->|(rest & -> & Hd)] Hdep; [right; right; by exists (deps ev)|].
  destruct rest as [|x rest]; [by apply elem_of_nil in Hd|]. apply elem_of_cons in Hd as [->|Hd]; [left; eauto|].
  right. right. by exists rest.
Qed.

Section advance.
Context (s : Sys) (e k choice : nat) (ev ev' : Shared) (p : CPc).
Context (HY : YInv s) (E : evs s !! e = Some ev) (Hk : callers ev !! k = Some p).
Context (Hstep : caller_step k choice ev = Some ev').
Context (Htop : forall a A, agents s !! a = Some A -> (e, k) ∈ tail (frames A) ->
                cholding (next_pc ev p) = true).
(** The nested call the step stands for has been made. *)
Context (Hcalled : forall d rest dv, p = SDeps (d :: rest) \/ p = ACheck d /\ signalled ev = true ->
                   evs s !! d = Some dv -> served dv).

Let s' := mkSys (<[e := ev']> (evs s)) (agents s).

Lemma advance_lookup x v : evs s' !! x = Some v -> x = e /\ v = ev' \/ x <> e /\ evs s !! x = Some v.
Proof. apply lookup_insert_cases. Qed.

Lemma advance_served d dv dv' :
  evs s !! d = Some dv -> evs s' !! d = Some dv' -> served dv -> served dv'.
Proof.
  intros Ed [[-> ->]|[_ Hd]]%advance_lookup; [|by assert (dv' = dv) as -> by congruence].
  assert (dv = ev) as -> by congruence. apply (served_step k choice ev ev' p); try done.
  apply ev_reach_inv. by eapply (y_reach s HY).
Qed.

Lemma advance_prop d dv' :
  evs s' !! d = Some dv' -> d ∈ deps ev' -> signalled ev' = true ->
  served dv' \/ exists j q, callers ev' !! j = Some q /\ coming d q.
Proof.
  destruct (caller_step_next k choice ev ev' p Hstep Hk) as (_ & Ek & Edp & Es & Ei & _).
  assert (is_Some (callers ev !! k)) as Hks by eauto.
  intros Ed Hd Hs. rewrite Es in Hs.
  assert (is_Some (evs s !! d)) as [dv Ed0].
  { destruct (advance_lookup d dv' Ed) as [[-> _]|[_ ?]]; eauto. }
  destruct (signalled ev) eqn:Hs0; cycle 1.
  { simpl in Hs. apply bool_decide_eq_true_1 in Hs. subst p. right. exists k, SNotify.
    rewrite Ek, insert_self by done. simpl. rewrite Hs0. split; [done|by left]. }
  assert (d ∈ deps ev \/ p = APush d) as [Hd0|Hp].
  { rewrite Edp in Hd. destruct p; auto. apply elem_of_app in Hd as [?|<-%list_elem_of_singleton]; auto. }
  - destruct (y_prop s HY e ev d dv E Ed0 Hd0 Hs0) as [?|(j & q & Hj & Hq)]; [left; by eapply advance_served|].
    destruct (decide (j = k)) as [->|Hne]; [|right; exists j, q; by rewrite Ek, list_lookup_insert_ne].
    assert (q = p) as -> by congruence. destruct (coming_next ev p d Hq Hd0) as [(rest & Hp)|Hc].
    + left. eapply advance_served; [done|done|]. apply (Hcalled d rest dv); [by left|done].
    + right. exists k, (next_pc ev p). by rewrite Ek, insert_self.
  - left. eapply advance_served; [done|done|]. eapply (y_push s HY e ev d dv k); try done. by rewrite <- Hp.
Qed.

Lemma advance_push j d dv' :
  evs s' !! d = Some dv' -> callers ev' !! j = Some (APush d) -> signalled ev' = true -> served dv'.
Proof.
  destruct (caller_step_next k choice ev ev' p Hstep Hk) as (_ & Ek & Edp & Es & Ei & _).
  assert (Inv ev) as HI by (by eapply ev_reach_inv, (y_reach s HY)).
  intros Ed Hj Hs. rewrite Es in Hs. assert (is_Some (evs s !! d)) as [dv Ed0].
  { destruct (advance_lookup d dv' Ed) as [[-> _]|[_ ?]]; eauto. }
  eapply advance_served; [done|done|]. rewrite Ek in Hj. apply lookup_insert_cases in Hj as [[-> Hn]|[Hne Hj]].
  - assert (p = ACheck d) as Hp by (destruct p as [| | |[|]| | | | |]; simplify_eq/=; repeat case_match; done).
    apply (Hcalled d [] dv); [|done]. right. split; [done|]. subst p. simpl in Hs. by rewrite orb_false_r in Hs.
  - apply (y_push s HY e ev d dv j E Ed0 Hj). apply orb_true_iff in Hs as [?|Hs%bool_decide_eq_true_1]; [done|].
    subst p. pose proof (v_caller ev HI k SCheck Hk) as [Hm _]. pose proof (v_caller ev HI j _ Hj) as [Hm' _].
    specialize (Hm eq_refl). specialize (Hm' eq_refl). congruence.
Qed.

Lemma advance_linked a A m :
  agents s' !! a = Some A -> m ∈ members A ->
  m ∈ todo A \/
  (exists k p, (m, k) ∈ frames A /\ pc_at s' (m, k) = Some p /\ linking (target A) p) \/
  exists ev, evs s' !! m = Some ev /\ target A ∈ deps ev.
Proof.
  destruct (caller_step_next k choice ev ev' p Hstep Hk) as (_ & _ & Edp & _).
  assert (forall g, pc_at s' g = if decide (g = (e, k)) then Some (next_pc ev p) else pc_at s g) as Hpc.
  { intros g. destruct (caller_step_next k choice ev ev' p Hstep Hk) as (_ & Ek & _). by apply (advance_pc e ev ev'); eauto. }
  assert (pc_at s (e, k) = Some p) as Hp0 by (unfold pc_at; simpl; by rewrite E).
  intros HA Hm.
  assert (forall v, evs s !! m = Some v -> target A ∈ deps v ->
    exists v', evs s' !! m = Some v' /\ target A ∈ deps v') as Hkeep.
  { intros v Hv Ht. destruct (decide (m = e)) as [->|Hne]; [|exists v; unfold s'; simpl; by rewrite list_lookup_insert_ne].
    exists ev'. split; [apply insert_self; eauto|]. assert (v = ev) as -> by congruence.
    rewrite Edp. destruct p; try done. apply elem_of_app. by left. }
  destruct (y_linked s HY a A m HA Hm) as [?|[(j & q & Hj & Hq & Hl)|(v & Hv & Ht)]]; [by left| |right; right; eauto].
  destruct (decide ((m, j) = (e, k))) as [[= -> ->]|Hne]; [|by right; left; exists j, q; rewrite Hpc, decide_False].
  assert (q = p) as -> by congruence. destruct Hl as [Hl|[Hl|Hl]].
  + right. left. exists k, (next_pc ev p). rewrite Hpc, decide_True, Hl by done. split_and!; [done|done|right; by left].
  + right. left. exists k, (next_pc ev p). rewrite Hpc, decide_True, Hl by done. split_and!; [done|done|right; by right].
  + right. right. exists ev'. split; [apply insert_self; eauto|]. rewrite Edp, Hl. apply elem_of_app. right. by left.
Qed.

Lemma advance_inv : YInv s'.
Proof.
  destruct (caller_step_next k choice ev ev' p Hstep Hk) as (Hnr & Ek & Edp & Es & Ei & _).
  assert (forall g, pc_at s' g = if decide (g = (e, k)) then Some (next_pc ev p) else pc_at s g) as Hpc.
  { intros g. by apply (advance_pc e ev ev'); eauto. }
  assert (pc_at s (e, k) = Some p) as Hp0 by (unfold pc_at; simpl; by rewrite E).
  assert (length (evs s') = length (evs s)) as Hlen by apply length_insert.
  assert (forall x v d, evs s' !! x = Some v -> d ∈ deps v ->
    exists v0, evs s !! x = Some v0 /\ (d ∈ deps v0 \/ x = e /\ p = APush d)) as Hdep.
  { intros x v d [[-> ->]|[_ Hx]]%advance_lookup Hd; [|eauto]. exists ev. split; [done|]. rewrite Edp in Hd.
    destruct p; auto. apply elem_of_app in Hd as [?|<-%list_elem_of_singleton]; auto. }
  split; rewrite ?Hlen.
  - intros x v [[-> ->]|[_ Hx]]%advance_lookup; [|by eapply (y_reach s HY)].
    apply (ev_reach_step ev (ECaller k choice)); [by eapply (y_reach s HY)|done].
  - intros x v d Hx Hd. destruct (Hdep x v d Hx Hd) as (v0 & Hx0 & [Hd0|[-> Hp]]); [by eapply (y_deps s HY)|].
    apply (y_pcs s HY (e, k) p d Hp0). rewrite Hp. by left.
  - intros f q d. rewrite Hpc. destruct (decide (f = (e, k))) as [Hf|Hf]; [|by apply (y_pcs s HY)]. subst f. intros [= <-] Hd.
    destruct (advance_pc_deps ev p d Hd); [by apply (y_pcs s HY (e, k) p d Hp0)|by eapply (y_deps s HY)].
  - apply HY.
  - intros a A HA. eapply frames_ok_advance; [by apply (y_frames s HY a)|exact Hpc|]. by apply (Htop a).
  - apply HY.
  - intros f q. rewrite Hpc. destruct (decide (f = (e, k))) as [Hf|Hf]; [|by apply (y_owner s HY)].
    subst f. intros _ _. by apply (y_owner s HY (e, k) p).
  - intros x v d dv [[-> ->]|[Hne Hx]]%advance_lookup Hd Hin Hs; [by apply (advance_prop d)|].
    assert (is_Some (evs s !! d)) as [dv0 Ed0].
    { destruct (advance_lookup d dv Hd) as [[-> _]|[_ ?]]; eauto. }
    destruct (y_prop s HY x v d dv0 Hx Ed0 Hin Hs); [left; by eapply advance_served|by right].
  - intros x v d dv j [[-> ->]|[Hne Hx]]%advance_lookup Hd Hj Hs; [by apply (advance_push j d)|].
    assert (is_Some (evs s !! d)) as [dv0 Ed0].
    { destruct (advance_lookup d dv Hd) as [[-> _]|[_ ?]]; eauto. }
    eapply advance_served; [done|done|]. by eapply (y_push s HY x v d dv0 j).
  - apply advance_linked.
Qed.
End advance.

(** *** A new call *)
Lemma served_snoc dv p : served dv -> craised p = false -> served (set_callers (callers dv ++ [p]) dv).
Proof.
  intros [Hf|(k & q & Hk & Hq)] Hp; [left|right].
  - unfold fired in *. simpl. rewrite cnt_app. simpl. rewrite Hp. simpl. lia.
  - exists k, q. split; [by apply lookup_app_l_Some|done].
Qed.

Section push.
Context (s : Sys) (a d : nat) (A0 A : Agent) (p : CPc) (dv : Shared).
Context (HY : YInv s) (HA0 : agents s !! a = Some A0) (Hd : evs s !! d = Some dv).
Context (Em : members A = members A0) (Et : target A = target A0) (Ef : frames A = frames A0).
Context (Hp : p = SEnter /\ todo A0 = todo A \/ p = AEnter (target A) /\ todo A0 = d :: todo A).
Context (Hbelow : Forall (fun f => fst f < d /\ exists q, pc_at s f = Some q /\ cholding q = true) (frames A)).

Let f0 := (d, length (callers dv)).
Let dv' := set_callers (callers dv ++ [p]) dv.
Let s' := mkSys (<[d := dv']> (evs s)) (<[a := set_frames A (f0 :: frames A)]> (agents s)).

Lemma push_is : push a A d p s = Some s'.
Proof. unfold push. by rewrite Hd. Qed.

Lemma push_lookup x v : evs s' !! x = Some v -> x = d /\ v = dv' \/ x <> d /\ evs s !! x = Some v.
Proof. apply lookup_insert_cases. Qed.

Lemma push_agent b B :
  agents s' !! b = Some B -> b = a /\ B = set_frames A (f0 :: frames A) \/ b <> a /\ agents s !! b = Some B.
Proof. apply lookup_insert_cases. Qed.

Lemma push_fresh : pc_at s f0 = None.
Proof. clear Et. unfold pc_at. simpl. rewrite Hd. simpl. apply lookup_ge_None_2. lia. Qed.

Lemma push_pc f : pc_at s' f = if decide (f = f0) then Some p else pc_at s f.
Proof.
  clear Et. destruct f as [x y]. unfold pc_at. simpl. destruct (decide (x = d)) as [->|Hne].
  - rewrite insert_self by eauto. simpl. rewrite Hd. simpl. destruct (decide ((d, y) = f0)) as [[= ->]|Hy].
    + by rewrite list_lookup_middle.
    + destruct (decide (y < length (callers dv))) as [?|?]; [by apply lookup_app_l|].
      rewrite !(lookup_ge_None_2) by (rewrite ?length_app; simpl; unfold f0 in Hy; assert (y <> length (callers dv)) by congruence; lia).
      done.
  - rewrite decide_False by (unfold f0; congruence). by rewrite list_lookup_insert_ne.
Qed.

(** An event after the call has the links, the signal and the calls of before. *)
Lemma push_event x v :
  evs s' !! x = Some v ->
  exists v0, evs s !! x = Some v0 /\ deps v = deps v0 /\ signalled v = signalled v0 /\
    (served v0 -> served v) /\
    (forall j q, callers v0 !! j = Some q -> callers v !! j = Some q) /\
    (forall j t, callers v !! j = Some (APush t) -> callers v0 !! j = Some (APush t)).
Proof.
  intros [[-> ->]|[_ Hx]]%push_lookup; [|by exists v]. exists dv. split_and!; try done.
  - intros ?. apply served_snoc; [done|]. by destruct Hp as [[-> _]|[-> _]].
  - intros j q Hj. by apply lookup_app_l_Some.
  - intros j t [?|[_ E]]%lookup_snoc_cases; [done|]. destruct Hp as [[? _]|[? _]]; congruence.
Qed.

Lemma push_old f : f ∈ frames A -> f <> f0.
Proof.
  intros Hf ->. apply (proj1 (Forall_forall _ _) Hbelow) in Hf as (_ & q & Hq & _). by rewrite push_fresh in Hq.
Qed.

Lemma push_other b B f : agents s !! b = Some B -> f ∈ frames B -> f <> f0.
Proof.
  intros HB Hf ->. pose proof (f_live _ _ (y_frames s HY b B HB)) as Hl.
  apply (proj1 (Forall_forall _ _) Hl) in Hf as [q Hq]. by rewrite push_fresh in Hq.
Qed.

Lemma push_frames b B : agents s' !! b = Some B -> frames_ok s' (frames B).
Proof.
  intros [[-> ->]|[_ HB]]%push_agent; simpl; cycle 1.
  { apply (frames_ok_ext s); [|by apply (y_frames s HY b)]. intros f Hf.
    rewrite push_pc, decide_False by (by apply (push_other b B)). done. }
  pose proof (y_frames s HY a A0 HA0) as Hok. rewrite <- Ef in Hok. destruct Hok as [Hs Hl Hh]. split.
  - constructor; [done|]. eapply Forall_impl; [exact Hbelow|]. intros f [Hf _]. done.
  - constructor; [rewrite push_pc, decide_True by done; eauto|]. apply Forall_forall. intros f Hf.
    rewrite push_pc, decide_False by (by apply push_old). by apply (proj1 (Forall_forall _ _) Hl).
  - apply Forall_forall. intros f Hf. rewrite push_pc, decide_False by (by apply push_old).
    by apply (proj1 (Forall_forall _ _) Hbelow).
Qed.

Lemma push_linked b B m :
  agents s' !! b = Some B -> m ∈ members B ->
  m ∈ todo B \/
  (exists k p, (m, k) ∈ frames B /\ pc_at s' (m, k) = Some p /\ linking (target B) p) \/
  exists ev, evs s' !! m = Some ev /\ target B ∈ deps ev.
Proof.
  assert (forall x t, (exists v, evs s !! x = Some v /\ t ∈ deps v) -> exists v, evs s' !! x = Some v /\ t ∈ deps v) as Hkeep.
  { intros x t (v & Hv & Ht). destruct (decide (x = d)) as [->|Hne].
    - exists dv'. split; [apply insert_self; eauto|]. by assert (v = dv) as -> by congruence.
    - exists v. unfold s'. simpl. by rewrite list_lookup_insert_ne. }
  intros [[-> ->]|[Hb HB]]%push_agent Hm.
  - simpl in *. rewrite Em in Hm. rewrite Et, Ef.
    destruct (y_linked s HY a A0 m HA0 Hm) as [Htd|[(j & q & Hj & Hq & Hl)|?]]; [|..|right; right; auto].
    + destruct Hp as [[_ E]|[E1 E]]; rewrite E in Htd; [by left|]. apply elem_of_cons in Htd as [->|?]; [|by left].
      right. left. exists (length (callers dv)), p. rewrite push_pc, decide_True by done. split_and!; [by left|done|].
      left. by rewrite E1, Et.
    + right. left. exists j, q. rewrite push_pc, decide_False by (by apply (push_other a A0)). split_and!; [by right|done|done].
  - destruct (y_linked s HY b B m HB Hm) as [?|[(j & q & Hj & Hq & Hl)|?]]; [by left|..|right; right; auto].
    right. left. exists j, q. rewrite push_pc, decide_False by (by apply (push_other b B)). done.
Qed.

Lemma push_inv : YInv s'.
Proof.
  assert (length (evs s') = length (evs s)) as Hlen by apply length_insert.
  assert (d < length (evs s)) as Hdl by (by eapply lookup_lt_Some).
  destruct (y_todo s HY a A0 HA0) as [Ht1 Ht2].
  assert (forall x, x ∈ pc_deps p -> d < x < length (evs s)) as Hpd.
  { intros x Hx. destruct Hp as [[-> _]|[-> E]]; [by apply elem_of_nil in Hx|]. apply list_elem_of_singleton in Hx as ->.
    rewrite E in Ht1, Ht2. apply Forall_cons in Ht1 as [? _]. rewrite Et. split; [done|by apply Ht2]. }
  split; rewrite ?Hlen.
  - intros x v [[-> ->]|[_ Hx]]%push_lookup; [|by eapply (y_reach s HY)].
    destruct Hp as [[E _]|[E _]]; unfold dv'; rewrite E.
    + apply (ev_reach_step dv ECallSignal); [by eapply (y_reach s HY)|done].
    + apply (ev_reach_step dv (ECallAny (target A))); [by eapply (y_reach s HY)|done].
  - intros x v t (v0 & Hx & -> & _)%push_event. by apply (y_deps s HY).
  - intros f q x. rewrite push_pc. destruct (decide (f = f0)) as [->|]; [|by apply (y_pcs s HY)].
    intros [= <-]. apply Hpd.
  - intros b B [[-> ->]|[_ HB]]%push_agent; [|by apply (y_todo s HY b)]. simpl. rewrite Et.
    destruct Hp as [[_ E]|[_ E]]; rewrite E in Ht1, Ht2; [done|]. apply Forall_cons in Ht1 as [_ ?]. split; [done|].
    intros _. by apply Ht2.
  - apply push_frames.
  - intros b c B C f [[-> ->]|[Hb HB]]%push_agent [[-> ->]|[Hc HC]]%push_agent; simpl; try done; rewrite ?elem_of_cons, ?Ef.
    + intros [->|H1] H2; [by destruct (push_other c C f0 HC H2)|by eapply (y_disj s HY a c)].
    + intros H1 [->|H2]; [by destruct (push_other b B f0 HB H1)|by eapply (y_disj s HY b a)].
    + by eapply (y_disj s HY).
  - intros f q. rewrite push_pc. destruct (decide (f = f0)) as [->|Hf].
    + intros _ _. exists a. eexists. split; [apply insert_self; eauto|]. by left.
    + intros Hq Hr. destruct (y_owner s HY f q Hq Hr) as (b & B & HB & Hin). destruct (decide (b = a)) as [->|Hne].
      * exists a. eexists. split; [apply insert_self; eauto|]. right. rewrite Ef. by assert (B = A0) as -> by congruence.
      * exists b, B. unfold s'. simpl. by rewrite list_lookup_insert_ne.
  - intros x v t tv (v0 & Hx & E1 & E2 & _ & Hc & _)%push_event (t0 & Htv & _ & _ & Hsv & _)%push_event.
    rewrite E1, E2. intros Hin Hs. destruct (y_prop s HY x v0 t t0 Hx Htv Hin Hs) as [?|(j & q & Hj & Hq)]; [auto|].
    right. exists j, q. auto.
  - intros x v t tv j (v0 & Hx & E1 & E2 & _ & _ & Hc)%push_event (t0 & Htv & _ & _ & Hsv & _)%push_event.
    rewrite E2. intros Hj%Hc Hs. by eapply Hsv, (y_push s HY x v0 t t0 j).
  - apply push_linked.
Qed.
End push.

(** *** A call returns; an agent starts *)
Lemma pop_inv s a A e k below p :
  YInv s -> agents s !! a = Some A -> frames A = (e, k) :: below -> pc_at s (e, k) = Some p -> creturned p = true ->
  YInv (mkSys (evs s) (<[a := set_frames A below]> (agents s))).
Proof.
  intros HY HA Ef Hp Hr.
  assert (forall b B, <[a := set_frames A below]> (agents s) !! b = Some B ->
    exists B0, agents s !! b = Some B0 /\ members B = members B0 /\ todo B = todo B0 /\ target B = target B0 /\
      (frames B = frames B0 \/ b = a /\ frames B0 = (e, k) :: frames B)) as Hlook.
  { intros b B [[-> ->]|[_ HB]]%lookup_insert_cases; [|exists B; auto 10]. exists A. simpl. auto 10. }
  split; try apply HY; simpl.
  - intros b B (B0 & HB0 & _ & -> & -> & _)%Hlook. by apply (y_todo s HY b).
  - intros b B (B0 & HB0 & _ & _ & _ & EB)%Hlook. apply (frames_ok_ext s); [done|].
    destruct EB as [->|[-> Ef0]]; [by apply (y_frames s HY b)|]. destruct (y_frames s HY a B0 HB0) as [Hs Hl Hh]. rewrite Ef0 in Hs, Hl, Hh. split.
    + by apply StronglySorted_inv in Hs as [? _].
    + by apply Forall_cons in Hl as [_ ?].
    + simpl in Hh. destruct (frames B); [done|]. by apply Forall_cons in Hh as [_ ?].
  - intros b c B C f (B0 & HB & _ & _ & _ & EB)%Hlook (C0 & HC & _ & _ & _ & EC)%Hlook Hfb Hfc.
    apply (y_disj s HY b c B0 C0 f HB HC).
    + destruct EB as [<-|[_ ->]]; [done|by right].
    + destruct EC as [<-|[_ ->]]; [done|by right].
  - intros f q Hq Hn. destruct (y_owner s HY f q Hq Hn) as (b & B & HB & Hf).
    destruct (decide (b = a)) as [->|Hne]; [|exists b, B; by rewrite list_lookup_insert_ne].
    exists a. eexists. split; [apply insert_self; eauto|]. assert (B = A) as -> by congruence. rewrite Ef in Hf. simpl.
    apply elem_of_cons in Hf as [->|?]; [|done]. change (pc_at s (e, k) = Some q) in Hq. congruence.
  - intros b B m (B0 & HB & -> & -> & -> & EB)%Hlook Hm.
    destruct (y_linked s HY b B0 m HB Hm) as [?|[(j & q & Hj & Hq & Hl)|?]]; [by left|right; left|by right; right].
    exists j, q. split; [|done]. destruct EB as [->|[_ EB]]; [done|]. rewrite EB in Hj.
    apply elem_of_cons in Hj as [[= -> ->]|?]; [|done]. assert (q = p) as -> by congruence.
    destruct Hl as [->|[->| ->]]; done.
Qed.

Lemma agent_start_inv s range t :
  YInv s -> Forall (fun m => m < t) range -> (range <> [] -> t < length (evs s)) ->
  YInv (mkSys (evs s) (agents s ++ [mkAgent range range t []])).
Proof.
  intros HY Hr Ht. split; try apply HY; simpl.
  - intros a A [HA|[_ ->]]%lookup_snoc_cases; [by apply (y_todo s HY a)|done].
  - intros a A [HA|[_ ->]]%lookup_snoc_cases; [|by repeat constructor].
    apply (frames_ok_ext s); [done|by apply (y_frames s HY a)].
  - intros a b A B f [HA|[-> ->]]%lookup_snoc_cases [HB|[-> ->]]%lookup_snoc_cases; simpl; rewrite ?elem_of_nil; try done.
    by apply (y_disj s HY).
  - intros f p Hp Hn. destruct (y_owner s HY f p Hp Hn) as (a & A & HA & Hf). exists a, A.
    split; [by apply lookup_app_l_Some|done].
  - intros a A m [HA|[_ ->]]%lookup_snoc_cases Hm; [by apply (y_linked s HY a)|by left].
Qed.

Lemma frames_below s A a e k below p d :
  YInv s -> agents s !! a = Some A -> frames A = (e, k) :: below -> pc_at s (e, k) = Some p -> cholding p = true ->
  e < d -> Forall (fun f => fst f < d /\ exists q, pc_at s f = Some q /\ cholding q = true) (frames A).
Proof.
  intros HY HA Ef Hp Hh Hd. destruct (y_frames s HY a A HA) as [Hs _ Hheld]. rewrite Ef in *.
  apply StronglySorted_inv in Hs as [_ Hs]. constructor; [by eauto|]. simpl in Hheld.
  apply Forall_forall. intros f Hf. split; [|by apply (proj1 (Forall_forall _ _) Hheld)].
  apply (proj1 (Forall_forall _ _) Hs) in Hf. unfold above in Hf. simpl in Hf. lia.
Qed.

(** The nested call and the step of the caller together. *)
Lemma nested_inv s a A e k below p d choice ev s1 s2 :
  YInv s -> agents s !! a = Some A -> frames A = (e, k) :: below ->
  evs s !! e = Some ev -> callers ev !! k = Some p ->
  (exists rest, p = SDeps (d :: rest)) \/ p = ACheck d ->
  push a A d SEnter s = Some s1 -> advance e k choice s1 = Some s2 -> YInv s2.
Proof.
  intros HY HA Ef E Hk Hp H1 H2. assert (pc_at s (e, k) = Some p) as Hpc by (unfold pc_at; simpl; by rewrite E).
  assert (d ∈ pc_deps p) as Hdp by (destruct Hp as [[rest ->]| ->]; by left).
  destruct (y_pcs s HY (e, k) p d Hpc Hdp) as [Hed Hdl]. simpl in Hed.
  apply lookup_lt_is_Some in Hdl as [dv Hd].
  assert (cholding p = true) as Hh by (by destruct Hp as [[rest ->]| ->]).
  pose proof (frames_below s A a e k below p d HY HA Ef Hpc Hh Hed) as Hb.
  pose proof (push_inv s a d A A SEnter dv HY HA Hd eq_refl eq_refl eq_refl (or_introl (conj eq_refl eq_refl)) Hb) as HY1.
  rewrite (push_is s a d A SEnter dv Hd) in H1. injection H1 as H1. rewrite H1 in HY1.
  assert (evs s1 !! e = Some ev) as E1 by (rewrite <- H1; cbn [evs]; by rewrite list_lookup_insert_ne by lia).
  unfold advance in H2. rewrite E1 in H2. cbn [mbind option_bind] in H2.
  destruct (caller_step k choice ev) as [ev'|] eqn:Hs; [|done]. injection H2 as <-.
  apply (advance_inv s1 e k choice ev ev' p); try done.
  - intros _ _ _ _. by destruct Hp as [[rest ->]| ->].
  - intros d' rest dv2 Hp' Hd2. assert (d' = d) as -> by (destruct Hp as [[? ->]| ->], Hp' as [?|[? _]]; congruence).
    rewrite <- H1 in Hd2. cbn [evs] in Hd2. rewrite insert_self in Hd2 by eauto. injection Hd2 as <-. right.
    exists (length (callers dv)), SEnter. split; [by apply list_lookup_middle|by left].
Qed.

Lemma advance_top_inv s a A e k below p choice ev s' :
  YInv s -> agents s !! a = Some A -> frames A = (e, k) :: below ->
  evs s !! e = Some ev -> callers ev !! k = Some p ->
  (forall d rest, p <> SDeps (d :: rest)) -> (forall d, p = ACheck d -> signalled ev = false) ->
  advance e k choice s = Some s' -> YInv s'.
Proof.
  intros HY HA Ef E Hk Hp1 Hp2. unfold advance. rewrite E. cbn [mbind option_bind].
  destruct (caller_step k choice ev) as [ev'|] eqn:Hs; [|done]. intros [= <-].
  apply (advance_inv _ e k choice ev ev' p); try done.
  - intros b B HB Hin. exfalso.
    assert (b = a) as ->.
    { apply (y_disj s HY b a B A (e, k)); try done; [|rewrite Ef; by left]. by destruct (frames B); [|right]. }
    assert (B = A) as -> by congruence. destruct (y_frames s HY a A HA) as [Hso _ _]. rewrite Ef in *.
    apply StronglySorted_inv in Hso as [_ Hso]. apply (proj1 (Forall_forall _ _) Hso) in Hin. unfold above in Hin. simpl in Hin. lia.
  - intros d rest dv [->|[-> Hsg]]; [by destruct (Hp1 d rest)|]. by rewrite (Hp2 d eq_refl) in Hsg.
Qed.

Lemma run_agent_inv s a choice s' : YInv s -> run_agent a choice s = Some s' -> YInv s'.
Proof.
  intros HY. unfold run_agent. destruct (agents s !! a) as [A|] eqn:HA; [|done]. cbn [mbind option_bind].
  destruct (frames A) as [|[e k] below] eqn:Ef.
  - destruct (todo A) as [|m rest] eqn:Et; [done|].
    assert (m < length (evs s)) as [mv Hm]%lookup_lt_is_Some.
    { destruct (y_todo s HY a A HA) as [H1 H2]. rewrite Et in H1, H2. apply Forall_cons in H1 as [? _].
      specialize (H2 ltac:(done)). lia. }
    rewrite (push_is s a m _ _ mv Hm). intros [= <-].
    apply (push_inv s a m A (mkAgent (members A) rest (target A) []) (AEnter (target A)) mv HY HA Hm); try done. right. by rewrite Et.
  - destruct (evs s !! e) as [ev|] eqn:E; [|done]. cbn [mbind option_bind].
    destruct (callers ev !! k) as [p|] eqn:Hk; [|done]. cbn [mbind option_bind].
    assert (pc_at s (e, k) = Some p) as Hpc by (unfold pc_at; simpl; by rewrite E).
    pose proof (fun H1 H2 => advance_top_inv s a A e k below p choice ev s' HY HA Ef E Hk H1 H2) as Hadv.
    pose proof (fun d s1 Hp => nested_inv s a A e k below p d choice ev s1 s' HY HA Ef E Hk Hp) as Hnest.
    destruct p as [| | |[|d rest]|r|d|d|d|]; try (by apply Hadv).
    + destruct (push a A d SEnter s) as [s1|] eqn:H1; [|done]. intros H2. eapply (Hnest d s1); eauto.
    + intros [= <-]. by eapply pop_inv.
    + destruct (signalled ev) eqn:Hs; [|apply Hadv; [done|auto]].
      destruct (push a A d SEnter s) as [s1|] eqn:H1; [|done]. intros H2. eapply (Hnest d s1); eauto.
    + intros [= <-]. by eapply pop_inv.
Qed.

Lemma new_event_inv s m i : YInv s -> YInv (mkSys (evs s ++ [event_new m i]) (agents s)).
Proof.
  intros HY. apply (unseen_inv s); [done| |done]. split_and!; simpl.
  - rewrite length_app. lia.
  - intros e ev E. exists ev. by apply lookup_app_l_Some.
  - intros e ev [E|[-> ->]]%lookup_snoc_cases.
    + split; [by eapply (y_reach s HY)|]. left. by exists ev.
    + split; [constructor|]. right. split; [by apply lookup_ge_None_2|done].
Qed.

Lemma sys_step_inv y s s' : YInv s -> sys_step y s = Some s' -> YInv s'.
Proof.
  intros HY. destruct y as [m i|m range|e|e st|a choice]; cbn [sys_step].
  - intros [= <-]. by apply new_event_inv.
  - destruct (forallb _ range) eqn:Hf; [|done]. intros [= <-].
    apply (agent_start_inv (mkSys (evs s ++ [event_new m false]) (agents s))); [by apply new_event_inv|..].
    + apply Forall_forall. intros x Hx. rewrite forallb_forall in Hf.
      apply list_elem_of_In, Hf, bool_decide_eq_true_1 in Hx. done.
    + intros _. simpl. rewrite length_app. simpl. lia.
  - assert (YInv (mkSys (evs s) (agents s ++ [mkAgent [] [] 0 []]))) as HY1 by (by apply agent_start_inv).
    unfold push. cbn [evs]. destruct (evs s !! e) as [ev|] eqn:E; [|done]. intros [= <-].
    apply (push_inv (mkSys (evs s) (agents s ++ [mkAgent [] [] 0 []])) (length (agents s)) e
             (mkAgent [] [] 0 []) (mkAgent [] [] 0 []) SEnter ev HY1); try done.
    + cbn [agents]. by apply list_lookup_middle.
    + by left.
  - destruct (local st) eqn:Hl; [|done]. destruct (evs s !! e) as [ev|] eqn:E; [|done]. cbn [mbind option_bind].
    destruct (ev_step st ev) as [ev'|] eqn:Es; [|done]. intros [= <-].
    destruct (local_step_callers st ev ev' Hl Es) as (Ek & Ed & Ei & Hs).
    apply (unseen_inv s); [done| |done]. split_and!; simpl; [by rewrite length_insert|..].
    + intros x v Hx. destruct (decide (x = e)) as [->|]; [rewrite insert_self by eauto|rewrite list_lookup_insert_ne by done]; eauto.
    + intros x v [[-> ->]|[_ Hx]]%lookup_insert_cases.
      * split; [by eapply ev_reach_step; [eapply (y_reach s HY)|]|]. left. by exists ev.
      * split; [by eapply (y_reach s HY)|]. left. by exists v.
  - by apply run_agent_inv.
Qed.

Lemma sys_reach_inv s : sys_reach s -> YInv s.
Proof. induction 1 as [|s y s' _ IH E]; [apply sys_start_inv|by eapply sys_step_inv]. Qed.
