(* ===== verification/EventAnyProps.v ===== *)
(** What [Event::any] and the recursive [signal()] promise: calls end, never
    deadlock, and the event made by [any] is signalled when a member is. *)
From stdpp Require Import base numbers strings relations list sorting.
From S2P Require Import Prelude CondVar Event EventProps EventAny.

Local Open Scope nat_scope.

(** ** Nobody waits for a lock in a circle *)
Definition finished (A : Agent) : Prop := todo A = [] /\ frames A = [].

(** A call of [wait()] that holds a lock; it can go on. *)
Definition waiter_inside (s : Sys) : Prop :=
  exists e ev n w, evs s !! e = Some ev /\ waiters ev !! n = Some w /\ holding (wpc w) = true.

Definition runs (s s' : Sys) : Prop := exists a choice, sys_step (YRun a choice) s = Some s'.

(** The innermost call of an agent can go on if its lock is free or its own. *)
Lemma top_can_run s a A e k below ev p :
  YInv s -> agents s !! a = Some A -> frames A = (e, k) :: below -> evs s !! e = Some ev ->
  callers ev !! k = Some p -> cholding p = true \/ mutex ev = None -> exists s', runs s s'.
Proof.
  intros HY HA Ef E Hk Hm. unfold runs. cbn [sys_step]. unfold run_agent.
  destruct (creturned p) eqn:Hr.
  { exists (mkSys (evs s) (<[a := set_frames A below]> (agents s))), a, 0. rewrite HA. cbn [mbind option_bind].
    rewrite Ef, E. cbn [mbind option_bind]. rewrite Hk. cbn [mbind option_bind]. by destruct p. }
  destruct (caller_can_step k ev p Hk Hr Hm) as (choice & ev' & Hs).
  assert (exists s', advance e k choice s = Some s') as [sa Ha].
  { unfold advance. rewrite E. cbn [mbind option_bind]. rewrite Hs. by eexists. }
  assert (forall d, d ∈ pc_deps p -> exists s1 s2, push a A d SEnter s = Some s1 /\ advance e k choice s1 = Some s2) as Hn.
  { intros d Hd. assert (pc_at s (e, k) = Some p) as Hpc by (unfold pc_at; simpl; by rewrite E).
    destruct (y_pcs s HY (e, k) p d Hpc Hd) as [Hed [dv Hdv]%lookup_lt_is_Some]. simpl in Hed.
    rewrite (push_is s a d A SEnter dv Hdv). do 2 eexists. split; [done|]. unfold advance. cbn [evs].
    rewrite list_lookup_insert_ne, E by lia. cbn [mbind option_bind]. rewrite Hs. done. }
  assert (exists s', match p with
      | SReturn _ | AReturn => Some (mkSys (evs s) (<[a := set_frames A below]> (agents s)))
      | SDeps (d :: _) => s1 ← push a A d SEnter s; advance e k choice s1
      | ACheck d => if signalled ev then s1 ← push a A d SEnter s; advance e k choice s1 else advance e k choice s
      | _ => advance e k choice s
      end = Some s') as [s' Hs'].
  { destruct p as [| | |[|d rest]|r|d|d|d|]; try done; try (by exists sa).
    - destruct (Hn d) as (s1 & s2 & -> & H2); [by left|]. by exists s2.
    - destruct (signalled ev); [|by exists sa]. destruct (Hn d) as (s1 & s2 & -> & H2); [by left|]. by exists s2. }
  exists s', a, choice. rewrite HA. cbn [mbind option_bind]. rewrite Ef, E. cbn [mbind option_bind]. by rewrite Hk.
Qed.

(** Some lock is held, and none above it is. *)
Lemma highest_lock (l : list Shared) :
  (forall e ev, l !! e = Some ev -> mutex ev = None) \/
  exists e ev, l !! e = Some ev /\ mutex ev <> None /\
    forall x v, e < x -> l !! x = Some v -> mutex v = None.
Proof.
  induction l as [|v l IH] using rev_ind; [by left|].
  destruct (decide (mutex v = None)) as [Hv|Hv].
  - destruct IH as [Hf|(e & ev & He & Hm & Hab)]; [left|right].
    + intros e ev [?|[_ ->]]%lookup_snoc_cases; [by eapply Hf|done].
    + exists e, ev. split_and!; [by apply lookup_app_l_Some|done|].
      intros x u Hx [?|[_ ->]]%lookup_snoc_cases; [by eapply Hab|done].
  - right. exists (length l), v. split_and!; [by apply list_lookup_middle|done|].
    intros x u Hx [Hu|[-> _]]%lookup_snoc_cases; [apply lookup_lt_Some in Hu; lia|lia].
Qed.

Lemma idle_can_run s a A :
  YInv s -> agents s !! a = Some A -> frames A = [] -> todo A <> [] -> exists s', runs s s'.
Proof.
  intros HY HA Ef Ht. destruct (todo A) as [|m rest] eqn:Et; [done|].
  destruct (y_todo s HY a A HA) as [H1 H2]. rewrite Et in H1, H2. apply Forall_cons in H1 as [Hm _].
  specialize (H2 ltac:(done)). assert (m < length (evs s)) as [mv Hmv]%lookup_lt_is_Some by lia.
  eexists. exists a, 0. cbn [sys_step]. unfold run_agent. rewrite HA. cbn [mbind option_bind]. rewrite Ef, Et.
  by apply (push_is s a m _ _ mv).
Qed.

Lemma progress s a A :
  YInv s -> agents s !! a = Some A -> ~ finished A -> (exists s', runs s s') \/ waiter_inside s.
Proof.
  intros HY HA Hnf. destruct (highest_lock (evs s)) as [Hfree|(e & ev & E & Hm & Habove)].
  - left. destruct (frames A) as [|[e k] below] eqn:Ef.
    { apply (idle_can_run s a A); try done. intros Ht. by destruct Hnf. }
    pose proof (f_live _ _ (y_frames s HY a A HA)) as Hl. rewrite Ef in Hl. apply Forall_cons in Hl as [[p Hp] _].
    unfold pc_at in Hp. simpl in Hp. destruct (evs s !! e) as [ev|] eqn:E; [|done].
    eapply (top_can_run s a A e k below ev p); try done. right. by eapply Hfree.
  - assert (Inv ev) as HI by (by eapply ev_reach_inv, (y_reach s HY)). pose proof (v_who ev HI) as Hwho.
    destruct (mutex ev) as [[n|k]|] eqn:Emx; [| |done].
    { right. destruct Hwho as [w Hw]. exists e, ev, n, w. split_and!; [done|done|]. by apply (v_waiter ev HI n w Hw). }
    left. destruct Hwho as [p Hp]. assert (cholding p = true) as Hh by (by apply (v_caller ev HI k p Hp)).
    assert (pc_at s (e, k) = Some p) as Hpc by (unfold pc_at; simpl; by rewrite E).
    destruct (y_owner s HY (e, k) p Hpc) as (b & B & HB & Hin); [by destruct p|].
    destruct (y_frames s HY b B HB) as [Hso Hl _]. destruct (frames B) as [|[e' k'] below] eqn:Ef; [by apply elem_of_nil in Hin|].
    apply elem_of_cons in Hin as [[= -> ->]|Hin]; [eapply (top_can_run s b B e' k' below ev p); eauto|].
    apply StronglySorted_inv in Hso as [_ Hso]. apply (proj1 (Forall_forall _ _) Hso) in Hin. unfold above in Hin. simpl in Hin.
    apply Forall_cons in Hl as [[q Hq] _]. unfold pc_at in Hq. simpl in Hq.
    destruct (evs s !! e') as [ev'|] eqn:E'; [|done].
    eapply (top_can_run s b B e' k' below ev' q); try done. right. by eapply Habove.
Qed.

(** ** The steps of nested calls of [signal()] are bounded *)

(** The steps a call of [signal()] on [e] and the calls below it can take, where
    [ds] are the dependents of each event; links go up, so [length ds - e]
    levels are enough. *)
Fixpoint work (fuel : nat) (ds : list (list nat)) (e : nat) : nat :=
  match fuel with
  | 0 => 0
  | S fuel => 5 + sum_list_with (fun d => S (work fuel ds d)) (default [] (ds !! e))
  end.

Definition links (s : Sys) : list (list nat) := deps <$> evs s.
Definition full_work (s : Sys) (e : nat) : nat := work (length (evs s) - e) (links s) e.

Definition pc_cost (s : Sys) (e : nat) (p : CPc) : nat :=
  match p with
  | SEnter => full_work s e
  | SCheck => full_work s e - 1
  | SNotify => full_work s e - 2
  | SDeps rest => 2 + sum_list_with (fun d => S (full_work s d)) rest
  | _ => 1
  end.

Definition frame_cost (s : Sys) (f : nat * nat) : nat :=
  match pc_at s f with Some p => pc_cost s (fst f) p | None => 0 end.

Definition potential (s : Sys) : nat :=
  sum_list_with (fun A => sum_list_with (frame_cost s) (frames A)) (agents s).

(** No call of [any()] is in progress. *)
Definition signal_pc (p : CPc) : bool :=
  match p with SEnter | SCheck | SNotify | SDeps _ | SReturn _ => true | _ => false end.
Definition no_any (s : Sys) : Prop :=
  forall a A, agents s !! a = Some A ->
    todo A = [] /\ Forall (fun f => exists p, pc_at s f = Some p /\ signal_pc p = true) (frames A).

Lemma work_mono ds e f g : f <= g -> work f ds e <= work g ds e.
Proof.
  revert e g. induction f as [|f IH]; simpl; intros e g Hfg; [lia|]. destruct g as [|g]; [lia|]. simpl.
  apply le_n_S, le_n_S, le_n_S, le_n_S, le_n_S. apply sum_mono. intros d _. apply le_n_S, IH. lia.
Qed.

Lemma full_work_step s e ev :
  YInv s -> evs s !! e = Some ev -> 5 + sum_list_with (fun d => S (full_work s d)) (deps ev) <= full_work s e.
Proof.
  intros HY E. assert (e < length (evs s)) as Hlt by (by eapply lookup_lt_Some).
  unfold full_work at 2. destruct (length (evs s) - e) as [|f] eqn:Ef; [lia|]. simpl.
  unfold links at 2. rewrite list_lookup_fmap, E. simpl. apply le_n_S, le_n_S, le_n_S, le_n_S, le_n_S.
  apply sum_mono. intros d Hd. apply le_n_S, work_mono. pose proof (y_deps s HY e ev d E Hd). lia.
Qed.

Lemma full_work_same s s' e : links s' = links s -> full_work s' e = full_work s e.
Proof.
  intros El. unfold full_work. rewrite El. f_equal.
  assert (length (links s') = length (links s)) as Hlen by (by rewrite El). unfold links in Hlen. rewrite !length_fmap in Hlen. lia.
Qed.

Lemma pc_cost_same s s' e p : links s' = links s -> pc_cost s' e p = pc_cost s e p.
Proof.
  intros El. destruct p; simpl; rewrite ?(full_work_same s s' _ El); try done.
  f_equal. f_equal. apply sum_ext. intros d _. by rewrite (full_work_same s s' d El).
Qed.

(** The step of a call costs one, and the nested call it makes. *)
Lemma pc_cost_next s e ev p :
  YInv s -> evs s !! e = Some ev -> signal_pc p = true -> creturned p = false ->
  match p with
  | SDeps (d :: _) => full_work s d + pc_cost s e (next_pc ev p) < pc_cost s e p
  | _ => pc_cost s e (next_pc ev p) < pc_cost s e p
  end.
Proof.
  intros HY E Hp Hr. pose proof (full_work_step s e ev HY E) as Hw.
  destruct p as [| | |[|d rest]|r|d|d|d|]; try done; simpl; try lia. destruct (signalled ev); simpl; lia.
Qed.

Lemma no_any_frame s a A f : no_any s -> agents s !! a = Some A -> f ∈ frames A ->
  exists p, pc_at s f = Some p /\ signal_pc p = true.
Proof. intros Hn HA Hf. destruct (Hn a A HA) as [_ Hall]. by apply (proj1 (Forall_forall _ _) Hall). Qed.

Lemma signal_pc_next ev p : signal_pc p = true -> signal_pc (next_pc ev p) = true.
Proof. by destruct p as [| | |[|]| | | | |]; simpl; try case_match. Qed.

Lemma advance_links s e k choice ev ev' p :
  evs s !! e = Some ev -> callers ev !! k = Some p -> signal_pc p = true -> caller_step k choice ev = Some ev' ->
  links (mkSys (<[e := ev']> (evs s)) (agents s)) = links s.
Proof.
  intros E Hk Hp Hs. destruct (caller_step_next k choice ev ev' p Hs Hk) as (_ & _ & Ed & _).
  unfold links. simpl. apply list_eq. intros x. rewrite !list_lookup_fmap. destruct (decide (x = e)) as [->|Hne].
  - rewrite insert_self, E by eauto. simpl. f_equal. rewrite Ed. by destruct p.
  - by rewrite list_lookup_insert_ne.
Qed.

Lemma push_links s a A d p dv :
  evs s !! d = Some dv ->
  links (mkSys (<[d := set_callers (callers dv ++ [p]) dv]> (evs s))
               (<[a := set_frames A ((d, length (callers dv)) :: frames A)]> (agents s))) = links s.
Proof.
  intros E. unfold links. simpl. apply list_eq. intros x. rewrite !list_lookup_fmap.
  destruct (decide (x = d)) as [->|Hne]; [by rewrite insert_self, E by eauto|by rewrite list_lookup_insert_ne].
Qed.

(** The costs of the frames of the agents, when one agent changes. *)
Lemma potential_step s s' a A fs :
  agents s !! a = Some A -> agents s' = <[a := set_frames A fs]> (agents s) \/ agents s' = agents s /\ fs = frames A ->
  (forall f B b, agents s !! b = Some B -> f ∈ frames B -> frame_cost s' f <= frame_cost s f) ->
  sum_list_with (frame_cost s') fs < sum_list_with (frame_cost s) (frames A) ->
  potential s' < potential s.
Proof.
  intros HA Ea Hle Hlt. unfold potential.
  assert (agents s' = <[a := set_frames A fs]> (agents s)) as ->.
  { destruct Ea as [?|[-> ->]]; [done|]. symmetry. apply list_insert_id. rewrite HA. by destruct A. }
  pose proof (sum_insert (fun A => sum_list_with (frame_cost s') (frames A)) (agents s) a A (set_frames A fs) HA) as H1.
  assert (sum_list_with (fun A => sum_list_with (frame_cost s') (frames A)) (agents s) +
          sum_list_with (frame_cost s) (frames A) <=
          sum_list_with (fun A => sum_list_with (frame_cost s) (frames A)) (agents s) +
          sum_list_with (frame_cost s') (frames A)) as H2; [|simpl in H1; lia].
  clear H1 Ea Hlt. revert a HA Hle. generalize (agents s) as l.
  induction l as [|B l IH]; intros [|a] HA Hle; simplify_eq/=.
  - assert (sum_list_with (fun A => sum_list_with (frame_cost s') (frames A)) l <=
      sum_list_with (fun A => sum_list_with (frame_cost s) (frames A)) l); [|lia].
    apply sum_mono. intros C [c Hc]%list_elem_of_lookup_1. apply sum_mono. intros f Hf. by apply (Hle f C (S c)).
  - specialize (IH a HA (fun f C c Hc => Hle f C (S c) Hc)).
    assert (sum_list_with (frame_cost s') (frames B) <= sum_list_with (frame_cost s) (frames B)); [|lia].
    apply sum_mono. intros f Hf. by apply (Hle f B 0).
Qed.

Section runs.
Context (s : Sys) (a : nat) (A : Agent) (e k : nat) (below : list (nat * nat)) (ev : Shared) (p : CPc).
Context (HY : YInv s) (Hno : no_any s) (HA : agents s !! a = Some A) (Ef : frames A = (e, k) :: below).
Context (E : evs s !! e = Some ev) (Hk : callers ev !! k = Some p).

Lemma run_pc : pc_at s (e, k) = Some p.
Proof. unfold pc_at. simpl. by rewrite E. Qed.

Lemma run_signal_pc : signal_pc p = true.
Proof.
  destruct (no_any_frame s a A (e, k) Hno HA) as (q & Hq & ?); [rewrite Ef; by left|].
  rewrite run_pc in Hq. by injection Hq as <-.
Qed.

(** A step after which call [(e, k)] is at [p'], with [s1] the state that the
    nested call, if any, has made. *)
Lemma run_decreases s' fs p' extra :
  links s' = links s ->
  (agents s' = <[a := set_frames A fs]> (agents s) \/ agents s' = agents s /\ fs = frames A) ->
  (forall f, f <> (e, k) -> is_Some (pc_at s f) -> pc_at s' f = pc_at s f) ->
  pc_at s' (e, k) = Some p' -> signal_pc p' = true ->
  extra + pc_cost s e p' < pc_cost s e p ->
  (fs = frames A /\ extra = 0 \/
   exists f0 p0, fs = f0 :: frames A /\ pc_at s' f0 = Some p0 /\ signal_pc p0 = true /\ pc_cost s (fst f0) p0 = extra) ->
  no_any s' /\ potential s' < potential s.
Proof.
  intros El Ea Hpc Hp' Hsp Hcost Hfs.
  assert (forall f B b, agents s !! b = Some B -> f ∈ frames B ->
    (exists q, pc_at s' f = Some q /\ signal_pc q = true) /\ frame_cost s' f <= frame_cost s f) as Hold.
  { intros f B b HB Hf. destruct (no_any_frame s b B f Hno HB Hf) as (q & Hq & Hsq).
    unfold frame_cost. rewrite Hq. destruct (decide (f = (e, k))) as [->|Hne].
    - rewrite Hp', (pc_cost_same s s'), run_pc in * by done. injection Hq as <-. simpl. split; [eauto|lia].
    - rewrite (Hpc f) by (rewrite ?Hq; eauto). rewrite Hq, (pc_cost_same s s') by done. eauto. }
  assert (Forall (fun f => exists q, pc_at s' f = Some q /\ signal_pc q = true) (frames A)) as Hself.
  { apply Forall_forall. intros f Hf. by apply (Hold f A a). }
  split.
  - intros b B HB. assert (agents s !! b = Some B /\ True \/ todo B = todo A /\ frames B = fs) as [[HB0 _]|[Et Eb]].
    { destruct Ea as [Ea|[Ea _]]; rewrite Ea in HB; [|by left].
      apply lookup_insert_cases in HB as [[_ ->]|[_ ?]]; [by right|by left]. }
    + split; [apply (Hno b B HB0)|]. apply Forall_forall. intros f Hf. by apply (Hold f B b).
    + rewrite Et, Eb. split; [apply (Hno a A HA)|]. destruct Hfs as [[-> _]|(f0 & p0 & -> & Hf0 & Hs0 & _)]; [done|].
      constructor; eauto.
  - apply (potential_step s s' a A fs HA Ea); [intros f B b HB Hf; by apply (Hold f B b)|].
    assert (sum_list_with (frame_cost s') (frames A) + extra < sum_list_with (frame_cost s) (frames A)) as Hsum.
    { assert (sum_list_with (frame_cost s') below <= sum_list_with (frame_cost s) below) as Hb.
      { apply sum_mono. intros f Hf. apply (Hold f A a HA). rewrite Ef. by right. }
      rewrite Ef. simpl. unfold frame_cost at 1 3. rewrite Hp', run_pc, (pc_cost_same s s') by done. simpl. lia. }
    destruct Hfs as [[-> ->]|(f0 & p0 & -> & Hf0 & _ & Hc)]; [lia|]. simpl. unfold frame_cost at 1.
    rewrite Hf0, (pc_cost_same s s') by done. lia.
Qed.

Lemma run_pop : creturned p = true ->
  let s' := mkSys (evs s) (<[a := set_frames A below]> (agents s)) in no_any s' /\ potential s' < potential s.
Proof.
  intros Hr s'. split.
  - intros b B [[-> ->]|[_ HB]]%lookup_insert_cases; [|by apply (Hno b)].
    destruct (Hno a A HA) as [Ht Hf]. rewrite Ef in Hf. apply Forall_cons in Hf as [_ Hf]. done.
  - apply (potential_step s s' a A below HA); [by left|done|]. rewrite Ef. simpl.
    assert (frame_cost s (e, k) = 1) as Hone by (unfold frame_cost; rewrite run_pc; by destruct p).
    change (frame_cost s') with (frame_cost s). lia.
Qed.

Lemma run_advance choice s' :
  creturned p = false -> match p with SDeps (_ :: _) => False | _ => True end ->
  advance e k choice s = Some s' -> no_any s' /\ potential s' < potential s.
Proof.
  intros Hr Hd. unfold advance. rewrite E. cbn [mbind option_bind].
  destruct (caller_step k choice ev) as [ev'|] eqn:Hs; [|done]. intros [= <-].
  destruct (caller_step_next k choice ev ev' p Hs Hk) as (_ & Ek & _).
  pose proof (pc_cost_next s e ev p HY E run_signal_pc Hr) as Hc.
  assert (forall f, pc_at (mkSys (<[e := ev']> (evs s)) (agents s)) f =
    if decide (f = (e, k)) then Some (next_pc ev p) else pc_at s f) as Hpc.
  { intros f. apply (advance_pc e ev); eauto. }
  apply (run_decreases _ (frames A) (next_pc ev p) 0).
  - by eapply (advance_links s e k choice ev ev' p E Hk run_signal_pc).
  - by right.
  - intros f Hf _. by rewrite Hpc, decide_False.
  - by rewrite Hpc, decide_True.
  - apply signal_pc_next, run_signal_pc.
  - destruct p as [| | |[|]| | | | |]; simpl in *; try done; lia.
  - by left.
Qed.

Lemma run_nested d rest choice s1 s2 :
  p = SDeps (d :: rest) -> push a A d SEnter s = Some s1 -> advance e k choice s1 = Some s2 ->
  no_any s2 /\ potential s2 < potential s.
Proof.
  intros Hp H1 H2.
  destruct (y_pcs s HY (e, k) p d run_pc) as [Hed [dv Hdv]%lookup_lt_is_Some]; [rewrite Hp; by left|]. simpl in Hed.
  pose proof (pc_cost_next s e ev p HY E run_signal_pc) as Hc.
  rewrite (push_is s a d A SEnter dv Hdv) in H1. injection H1 as H1.
  assert (links s1 = links s) as El1 by (rewrite <- H1; by apply push_links).
  assert (forall f, pc_at s1 f = if decide (f = (d, length (callers dv))) then Some SEnter else pc_at s f) as Hpc1.
  { intros f. rewrite <- H1. by apply push_pc. }
  assert (evs s1 !! e = Some ev) as E1 by (rewrite <- H1; simpl; by rewrite list_lookup_insert_ne by lia).
  unfold advance in H2. rewrite E1 in H2. cbn [mbind option_bind] in H2.
  destruct (caller_step k choice ev) as [ev'|] eqn:Hs; [|done]. injection H2 as H2.
  destruct (caller_step_next k choice ev ev' p Hs Hk) as (Hr & Ek & _). specialize (Hc Hr).
  assert (forall f, pc_at s2 f = if decide (f = (e, k)) then Some (next_pc ev p) else pc_at s1 f) as Hpc2.
  { intros f. rewrite <- H2. by apply (advance_pc e ev); eauto. }
  apply (run_decreases _ ((d, length (callers dv)) :: frames A) (next_pc ev p) (full_work s d)).
  - rewrite <- El1, <- H2. by eapply (advance_links s1 e k choice ev ev' p E1 Hk run_signal_pc).
  - left. rewrite <- H2. simpl. by rewrite <- H1.
  - intros f Hf [q Hq]. rewrite Hpc2, decide_False, Hpc1 by done. rewrite decide_False; [done|].
    intros ->. by rewrite (push_fresh s d dv Hdv) in Hq.
  - by rewrite Hpc2, decide_True.
  - apply signal_pc_next, run_signal_pc.
  - by rewrite Hp in Hc |- *.
  - right. exists (d, length (callers dv)), SEnter. split_and!; try done.
    rewrite Hpc2, decide_False, Hpc1 by (injection 1; lia). by rewrite decide_True.
Qed.
End runs.

Lemma runs_decrease s s' : YInv s -> no_any s -> runs s s' -> no_any s' /\ potential s' < potential s.
Proof.
  intros HY Hno (a & choice & Hs). cbn [sys_step] in Hs. unfold run_agent in Hs.
  destruct (agents s !! a) as [A|] eqn:HA; [|done]. cbn [mbind option_bind] in Hs.
  destruct (frames A) as [|[e k] below] eqn:Ef.
  { destruct (Hno a A HA) as [Et _]. by rewrite Et in Hs. }
  destruct (evs s !! e) as [ev|] eqn:E; [|done]. cbn [mbind option_bind] in Hs.
  destruct (callers ev !! k) as [p|] eqn:Hk; [|done]. cbn [mbind option_bind] in Hs.
  pose proof (run_signal_pc s a A e k below ev p Hno HA Ef E Hk) as Hsp.
  pose proof (run_advance s a A e k below ev p HY Hno HA Ef E Hk choice s') as Hadv.
  destruct p as [| | |[|d rest]|r|d|d|d|]; try done; try (by apply Hadv).
  - destruct (push a A d SEnter s) as [s1|] eqn:H1; [|done]. cbn [mbind option_bind] in Hs.
    eapply (run_nested s a A e k below ev); eauto.
  - injection Hs as <-. by eapply (run_pop s a A e k below ev).
Qed.

(** ** Properties *)
Lemma quiet_fired ev : quiet ev -> served ev -> fired ev.
Proof. intros Hq [?|(k & p & Hk & Hp)]; [done|]. specialize (Hq k p Hk). by destruct Hp as [->| ->]. Qed.

Lemma runs_reach n s s' : sys_reach s -> nsteps runs n s s' -> sys_reach s'.
Proof.
  intros Hr. induction 1 as [s|n s s1 s' (a & c & E) _ IH]; [done|]. apply IH. by eapply sys_reach_step.
Qed.

(** C22. Nested calls of [signal()] hold the locks of all the events on the way
    and still never deadlock: in every reachable state, whatever events are
    linked, a call of [signal()] or [any()] that has not returned lets some
    call go on, or a call of [wait()] is inside its critical section.  While no
    call of [any()] is in progress the calls of [signal()] take a bounded number
    of steps. *)
Theorem signal_calls_end s :
  sys_reach s ->
  (forall a A, agents s !! a = Some A -> ~ finished A -> (exists s', runs s s') \/ waiter_inside s) /\
  (no_any s -> forall n s', nsteps runs n s s' -> n <= potential s).
Proof.
  intros Hr. split.
  - intros a A HA Hf. eapply progress; [by apply sys_reach_inv|done|done].
  - intros Hno n s' Hn. induction Hn as [s|n s s1 s' E _ IH]; [lia|].
    destruct (runs_decrease s s1 (sys_reach_inv s Hr) Hno E) as [Hno1 Hlt].
    assert (sys_reach s1) as Hr1 by (destruct E as (a & c & E); by eapply sys_reach_step).
    specialize (IH Hr1 Hno1). lia.
Qed.

(** After [any(mode, begin, end)] has returned [e], [e] is linked to every
    event of the range, and when one of them is signalled and no call is in
    progress on it and on [e], then [e] has been signalled: it still is, or the
    signal was used by a wait or a test or removed by [clear()].  Every event of
    the system behaves as an event on its own. *)
Theorem any_follows_members s a A m ev tv :
  sys_reach s -> agents s !! a = Some A -> finished A -> m ∈ members A ->
  evs s !! m = Some ev -> evs s !! target A = Some tv ->
  ev_reach ev /\ ev_reach tv /\ target A ∈ deps ev /\
  (signalled ev = true -> quiet ev -> quiet tv ->
     signalled tv = true \/ (0 < consumed tv + cleared tv)%Z).
Proof.
  intros Hr HA [Et Ef] Hm E Etv. pose proof (sys_reach_inv s Hr) as HY.
  assert (ev_reach tv) as Hrt by (by eapply (y_reach s HY)).
  assert (target A ∈ deps ev) as Hd.
  { destruct (y_linked s HY a A m HA Hm) as [H|[(k & p & H & _)|(v & Hv & H)]].
    - rewrite Et in H. by apply elem_of_nil in H.
    - rewrite Ef in H. by apply elem_of_nil in H.
    - by assert (v = ev) as -> by congruence. }
  split_and!; try done; [by eapply (y_reach s HY)|]. intros Hs Hq Hqt.
  destruct (y_prop s HY m ev (target A) tv E Etv Hd Hs) as [Hsv|(k & p & Hk & Hc)].
  - apply (quiet_fired tv Hqt) in Hsv. unfold fired in Hsv. rewrite (v_count tv (ev_reach_inv tv Hrt)) in Hsv.
    destruct (signalled tv); [by left|right]. simpl in Hsv. lia.
  - specialize (Hq k p Hk). by destruct Hc as [->|(rest & -> & _)].
Qed.

(** ** A sample: any of two events, the second is signalled *)
Fixpoint sys_run (ys : list YStep) (s : Sys) : option Sys :=
  match ys with [] => Some s | y :: ys => s' ← sys_step y s; sys_run ys s' end.

Lemma sys_run_reach ys s s' : sys_reach s -> sys_run ys s = Some s' -> sys_reach s'.
Proof.
  revert s. induction ys as [|y ys IH]; simpl; intros s Hr H; [by simplify_eq|].
  destruct (sys_step y s) as [s1|] eqn:E; [|done]. by eapply IH; [eapply sys_reach_step|].
Qed.

Definition sample_steps : list YStep :=
  [YNew Auto false; YNew Manual false; YAny Manual [0; 1]] ++ replicate 10 (YRun 0 0) ++
  [YSignal 1] ++ replicate 11 (YRun 1 0).
Definition sample_sys (n : nat) : Sys := default (mkSys [] []) (sys_run (take n sample_steps) (mkSys [] [])).

Lemma sample_sys_reach n : n <= 25 -> sys_reach (sample_sys n).
Proof.
  intros Hn. unfold sample_sys. destruct (sys_run (take n sample_steps) (mkSys [] [])) as [s|] eqn:E; simpl; [|constructor].
  by eapply sys_run_reach; [constructor|].
Qed.

Lemma signal_calls_end_witness : exists s', runs (sample_sys 14) s' /\ 1 <= potential (sample_sys 14).
Proof.
  destruct (sys_step (YRun 1 0) (sample_sys 14)) as [s'|] eqn:E; [|vm_compute in E; discriminate].
  exists s'. assert (runs (sample_sys 14) s') as Hrun by (exists 1, 0; exact E). split; [exact Hrun|].
  refine (proj2 (signal_calls_end (sample_sys 14) (sample_sys_reach 14 _)) _ 1 s' _).
  - lia.
  - intros a A HA. change (agents (sample_sys 14)) with [mkAgent [0; 1] [] 2 []; mkAgent [] [] 0 [(1, 1)]] in HA.
    destruct a as [|[|a]]; simpl in HA; [injection HA as <-..|discriminate]; (split; [reflexivity|]).
    + constructor.
    + constructor; [|constructor]. exists SEnter. split; vm_compute; reflexivity.
  - eapply nsteps_l; [exact Hrun|]. constructor.
Defined.

Lemma any_follows_members_witness :
  exists ev tv, evs (sample_sys 25) !! 1 = Some ev /\ evs (sample_sys 25) !! 2 = Some tv /\ 2 ∈ deps ev /\
    (signalled ev = true -> quiet ev -> quiet tv -> signalled tv = true \/ (0 < consumed tv + cleared tv)%Z).
Proof.
  destruct (evs (sample_sys 25) !! 1) as [ev|] eqn:E1; [|vm_compute in E1; discriminate].
  destruct (evs (sample_sys 25) !! 2) as [tv|] eqn:E2; [|vm_compute in E2; discriminate].
  exists ev, tv. split; [reflexivity|]. split; [reflexivity|].
  refine (proj2 (proj2 (any_follows_members (sample_sys 25) 0 (mkAgent [0; 1] [] 2 []) 1 ev tv
                          (sample_sys_reach 25 _) _ _ _ E1 E2))).
  - lia.
  - vm_compute. reflexivity.
  - split; reflexivity.
  - right. left.
Defined.
