(* ===== verification/EventSignal.v ===== *)
(** [Event::Shared::signal] (src/include/marl/event.hpp) as a function, for a
    call that nobody disturbs: which events are signalled when it returns.

    The recursion over the dependents stops at events that are signalled
    already.  The set of events it reaches is compared with its definition by
    paths.  Links go from an event to a younger one ([any] makes a new event),
    which bounds the depth of the recursion.  A call that runs alone in the
    system of EventAny.v is shown to compute this function. *)
From stdpp Require Import base numbers strings relations list.
From S2P Require Import Prelude CondVar Event EventProps EventAny EventAnyProps.

(** [deps] of every event, and which events are signalled. *)
Abbreviation Deps := (list (list nat)).
Abbreviation Flags := (list bool).

Definition is_signalled (sg : Flags) (e : nat) : bool := default false (sg !! e).
Definition deps_of (ds : Deps) (e : nat) : list nat := default [] (ds !! e).

(** [signal()]; [fuel] bounds the depth. *)
Fixpoint signal (fuel : nat) (ds : Deps) (e : nat) (sg : Flags) : Flags :=
  match fuel with
  | 0 => sg
  | S fuel =>
      if is_signalled sg e then sg
      else foldl (fun sg d => signal fuel ds d sg) (<[e := true]> sg) (deps_of ds e)
  end.

(** Links go up, to events that exist. *)
Definition links_up (ds : Deps) (n : nat) : Prop :=
  length ds = n /\ forall e d, d ∈ deps_of ds e -> e < d < n.

(** A path along links through events that are not signalled. *)
Inductive reaches (ds : Deps) (sg : Flags) : nat -> nat -> Prop :=
| reaches_here e : is_signalled sg e = false -> reaches ds sg e e
| reaches_link e d x : is_signalled sg e = false -> d ∈ deps_of ds e -> reaches ds sg d x -> reaches ds sg e x.

Lemma is_signalled_insert sg e x :
  is_signalled (<[e := true]> sg) x = is_signalled sg x || bool_decide (x = e /\ e < length sg).
Proof.
  unfold is_signalled. destruct (decide (x = e)) as [->|Hne].
  - destruct (decide (e < length sg)) as [Hl|Hl].
    + rewrite list_lookup_insert_eq by done. simpl. by rewrite (bool_decide_eq_true_2 (e = e /\ _)), orb_true_r.
    + rewrite list_insert_ge by lia. rewrite (bool_decide_eq_false_2 (e = e /\ _)) by lia. by rewrite orb_false_r.
  - rewrite list_lookup_insert_ne by done. rewrite (bool_decide_eq_false_2 (x = e /\ _)) by tauto. by rewrite orb_false_r.
Qed.

Lemma reaches_start ds sg e x : reaches ds sg e x -> is_signalled sg e = false.
Proof. by destruct 1. Qed.

(** Fewer signalled events, more paths. *)
Lemma reaches_mono ds sg sg' e x :
  (forall y, is_signalled sg y = true -> is_signalled sg' y = true) -> reaches ds sg' e x -> reaches ds sg e x.
Proof.
  intros Hle. assert (forall y, is_signalled sg' y = false -> is_signalled sg y = false) as Hf.
  { intros y Hy. destruct (is_signalled sg y) eqn:E; [|done]. by rewrite (Hle y E) in Hy. }
  induction 1 as [e He|e d x He Hd _ IH]; [apply reaches_here; auto|eapply reaches_link; eauto].
Qed.

(** What a call, or the calls for a list of events [todo], do to the flags. *)
Record outcome (ds : Deps) (sg sg' : Flags) (todo : list nat) : Prop := {
  o_length : length sg' = length sg;
  o_keep x : is_signalled sg x = true -> is_signalled sg' x = true;
  o_sound x : is_signalled sg' x = true -> is_signalled sg x = true \/ exists d, d ∈ todo /\ reaches ds sg d x;
  o_todo d : d ∈ todo -> d < length sg -> is_signalled sg' d = true;
  o_closed x d : is_signalled sg' x = true -> is_signalled sg x = false -> d ∈ deps_of ds x ->
                 d < length sg -> is_signalled sg' d = true
}.

Lemma outcome_nil ds sg : outcome ds sg sg [].
Proof.
  split; [done|done|auto| |].
  - intros d Hd. by apply elem_of_nil in Hd.
  - intros x d H1 H2. congruence.
Qed.

Lemma outcome_app ds sg sg1 sg2 t1 t2 :
  outcome ds sg sg1 t1 -> outcome ds sg1 sg2 t2 -> outcome ds sg sg2 (t1 ++ t2).
Proof.
  intros H1 H2. split.
  - by rewrite (o_length _ _ _ _ H2), (o_length _ _ _ _ H1).
  - intros x Hx. by apply (o_keep _ _ _ _ H2), (o_keep _ _ _ _ H1).
  - intros x [Hx|(d & Hd & Hr)]%(o_sound _ _ _ _ H2).
    + destruct (o_sound _ _ _ _ H1 x Hx) as [?|(d & ? & ?)]; [by left|right]. exists d. split; [|done]. apply elem_of_app. by left.
    + right. exists d. split; [apply elem_of_app; by right|]. eapply reaches_mono; [apply (o_keep _ _ _ _ H1)|done].
  - intros d [Hd|Hd]%elem_of_app Hl.
    + apply (o_keep _ _ _ _ H2). by apply (o_todo _ _ _ _ H1).
    + apply (o_todo _ _ _ _ H2); [done|]. by rewrite (o_length _ _ _ _ H1).
  - intros x d Hx Hn Hd Hl. destruct (is_signalled sg1 x) eqn:Hx1.
    + apply (o_keep _ _ _ _ H2). by apply (o_closed _ _ _ _ H1 x).
    + apply (o_closed _ _ _ _ H2 x); [done|done|done|]. by rewrite (o_length _ _ _ _ H1).
Qed.

Lemma fold_outcome ds fuel n todo sg :
  length sg = n -> (forall d sg, d ∈ todo -> length sg = n -> outcome ds sg (signal fuel ds d sg) [d]) ->
  outcome ds sg (foldl (fun sg d => signal fuel ds d sg) sg todo) todo.
Proof.
  revert sg. induction todo as [|d todo IH]; intros sg Hn H; simpl; [apply outcome_nil|].
  assert (outcome ds sg (signal fuel ds d sg) [d]) as Hd by (apply H; [left|done]).
  apply (outcome_app ds sg (signal fuel ds d sg) _ [d] todo); [done|].
  apply IH; [by rewrite (o_length _ _ _ _ Hd)|]. intros d' sg' Hd'. apply H. by right.
Qed.

Lemma signal_outcome ds n fuel e sg :
  links_up ds n -> length sg = n -> e < n -> n - e <= fuel -> outcome ds sg (signal fuel ds e sg) [e].
Proof.
  intros [Hlen Hup]. revert e sg. induction fuel as [|fuel IH]; intros e sg Hsg He Hf; [lia|]. simpl.
  destruct (is_signalled sg e) eqn:Hs.
  { split; try done; [auto| |intros; congruence]. intros d ->%list_elem_of_singleton. done. }
  set (sg1 := <[e := true]> sg).
  assert (length sg1 = n) as Hsg1 by (unfold sg1; by rewrite length_insert).
  assert (forall x, is_signalled sg1 x = true <-> is_signalled sg x = true \/ x = e) as H1.
  { intros x. unfold sg1. rewrite is_signalled_insert, orb_true_iff, bool_decide_eq_true. intuition lia. }
  assert (outcome ds sg1 (foldl (fun sg d => signal fuel ds d sg) sg1 (deps_of ds e)) (deps_of ds e)) as Ho.
  { apply (fold_outcome ds fuel n); [done|]. intros d sg' Hd Hl. destruct (Hup e d Hd). apply IH; [done|lia|lia]. }
  set (sg2 := foldl _ sg1 _) in *. split.
  - rewrite (o_length _ _ _ _ Ho). by rewrite Hsg1.
  - intros x Hx. apply (o_keep _ _ _ _ Ho), H1. by left.
  - intros x [[Hx|Hx]%H1|(d & Hd & Hr)]%(o_sound _ _ _ _ Ho); [by left|..]; right; exists e; (split; [left|]).
    + rewrite Hx. by apply reaches_here.
    + apply (reaches_link ds sg e d); [done|done|]. eapply reaches_mono; [|exact Hr]. intros y Hy. apply H1. by left.
  - intros d ->%list_elem_of_singleton _. apply (o_keep _ _ _ _ Ho), H1. by right.
  - intros x d Hx Hn Hd Hl. destruct (decide (x = e)) as [->|Hne].
    + apply (o_todo _ _ _ _ Ho); [done|]. by rewrite Hsg1, <- Hsg.
    + apply (o_closed _ _ _ _ Ho x); [done| |done|by rewrite Hsg1, <- Hsg].
      destruct (is_signalled sg1 x) eqn:E; [|done]. apply H1 in E as [?|?]; congruence.
Qed.

(** From an event that the call has signalled, everything along a path. *)
Lemma outcome_reaches ds n sg sg' todo e x :
  links_up ds n -> length sg = n -> outcome ds sg sg' todo -> reaches ds sg e x ->
  is_signalled sg' e = true -> is_signalled sg' x = true.
Proof.
  intros [_ Hup] Hsg Ho. induction 1 as [e He|e d x He Hd _ IH]; [done|]. intros Hs. apply IH.
  apply (o_closed _ _ _ _ Ho e); [done|done|done|]. rewrite Hsg. by destruct (Hup e d Hd).
Qed.

(** C23. [signal()] on an event signals exactly the events that are reached from
    it along links through events that are not signalled yet, and leaves every
    other flag as it is; as links go up, a depth of [n - e] is enough. *)
Theorem signal_is_closure ds n fuel e sg x :
  links_up ds n -> length sg = n -> e < n -> n - e <= fuel ->
  (is_signalled (signal fuel ds e sg) x = true <-> is_signalled sg x = true \/ reaches ds sg e x).
Proof.
  intros Hup Hsg He Hf. pose proof (signal_outcome ds n fuel e sg Hup Hsg He Hf) as Ho. split.
  - intros [?|(d & ->%list_elem_of_singleton & ?)]%(o_sound _ _ _ _ Ho); auto.
  - intros [?|Hr]; [by apply (o_keep _ _ _ _ Ho)|]. eapply (outcome_reaches ds n); try done.
    apply (o_todo _ _ _ _ Ho); [left|by rewrite Hsg].
Qed.

(** Four events in a diamond, of which the second is signalled already. *)
Lemma signal_is_closure_witness :
  signal 4 [[1; 2]; [3]; [3]; []] 0 [false; true; false; false] = [true; true; true; true] /\
  (is_signalled (signal 4 [[1; 2]; [3]; [3]; []] 0 [false; true; false; false]) 3 = true <->
   is_signalled [false; true; false; false] 3 = true \/ reaches [[1; 2]; [3]; [3]; []] [false; true; false; false] 0 3).
Proof.
  split; [reflexivity|]. apply (signal_is_closure _ 4); [|reflexivity|lia|lia]. split; [reflexivity|].
  intros e d Hd. do 4 (destruct e as [|e]; [unfold deps_of in Hd; simpl in Hd; rewrite ?elem_of_cons, elem_of_nil in Hd; lia|]).
  unfold deps_of in Hd. simpl in Hd. by apply elem_of_nil in Hd.
Defined.

(** ** A call that runs alone computes the function *)
Definition flags (s : Sys) : Flags := signalled <$> evs s.
Definition locks (s : Sys) : list (option Who) := mutex <$> evs s.

(** The state after some steps of the call of frame [(e, k)] of agent [a]. *)
Record advanced (s s' : Sys) (f0 : nat * nat) (p : CPc) (fl : Flags) (lk : list (option Who)) : Prop := {
  a_runs : rtc runs s s';
  a_agents : agents s' = agents s;
  a_links : links s' = links s;
  a_flags : flags s' = fl;
  a_locks : locks s' = lk;
  a_self : pc_at s' f0 = Some p;
  a_other f : f <> f0 -> is_Some (pc_at s f) -> pc_at s' f = pc_at s f
}.

Lemma advanced_trans s s1 s2 f0 p1 p2 fl1 fl2 lk1 lk2 :
  advanced s s1 f0 p1 fl1 lk1 -> advanced s1 s2 f0 p2 fl2 lk2 -> advanced s s2 f0 p2 fl2 lk2.
Proof.
  intros [R1 A1 L1 F1 K1 S1 O1] [R2 A2 L2 F2 K2 S2 O2]. split; try done; try congruence.
  - by etrans.
  - intros f Hf Hs. rewrite O2, O1; try done. by rewrite O1.
Qed.

(** One step of a call that makes no nested call. *)
Lemma advanced_step s a A e k below ev ev' p choice :
  agents s !! a = Some A -> frames A = (e, k) :: below -> evs s !! e = Some ev -> callers ev !! k = Some p ->
  match p with SEnter | SCheck | SNotify | SDeps [] => True | _ => False end ->
  caller_step k choice ev = Some ev' ->
  advanced s (mkSys (<[e := ev']> (evs s)) (agents s)) (e, k) (next_pc ev p)
    (<[e := signalled ev']> (flags s)) (<[e := mutex ev']> (locks s)).
Proof.
  intros HA Ef E Hk Hp Hs. destruct (caller_step_next k choice ev ev' p Hs Hk) as (_ & Ek & Ed & _).
  assert (forall f, pc_at (mkSys (<[e := ev']> (evs s)) (agents s)) f =
    if decide (f = (e, k)) then Some (next_pc ev p) else pc_at s f) as Hpc by (intros f; by apply (advance_pc e ev); eauto).
  split; try done.
  - apply rtc_once. exists a, choice. cbn [sys_step]. unfold run_agent. rewrite HA. cbn [mbind option_bind].
    rewrite Ef, E. cbn [mbind option_bind]. rewrite Hk. cbn [mbind option_bind]. unfold advance. rewrite E. cbn [mbind option_bind].
    rewrite Hs. by destruct p as [| | |[|]| | | | |].
  - by eapply advance_links; eauto; destruct p as [| | |[|]| | | | |].
  - unfold flags. simpl. apply list_fmap_insert.
  - unfold locks. simpl. apply list_fmap_insert.
  - by rewrite Hpc, decide_True.
  - intros f Hf _. by rewrite Hpc, decide_False.
Qed.

Lemma lookup_flags s e ev : evs s !! e = Some ev -> flags s !! e = Some (signalled ev) /\ locks s !! e = Some (mutex ev).
Proof. intros E. unfold flags, locks. by rewrite !list_lookup_fmap, E. Qed.

Lemma pc_at_event s e k p : pc_at s (e, k) = Some p -> exists ev, evs s !! e = Some ev /\ callers ev !! k = Some p.
Proof. unfold pc_at. simpl. destruct (evs s !! e) as [ev|]; [|done]. simpl. eauto. Qed.

Lemma lock_of s e ev m : evs s !! e = Some ev -> locks s !! e = Some m -> mutex ev = m.
Proof. intros E. destruct (lookup_flags s e ev E) as [_ ->]. by intros [= ->]. Qed.

(** The call of [dep->signal()]. *)
Lemma nested_step s a A e k below d rest dv :
  agents s !! a = Some A -> frames A = (e, k) :: below -> pc_at s (e, k) = Some (SDeps (d :: rest)) ->
  evs s !! d = Some dv -> e < d ->
  exists s' k', runs s s' /\ agents s' = <[a := set_frames A ((d, k') :: (e, k) :: below)]> (agents s) /\
    links s' = links s /\ flags s' = flags s /\ locks s' = locks s /\ pc_at s (d, k') = None /\
    pc_at s' (d, k') = Some SEnter /\ pc_at s' (e, k) = Some (SDeps rest) /\
    forall f, f <> (e, k) -> is_Some (pc_at s f) -> pc_at s' f = pc_at s f.
Proof.
  intros HA Ef Hpc Hd Hed. destruct (pc_at_event s e k _ Hpc) as (ev & E & Hk).
  pose proof (push_is s a d A SEnter dv Hd) as Hpush. pose proof (push_pc s a d A SEnter dv Hd) as Hpc1.
  pose proof (push_fresh s d dv Hd) as Hfresh. pose proof (push_links s a A d SEnter dv Hd) as Hl1.
  set (s1 := mkSys _ _) in Hpush, Hpc1, Hl1.
  assert (evs s1 !! e = Some ev) as E1 by (unfold s1; simpl; by rewrite list_lookup_insert_ne by lia).
  set (ev' := step_caller k (SDeps rest) (signalled ev) (mutex ev) (deps ev) (waiters ev) ev).
  assert (caller_step k 0 ev = Some ev') as Hs by (unfold caller_step; by rewrite Hk).
  assert (forall f, pc_at (mkSys (<[e := ev']> (evs s1)) (agents s1)) f =
    if decide (f = (e, k)) then Some (SDeps rest) else pc_at s1 f) as Hpc2.
  { intros f. by apply (advance_pc e ev); eauto. }
  exists (mkSys (<[e := ev']> (evs s1)) (agents s1)), (length (callers dv)). split_and!.
  - exists a, 0. cbn [sys_step]. unfold run_agent. rewrite HA. cbn [mbind option_bind]. rewrite Ef, E. cbn [mbind option_bind].
    rewrite Hk. cbn [mbind option_bind]. rewrite Hpush. cbn [mbind option_bind]. unfold advance. rewrite E1. cbn [mbind option_bind].
    by rewrite Hs.
  - unfold s1. simpl. by rewrite Ef.
  - rewrite <- Hl1. by eapply (advance_links s1 e k 0 ev ev').
  - unfold flags. simpl. rewrite !list_fmap_insert. apply list_eq. intros x.
    destruct (lookup_flags s e ev E) as [F1 _]. destruct (lookup_flags s d dv Hd) as [F2 _]. unfold flags in F1, F2.
    destruct (decide (x = e)) as [->|]; [rewrite insert_self, F1 by (rewrite list_lookup_insert_ne by lia; eauto); done|].
    rewrite list_lookup_insert_ne by done. destruct (decide (x = d)) as [->|]; [by rewrite insert_self, F2 by eauto|].
    by rewrite list_lookup_insert_ne.
  - unfold locks. simpl. rewrite !list_fmap_insert. apply list_eq. intros x.
    destruct (lookup_flags s e ev E) as [_ F1]. destruct (lookup_flags s d dv Hd) as [_ F2]. unfold locks in F1, F2.
    destruct (decide (x = e)) as [->|]; [rewrite insert_self, F1 by (rewrite list_lookup_insert_ne by lia; eauto); done|].
    rewrite list_lookup_insert_ne by done. destruct (decide (x = d)) as [->|]; [by rewrite insert_self, F2 by eauto|].
    by rewrite list_lookup_insert_ne.
  - done.
  - rewrite Hpc2, decide_False, Hpc1, decide_True; [done|done|]. injection 1. lia.
  - by rewrite Hpc2, decide_True.
  - intros f Hf Hsf. rewrite Hpc2, decide_False, Hpc1, decide_False; try done. intros ->. rewrite Hfresh in Hsf. by destruct Hsf.
Qed.

(** What a call of [signal()] on [e], from its start, comes to. *)
Definition simulated (fuel : nat) : Prop := forall s a A e k below,
  agents s !! a = Some A -> frames A = (e, k) :: below -> pc_at s (e, k) = Some SEnter ->
  links_up (links s) (length (evs s)) -> (forall x m, e <= x -> locks s !! x = Some m -> m = None) ->
  length (evs s) - e <= fuel ->
  exists s', rtc runs s s' /\ agents s' = <[a := set_frames A below]> (agents s) /\
    links s' = links s /\ locks s' = locks s /\ flags s' = signal fuel (links s) e (flags s) /\
    forall f, f <> (e, k) -> is_Some (pc_at s f) -> pc_at s' f = pc_at s f.

Lemma links_length s s' : links s' = links s -> length (evs s') = length (evs s).
Proof. intros H. apply (f_equal length) in H. unfold links in H. by rewrite !length_fmap in H. Qed.

Lemma set_frames_self A fs : frames A = fs -> set_frames A fs = A.
Proof. intros <-. by destruct A. Qed.

(** The loop over the dependents. *)
Lemma deps_loop fuel s a A e k below rest :
  simulated fuel -> agents s !! a = Some A -> frames A = (e, k) :: below -> pc_at s (e, k) = Some (SDeps rest) ->
  links_up (links s) (length (evs s)) -> (forall x m, e < x -> locks s !! x = Some m -> m = None) ->
  (forall d, d ∈ rest -> e < d < length (evs s)) -> length (evs s) - e <= S fuel ->
  exists s', advanced s s' (e, k) (SDeps []) (foldl (fun sg d => signal fuel (links s) d sg) (flags s) rest) (locks s).
Proof.
  intros Hsim. revert s. induction rest as [|d rest IH]; intros s HA Ef Hpc Hup Hlk Hr Hf.
  { exists s. split; try done. }
  destruct (Hr d) as [Hed Hdl]; [by left|]. apply lookup_lt_is_Some in Hdl as [dv Hd].
  destruct (nested_step s a A e k below d rest dv HA Ef Hpc Hd Hed) as (s1 & k' & R1 & A1 & L1 & F1 & K1 & N1 & P1 & P1' & O1).
  pose proof (links_length s s1 L1) as Hlen1.
  destruct (Hsim s1 a (set_frames A ((d, k') :: (e, k) :: below)) d k' ((e, k) :: below)) as (s2 & R2 & A2 & L2 & K2 & F2 & O2).
  - rewrite A1. apply insert_self. eauto.
  - done.
  - done.
  - by rewrite L1, Hlen1.
  - intros x m Hx. rewrite K1. apply Hlk. lia.
  - lia.
  - assert (agents s2 = agents s) as A2'.
    { rewrite A2, A1, list_insert_insert_eq. apply list_insert_id. rewrite HA. f_equal. simpl. by destruct A; simplify_eq/=. }
    assert (pc_at s2 (e, k) = Some (SDeps rest)) as P2.
    { rewrite O2; [done| |by rewrite P1'; eauto]. injection 1. lia. }
    destruct (IH s2) as (s3 & [R3 A3 L3 F3 K3 P3 O3]); [by rewrite A2'|done|done|..].
    + by rewrite L2, L1, (links_length s1 s2 L2), Hlen1.
    + intros x m Hx. rewrite K2, K1. by apply Hlk.
    + intros d' Hd'. rewrite (links_length s1 s2 L2), Hlen1. apply Hr. by right.
    + rewrite (links_length s1 s2 L2), Hlen1. done.
    + exists s3. split.
      * eapply rtc_l; [exact R1|]. by etrans.
      * by rewrite A3, A2'.
      * by rewrite L3, L2, L1.
      * rewrite F3, F2, L2, L1, F1. done.
      * by rewrite K3, K2, K1.
      * done.
      * intros f Hfe Hfs. assert (f <> (d, k')) as Hfd by (intros ->; rewrite N1 in Hfs; by destruct Hfs).
        assert (pc_at s2 f = pc_at s f) as E2 by (rewrite O2, O1; try done; by rewrite O1). rewrite O3, E2; try done. by rewrite E2.
Qed.

(** The call returns. *)
Lemma return_step s a A e k below r :
  agents s !! a = Some A -> frames A = (e, k) :: below -> pc_at s (e, k) = Some (SReturn r) ->
  runs s (mkSys (evs s) (<[a := set_frames A below]> (agents s))).
Proof.
  intros HA Ef (ev & E & Hk)%pc_at_event. exists a, 0. cbn [sys_step]. unfold run_agent. rewrite HA. cbn [mbind option_bind].
  rewrite Ef, E. cbn [mbind option_bind]. by rewrite Hk.
Qed.

Lemma caller_lock k choice ev ev' p :
  caller_step k choice ev = Some ev' -> callers ev !! k = Some p ->
  mutex ev' = match p with
              | SEnter => Some (ByCaller k)
              | SDeps [] => None
              | SCheck => if signalled ev then None else mutex ev
              | SNotify => mutex ev
              | _ => mutex ev'
              end.
Proof.
  intros E Hk. unfold caller_step in E. rewrite Hk in E. cbn [mbind option_bind] in E.
  destruct p as [| | |[|]| | | | |]; try done; try (destruct (free ev); [|done]); try (destruct (signalled ev));
    try (destruct (match mode ev with Auto => _ | Manual => _ end); [|done]); injection E as <-; done.
Qed.

(** The steps of a call up to its loop, or to its early return. *)
Lemma signal_begin s a A e k below ev :
  agents s !! a = Some A -> frames A = (e, k) :: below -> evs s !! e = Some ev -> callers ev !! k = Some SEnter ->
  mutex ev = None ->
  exists s', if signalled ev
    then advanced s s' (e, k) (SReturn false) (flags s) (locks s)
    else advanced s s' (e, k) (SDeps (deps ev)) (<[e := true]> (flags s)) (<[e := Some (ByCaller k)]> (locks s)).
Proof.
  intros HA Ef E Hk Hm. destruct (lookup_flags s e ev E) as [F0 K0].
  destruct (caller_can_step k ev SEnter Hk eq_refl) as (c1 & ev1 & S1); [by right|].
  destruct (caller_step_next k c1 ev ev1 SEnter S1 Hk) as (_ & Ek1 & Ed1 & Es1 & _). pose proof (caller_lock _ _ _ _ _ S1 Hk) as Em1.
  pose proof (advanced_step s a A e k below ev ev1 SEnter c1 HA Ef E Hk I S1) as H1. set (s1 := mkSys _ _) in H1.
  assert (evs s1 !! e = Some ev1) as E1 by (unfold s1; apply insert_self; eauto).
  assert (callers ev1 !! k = Some SCheck) as Hk1 by (rewrite Ek1; apply insert_self; eauto).
  rewrite Es1, orb_false_r, Em1 in H1. rewrite (list_insert_id (flags s)) in H1 by done.
  destruct (caller_can_step k ev1 SCheck Hk1 eq_refl) as (c2 & ev2 & S2); [by left|].
  destruct (caller_step_next k c2 ev1 ev2 SCheck S2 Hk1) as (_ & Ek2 & Ed2 & Es2 & _). pose proof (caller_lock _ _ _ _ _ S2 Hk1) as Em2.
  pose proof (advanced_step s1 a A e k below ev1 ev2 SCheck c2 HA Ef E1 Hk1 I S2) as H2. set (s2 := mkSys _ _) in H2.
  pose proof (advanced_trans _ _ _ _ _ _ _ _ _ _ H1 H2) as H12. rewrite (a_flags _ _ _ _ _ _ H1), (a_locks _ _ _ _ _ _ H1) in H12.
  simpl in Es1. rewrite orb_false_r in Es1. simpl in Ek2. rewrite orb_true_r in Es2.
  cbn [next_pc] in H12. rewrite Es1 in H12, Em2, Ek2. rewrite Es2, Em2, list_insert_insert_eq in H12.
  destruct (signalled ev) eqn:Hsg.
  { exists s2. rewrite !list_insert_id in H12; [done| |done]. rewrite K0. by rewrite Hm. }
  assert (evs s2 !! e = Some ev2) as E2 by (unfold s2; apply insert_self; eauto).
  assert (callers ev2 !! k = Some SNotify) as Hk2 by (rewrite Ek2; apply insert_self; eauto).
  destruct (caller_can_step k ev2 SNotify Hk2 eq_refl) as (c3 & ev3 & S3); [by left|].
  destruct (caller_step_next k c3 ev2 ev3 SNotify S3 Hk2) as (_ & Ek3 & Ed3 & Es3 & _). pose proof (caller_lock _ _ _ _ _ S3 Hk2) as Em3.
  pose proof (advanced_step s2 a A e k below ev2 ev3 SNotify c3 HA Ef E2 Hk2 I S3) as H3. set (s3 := mkSys _ _) in H3.
  pose proof (advanced_trans _ _ _ _ _ _ _ _ _ _ H12 H3) as H123. rewrite (a_flags _ _ _ _ _ _ H12), (a_locks _ _ _ _ _ _ H12) in H123.
  exists s3. cbn [next_pc] in H123. rewrite Ed2, Ed1, Es3, Em3, Em2, Em1, Es2, orb_true_l, !list_insert_insert_eq in H123. done.
Qed.

(** The end of a call that has advanced to its return. *)
Lemma signal_end s s1 a A e k below r fl :
  agents s !! a = Some A -> frames A = (e, k) :: below -> advanced s s1 (e, k) (SReturn r) fl (locks s) ->
  exists s', rtc runs s s' /\ agents s' = <[a := set_frames A below]> (agents s) /\
    links s' = links s /\ locks s' = locks s /\ flags s' = fl /\
    forall f, f <> (e, k) -> is_Some (pc_at s f) -> pc_at s' f = pc_at s f.
Proof.
  intros HA Ef [R1 A1 L1 F1 K1 P1 O1]. exists (mkSys (evs s1) (<[a := set_frames A below]> (agents s1))).
  split_and!; try done; [|by rewrite A1].
  eapply rtc_r; [exact R1|]. apply (return_step s1 a A e k below r); [by rewrite A1|done|done].
Qed.

Lemma links_deps s e ev : evs s !! e = Some ev -> deps_of (links s) e = deps ev.
Proof. intros E. unfold deps_of, links. by rewrite list_lookup_fmap, E. Qed.

Lemma signal_simulates fuel : simulated fuel.
Proof.
  induction fuel as [|fuel IH]; intros s a A e k below HA Ef Hpc Hup Hlk Hf;
    destruct (pc_at_event s e k _ Hpc) as (ev & E & Hk); assert (e < length (evs s)) as He by (by eapply lookup_lt_Some); [lia|].
  destruct (lookup_flags s e ev E) as [F0 K0]. pose proof (Hlk e (mutex ev) (le_n e) K0) as Hm.
  destruct (signal_begin s a A e k below ev HA Ef E Hk Hm) as [s1 H1]. cbn [signal].
  unfold is_signalled. rewrite F0. simpl. destruct (signalled ev) eqn:Hsg; [by eapply signal_end|].
  rewrite (links_deps s e ev E).
  pose proof (links_length s s1 (a_links _ _ _ _ _ _ H1)) as Hlen.
  destruct (deps_loop fuel s1 a A e k below (deps ev)) as [s2 H2]; try done.
  - by rewrite (a_agents _ _ _ _ _ _ H1).
  - apply H1.
  - by rewrite (a_links _ _ _ _ _ _ H1), Hlen.
  - intros x m Hx. rewrite (a_locks _ _ _ _ _ _ H1), list_lookup_insert_ne by lia. apply Hlk. lia.
  - intros d Hd. rewrite Hlen. apply (proj2 Hup). by rewrite (links_deps s e ev E).
  - lia.
  - pose proof (advanced_trans _ _ _ _ _ _ _ _ _ _ H1 H2) as H12.
    rewrite (a_flags _ _ _ _ _ _ H1), (a_locks _ _ _ _ _ _ H1), (a_links _ _ _ _ _ _ H1) in H12.
    destruct (pc_at_event s2 e k _ (a_self _ _ _ _ _ _ H12)) as (ev2 & E2 & Hk2).
    destruct (caller_can_step k ev2 (SDeps []) Hk2 eq_refl) as (c3 & ev3 & S3); [by left|].
    assert (agents s2 !! a = Some A) as HA2 by (by rewrite (a_agents _ _ _ _ _ _ H12)).
    pose proof (advanced_step s2 a A e k below ev2 ev3 (SDeps []) c3 HA2 Ef E2 Hk2 I S3) as H3.
    pose proof (advanced_trans _ _ _ _ _ _ _ _ _ _ H12 H3) as H123.
    rewrite (a_flags _ _ _ _ _ _ H12), (a_locks _ _ _ _ _ _ H12), (caller_lock _ _ _ _ _ S3 Hk2), list_insert_insert_eq in H123.
    destruct (caller_step_next k c3 ev2 ev3 _ S3 Hk2) as (_ & _ & _ & Es & _). simpl in Es. rewrite orb_false_r in Es.
    destruct (lookup_flags s2 e ev2 E2) as [F2 _]. rewrite (a_flags _ _ _ _ _ _ H12) in F2.
    rewrite Es, (list_insert_id _ e (signalled ev2)) in H123 by done.
    rewrite (list_insert_id (locks s)) in H123 by (by rewrite K0, Hm). by eapply signal_end.
Qed.

Lemma reach_links_up s : sys_reach s -> links_up (links s) (length (evs s)).
Proof.
  intros Hr. split; [unfold links; apply length_fmap|]. intros e d. unfold deps_of, links. rewrite list_lookup_fmap.
  destruct (evs s !! e) as [ev|] eqn:E; simpl; [|by intros ?%elem_of_nil]. by apply (y_deps s (sys_reach_inv s Hr)).
Qed.

(** C21. The function describes the code: in every reachable system of events
    whose locks are free, the thread that has just called [signal()] on [e] can
    run to its return, and then exactly the events reached from [e] through
    unsignalled ones have become signalled, and every lock is free again. *)
Theorem signal_refines_function s a e k :
  sys_reach s -> agents s !! a = Some (mkAgent [] [] 0 [(e, k)]) -> pc_at s (e, k) = Some SEnter ->
  Forall (fun m => m = None) (locks s) ->
  exists s', rtc runs s s' /\ agents s' !! a = Some (mkAgent [] [] 0 []) /\ locks s' = locks s /\
    forall x, is_signalled (flags s') x = true <->
              is_signalled (flags s) x = true \/ reaches (links s) (flags s) e x.
Proof.
  intros Hr HA Hpc Hlk. pose proof (reach_links_up s Hr) as Hup.
  destruct (pc_at_event s e k _ Hpc) as (ev & E & _). assert (e < length (evs s)) as He by (by eapply lookup_lt_Some).
  destruct (signal_simulates (length (evs s)) s a _ e k [] HA eq_refl Hpc Hup) as (s' & R & A' & _ & K & F & _).
  - intros x m _ Hx. by apply (Forall_lookup_1 _ _ _ _ Hlk Hx).
  - lia.
  - exists s'. split_and!; [done|rewrite A'; apply insert_self; eauto|done|]. intros x. rewrite F.
    pose proof (signal_outcome (links s) (length (evs s)) (length (evs s)) e (flags s) Hup) as Ho.
    specialize (Ho ltac:(unfold flags; apply length_fmap) He ltac:(lia)). split.
    + intros [?|(d & ->%list_elem_of_singleton & ?)]%(o_sound _ _ _ _ Ho); auto.
    + intros [?|Hre]; [by apply (o_keep _ _ _ _ Ho)|].
      eapply (outcome_reaches _ (length (evs s))); try done; [unfold flags; apply length_fmap|].
      apply (o_todo _ _ _ _ Ho); [left|]. unfold flags. by rewrite length_fmap.
Qed.

(** The sample of EventAnyProps.v, where [any] of two events exists and
    [signal()] was called on the second one. *)
Lemma signal_refines_function_witness :
  exists s', rtc runs (sample_sys 14) s' /\ is_signalled (flags s') 2 = true.
Proof.
  destruct (signal_refines_function (sample_sys 14) 1 1 1) as (s' & R & _ & _ & H).
  - apply sample_sys_reach. lia.
  - vm_compute. reflexivity.
  - vm_compute. reflexivity.
  - vm_compute. repeat constructor.
  - exists s'. split; [exact R|]. apply H. right.
    apply (reaches_link _ _ 1 2); [vm_compute; reflexivity| |apply reaches_here; vm_compute; reflexivity].
    change (deps_of (links (sample_sys 14)) 1) with [2]. left.
Defined.
