(* ===== verification/Parallel.v ===== *)
(** [marl::parallelize] (src/include/marl/parallelize.hpp), which schedules
    functions and waits for them with a [WaitGroup].

    The wait group is the machine of WaitGroup.v with one waiter, the caller;
    a step of the composition is a step of the caller, of a scheduled function
    or of the wait group.  A function that was scheduled starts and ends; what
    it computes is left open.  The first part, on a wait group with a single
    waiter, also serves BlockingCall.v. *)
From stdpp Require Import base numbers strings relations list.
From S2P Require Import Prelude WaitGroup.

Local Open Scope Z_scope.

(** ** The wait group with a single waiter *)

(** Steps of [wait()] and [done()]; wake-ups for no reason are left out. *)
Definition internal (e : Event) : bool :=
  match e with EWait _ | EDone _ => true | _ => false end.

Definition wrank (p : WPc) : nat :=
  match p with
  | WEnter => 9 | WCheck => 8 | WRegister => 7 | WWoken => 6 | WTest => 5 | WSleepy => 4 | WAsleep => 3
  | WUnregister => 2 | WLeave => 1 | WReturn => 0
  end.
Definition drank (p : DPc) : nat :=
  match p with DIdle => 10 | DAssert => 9 | DDecr => 8 | DLock => 7 | DNotify => 6 | DUnlock => 1 | DDone _ => 0 end.
Definition wg_work (s : State) : nat :=
  sum_list_with (fun w => wrank (wpc w)) (waiters s) + sum_list_with drank (doers s).

Lemma wait_step_work n s s' : wait_step n s = Some s' -> (wg_work s' < wg_work s)%nat /\ doers s' = doers s /\
  length (waiters s') = length (waiters s) /\ credits s' = credits s /\ grown s' = grown s.
Proof.
  unfold wait_step. destruct (waiters s !! n) as [w|] eqn:Hw; [|done]. cbn [mbind option_bind]. intros E.
  pose proof (fun v => sum_insert (fun w => wrank (wpc w)) (waiters s) n w v Hw) as Hs. unfold wg_work.
  destruct w as [fb p]. simpl in *.
  destruct p; try done; repeat case_bool_decide; repeat case_match; simplify_eq/=; rewrite ?length_insert;
    (split; [|done]); match goal with |- context [sum_list_with _ (<[n := ?v]> _)] => specialize (Hs v) end; simpl in Hs; lia.
Qed.

Lemma wrank_wake w : (wrank (wpc (wake w)) <= wrank (wpc w) + 3)%nat.
Proof. unfold wake. case_bool_decide as Ha; simpl; [rewrite Ha; simpl|]; lia. Qed.

Lemma notify_all_work s w :
  waiters s = [w] ->
  (sum_list_with (fun w => wrank (wpc w)) (waiters (notify_all s)) <= wrank (wpc w) + 3)%nat /\
  doers (notify_all s) = doers s /\ length (waiters (notify_all s)) = 1%nat /\
  credits (notify_all s) = credits s /\ grown (notify_all s) = grown s.
Proof.
  intros Ew. pose proof (wrank_wake w) as Hw. unfold notify_all.
  case_bool_decide; simpl; rewrite Ew; simpl; [split; [lia|done]|]. repeat case_match; simpl; split; try done; lia.
Qed.

Definition ddone (p : DPc) : bool := match p with DDone _ => true | _ => false end.

(** How a call of [done()] may go on. *)
Definition later (p q : DPc) : Prop := (q = DIdle <-> p = DIdle) /\ (ddone p = true -> ddone q = true).

Lemma done_step_work d s s' w :
  waiters s = [w] -> done_step d s = Some (Ok s') ->
  (wg_work s' < wg_work s)%nat /\ length (doers s') = length (doers s) /\
  (forall i p, doers s !! i = Some p -> exists q, doers s' !! i = Some q /\ later p q) /\
  length (waiters s') = 1%nat /\ credits s' = credits s /\ grown s' = grown s.
Proof.
  intros Ew. unfold done_step. destruct (doers s !! d) as [p|] eqn:Hd; [|done]. cbn [mbind option_bind]. intros E.
  destruct (notify_all_work s w Ew) as (Hn & End & Enl & Enc & Eng).
  pose proof (fun v => sum_insert drank (doers s) d p v Hd) as Hs.
  assert (forall q, q <> DIdle -> p <> DIdle -> ddone p = false ->
    forall i x, doers s !! i = Some x -> exists y, <[d := q]> (doers s) !! i = Some y /\ later x y) as Hi.
  { intros q Hq Hp Hdn i x Hx. destruct (decide (i = d)) as [->|Hne]; [|exists x; by rewrite list_lookup_insert_ne].
    exists q. rewrite insert_self by eauto. split; [done|]. assert (x = p) as -> by congruence.
    split; [split; congruence|congruence]. }
  unfold wg_work. rewrite Ew. simpl.
  destruct p; try done.
  - unfold MARL_ASSERT in E. case_bool_decide; simplify_eq/=. specialize (Hs DDecr). simpl in Hs.
    rewrite length_insert, Ew. simpl. split_and!; try done; [lia|by apply Hi].
  - simplify_eq/=. set (q := if bool_decide _ then _ else _) in *. specialize (Hs q).
    assert (drank q < 8 /\ q <> DIdle)%nat as [Hq1 Hq2] by (unfold q; case_bool_decide; simpl; split; (lia || done)).
    simpl in Hs. rewrite length_insert, Ew. simpl. split_and!; try done; [lia|by apply Hi].
  - case_bool_decide; simplify_eq/=. specialize (Hs DNotify). simpl in Hs.
    rewrite length_insert, Ew. simpl. split_and!; try done; [lia|by apply Hi].
  - simplify_eq/=. specialize (Hs DUnlock). simpl in Hs. rewrite End, length_insert, Enl, Enc, Eng.
    split_and!; try done; [lia|by apply Hi].
  - simplify_eq/=. specialize (Hs (DDone true)). simpl in Hs.
    rewrite length_insert, Ew. simpl. split_and!; try done; [lia|by apply Hi].
Qed.

(** One summary for every internal step. *)
Lemma internal_step e s s' w :
  internal e = true -> waiters s = [w] -> wg_step e s = Some (Ok s') ->
  (wg_work s' < wg_work s)%nat /\ (exists w', waiters s' = [w']) /\ length (doers s') = length (doers s) /\
  (forall i p, doers s !! i = Some p -> exists q, doers s' !! i = Some q /\ later p q) /\
  credits s' = credits s /\ grown s' = grown s.
Proof.
  intros He Ew E.
  assert (forall l : list Waiter, length l = 1%nat -> exists w', l = [w']) as Hone by (intros [|x [|]]; naive_solver).
  destruct e as [n|d| | |]; try done; cbn [wg_step] in E.
  - destruct (wait_step n s) as [s1|] eqn:E1; [|done]. simplify_eq/=.
    destruct (wait_step_work n s s' E1) as (H1 & H2 & H3 & H4 & H5). rewrite H2.
    split_and!; try done; [apply Hone; by rewrite H3, Ew|]. intros i p Hp. by exists p.
  - destruct (done_step_work d s s' w Ew E) as (H1 & H2 & H3 & H4 & H5 & H6). split_and!; auto.
Qed.

(** When every [done()] has been called, the wait group can go on until the
    caller is released. *)
Lemma wg_progress s w :
  wg_reach s -> waiters s = [w] -> credits s = 0 -> (forall i p, doers s !! i = Some p -> p <> DIdle) ->
  wpc w <> WReturn -> exists e s', internal e = true /\ wg_step e s = Some (Ok s').
Proof.
  intros Hr Ew Hc Hi Hw. pose proof (wg_reach_inv s Hr) as HI.
  assert (waiters s !! 0%nat = Some w) as Hw0 by (by rewrite Ew).
  assert (forall d p, doers s !! d = Some p -> (forall b, p <> DDone b) -> (p = DLock -> mutex s = None) ->
    exists e s', internal e = true /\ wg_step e s = Some (Ok s')) as Hgo.
  { intros d p Hd Hp Hl. exists (EDone d). cbn [wg_step]. destruct (done_step d s) as [r|] eqn:E.
    - destruct (done_step_inv s d r HI E) as (s' & -> & _). by exists s'.
    - exfalso. unfold done_step in E. rewrite Hd in E. cbn [mbind option_bind] in E. specialize (Hi d p Hd).
      destruct p as [| | | | | |b]; try done; [|by destruct (Hp b)]. rewrite bool_decide_eq_true_2 in E by (by apply Hl). done. }
  destruct (mutex s) as [[n|d]|] eqn:Hm.
  - pose proof (i_who s HI) as Hwho. rewrite Hm in Hwho. destruct Hwho as [v Hv].
    assert (holding (wpc v) = true) as Hh by (by apply (i_waiter s HI n v Hv)).
    assert (exists s', wait_step n s = Some s') as [s' E].
    { unfold wait_step. rewrite Hv. cbn [mbind option_bind]. destruct (wpc v); try done; eauto; destruct (pred s); eauto. }
    exists (EWait n), s'. cbn [wg_step]. by rewrite E.
  - pose proof (i_who s HI) as Hwho. rewrite Hm in Hwho. destruct Hwho as [p Hp].
    assert (dholding p = true) as Hh by (by apply (i_doer s HI d p Hp)). apply (Hgo d p Hp); by destruct p.
  - destruct (decide (Forall (fun p => ddone p = true) (doers s))) as [Hall|Hnot].
    + assert (settled s) as Hs.
      { rewrite Forall_forall in Hall. split.
        - destruct (i_count s HI) as (-> & _). rewrite Hc. assert (cnt dpending (doers s) = 0) as ->; [|lia].
          assert (forall l, (forall p, p ∈ l -> ddone p = true) -> cnt dpending l = 0) as Hz; [|by apply Hz].
          induction l as [|x l IH]; simpl; intros H; [done|]. rewrite IH by (intros p Hp; apply H; by right).
          specialize (H x ltac:(left)). by destruct x.
        - intros d p Hp. right. specialize (Hall p (list_elem_of_lookup_2 _ _ _ Hp)). destruct p; try done. eauto. }
      destruct (settled_progress s 0 w HI Hs Hw0 Hw) as (k & s' & E). exists (EWait k), s'. cbn [wg_step]. by rewrite E.
    + apply not_Forall_Exists in Hnot; [|intros x; by destruct (ddone x); [left|right]].
      apply Exists_exists in Hnot as (p & [d Hd]%list_elem_of_lookup_1 & Hp). apply (Hgo d p Hd); [|done].
      intros b ->. by apply Hp.
Qed.

(** A released waiter stays released. *)
Lemma returned_stays e s s' w :
  wg_reach s -> waiters s = [w] -> wpc w = WReturn -> (internal e = true \/ exists k, e = ESpurious k) ->
  wg_step e s = Some (Ok s') -> waiters s' = [w].
Proof.
  intros Hr Hw Hret He E. destruct e as [[|k]|d|[|k]|k|d]; cbn [wg_step] in E; try (by destruct He as [?|[? ?]]).
  - unfold wait_step in E. rewrite Hw in E. cbn in E. by rewrite Hret in E.
  - unfold wait_step in E. by rewrite Hw in E.
  - unfold done_step in E. destruct (doers s !! d) as [q|]; [|done]. cbn [mbind option_bind] in E.
    destruct q; try done; try (simplify_eq/=; done).
    + unfold MARL_ASSERT in E. case_bool_decide; by simplify_eq/=.
    + case_bool_decide; by simplify_eq/=.
    + simplify_eq/=. rewrite (WaitGroup.notify_all_wakes _ (wg_reach_inv _ Hr)), Hw. simpl.
      unfold wake. by rewrite bool_decide_eq_false_2 by (by rewrite Hret).
  - rewrite Hw in E. cbn in E. rewrite Hret in E. by rewrite andb_false_r in E.
  - by rewrite Hw in E.
Qed.

(** What any step of the wait group of one waiter leaves to its client. *)
Lemma client_step e s s' w :
  waiters s = [w] -> (internal e = true \/ exists k, e = ESpurious k) -> wg_step e s = Some (Ok s') ->
  (exists w', waiters s' = [w']) /\ length (doers s') = length (doers s) /\
  (forall i q, doers s' !! i = Some q -> exists p, doers s !! i = Some p /\ later p q) /\
  credits s' = credits s /\ grown s' = grown s.
Proof.
  intros Hw He E.
  assert ((exists w', waiters s' = [w']) /\ length (doers s') = length (doers s) /\
    (forall i p, doers s !! i = Some p -> exists q, doers s' !! i = Some q /\ later p q) /\
    credits s' = credits s /\ grown s' = grown s) as (H1 & H2 & H3 & H4 & H5).
  { destruct He as [He|[k ->]]; [by destruct (internal_step e s s' w He Hw E) as (_ & ?)|].
    cbn [wg_step] in E. rewrite Hw in E. destruct k as [|k]; [|done]. cbn in E.
    destruct (negb _ && _); [|done]. simplify_eq/=. rewrite Hw. split_and!; eauto. intros i p Hp. by exists p. }
  split_and!; try done. intros i q Hq. assert (is_Some (doers s !! i)) as [p Hp].
  { apply lookup_lt_is_Some. rewrite <- H2. by eapply lookup_lt_Some. }
  exists p. split; [done|]. destruct (H3 i p Hp) as (y & Hy & Hl). by assert (y = q) as -> by congruence.
Qed.

(** ** parallelize *)

(** A function of [fn...]: not scheduled yet, a task in a queue, running, and
    over with [wg.done()] called. *)
Inductive FnPc := FNone | FQueued | FRunning | FDone.

Global Instance FnPc_eq_dec : EqDecision FnPc.
Proof. solve_decision. Defined.

(** The caller: [(..., schedule_f(fn))], [f0()], [wg.wait()]. *)
Inductive MainPc := MSchedule (i : nat) | MCall | MWait | MReturn.

Global Instance MainPc_eq_dec : EqDecision MainPc.
Proof. solve_decision. Defined.

Record Par := mkPar {
  main : MainPc;
  fns : list FnPc;
  wg : State;
  ran : list nat             (* the functions that are over: [0] is [f0], [S i] is [fn i] *)
}.

Section parallelize.
(** The caller is on a thread with a bound scheduler; there [Fiber::current()]
    is not null. *)
Context (bound : bool).

(** [WaitGroup wg(sizeof...(FN))]. *)
Definition parallelize (n : nat) : Par :=
  mkPar (MSchedule 0) (replicate n FNone) (wg_new (Z.of_nat n) [bound] n) [].

Inductive PStep :=
| PMain                      (* the caller schedules the next function or calls f0 *)
| PStart (i : nat)           (* the task of [fn i] starts *)
| PEnd (i : nat)             (* [f()] returns and [wg.done()] is called *)
| PWg (e : Event).           (* a step of a [done()], of [wait()] *)

Definition waiter_pc (s : State) : option WPc := w ← waiters s !! 0%nat; Some (wpc w).

Definition par_step (y : PStep) (p : Par) : option (Result Par) :=
  match y with
  | PMain =>
      match main p with
      | MSchedule i =>
          Some (match fns p !! i with
                | Some _ =>
                    _ ← assert_has_bound_scheduler bound "marl::schedule";
                    Ok (mkPar (MSchedule (S i)) (<[i := FQueued]> (fns p)) (wg p) (ran p))
                | None => Ok (mkPar MCall (fns p) (wg p) (ran p))
                end)
      | MCall => Some (Ok (mkPar MWait (fns p) (wg p) (ran p ++ [0%nat])))
      | MWait =>
          if bool_decide (waiter_pc (wg p) = Some WReturn)
          then Some (Ok (mkPar MReturn (fns p) (wg p) (ran p))) else None
      | MReturn => None
      end
  | PStart i =>
      if bool_decide (fns p !! i = Some FQueued)
      then Some (Ok (mkPar (main p) (<[i := FRunning]> (fns p)) (wg p) (ran p))) else None
  | PEnd i =>
      if bool_decide (fns p !! i = Some FRunning)
      then r ← wg_step (ECall i) (wg p);
           Some (s ← r; Ok (mkPar (main p) (<[i := FDone]> (fns p)) s (ran p ++ [S i])))
      else None
  | PWg e =>
      match e with
      | EWait _ | ESpurious _ =>
          if bool_decide (main p = MWait)
          then r ← wg_step e (wg p); Some (s ← r; Ok (mkPar (main p) (fns p) s (ran p))) else None
      | EDone _ => r ← wg_step e (wg p); Some (s ← r; Ok (mkPar (main p) (fns p) s (ran p)))
      | EAdd _ | ECall _ => None
      end
  end.

Inductive par_reach (n : nat) : Par -> Prop :=
| par_start : Z.of_nat n < 2 ^ 32 -> bound = true \/ n = 0%nat -> par_reach n (parallelize n)
| par_reach_step p y p' : par_reach n p -> par_step y p = Some (Ok p') -> par_reach n p'.

(** *** Its invariant *)
Definition not_done (f : FnPc) : bool := bool_decide (f <> FDone).
Definition waiting (m : MainPc) : bool := match m with MWait | MReturn => true | _ => false end.

Record ParInv (n : nat) (p : Par) : Prop := {
  q_bound : bound = true \/ n = 0%nat;
  q_wg : wg_reach (wg p);
  q_one : exists w, waiters (wg p) = [w];
  q_grown : grown (wg p) = false;
  q_len : length (fns p) = n /\ length (doers (wg p)) = n;
  q_doers i d : doers (wg p) !! i = Some d -> (d = DIdle <-> fns p !! i <> Some FDone);
  q_credits : credits (wg p) = cnt not_done (fns p);
  q_ran : NoDup (ran p);
  q_done i : S i ∈ ran p <-> fns p !! i = Some FDone;
  q_zero : 0%nat ∈ ran p <-> waiting (main p) = true;
  q_none i : fns p !! i = Some FNone -> exists k, main p = MSchedule k /\ (k <= i)%nat;
  q_later i k : main p = MSchedule k -> (k <= i)%nat -> forall f, fns p !! i = Some f -> f = FNone;
  q_return : main p = MReturn -> waiter_pc (wg p) = Some WReturn
}.

Lemma cnt_all {A} (f : A -> bool) l : (forall x, x ∈ l -> f x = true) -> cnt f l = zlen l.
Proof.
  induction l as [|x l IH]; [done|]. intros H. cbn [cnt length]. rewrite (H x) by left.
  rewrite IH by (intros y ?; apply H; by right). simpl. lia.
Qed.

Lemma parallelize_inv n : Z.of_nat n < 2 ^ 32 -> bound = true \/ n = 0%nat -> ParInv n (parallelize n).
Proof.
  intros Hn Hb. split; simpl; try done.
  - apply wg_start. lia.
  - eauto.
  - by rewrite !length_replicate.
  - intros i d [-> _]%lookup_replicate. split; [|done]. intros _ [? _]%lookup_replicate. done.
  - rewrite cnt_all, length_replicate; [done|]. intros x [-> _]%elem_of_replicate. done.
  - constructor.
  - intros i. rewrite elem_of_nil. split; [done|]. by intros [? _]%lookup_replicate.
  - by rewrite elem_of_nil.
  - intros i _. exists 0%nat. split; [done|lia].
  - intros i k [= <-] _ f [-> _]%lookup_replicate. done.
Qed.

(** The functions change at [i], the wait group as the call of [done()] says. *)
Lemma wg_call i s s' :
  wg_step (ECall i) s = Some (Ok s') ->
  doers s !! i = Some DIdle /\ doers s' = <[i := DAssert]> (doers s) /\ waiters s' = waiters s /\
  credits s' = credits s - 1 /\ grown s' = grown s.
Proof.
  cbn [wg_step]. destruct (bool_decide (doers s !! i = Some DIdle)) eqn:E1; [|done].
  destruct (bool_decide (0 < credits s)); [|done]. intros [= <-]. by apply bool_decide_eq_true_1 in E1.
Qed.

Lemma par_wg_inv n p e s' :
  ParInv n p -> (internal e = true \/ exists k, e = ESpurious k) -> (main p = MReturn -> exists d, e = EDone d) ->
  wg_step e (wg p) = Some (Ok s') -> ParInv n (mkPar (main p) (fns p) s' (ran p)).
Proof.
  intros HI He Hmain E. destruct (q_one n p HI) as [w Hw].
  destruct (client_step e (wg p) s' w Hw He E) as (H1 & H2 & Hd & H4 & H5).
  split; simpl; try apply HI.
  - by eapply wg_reach_step; [apply HI|].
  - done.
  - rewrite H5. apply HI.
  - rewrite H2. apply HI.
  - intros i d (x & Hx & -> & _)%Hd. by apply (q_doers n p HI).
  - rewrite H4. apply HI.
  - intros Hm. destruct (Hmain Hm) as [d ->]. pose proof (q_return n p HI Hm) as Hret. unfold waiter_pc in *.
    rewrite Hw in Hret. simpl in Hret. injection Hret as Hret.
    rewrite (returned_stays (EDone d) (wg p) s' w); try done; [simpl; by rewrite Hret|apply HI].
Qed.

Lemma par_fn_inv n p i f g r s' :
  ParInv n p -> fns p !! i = Some f -> f <> FNone -> f <> FDone -> g <> FNone ->
  (g <> FDone /\ s' = wg p /\ r = ran p \/ g = FDone /\ wg_step (ECall i) (wg p) = Some (Ok s') /\ r = ran p ++ [S i]) ->
  ParInv n (mkPar (main p) (<[i := g]> (fns p)) s' r).
Proof.
  intros HI Hf Hn Hfd Hgn Hcase.
  assert (not_done f = true) as Hnf by (unfold not_done; by rewrite bool_decide_eq_true_2).
  assert (forall j x, <[i := g]> (fns p) !! j = Some x -> j = i /\ x = g \/ j <> i /\ fns p !! j = Some x) as Hlook.
  { intros j x. apply lookup_insert_cases. }
  assert (<[i := g]> (fns p) !! i = Some g) as Hself by (apply insert_self; eauto).
  assert (forall j, j <> i -> <[i := g]> (fns p) !! j = fns p !! j) as Hother by (intros; by apply list_lookup_insert_ne).
  assert (S i ∉ ran p) as Hnr by (rewrite (q_done n p HI), Hf; congruence).
  assert (wg_reach s' /\ waiters s' = waiters (wg p) /\ grown s' = grown (wg p)) as (Hr' & Ew & Eg).
  { destruct Hcase as [(_ & -> & _)|(_ & E & _)]; [split_and!; try done; apply HI|].
    destruct (wg_call i _ _ E) as (_ & _ & ? & _ & ?). split_and!; try done. eapply wg_reach_step; [apply HI|done]. }
  split; simpl; try rewrite Ew; try rewrite Eg; try apply HI.
  - done.
  - rewrite length_insert. split; [apply HI|]. destruct Hcase as [(_ & -> & _)|(_ & E & _)]; [apply HI|].
    destruct (wg_call i _ _ E) as (_ & -> & _). rewrite length_insert. apply HI.
  - intros j d Hd. destruct (decide (j = i)) as [->|Hne].
    + rewrite Hself. destruct Hcase as [(Hg & -> & _)|(Hg & E & _)].
      * rewrite (q_doers n p HI i d Hd), Hf. split; congruence.
      * destruct (wg_call i _ _ E) as (_ & Ed & _). rewrite Ed, insert_self in Hd by (destruct (wg_call i _ _ E); eauto).
        injection Hd as <-. split; congruence.
    + rewrite Hother by done. destruct Hcase as [(Hg & -> & _)|(Hg & E & _)]; [by apply (q_doers n p HI)|].
      destruct (wg_call i _ _ E) as (_ & Ed & _). rewrite Ed, list_lookup_insert_ne in Hd by done. by apply (q_doers n p HI).
  - rewrite (cnt_insert _ _ _ f) by done. rewrite Hnf. destruct Hcase as [(Hg & -> & _)|(Hg & E & _)].
    + assert (not_done g = true) as -> by (unfold not_done; by rewrite bool_decide_eq_true_2).
      rewrite (q_credits n p HI). simpl. lia.
    + destruct (wg_call i _ _ E) as (_ & _ & _ & -> & _). rewrite (q_credits n p HI), Hg. simpl. lia.
  - destruct Hcase as [(_ & _ & ->)|(_ & _ & ->)]; [apply HI|]. apply NoDup_app. split_and!; [apply HI| |apply NoDup_singleton].
    intros x Hx ->%list_elem_of_singleton. done.
  - intros j. destruct Hcase as [(Hg & _ & ->)|(Hg & _ & ->)]; rewrite ?elem_of_app, ?list_elem_of_singleton;
      (destruct (decide (j = i)) as [->|Hne]; [rewrite Hself|rewrite Hother by done]); rewrite ?(q_done n p HI), ?Hf;
      intuition congruence.
  - destruct Hcase as [(_ & _ & ->)|(_ & _ & ->)]; [apply HI|]. rewrite elem_of_app, list_elem_of_singleton.
    rewrite (q_zero n p HI). naive_solver.
  - intros j [[-> ?]|[_ Hj]]%Hlook; [congruence|by apply (q_none n p HI)].
  - intros j k Hm Hk x [[-> ->]|[_ Hj]]%Hlook; [|by eapply (q_later n p HI j k)].
    by destruct (Hn (q_later n p HI i k Hm Hk f Hf)).
  - intros Hm. unfold waiter_pc. rewrite Ew. by apply (q_return n p HI).
Qed.

(** The caller schedules function [i]. *)
Lemma par_schedule_inv n p i f :
  ParInv n p -> main p = MSchedule i -> fns p !! i = Some f ->
  ParInv n (mkPar (MSchedule (S i)) (<[i := FQueued]> (fns p)) (wg p) (ran p)).
Proof.
  intros HI Hm Hf. assert (f = FNone) as -> by (by apply (q_later n p HI i i)).
  assert (forall j x, <[i := FQueued]> (fns p) !! j = Some x -> j = i /\ x = FQueued \/ j <> i /\ fns p !! j = Some x) as Hlook.
  { intros j x. apply lookup_insert_cases. }
  assert (forall j, <[i := FQueued]> (fns p) !! j = Some FDone <-> fns p !! j = Some FDone) as Hdone.
  { intros j. destruct (decide (j = i)) as [->|Hne]; [rewrite insert_self by eauto; rewrite Hf; split; congruence|].
    by rewrite list_lookup_insert_ne. }
  split; simpl; try apply HI.
  - rewrite length_insert. apply HI.
  - intros j d Hd. rewrite Hdone. by apply (q_doers n p HI).
  - rewrite (cnt_insert _ _ _ FNone) by done. rewrite (q_credits n p HI). simpl. lia.
  - intros j. rewrite Hdone. apply (q_done n p HI).
  - rewrite (q_zero n p HI), Hm. done.
  - intros j [[_ ?]|[Hne Hj]]%Hlook; [done|]. exists (S i). split; [done|].
    destruct (q_none n p HI j Hj) as (k & Hk & Hle). rewrite Hm in Hk. injection Hk as <-. lia.
  - intros j k [= <-] Hle x [[-> _]|[_ Hj]]%Hlook; [lia|]. apply (q_later n p HI j i); [done|lia|done].
  - done.
Qed.

(** The caller goes on, the functions and the wait group stay. *)
Lemma par_main_inv n p m r :
  ParInv n p -> (forall i, fns p !! i <> Some FNone) -> (forall k, m <> MSchedule k) ->
  (m = MReturn -> waiter_pc (wg p) = Some WReturn) ->
  (waiting m = waiting (main p) /\ r = ran p \/
   waiting m = true /\ waiting (main p) = false /\ r = ran p ++ [0%nat]) ->
  ParInv n (mkPar m (fns p) (wg p) r).
Proof.
  intros HI Hnone Hm Hret Hr. split; simpl; try apply HI.
  - destruct Hr as [(_ & ->)|(_ & Hw & ->)]; [apply HI|]. apply NoDup_app. split_and!; [apply HI| |apply NoDup_singleton].
    intros x Hx ->%list_elem_of_singleton. apply (q_zero n p HI) in Hx. congruence.
  - intros j. rewrite <- (q_done n p HI j). destruct Hr as [(_ & ->)|(_ & _ & ->)]; [done|].
    rewrite elem_of_app, list_elem_of_singleton. naive_solver.
  - destruct Hr as [(-> & ->)|(-> & _ & ->)]; [apply HI|]. rewrite elem_of_app, list_elem_of_singleton. naive_solver.
  - intros i Hi. by destruct (Hnone i).
  - intros i k E. by destruct (Hm k).
  - done.
Qed.

Lemma par_no_none n p : ParInv n p -> (forall k, main p <> MSchedule k) -> forall i, fns p !! i <> Some FNone.
Proof. intros HI Hm i Hi. destruct (q_none n p HI i Hi) as (k & Hk & _). by destruct (Hm k). Qed.

Lemma par_main_step_inv n p r :
  ParInv n p -> par_step PMain p = Some r -> exists p', r = Ok p' /\ ParInv n p'.
Proof.
  intros HI. cbn [par_step]. destruct (main p) as [i| | |] eqn:Hm; [|..|done].
  - destruct (fns p !! i) as [f|] eqn:Hf.
    { assert (bound = true) as ->.
      { destruct (q_bound n p HI) as [?| ->]; [done|]. destruct (q_len 0 p HI) as [Hl _].
        apply lookup_lt_Some in Hf. lia. }
      intros [= <-]. eexists. split; [done|]. by eapply par_schedule_inv. }
    intros [= <-]. eexists. split; [done|]. apply par_main_inv; try done; [|by left; rewrite Hm]. intros j Hj.
    destruct (q_none n p HI j Hj) as (k & Hk & Hle). assert (k = i) as -> by congruence.
    apply lookup_lt_Some in Hj. apply lookup_ge_None in Hf. lia.
  - intros [= <-]. eexists. split; [done|]. apply par_main_inv; try done.
    + apply (par_no_none n p HI). by rewrite Hm.
    + right. by rewrite Hm.
  - case_bool_decide as Hw; [|done]. intros [= <-]. eexists. split; [done|]. apply par_main_inv; try done.
    + apply (par_no_none n p HI). by rewrite Hm.
    + left. by rewrite Hm.
Qed.

Lemma par_step_inv n p y r : ParInv n p -> par_step y p = Some r -> exists p', r = Ok p' /\ ParInv n p'.
Proof.
  intros HI. destruct y as [|i|i|e]; [by apply par_main_step_inv|..]; cbn [par_step].
  - case_bool_decide as Hf; [|done]. intros [= <-]. eexists. split; [done|].
    eapply (par_fn_inv n p i FQueued FRunning); try done. by left.
  - case_bool_decide as Hf; [|done]. destruct (wg_step (ECall i) (wg p)) as [r'|] eqn:E; [|done].
    intros [= <-]. destruct (wg_step_inv _ _ _ (wg_reach_inv _ (q_wg n p HI)) E) as (s' & -> & _).
    eexists. split; [done|]. eapply (par_fn_inv n p i FRunning FDone); try done. by right.
  - assert (forall r0, wg_step e (wg p) = Some r0 -> (internal e = true \/ exists k, e = ESpurious k) ->
      (main p = MReturn -> exists d, e = EDone d) ->
      exists p', (s ← r0; Ok (mkPar (main p) (fns p) s (ran p))) = Ok p' /\ ParInv n p') as Hgo.
    { intros r0 E He Hm. destruct (wg_step_inv _ _ _ (wg_reach_inv _ (q_wg n p HI)) E) as (s' & -> & _).
      eexists. split; [done|]. by eapply par_wg_inv. }
    destruct e as [k|d|k|k|d]; try done; try (case_bool_decide as Hm; [|done]);
      (destruct (wg_step _ (wg p)) as [r0|] eqn:E; [|done]); cbn [mbind option_bind]; intros [= <-]; apply Hgo; eauto; congruence.
Qed.

Lemma par_reach_inv n p : par_reach n p -> ParInv n p.
Proof.
  induction 1 as [Hn Hb|p y p' _ IH E]; [by apply parallelize_inv|].
  destruct (par_step_inv n p y _ IH E) as (q & [= <-] & ?). done.
Qed.

(** When the caller has returned every function is over. *)
Lemma par_return_all n p i :
  ParInv n p -> main p = MReturn -> (i < n)%nat -> fns p !! i = Some FDone.
Proof.
  intros HI Hm Hi. destruct (q_len n p HI) as [Hl _]. rewrite <- Hl in Hi. apply lookup_lt_is_Some in Hi as [f Hf].
  pose proof (q_return n p HI Hm) as Hret. destruct (q_one n p HI) as [w Hw]. unfold waiter_pc in Hret. rewrite Hw in Hret.
  simpl in Hret. injection Hret as Hret. pose proof (wg_reach_inv _ (q_wg n p HI)) as HW.
  assert (count (wg p) = 0) as Hc.
  { apply (i_past _ HW 0%nat w); [apply HI|by rewrite Hw|by rewrite Hret]. }
  destruct (i_count _ HW) as (Ec & Hcr & _). pose proof (cnt_nonneg dpending (doers (wg p))).
  assert (credits (wg p) = 0) as Hz by lia. rewrite (q_credits n p HI) in Hz.
  pose proof (cnt_zero _ _ i f Hf Hz) as Hnd. unfold not_done in Hnd. destruct f; done.
Qed.

(** *** Termination *)
Definition frank (f : FnPc) : nat := match f with FNone => 3 | FQueued => 2 | FRunning => 1 | FDone => 0 end.
Definition mrank (n : nat) (m : MainPc) : nat :=
  match m with MSchedule i => 3 + (n - i) | MCall => 2 | MWait => 1 | MReturn => 0 end.
Definition par_work (n : nat) (p : Par) : nat :=
  mrank n (main p) + sum_list_with frank (fns p) + wg_work (wg p).

(** Every step but a wake-up for no reason. *)
Definition par_moves (p p' : Par) : Prop :=
  exists y, par_step y p = Some (Ok p') /\ match y with PWg (ESpurious _) => False | _ => True end.

Lemma wg_call_work i s s' : wg_step (ECall i) s = Some (Ok s') -> (wg_work s' < wg_work s)%nat.
Proof.
  intros E. destruct (wg_call i s s' E) as (Hi & Ed & Ew & _). unfold wg_work. rewrite Ed, Ew.
  pose proof (sum_insert drank (doers s) i DIdle DAssert Hi) as H. simpl in H. lia.
Qed.

Lemma par_moves_work n p p' : ParInv n p -> par_moves p p' -> (par_work n p' < par_work n p)%nat.
Proof.
  intros HI (y & E & Hy). pose proof (fun i f g Hf => sum_insert frank (fns p) i f g Hf) as Hsum.
  destruct (q_one n p HI) as [w Hw]. unfold par_work. destruct y as [|i|i|e]; cbn [par_step] in E.
  - destruct (main p) as [i| | |] eqn:Hm; [|..|done].
    + destruct (fns p !! i) as [f|] eqn:Hf; [destruct bound; [|done]|]; injection E as <-; cbn [main fns wg mrank].
      * assert (f = FNone) as -> by (by apply (q_later n p HI i i)). specialize (Hsum i FNone FQueued Hf). simpl in Hsum.
        apply lookup_lt_Some in Hf. destruct (q_len n p HI). lia.
      * lia.
    + injection E as <-. simpl. lia.
    + case_bool_decide; [|done]. injection E as <-. simpl. lia.
  - case_bool_decide as Hf; [|done]. injection E as <-. specialize (Hsum i FQueued FRunning Hf). simpl in *. lia.
  - case_bool_decide as Hf; [|done]. destruct (wg_step (ECall i) (wg p)) as [r|] eqn:Ec; [|done].
    destruct r as [s'| |]; simplify_eq/=. specialize (Hsum i FRunning FDone Hf). simpl in Hsum.
    pose proof (wg_call_work i (wg p) s' Ec). lia.
  - assert (forall s', internal e = true -> wg_step e (wg p) = Some (Ok s') -> (wg_work s' < wg_work (wg p))%nat) as Hgo.
    { intros s' He Hs. by apply (internal_step e (wg p) s' w). }
    destruct e as [k|d|k|k|d]; try done; try (case_bool_decide as Hm; [|done]);
      (destruct (wg_step _ (wg p)) as [[s'| |]|] eqn:Es; simplify_eq/=); specialize (Hgo s' eq_refl eq_refl); lia.
Qed.

Lemma par_progress n p : ParInv n p -> main p <> MReturn -> exists p', par_moves p p'.
Proof.
  intros HI Hret. destruct (main p) as [i| | |] eqn:Hm; [..|done].
  - destruct (par_step PMain p) as [r|] eqn:E; [|by cbn [par_step] in E; rewrite Hm in E].
    destruct (par_main_step_inv n p r HI E) as (p' & -> & _). exists p', PMain. done.
  - eexists. exists PMain. cbn [par_step]. rewrite Hm. split; [done|done].
  - assert (forall i, fns p !! i <> Some FNone) as Hnone by (apply (par_no_none n p HI); by rewrite Hm).
    destruct (decide (Forall (fun f => f = FDone) (fns p))) as [Hall|Hnot].
    + destruct (q_one n p HI) as [w Hw].
      destruct (decide (wpc w = WReturn)) as [Hr|Hr].
      { eexists. exists PMain. cbn [par_step]. rewrite Hm. split; [|done].
        by rewrite bool_decide_eq_true_2 by (unfold waiter_pc; rewrite Hw; simpl; by rewrite Hr). }
      assert (credits (wg p) = 0) as Hc.
      { rewrite (q_credits n p HI). clear - Hall. induction Hall as [|f l -> _ IH]; [done|]. simpl. exact IH. }
      destruct (wg_progress (wg p) w) as (e & s' & He & E); try done; [apply HI| |].
      * intros i d Hd ->. apply (q_doers n p HI i DIdle Hd); [done|]. apply lookup_lt_Some in Hd.
        destruct (q_len n p HI) as [H1 H2]. rewrite H2, <- H1 in Hd. apply lookup_lt_is_Some in Hd as [f Hf]. rewrite Hf.
        f_equal. by apply (Forall_lookup_1 _ _ _ _ Hall Hf).
      * eexists. exists (PWg e). cbn [par_step].
        destruct e; try done; rewrite ?(bool_decide_eq_true_2 (main p = MWait)) by done;
          rewrite E; cbn [mbind option_bind result_bind]; (split; [reflexivity|exact I]).
    + apply not_Forall_Exists in Hnot; [|intros f; apply _].
      apply Exists_exists in Hnot as (f & [i Hi]%list_elem_of_lookup_1 & Hf). destruct f; [by destruct (Hnone i)|..|by destruct Hf].
      * eexists. exists (PStart i). cbn [par_step]. rewrite bool_decide_eq_true_2 by done. split; done.
      * eexists. exists (PEnd i). cbn [par_step]. rewrite bool_decide_eq_true_2 by done. cbn [wg_step].
        assert (doers (wg p) !! i = Some DIdle) as Hd.
        { destruct (q_len n p HI) as [H1 H2]. assert (is_Some (doers (wg p) !! i)) as [d Hd].
          { apply lookup_lt_is_Some. rewrite H2, <- H1. by eapply lookup_lt_Some. }
          rewrite Hd. f_equal. apply (q_doers n p HI i d Hd). rewrite Hi. done. }
        assert (0 < credits (wg p)) as Hc by (rewrite (q_credits n p HI); by apply (cnt_lookup _ _ i FRunning)).
        rewrite !bool_decide_eq_true_2 by done. split; done.
Qed.

(** C24. [parallelize(f0, fn...)]: no assertion fails; when it returns, [f0] and
    every [fn] have run exactly once and are over; and, as long as the scheduled
    functions start and end, it does return: it takes at most [par_work] steps
    and can always make one until it has returned. *)
Theorem parallelize_runs_all n p :
  par_reach n p ->
  (forall y, match par_step y p with Some (Fatal _) | Some (Undefined _) => False | _ => True end) /\
  (main p = MReturn -> ran p ≡ₚ seq 0 (S n)) /\
  (main p <> MReturn -> exists p', par_moves p p') /\
  (forall p', par_moves p p' -> (par_work n p' < par_work n p)%nat).
Proof.
  intros Hr. pose proof (par_reach_inv n p Hr) as HI. split_and!.
  - intros y. destruct (par_step y p) as [r|] eqn:E; [|done]. by destruct (par_step_inv n p y r HI E) as (p' & -> & _).
  - intros Hm. apply NoDup_Permutation; [apply HI|apply NoDup_seq|]. intros [|i]; rewrite elem_of_seq.
    + rewrite (q_zero n p HI), Hm. split; [lia|done].
    + rewrite (q_done n p HI). split.
      * intros Hi%lookup_lt_Some. destruct (q_len n p HI). lia.
      * intros Hi. apply (par_return_all n p i HI Hm). lia.
  - apply (par_progress n p HI).
  - intros p'. by apply par_moves_work.
Qed.

(** Without a bound scheduler the first function cannot be scheduled. *)
Lemma parallelize_unbound n :
  bound = false -> (0 < n)%nat -> exists msg, par_step PMain (parallelize n) = Some (Fatal msg).
Proof. intros Hb Hn. destruct n as [|n]; [lia|]. eexists. cbn. rewrite Hb. reflexivity. Qed.

Fixpoint par_run (ys : list PStep) (p : Par) : option Par :=
  match ys with [] => Some p | y :: ys => match par_step y p with Some (Ok p') => par_run ys p' | _ => None end end.

Lemma par_run_reach n ys p p' : par_reach n p -> par_run ys p = Some p' -> par_reach n p'.
Proof.
  revert p. induction ys as [|y ys IH]; simpl; intros p Hr H; [by simplify_eq|].
  destruct (par_step y p) as [[p1| |]|] eqn:E; try done. by eapply IH; [eapply par_reach_step|].
Qed.

End parallelize.

(** One function besides [f0]; the caller sleeps until it is over. *)
Lemma parallelize_runs_all_witness :
  exists p, par_run true ([PMain; PMain; PMain] ++ replicate 5 (PWg (EWait 0)) ++ [PStart 0; PEnd 0] ++
                     replicate 5 (PWg (EDone 0)) ++ replicate 4 (PWg (EWait 0)) ++ [PMain]) (parallelize true 1) = Some p /\
    main p = MReturn /\ ran p ≡ₚ seq 0 2.
Proof.
  destruct (par_run true _ (parallelize true 1)) as [p|] eqn:E; [|vm_compute in E; discriminate].
  exists p. split; [reflexivity|]. assert (main p = MReturn) as Hm by (vm_compute in E; injection E as <-; reflexivity).
  split; [exact Hm|]. apply (parallelize_runs_all true 1 p); [|exact Hm].
  eapply par_run_reach; [apply par_start; [lia|left; reflexivity]|exact E].
Defined.
