(* ===== verification/DagRun.v ===== *)
(** [DAG::run] over the wait group it uses (src/include/marl/dag.hpp): the
    activations of Dag.v together with the machine of WaitGroup.v.

    In Dag.v [add], [done] and [wait] are single steps on a count.  Here [done]
    is the calls of WaitGroup.v, with its lock and its notification, and [run]
    waits on the condition variable.  A task that was scheduled for node [t]
    makes its call of [done] as the doer [t]; the caller of [run] is the only
    waiter.  The composition is shown to behave like Dag.v, to which the theorems
    on runs then apply, and to come to its end. *)
From stdpp Require Import base numbers strings relations sets list.
From S2P Require Import Prelude WaitGroup Parallel Dag DagProps.

(** ** The machine *)

(** [who]: the node the task was scheduled for; none for the call of [invoke] in
    [run]. *)
Record DagTask := mkTask { who : option NodeIndex; place : Act }.

Record GroupRun := mkGroupRun {
  ctx : list Z;                              (* RunContext::counters *)
  group : State;                             (* the WaitGroup *)
  tasks : list DagTask;
  begun : list NodeIndex;
  ended : list NodeIndex;
  over_ : bool                               (* run() has returned *)
}.

(** [initCounters]: an array of the length of [initialCounters], its elements
    assigned one by one. *)
Fixpoint init_loop (i : nat) (init : list Z) (counters : list Z) : list Z :=
  match init with [] => counters | c :: init => init_loop (S i) init (<[i := c]> counters) end.

Definition initCounters (g : DAG) : list Z :=
  init_loop 0 (initialCounters g) (replicate (length (initialCounters g)) 0%Z).

(** [run(data)] up to the call of [invoke]; [fiber] tells that it is called on a
    fiber. *)
Definition DAG_run (fiber : bool) (g : DAG) : GroupRun :=
  mkGroupRun (initCounters g) (wg_new 0 [fiber] (length (nodes g))) [mkTask None (Enter RootIndex)] [] [] false.

(** [RunContext::invoke(f)] calls [f] with the data, and [DAG<void>] has none:
    the works are opaque, so the two runs are the same machine. *)
Definition DAG_void_run (fiber : bool) (g : DAG) : GroupRun := DAG_run fiber g.

(** One step of [invoke] where the wait group has no part in it: where the
    activation is next, the counters, the nodes begun and ended. *)
Definition invoke_step (g : DAG) (a : Act) (cs : list Z) (st fin : list NodeIndex) :
    option (Result (Act * list Z * list NodeIndex * list NodeIndex)) :=
  match a with
  | Enter v => Some (_ ← at_ (nodes g) v; Ok (Working v, cs, st ++ [v], fin))
  | Working v => Some (n ← at_ (nodes g) v; Ok (Loop v (outs n) None, cs, st, fin ++ [v]))
  | Loop v (idx :: rest) toInvoke =>
      Some ('(fire, cs) ← notify g idx cs; Ok (after_notify v rest toInvoke idx fire, cs, st, fin))
  | Loop v [] (Some t) => Some (Ok (Enter t, cs, st, fin))
  | Loop v [] None => Some (Ok (Leave v, cs, st, fin))
  | Spawn _ _ _ _ | Leave _ => None
  end.

(** The caller is in [wg.wait()]. *)
Definition is_leave (a : Act) : bool := match a with Leave _ => true | _ => false end.
Definition in_wait (a : DagTask) : bool := bool_decide (who a = None) && is_leave (place a).

Inductive GStep :=
| GTask (i : nat)                  (* a step of an activation *)
| GGroup (e : Event).              (* a step of wait() or of a done(), or a wake-up for no reason *)

Definition group_step (g : DAG) (y : GStep) (r : GroupRun) : option (Result GroupRun) :=
  match y with
  | GTask i =>
      a ← tasks r !! i;
      match place a with
      | Spawn v t idx rest =>
          (* wg->add(1); schedule(...) *)
          x ← wg_step (EAdd 1) (group r);
          Some (s ← x; Ok (mkGroupRun (ctx r) s
            (<[i := mkTask (who a) (Loop v rest (Some idx))]> (tasks r) ++ [mkTask (Some t) (Enter t)])
            (begun r) (ended r) (over_ r)))
      | Leave v =>
          match who a with
          | None =>
              (* wg.wait() has returned *)
              if bool_decide (waiter_pc (group r) = Some WReturn)
              then Some (Ok (mkGroupRun (ctx r) (group r) (delete i (tasks r)) (begun r) (ended r) true))
              else None
          | Some d =>
              (* w.done() is called, or has returned *)
              match doers (group r) !! d with
              | Some DIdle =>
                  x ← wg_step (ECall d) (group r);
                  Some (s ← x; Ok (mkGroupRun (ctx r) s (tasks r) (begun r) (ended r) (over_ r)))
              | Some (DDone _) =>
                  Some (Ok (mkGroupRun (ctx r) (group r) (delete i (tasks r)) (begun r) (ended r) (over_ r)))
              | _ => None
              end
          end
      | p =>
          x ← invoke_step g p (ctx r) (begun r) (ended r);
          Some ('(p, cs, st, fin) ← x;
                Ok (mkGroupRun cs (group r) (<[i := mkTask (who a) p]> (tasks r)) st fin (over_ r)))
      end
  | GGroup e =>
      if match e with
         | EWait n => bool_decide (n = 0) && existsb in_wait (tasks r)
         | EDone _ | ESpurious _ => true
         | EAdd _ | ECall _ => false
         end
      then x ← wg_step e (group r); Some (s ← x; Ok (mkGroupRun (ctx r) s (tasks r) (begun r) (ended r) (over_ r)))
      else None
  end.

Inductive group_reach (fiber : bool) (g : DAG) : GroupRun -> Prop :=
| group_start : group_reach fiber g (DAG_run fiber g)
| group_reach_step r y r' : group_reach fiber g r -> group_step g y r = Some (Ok r') -> group_reach fiber g r'.

(** ** The run of Dag.v it stands for *)

(** A [done()] that has taken its one off the count. *)
Definition passed (p : DPc) : bool :=
  match p with DLock | DNotify | DUnlock | DDone _ => true | DIdle | DAssert | DDecr => false end.

Definition counts (s : State) (a : DagTask) : bool :=
  match who a with
  | None => true
  | Some d => match doers s !! d with Some p => negb (passed p) | None => true end
  end.

Definition abs_task (a : DagTask) : Activation := mkAct (bool_decide (who a = None)) (place a).
Definition abs_tasks (s : State) (l : list DagTask) : list Activation := abs_task <$> filter (fun a => counts s a = true) l.

Definition abs (r : GroupRun) : Run :=
  mkRun (ctx r) (count (group r)) (abs_tasks (group r) (tasks r)) (begun r) (ended r) (over_ r).

(** *** [initCounters] copies *)
Lemma init_loop_spec init done_ k :
  length k = length init -> init_loop (length done_) init (done_ ++ k) = done_ ++ init.
Proof.
  revert done_ k. induction init as [|c init IH]; intros done_ [|x k] Hl; simplify_eq/=; [done|].
  rewrite insert_app_r_alt, Nat.sub_diag by done. cbn.
  specialize (IH (done_ ++ [c]) k Hl). rewrite length_app, <- !app_assoc in IH. simpl in IH.
  by rewrite Nat.add_1_r in IH.
Qed.

Lemma initCounters_copies g : initCounters g = initialCounters g.
Proof. apply (init_loop_spec _ [] (replicate _ _)). by rewrite length_replicate. Qed.

Lemma abs_start fiber g : abs (DAG_run fiber g) = run_start g.
Proof. unfold abs, DAG_run, run_start. cbn. by rewrite initCounters_copies. Qed.

(** *** Steps of [invoke] *)
Lemma invoke_step_dag g i r m a x :
  acts r !! i = Some (mkAct m a) -> invoke_step g a (counters r) (started r) (finished r) = Some x ->
  dag_step g i r = Some ('(p, cs, st, fin) ← x;
    Ok (mkRun cs (wg r) (<[i := mkAct m p]> (acts r)) st fin (returned r))).
Proof.
  intros Hi Hx. unfold dag_step. rewrite Hi. destruct a as [v|v|v [|idx rest] [t|]|v t idx rest|v]; simplify_eq/=.
  - by destruct (at_ (nodes g) v).
  - by destruct (at_ (nodes g) v).
  - done.
  - done.
  - by destruct (notify g idx (counters r)) as [[fire cs]| |].
  - by destruct (notify g idx (counters r)) as [[fire cs]| |].
Qed.

(** ** The invariant of the composition *)

(** A task that has not called [done()] yet. *)
Definition idle (s : State) (a : DagTask) : bool :=
  match who a with Some d => bool_decide (doers s !! d = Some DIdle) | None => false end.

Record GInv (g : DAG) (r : GroupRun) : Prop := {
  g_dag : exists n, dag_reach g n (abs r);
  g_group : wg_reach (group r);
  g_waiter : exists w, waiters (group r) = [w];
  g_doers : length (doers (group r)) = length (nodes g);
  g_who : NoDup (omap who (tasks r));
  g_task i a d : tasks r !! i = Some a -> who a = Some d ->
    d < length (nodes g) /\ (place a = Enter d \/ d ∈ begun r) /\
    (is_leave (place a) = false -> doers (group r) !! d = Some DIdle);
  g_called d p : doers (group r) !! d = Some p -> p <> DIdle ->
    d ∈ begun r /\ (ddone p = false -> exists i v, tasks r !! i = Some (mkTask (Some d) (Leave v)));
  g_credits : credits (group r) = cnt (idle (group r)) (tasks r);
  g_past w : waiters (group r) = [w] -> past (wpc w) = true -> count (group r) = 0%Z;
  g_waits w : waiters (group r) = [w] -> wpc w <> WEnter -> over_ r = true \/ existsb in_wait (tasks r) = true
}.

(** *** Lists filtered after a change at one place *)
Lemma filter_at {A} (P : A -> Prop) `{!forall x, Decision (P x)} (l : list A) i a :
  l !! i = Some a -> P a ->
  exists j, filter P l !! j = Some a /\
    (forall a', P a' -> filter P (<[i := a']> l) = <[j := a']> (filter P l)) /\
    filter P (delete i l) = delete j (filter P l).
Proof.
  intros Hi Ha. exists (length (filter P (take i l))).
  pose proof (take_drop_middle l i a Hi) as El. pose proof (lookup_lt_Some _ _ _ Hi) as Hlt.
  assert (filter P l = filter P (take i l) ++ a :: filter P (drop (S i) l)) as Ef.
  { rewrite <- El at 1. rewrite filter_app, filter_cons_True by done. done. }
  split; [|split].
  - rewrite Ef, lookup_app_r, Nat.sub_diag by done. done.
  - intros a' Ha'. rewrite insert_take_drop by done. rewrite filter_app, filter_cons_True by done.
    rewrite Ef, insert_app_r_alt, Nat.sub_diag by done. done.
  - rewrite delete_take_drop, filter_app, Ef. rewrite delete_take_drop. rewrite take_app_length.
    rewrite drop_app_ge by lia. by replace (S (length (filter P (take i l))) - length (filter P (take i l))) with 1 by lia.
Qed.

Lemma filter_delete_out {A} (P : A -> Prop) `{!forall x, Decision (P x)} (l : list A) i a :
  l !! i = Some a -> ~ P a -> filter P (delete i l) = filter P l.
Proof.
  intros Hi Ha. rewrite <- (take_drop_middle l i a Hi) at 2. rewrite delete_take_drop, !filter_app.
  by rewrite filter_cons_False.
Qed.

(** The filter changes its mind about one element only. *)
Lemma filter_change {A} (P Q : A -> Prop) `{!forall x, Decision (P x)} `{!forall x, Decision (Q x)} (l : list A) i a :
  l !! i = Some a -> ~ Q a -> (forall j b, l !! j = Some b -> j <> i -> (P b <-> Q b)) ->
  filter Q l = filter P (delete i l).
Proof.
  intros Hi Ha Hb. rewrite delete_take_drop. rewrite <- (take_drop_middle l i a Hi) at 1.
  rewrite !filter_app, filter_cons_False by done. pose proof (lookup_lt_Some _ _ _ Hi) as Hlt.
  assert (forall k : list A, (forall b, b ∈ k -> P b <-> Q b) -> filter Q k = filter P k) as Hext.
  { clear. intros k. induction k as [|x k IH]; intros Hk; [done|]. rewrite !filter_cons.
    rewrite IH by (intros b Hb; apply Hk; by right). specialize (Hk x ltac:(left)). repeat case_decide; tauto. }
  f_equal; apply Hext; intros b [j Hj]%list_elem_of_lookup_1.
  - apply lookup_take_Some in Hj as [Hj Hlt']. apply (Hb j b Hj). lia.
  - rewrite lookup_drop in Hj. apply (Hb _ b Hj). lia.
Qed.

(** Each task calls [done()] for a node of its own. *)
Lemma who_unique l i j a b d :
  NoDup (omap who l) -> l !! i = Some a -> l !! j = Some b -> who a = Some d -> who b = Some d -> i = j.
Proof.
  revert i j. induction l as [|x l IH]; intros [|i] [|j] Hnd Hi Hj Ha Hb; simplify_eq/=; [done| | |].
  - exfalso. rewrite Ha in Hnd. apply NoDup_cons in Hnd as [Hn _]. apply Hn.
    apply list_elem_of_omap. exists b. split; [by eapply list_elem_of_lookup_2|done].
  - exfalso. rewrite Hb in Hnd. apply NoDup_cons in Hnd as [Hn _]. apply Hn.
    apply list_elem_of_omap. exists a. split; [by eapply list_elem_of_lookup_2|done].
  - f_equal. apply (IH i j); try done. destruct (who x); [by apply NoDup_cons in Hnd as [_ ?]|done].
Qed.

Lemma start_ginv fiber g : GraphWf g -> GInv g (DAG_run fiber g).
Proof.
  intros Hg. split; cbn.
  - exists 0. rewrite abs_start. constructor.
  - apply (wg_start 0 [fiber]). lia.
  - by eexists.
  - apply length_replicate.
  - constructor.
  - intros [|i] a d H Hw; [|by destruct i]. injection H as <-. done.
  - by intros d p [-> _]%lookup_replicate.
  - done.
  - by intros w [= <-].
  - by intros w [= <-].
Qed.

(** *** What steps leave alone *)
Lemma existsb_lookup {A} (f : A -> bool) l : existsb f l = true <-> exists i a, l !! i = Some a /\ f a = true.
Proof.
  rewrite existsb_exists. split.
  - intros (a & Ha & Hf). apply list_elem_of_In in Ha. apply list_elem_of_lookup_1 in Ha as [i Hi]. eauto.
  - intros (i & a & Hi & Hf). exists a. split; [|done]. apply list_elem_of_In. by eapply list_elem_of_lookup_2.
Qed.

Lemma existsb_insert {A} (f : A -> bool) (l : list A) i a b :
  l !! i = Some a -> f a = false -> existsb f l = true -> existsb f (<[i := b]> l) = true.
Proof.
  intros Hi Hf (j & x & Hj & Hx)%existsb_lookup. apply existsb_lookup. exists j, x. split; [|done].
  rewrite list_lookup_insert_ne; [done|]. intros ->. congruence.
Qed.

Lemma omap_who_insert (l : list DagTask) i a p : l !! i = Some a -> omap who (<[i := mkTask (who a) p]> l) = omap who l.
Proof.
  revert i. induction l as [|x l IH]; intros [|i] Hi; simplify_eq/=; [done|].
  unfold omap, list_omap in IH. destruct (who x); [f_equal|]; apply (IH i Hi).
Qed.

Lemma omap_who_delete (l : list DagTask) i : omap who (delete i l) ⊆+ omap who l.
Proof.
  revert i. induction l as [|x l IH]; intros [|i]; simpl; [done|done| |].
  - destruct (who x); [by apply submseteq_cons|done].
  - destruct (who x); [apply submseteq_skip|]; apply (IH i).
Qed.

Lemma cnt_delete {A} (f : A -> bool) (l : list A) i a : l !! i = Some a -> cnt f (delete i l) = (cnt f l - b2z (f a))%Z.
Proof. revert i. induction l as [|x l IH]; intros [|i] Hi; simplify_eq/=; [lia|]. rewrite (IH i Hi). lia. Qed.

(** Activations that are not in [done()] count, and are found in the abstract
    run. *)
Lemma abs_at s (l : list DagTask) i a :
  l !! i = Some a -> counts s a = true ->
  exists j, abs_tasks s l !! j = Some (abs_task a) /\
    (forall a', counts s a' = true -> abs_tasks s (<[i := a']> l) = <[j := abs_task a']> (abs_tasks s l)) /\
    abs_tasks s (delete i l) = delete j (abs_tasks s l).
Proof.
  intros Hi Ha. destruct (filter_at (fun a => counts s a = true) l i a Hi Ha) as (j & Hj & Hins & Hdel).
  exists j. unfold abs_tasks. split; [by rewrite list_lookup_fmap, Hj|]. split.
  - intros a' Ha'. rewrite Hins by done. by rewrite list_fmap_insert.
  - rewrite Hdel. by rewrite <- fmap_delete || by rewrite list_fmap_delete.
Qed.

Section steps.
Context (g : DAG) (Hg : GraphWf g).

Lemma running_counts r i a :
  GInv g r -> tasks r !! i = Some a -> is_leave (place a) = false -> counts (group r) a = true.
Proof.
  intros HI Hi Hl. unfold counts. destruct (who a) as [d|] eqn:Hw; [|done].
  destruct (g_task g r HI i a d Hi Hw) as (_ & _ & Hd). by rewrite (Hd Hl).
Qed.

Lemma abs_inv r : GInv g r -> run_inv g (abs r).
Proof. intros HI. destruct (g_dag g r HI) as [n Hn]. by apply (dag_reach_inv g n). Qed.

Lemma reach_abs r r' j : GInv g r -> dag_step g j (abs r) = Some (Ok (abs r')) -> exists n, dag_reach g n (abs r').
Proof. intros HI Hj. destruct (g_dag g r HI) as [n Hn]. exists (S n). by eapply dag_reach_step. Qed.

Lemma invoke_step_begun a cs st fin p cs' st' fin' :
  invoke_step g a cs st fin = Some (Ok (p, cs', st', fin')) ->
  (forall v, v ∈ st -> v ∈ st') /\ (forall v, a = Enter v -> v ∈ st') /\ is_leave a = false.
Proof.
  destruct a as [v|v|v [|idx rest] [t|]|v t idx rest|v]; cbn; intros H; simplify_eq/=.
  - destruct (at_ (nodes g) v); simplify_eq/=. split_and!; [set_solver|intros ? [= ->]; set_solver|done].
  - destruct (at_ (nodes g) v); simplify_eq/=. split_and!; [done|intros ? [=]|done].
  - split_and!; [done|intros ? [=]|done].
  - split_and!; [done|intros ? [=]|done].
  - destruct (notify g idx cs) as [[]| |]; simplify_eq/=. split_and!; [done|intros ? [=]|done].
  - destruct (notify g idx cs) as [[]| |]; simplify_eq/=. split_and!; [done|intros ? [=]|done].
Qed.

(** A step of [invoke] is one of Dag.v. *)
Lemma invoke_ginv r i a x :
  GInv g r -> tasks r !! i = Some a -> invoke_step g (place a) (ctx r) (begun r) (ended r) = Some x ->
  exists p cs st fin j, x = Ok (p, cs, st, fin) /\
    let r' := mkGroupRun cs (group r) (<[i := mkTask (who a) p]> (tasks r)) st fin (over_ r) in
    GInv g r' /\ dag_step g j (abs r) = Some (Ok (abs r')).
Proof.
  intros HI Hi Hx. assert (is_leave (place a) = false) as Hl by (destruct (place a); done).
  pose proof (running_counts r i a HI Hi Hl) as Hc.
  destruct (abs_at _ _ _ _ Hi Hc) as (j & Hj & Hins & _).
  pose proof (invoke_step_dag g j (abs r) _ _ x Hj Hx) as Hd.
  pose proof (dag_step_inv g j (abs r) Hg (abs_inv r HI)) as Hok. rewrite Hd in Hok.
  destruct x as [[[[p cs] st] fin]| |]; [|done..]. clear Hok. exists p, cs, st, fin, j. split; [done|].
  set (r' := mkGroupRun _ _ _ _ _ _). cbn [mbind result_bind] in Hd.
  assert (dag_step g j (abs r) = Some (Ok (abs r'))) as Hd'.
  { rewrite Hd. unfold abs, r'. cbn [ctx group tasks begun ended over_ counters wg acts started finished returned].
    by rewrite Hins. }
  split; [|done]. destruct (invoke_step_begun _ _ _ _ _ _ _ _ Hx) as (Hmono & Henter & _).
  destruct HI as [Hdag Hwg Hw Hdo Hwho Htask Hcall Hcr Hpast Hwait] eqn:EI. split; cbn; try done.
  - by apply (reach_abs r r' j HI).
  - by rewrite omap_who_insert.
  - intros k b d [[-> ->]|[Hne Hk]]%lookup_insert_cases Hb; cbn in *.
    + destruct (Htask i a d Hi Hb) as (H1 & H2 & H3). split; [done|]. split; [|by intros _; apply H3].
      right. destruct H2 as [H2|H2]; [by apply Henter|by apply Hmono].
    + destruct (Htask k b d Hk Hb) as (H1 & H2 & H3). split; [done|]. split; [|done].
      destruct H2 as [H2|H2]; [by left|right; by apply Hmono].
  - intros d q Hq Hne. destruct (Hcall d q Hq Hne) as [H1 H2]. split; [by apply Hmono|].
    intros H3. destruct (H2 H3) as (k & v & Hk). exists k, v. rewrite list_lookup_insert_ne; [done|].
    intros ->. assert (a = mkTask (Some d) (Leave v)) as -> by congruence. done.
  - rewrite Hcr, (cnt_insert _ _ _ _ _ Hi). replace (idle (group r) (mkTask (who a) p)) with (idle (group r) a) by done. lia.
  - intros w Ew Hne. destruct (Hwait w Ew Hne) as [?|H]; [by left|right].
    eapply existsb_insert; [done| |done]. unfold in_wait. by rewrite Hl, andb_false_r.
Qed.

(** *** Starting a task *)
Lemma over_unique {A} (f : Act -> list A) l i j a b x :
  NoDup (over f l) -> l !! i = Some a -> l !! j = Some b -> x ∈ f (act a) -> x ∈ f (act b) -> i = j.
Proof.
  revert i j. induction l as [|c l IH]; intros i j Hnd Hi Hj Ha Hb; [done|].
  rewrite over_cons in Hnd. apply NoDup_app in Hnd as (_ & Hd & Hnd).
  assert (forall k e, l !! k = Some e -> x ∈ f (act e) -> x ∈ over f l) as Hin.
  { intros k e Hk He. unfold over. apply list_elem_of_join. exists (f (act e)). split; [done|].
    apply list_elem_of_fmap. exists e. split; [done|]. by eapply list_elem_of_lookup_2. }
  destruct i as [|i], j as [|j]; simplify_eq/=; [done| | |f_equal; by apply (IH i j)].
  - destruct (Hd x Ha). by apply (Hin j b).
  - destruct (Hd x Hb). by apply (Hin i a).
Qed.

Lemma mains_unique l i j a b :
  mains l <= 1 -> l !! i = Some a -> l !! j = Some b -> main a = true -> main b = true -> i = j.
Proof.
  revert i j. induction l as [|[m c] l IH]; intros i j Hm Hi Hj Ha Hb; [done|]. rewrite mains_cons in Hm.
  assert (forall k e, l !! k = Some e -> main e = true -> 0 < mains l) as Hpos.
  { intros k e Hk He. unfold mains. assert (e ∈ filter (fun a => main a = true) l) as Hin
      by (apply list_elem_of_filter; split; [done|by eapply list_elem_of_lookup_2]).
    destruct (filter _ l); [by apply elem_of_nil in Hin|simpl; lia]. }
  destruct i as [|i], j as [|j]; simplify_eq/=; [done| | |f_equal; apply (IH i j); (lia || done)].
  - specialize (Hpos j b Hj Hb). lia.
  - specialize (Hpos i a Hi Ha). lia.
Qed.

(** A node that is about to be scheduled was not begun, and no task is there for
    it. *)
Lemma spawn_fresh r i m v t idx rest :
  GInv g r -> tasks r !! i = Some (mkTask m (Spawn v t idx rest)) ->
  (t ∉ begun r) /\ (t ∉ omap who (tasks r)) /\ doers (group r) !! t = Some DIdle /\ t < length (nodes g).
Proof.
  intros HI Hi. pose proof (running_counts r i _ HI Hi eq_refl) as Hc.
  destruct (abs_at _ _ _ _ Hi Hc) as (j & Hj & _). pose proof (abs_inv r HI) as HD. unfold run_inv in HD.
  pose proof (d_nodup _ _ _ _ _ _ _ HD) as (Hnd & Hdis & _)%NoDup_app.
  assert (t ∈ holds (place (mkTask m (Spawn v t idx rest)))) as Ht by left.
  assert (t ∈ over holds (acts (abs r))) as Hover.
  { unfold over. apply list_elem_of_join. eexists. split; [exact Ht|]. apply list_elem_of_fmap.
    eexists. split; [|by eapply list_elem_of_lookup_2]. done. }
  assert (t ∉ begun r) as Hnb.
  { change (begun r) with (started (abs r)). rewrite (d_started _ _ _ _ _ _ _ HD). intros [Hw|Hf]%elem_of_app.
    - unfold over in Hw. apply list_elem_of_join in Hw as (l & Hin & Hl).
      apply list_elem_of_fmap in Hl as (b & -> & [k Hk]%list_elem_of_lookup_1). cbn in Hin.
      destruct b as [mb ab]; destruct ab as [| y | | |]; cbn in Hin; try (by apply elem_of_nil in Hin).
      apply list_elem_of_singleton in Hin as <-.
      assert (k = j) as -> by (eapply (over_unique holds); [exact Hnd|exact Hk|exact Hj|by left|exact Ht]).
      cbn [acts abs] in Hk; rewrite Hk in Hj. discriminate Hj.
    - by apply (Hdis t). }
  assert (t < length (nodes g)) as Hlt.
  { assert (t ∈ over holds (acts (abs r)) ++ finished (abs r)) as [? _]%(d_fired _ _ _ _ _ _ _ HD) by set_solver. done. }
  split_and!; try done.
  - intros (b & [k Hk]%list_elem_of_lookup_1 & Hb)%list_elem_of_omap.
    destruct (g_task g r HI k b t Hk Hb) as (_ & [He|Hin] & _); [|done].
    assert (is_leave (place b) = false) as Hl by (by rewrite He).
    destruct (abs_at _ _ _ _ Hk (running_counts r k b HI Hk Hl)) as (k' & Hk' & _).
    assert (k' = j) as -> by (eapply (over_unique holds); [exact Hnd|exact Hk'|exact Hj|cbn; rewrite He; by left|exact Ht]).
    rewrite Hj in Hk'. injection Hk' as Hk' Hp. rewrite He in Hp. done.
  - destruct (lookup_lt_is_Some_2 (doers (group r)) t) as [p Hp]; [by rewrite (g_doers g r HI)|].
    destruct (decide (p = DIdle)) as [->|Hne]; [done|]. by destruct (g_called g r HI t p Hp Hne).
Qed.

(** The caller of [run] has not seen the count at zero while something can still
    add to it. *)
Lemma spawn_not_past r i m v t idx rest w :
  GInv g r -> tasks r !! i = Some (mkTask m (Spawn v t idx rest)) -> waiters (group r) = [w] ->
  past (wpc w) = false.
Proof.
  intros HI Hi Hw. destruct (past (wpc w)) eqn:Hp; [|done]. exfalso.
  pose proof (g_past g r HI w Hw Hp) as Hz. pose proof (abs_inv r HI) as HD. unfold run_inv in HD.
  destruct (abs_at _ _ _ _ Hi (running_counts r i _ HI Hi eq_refl)) as (j & Hj & _).
  pose proof (d_wg _ _ _ _ _ _ _ HD) as Hwg. cbn [wg abs] in Hwg. rewrite Hz in Hwg.
  assert (m = None) as ->.
  { destruct m as [d|]; [|done]. exfalso. assert (0 < scheduled (acts (abs r))); [|lia].
    unfold scheduled. assert (abs_task (mkTask (Some d) (Spawn v t idx rest)) ∈ filter (fun a => main a = false) (acts (abs r))) as Hin
      by (apply list_elem_of_filter; split; [done|by eapply list_elem_of_lookup_2]).
    destruct (filter _ _); [by apply elem_of_nil in Hin|simpl; lia]. }
  pose proof (d_main _ _ _ _ _ _ _ HD) as Hm. cbn [returned abs] in Hm.
  destruct (g_waits g r HI w Hw) as [Hov|(k & b & Hk & Hb)%existsb_lookup]; [by intros E; rewrite E in Hp| |].
  - rewrite Hov in Hm. unfold mains in Hm.
    assert (abs_task (mkTask None (Spawn v t idx rest)) ∈ filter (fun a => main a = true) (acts (abs r))) as Hin
      by (apply list_elem_of_filter; split; [done|by eapply list_elem_of_lookup_2]).
    destruct (filter _ _); [by apply elem_of_nil in Hin|done].
  - unfold in_wait in Hb. apply andb_true_iff in Hb as [Hb1%bool_decide_eq_true Hb2].
    destruct (abs_at (group r) _ _ _ Hk) as (k' & Hk' & _); [unfold counts; by rewrite Hb1|].
    assert (k' = j) as ->.
    { eapply mains_unique; [|exact Hk'|exact Hj| |]; [change (mains (acts (abs r)) <= 1); rewrite Hm; destruct (over_ r); lia| |done]. cbn. by rewrite Hb1. }
    rewrite Hj in Hk'. injection Hk' as _ Hp'. rewrite <- Hp' in Hb2. done.
Qed.

Lemma group_reach_wg e s s' : wg_reach s -> wg_step e s = Some (Ok s') -> wg_reach s'.
Proof. apply wg_reach_step. Qed.

(** The wait group after [add(1)]. *)
Definition added (s : State) : State :=
  mkState (u32 (count s + 1)) (mutex s) (waiting_ s) (num_waiting_ s) (num_waiting_on_condition s)
    (waiters s) (doers s) (credits s + 1) true.

Lemma abs_tasks_app s l k : abs_tasks s (l ++ k) = abs_tasks s l ++ abs_tasks s k.
Proof. unfold abs_tasks. by rewrite filter_app, fmap_app. Qed.

Definition spawned (r : GroupRun) (i : nat) (m : option NodeIndex) (v t idx : NodeIndex) (rest : list NodeIndex) : GroupRun :=
  mkGroupRun (ctx r) (added (group r))
    (<[i := mkTask m (Loop v rest (Some idx))]> (tasks r) ++ [mkTask (Some t) (Enter t)]) (begun r) (ended r) (over_ r).

(** The same step in Dag.v, and that [add(1)] does not overflow. *)
Lemma spawn_dag r i m v t idx rest :
  GInv g r -> tasks r !! i = Some (mkTask m (Spawn v t idx rest)) ->
  (exists j, dag_step g j (abs r) = Some (Ok (abs (spawned r i m v t idx rest)))) /\
  wg_step (EAdd 1) (group r) = Some (Ok (added (group r))).
Proof.
  intros HI Hi. set (r' := spawned r i m v t idx rest). pose proof (running_counts r i _ HI Hi eq_refl) as Hc.
  destruct (abs_at _ _ _ _ Hi Hc) as (j & Hj & Hins & _).
  destruct (spawn_fresh r i m v t idx rest HI Hi) as (_ & _ & Hidle & _).
  assert (acts (abs r') = <[j := mkAct (bool_decide (m = None)) (Loop v rest (Some idx))]> (acts (abs r)) ++ [mkAct false (Enter t)]) as Ha.
  { cbn [acts abs group tasks r' spawned]. change (abs_tasks (added (group r))) with (abs_tasks (group r)).
    rewrite abs_tasks_app, Hins by done. f_equal. unfold abs_tasks.
    by rewrite filter_cons_True by (unfold counts; cbn; by rewrite Hidle). }
  assert (dag_step g j (abs r) = Some (Ok (abs r'))) as Hd.
  { unfold dag_step. cbn [acts abs] in *. rewrite Hj. cbn [abs_task who place counters wg started finished returned].
    by rewrite <- Ha. }
  split; [by exists j|]. cbn [wg_step]. rewrite bool_decide_eq_true_2; [done|].
  pose proof (dag_step_inv g j (abs r) Hg (abs_inv r HI)) as Hok. rewrite Hd in Hok.
  pose proof (d_wg _ _ _ _ _ _ _ (abs_inv r HI)) as Hw. cbn [wg abs] in Hw.
  pose proof (acts_bound g _ _ _ _ _ _ Hok) as Hb. pose proof (gw_size g Hg).
  pose proof (scheduled_le (acts (abs r))) as Hs.
  rewrite Ha, length_app, length_insert in Hb. simpl length in Hb. cbn [acts abs] in *. lia.
Qed.

Lemma spawn_ginv r i m v t idx rest :
  GInv g r -> tasks r !! i = Some (mkTask m (Spawn v t idx rest)) ->
  let r' := spawned r i m v t idx rest in
  wg_step (EAdd 1) (group r) = Some (Ok (added (group r))) /\ GInv g r' /\
  exists j, dag_step g j (abs r) = Some (Ok (abs r')).
Proof.
  intros HI Hi r'. destruct (spawn_dag r i m v t idx rest HI Hi) as [[j Hd] Hadd].
  destruct (spawn_fresh r i m v t idx rest HI Hi) as (Hnb & Hnw & Hidle & Hlt).
  split; [done|]. split; [|by exists j]. split; cbn [ctx group tasks begun ended over_ r' spawned].
  - by apply (reach_abs r r' j HI).
  - eapply group_reach_wg; [apply (g_group g r HI)|done].
  - apply (g_waiter g r HI).
  - apply (g_doers g r HI).
  - rewrite omap_app, (omap_who_insert (tasks r) i _ (Loop v rest (Some idx)) Hi : omap who (<[i := mkTask m _]> _) = _).
    simpl. apply NoDup_app. split_and!.
    + apply (g_who g r HI).
    + intros x Hx ->%list_elem_of_singleton. done.
    + apply NoDup_singleton.
  - intros k b d [[[-> ->]|[Hne Hk]]%lookup_insert_cases|[_ ->]]%lookup_snoc_cases Hb; cbn in *.
    + destruct (g_task g r HI i _ d Hi Hb) as (H1 & H2 & H3). split; [done|]. split; [|by intros _; apply H3].
      right. by destruct H2.
    + by apply (g_task g r HI k b d).
    + simplify_eq. auto.
  - intros d q Hq Hne. destruct (g_called g r HI d q Hq Hne) as [H1 H2]. split; [done|].
    intros H3. destruct (H2 H3) as (k & y & Hk). exists k, y. rewrite lookup_app_l.
    + rewrite list_lookup_insert_ne; [done|]. intros ->. by simplify_eq.
    + rewrite length_insert. by eapply lookup_lt_Some.
  - cbn [added credits]. change (idle (added (group r))) with (idle (group r)).
    rewrite (g_credits g r HI), cnt_app, (cnt_insert _ _ _ _ _ Hi).
    assert (idle (group r) (mkTask (Some t) (Enter t)) = true) as Ht by (by apply bool_decide_eq_true).
    cbn [cnt]. rewrite Ht. change (idle (group r) (mkTask m (Loop v rest (Some idx)))) with (idle (group r) (mkTask m (Spawn v t idx rest))).
    simpl. lia.
  - intros w Hw Hp. cbn [added waiters] in Hw. by rewrite (spawn_not_past r i m v t idx rest w HI Hi Hw) in Hp.
  - intros w Hw Hne. destruct (g_waits g r HI w Hw Hne) as [?|H]; [by left|right].
    rewrite existsb_app. apply orb_true_iff. left. eapply existsb_insert; [done| |done]. unfold in_wait. cbn. by rewrite andb_false_r.
Qed.

(** *** Ends of activations *)
Lemma lookup_delete_old {A} (l : list A) i k b : delete i l !! k = Some b -> exists k', l !! k' = Some b.
Proof.
  intros Hk. destruct (decide (k < i)) as [Hlt|Hge].
  - rewrite list_lookup_delete_lt in Hk by done. eauto.
  - rewrite list_lookup_delete_ge in Hk by lia. eauto.
Qed.

Lemma lookup_delete_keep {A} (l : list A) i k b : l !! k = Some b -> k <> i -> exists k', delete i l !! k' = Some b.
Proof.
  intros Hk Hne. destruct (decide (k < i)) as [Hlt|Hge].
  - exists k. by rewrite list_lookup_delete_lt.
  - exists (k - 1). rewrite list_lookup_delete_ge by lia. by replace (S (k - 1)) with k by lia.
Qed.

(** What the invariant says of the tasks stays true when one goes that is not in
    the middle of a [done()]. *)
Lemma delete_ginv r i a ov :
  GInv g r -> tasks r !! i = Some a -> idle (group r) a = false ->
  (forall d p, who a = Some d -> doers (group r) !! d = Some p -> ddone p = true) ->
  (who a = None -> ov = true) -> (over_ r = true -> ov = true) ->
  let r' := mkGroupRun (ctx r) (group r) (delete i (tasks r)) (begun r) (ended r) ov in
  (exists n, dag_reach g n (abs r')) -> GInv g r'.
Proof.
  intros HI Hi Hid Hdd Hmain Hov r' Hr. split; cbn [ctx group tasks begun ended over_ r']; try apply HI; [done|..].
  - eapply submseteq_NoDup; [apply omap_who_delete|apply (g_who g r HI)].
  - intros k b d [k' Hk]%lookup_delete_old Hb. by apply (g_task g r HI k' b d).
  - intros d p Hp Hne. destruct (g_called g r HI d p Hp Hne) as [H1 H2]. split; [done|]. intros H3.
    destruct (H2 H3) as (k & v & Hk). destruct (lookup_delete_keep (tasks r) i k _ Hk) as [k' Hk']; [|eauto].
    intros ->. assert (a = mkTask (Some d) (Leave v)) as -> by congruence. rewrite (Hdd d p) in H3; done.
  - rewrite (g_credits g r HI), (cnt_delete _ _ _ _ Hi), Hid. simpl. lia.
  - intros w Hw Hne. destruct (g_waits g r HI w Hw Hne) as [Ho|(k & b & Hk & Hb)%existsb_lookup]; [left; by apply Hov|].
    destruct (decide (k = i)) as [->|Hki].
    + left. apply Hmain. unfold in_wait in Hb. apply andb_true_iff in Hb as [Hb%bool_decide_eq_true _]. congruence.
    + right. destruct (lookup_delete_keep (tasks r) i k b Hk Hki) as [k' Hk']. apply existsb_lookup. eauto.
Qed.

Lemma return_ginv r i v :
  GInv g r -> tasks r !! i = Some (mkTask None (Leave v)) -> waiter_pc (group r) = Some WReturn ->
  let r' := mkGroupRun (ctx r) (group r) (delete i (tasks r)) (begun r) (ended r) true in
  GInv g r' /\ exists j, dag_step g j (abs r) = Some (Ok (abs r')).
Proof.
  intros HI Hi Hw r'. destruct (g_waiter g r HI) as [w Ew].
  unfold waiter_pc in Hw. rewrite Ew in Hw. cbn in Hw. injection Hw as Hw.
  assert (count (group r) = 0%Z) as Hz by (apply (g_past g r HI w Ew); by rewrite Hw).
  destruct (abs_at (group r) _ _ _ Hi eq_refl) as (j & Hj & _ & Hdel).
  assert (dag_step g j (abs r) = Some (Ok (abs r'))) as Hd.
  { unfold dag_step. cbn [acts abs]. rewrite Hj. cbn [abs_task who place]. rewrite bool_decide_eq_true_2 by done.
    unfold abs, r'. cbn [ctx group tasks begun ended over_ wg counters started finished]. rewrite Hz, Hdel. done. }
  split; [|by exists j]. apply (delete_ginv r i _ true HI Hi); try done. by apply (reach_abs r r' j HI).
Qed.

Lemma end_ginv r i d v b :
  GInv g r -> tasks r !! i = Some (mkTask (Some d) (Leave v)) -> doers (group r) !! d = Some (DDone b) ->
  let r' := mkGroupRun (ctx r) (group r) (delete i (tasks r)) (begun r) (ended r) (over_ r) in
  GInv g r' /\ abs r' = abs r.
Proof.
  intros HI Hi Hd r'.
  assert (abs r' = abs r) as Ha.
  { unfold abs, r', abs_tasks. cbn [ctx group tasks begun ended over_]. rewrite (filter_delete_out _ _ i _ Hi); [done|].
    unfold counts. cbn. by rewrite Hd. }
  split; [|done]. apply (delete_ginv r i _ (over_ r) HI Hi); try done.
  - unfold idle. cbn. rewrite Hd. by rewrite bool_decide_eq_false_2.
  - intros d' p [= <-] Hp. rewrite Hd in Hp. by injection Hp as <-.
  - destruct (g_dag g r HI) as [n Hn]. exists n. unfold r' in Ha. by rewrite Ha.
Qed.

(** *** Steps of the wait group *)
Definition with_group (s : State) (r : GroupRun) : GroupRun :=
  mkGroupRun (ctx r) s (tasks r) (begun r) (ended r) (over_ r).

Lemma cnt_change {A} (f f' : A -> bool) (l : list A) i a :
  l !! i = Some a -> (forall k b, l !! k = Some b -> k <> i -> f' b = f b) ->
  cnt f' l = (cnt f l - b2z (f a) + b2z (f' a))%Z.
Proof.
  revert i. induction l as [|x l IH]; intros [|i] Hi Hb; simplify_eq/=.
  - assert (cnt f' l = cnt f l) as ->; [|lia]. apply cnt_ext_fun. intros b [k Hk]%list_elem_of_lookup_1. by apply (Hb (S k)).
  - rewrite (Hb 0 x) by done. rewrite (IH i Hi); [lia|]. intros k b Hk Hne. apply (Hb (S k) b Hk). lia.
Qed.

(** A call of [done()] goes on: the caller is its task, at its end. *)
Lemma doer_ginv r s' d p q i v :
  GInv g r -> tasks r !! i = Some (mkTask (Some d) (Leave v)) -> doers (group r) !! d = Some p ->
  doers s' = <[d := q]> (doers (group r)) -> q <> DIdle ->
  credits s' = (credits (group r) - b2z (bool_decide (p = DIdle)))%Z -> wg_reach s' ->
  (exists w, waiters s' = [w]) ->
  (forall w, waiters s' = [w] -> past (wpc w) = true -> count s' = 0%Z) ->
  (forall w, waiters s' = [w] -> wpc w <> WEnter -> exists w0, waiters (group r) = [w0] /\ wpc w0 <> WEnter) ->
  (exists n, dag_reach g n (abs (with_group s' r))) -> GInv g (with_group s' r).
Proof.
  intros HI Hi Hp Hdo Hq Hcr Hwg Hw Hpast Hwait Hr.
  assert (forall k b e, tasks r !! k = Some b -> k <> i -> who b = Some e -> e <> d) as Hother.
  { intros k b e Hk Hne Hb ->. apply Hne. by eapply (who_unique (tasks r) k i b); [apply (g_who g r HI)|..]. }
  split; cbn [ctx group tasks begun ended over_ with_group]; try done.
  - rewrite Hdo, length_insert. apply (g_doers g r HI).
  - apply (g_who g r HI).
  - intros k b e Hk Hb. destruct (g_task g r HI k b e Hk Hb) as (H1 & H2 & H3). split; [done|]. split; [done|].
    intros Hl. rewrite Hdo. destruct (decide (k = i)) as [->|Hne]; [by simplify_eq|].
    rewrite list_lookup_insert_ne; [by apply H3|]. intros ->. by apply (Hother k b e Hk Hne Hb).
  - intros e p' Hp' Hne. rewrite Hdo in Hp'. apply lookup_insert_cases in Hp' as [[-> ->]|[_ Hp']].
    + destruct (g_task g r HI i _ d Hi eq_refl) as (_ & [?|Hb] & _); [done|]. split; [done|eauto].
    + by apply (g_called g r HI e p').
  - rewrite Hcr, (g_credits g r HI), (cnt_change (idle (group r)) (idle s') (tasks r) i _ Hi).
    + unfold idle. cbn. rewrite Hp, Hdo, list_lookup_insert_eq by (by eapply lookup_lt_Some).
      rewrite (bool_decide_eq_false_2 (Some q = Some DIdle)) by congruence. simpl.
      rewrite (bool_decide_ext (Some p = Some DIdle) (p = DIdle)) by (split; congruence). lia.
    + intros k b Hk Hne. unfold idle. destruct (who b) as [e|] eqn:Hb; [|done].
      rewrite Hdo, list_lookup_insert_ne; [done|]. intros ->. by apply (Hother k b e Hk Hne Hb).
  - intros w Ew Hne. destruct (Hwait w Ew Hne) as (w0 & Ew0 & H0). by apply (g_waits g r HI w0).
Qed.

(** As long as a [done()] stays on its side of the count, the abstract run is
    the same. *)
Lemma abs_doer r s' d p q i v :
  GInv g r -> tasks r !! i = Some (mkTask (Some d) (Leave v)) -> doers (group r) !! d = Some p ->
  doers s' = <[d := q]> (doers (group r)) -> count s' = count (group r) -> passed q = passed p ->
  abs (with_group s' r) = abs r.
Proof.
  intros HI Hi Hp Hdo Hc Hpq. unfold abs, with_group. cbn [ctx group tasks begun ended over_]. rewrite Hc. f_equal.
  unfold abs_tasks. f_equal. apply list_filter_iff. intros b. unfold counts. destruct (who b) as [e|]; [|done].
  rewrite Hdo. destruct (decide (e = d)) as [->|Hne]; [|by rewrite list_lookup_insert_ne].
  rewrite list_lookup_insert_eq by (by eapply lookup_lt_Some). by rewrite Hp, Hpq.
Qed.

Lemma same_dag r r' : GInv g r -> abs r' = abs r -> exists n, dag_reach g n (abs r').
Proof. intros HI ->. apply (g_dag g r HI). Qed.

(** [done()] is called. *)
Lemma call_ginv r i d v :
  GInv g r -> tasks r !! i = Some (mkTask (Some d) (Leave v)) -> doers (group r) !! d = Some DIdle ->
  exists s', wg_step (ECall d) (group r) = Some (Ok s') /\ GInv g (with_group s' r) /\ abs (with_group s' r) = abs r.
Proof.
  intros HI Hi Hd. assert (0 < credits (group r))%Z as Hcr.
  { rewrite (g_credits g r HI). eapply cnt_lookup; [exact Hi|]. unfold idle. cbn. by rewrite Hd, bool_decide_eq_true_2. }
  assert (exists s', wg_step (ECall d) (group r) = Some (Ok s') /\ doers s' = <[d := DAssert]> (doers (group r)) /\
    credits s' = (credits (group r) - 1)%Z /\ count s' = count (group r) /\ waiters s' = waiters (group r)) as (s' & E & H1 & H2 & H3 & H4).
  { cbn [wg_step]. rewrite !bool_decide_eq_true_2 by done. eexists. split; [done|]. done. }
  assert (abs (with_group s' r) = abs r) as Ha by (by eapply abs_doer).
  exists s'. split; [done|]. split; [|done]. destruct (g_waiter g r HI) as [w Ew].
  eapply (doer_ginv r s' d DIdle DAssert i v); try done.
  - eapply group_reach_wg; [apply (g_group g r HI)|done].
  - rewrite H4. eauto.
  - intros w'. rewrite H4, H3. apply (g_past g r HI).
  - intros w'. rewrite H4. eauto.
  - by apply (same_dag r).
Qed.

(** [done()] takes its one off the count: its task ends in the abstract run. *)
Lemma decr_ginv r d i v :
  GInv g r -> tasks r !! i = Some (mkTask (Some d) (Leave v)) -> doers (group r) !! d = Some DDecr ->
  let c := u32 (count (group r) - 1) in
  let s' := WaitGroup.set_doer d (if bool_decide (c = 0%Z) then DLock else DDone false) (WaitGroup.set_count c (group r)) in
  wg_reach s' -> GInv g (with_group s' r) /\ exists j, dag_step g j (abs r) = Some (Ok (abs (with_group s' r))).
Proof.
  intros HI Hi Hd c s' Hwg. set (q := if bool_decide (c = 0%Z) then DLock else DDone false).
  assert (doers s' = <[d := q]> (doers (group r))) as Hdo by done.
  assert (passed q = true /\ q <> DIdle) as [Hpq Hq] by (unfold q; by case_bool_decide).
  assert (0 < count (group r))%Z as Hpos.
  { destruct (i_count _ (wg_reach_inv _ (g_group g r HI))) as (-> & Hc & _).
    pose proof (cnt_lookup dpending (doers (group r)) d DDecr Hd eq_refl). lia. }
  assert (counts (group r) (mkTask (Some d) (Leave v)) = true) as Hc by (unfold counts; cbn; by rewrite Hd).
  destruct (abs_at (group r) _ _ _ Hi Hc) as (j & Hj & _ & Hdel).
  assert (dag_step g j (abs r) = Some (Ok (abs (with_group s' r)))) as Hstep.
  { unfold dag_step. cbn [acts abs]. rewrite Hj. cbn [abs_task who place wg]. rewrite bool_decide_eq_false_2 by done.
    rewrite bool_decide_eq_true_2 by done. cbn [MARL_ASSERT mbind result_bind]. do 2 f_equal.
    unfold abs, with_group. cbn [ctx group tasks begun ended over_]. rewrite <- Hdel. f_equal. unfold abs_tasks. f_equal. symmetry.
    apply (filter_change _ _ (tasks r) i _ Hi).
    - unfold counts. cbn [who]. rewrite Hdo, list_lookup_insert_eq by (by eapply lookup_lt_Some). by rewrite Hpq.
    - intros k b Hk Hne. unfold counts. destruct (who b) as [e|] eqn:Hb; [|done].
      rewrite Hdo, list_lookup_insert_ne; [done|]. intros ->. apply Hne.
      by eapply (who_unique (tasks r) k i b); [apply (g_who g r HI)|..]. }
  split; [|by exists j]. destruct (g_waiter g r HI) as [w Ew]. eapply (doer_ginv r s' d DDecr q i v); try done.
  - rewrite bool_decide_eq_false_2 by done. cbn [s' WaitGroup.set_doer WaitGroup.set_count credits b2z]. lia.
  - by exists w.
  - intros w' Ew' Hp. pose proof (g_past g r HI w' Ew' Hp). lia.
  - intros w' Ew'. eauto.
  - by apply (reach_abs r _ j HI).
Qed.

Lemma wake_past w : (past (wpc (wake w)) = true -> past (wpc w) = true) /\ (wpc (wake w) <> WEnter -> wpc w <> WEnter).
Proof. unfold wake. case_bool_decide as Hz; [cbn; rewrite Hz|]; done. Qed.

(** Any step of a [done()]. *)
Lemma done_ginv r d x :
  GInv g r -> done_step d (group r) = Some x ->
  exists s', x = Ok s' /\ GInv g (with_group s' r) /\
    (abs (with_group s' r) = abs r \/ exists j, dag_step g j (abs r) = Some (Ok (abs (with_group s' r)))).
Proof.
  intros HI Hx. pose proof (wg_reach_inv _ (g_group g r HI)) as HW.
  destruct (done_step_inv (group r) d x HW Hx) as (s' & -> & _). exists s'. split; [done|].
  assert (wg_reach s') as Hwg by (by apply (group_reach_wg (EDone d) (group r)); [apply (g_group g r HI)|]).
  unfold done_step in Hx. destruct (doers (group r) !! d) as [p|] eqn:Hd; [|done]. cbn [mbind option_bind] in Hx.
  assert (p <> DIdle /\ ddone p = false) as [Hne Hdd] by (destruct p; done).
  destruct (g_called g r HI d p Hd Hne) as [_ Hex]. destruct (Hex Hdd) as (i & v & Hi).
  destruct (g_waiter g r HI) as [w Ew].
  assert (forall q, q <> DIdle -> passed q = passed p -> doers s' = <[d := q]> (doers (group r)) ->
    count s' = count (group r) -> credits s' = credits (group r) -> (waiters s' = [w] \/ waiters s' = [wake w]) ->
    GInv g (with_group s' r) /\ (abs (with_group s' r) = abs r \/ exists j, dag_step g j (abs r) = Some (Ok (abs (with_group s' r))))) as Hgo.
  { intros q Hq Hpq Hdo Hc Hcr Hw. assert (abs (with_group s' r) = abs r) as Ha by (by eapply abs_doer). split; [|by left].
    assert (forall w', waiters s' = [w'] -> (past (wpc w') = true -> past (wpc w) = true) /\ (wpc w' <> WEnter -> wpc w <> WEnter)) as Hw'.
    { intros w' E. destruct Hw as [Hw|Hw]; rewrite Hw in E; injection E as <-; [done|apply wake_past]. }
    eapply (doer_ginv r s' d p q i v); try done.
    - rewrite Hcr, bool_decide_eq_false_2 by done. simpl. lia.
    - destruct Hw; eauto.
    - intros w' E Hp. rewrite Hc. apply (g_past g r HI w Ew). by apply (Hw' w' E).
    - intros w' E Hn. exists w. split; [done|]. by apply (Hw' w' E).
    - by apply (same_dag r). }
  destruct p; try done.
  - destruct (MARL_ASSERT _ _) as [[]| |]; try done. injection Hx as <-. apply (Hgo DDecr); auto.
  - injection Hx as <-. destruct (decr_ginv r d i v HI Hi Hd Hwg) as [H1 H2]. split; [done|by right].
  - case_bool_decide; [|done]. injection Hx as <-. apply (Hgo DNotify); auto.
  - injection Hx as <-. pose proof (WaitGroup.notify_all_wakes (group r) HW) as Hn. rewrite Ew in Hn.
    destruct (notify_all_work (group r) w Ew) as (_ & Hdo & _ & Hcr & _).
    apply (Hgo DUnlock); auto; cbn [doers count credits waiters WaitGroup.set_doer]; [by rewrite Hdo|].
    unfold WaitGroup.notify_all. by case_bool_decide.
  - injection Hx as <-. apply (Hgo (DDone true)); auto.
Qed.

(** Steps of the waiter, which leave the count and the calls of [done()] alone. *)
Lemma waiter_ginv r s' w w' :
  GInv g r -> waiters (group r) = [w] -> waiters s' = [w'] -> wg_reach s' ->
  doers s' = doers (group r) -> count s' = count (group r) -> credits s' = credits (group r) ->
  (past (wpc w') = true -> past (wpc w) = true \/ count (group r) = 0%Z) ->
  (wpc w <> WEnter \/ existsb in_wait (tasks r) = true) ->
  GInv g (with_group s' r) /\ abs (with_group s' r) = abs r.
Proof.
  intros HI Ew Ew' Hwg Hdo Hc Hcr Hpast Hwait.
  assert (counts s' = counts (group r) /\ idle s' = idle (group r)) as [Hcs His]
    by (unfold counts, idle; by rewrite Hdo).
  assert (abs (with_group s' r) = abs r) as Ha.
  { unfold abs, with_group, abs_tasks. cbn [ctx group tasks begun ended over_]. by rewrite Hc, Hcs. }
  split; [|done]. split; cbn [ctx group tasks begun ended over_ with_group]; rewrite ?Hdo; try apply HI; try done.
  - by apply (same_dag r).
  - by eexists.
  - rewrite Hcr, His. apply (g_credits g r HI).
  - intros x Ex Hp. assert (x = w') as -> by congruence. rewrite Hc. destruct (Hpast Hp) as [H|H]; [|done].
    by apply (g_past g r HI w).
  - intros x _ _. destruct Hwait as [H|H]; [by apply (g_waits g r HI w)|by right].
Qed.

Lemma wait_step_count n s s' : wait_step n s = Some s' -> count s' = count s.
Proof.
  unfold wait_step. destruct (waiters s !! n) as [w|]; [|done]. cbn [mbind option_bind]. intros E.
  destruct (wpc w); repeat case_match; by simplify_eq/=.
Qed.

Lemma wait_step_past s s' w w' :
  waiters s = [w] -> waiters s' = [w'] -> wait_step 0 s = Some s' ->
  past (wpc w') = true -> past (wpc w) = true \/ count s = 0%Z.
Proof.
  intros Ew Ew' E Hp. unfold wait_step in E. rewrite Ew in E. cbn [lookup list_lookup mbind option_bind] in E. unfold pred in E.
  destruct (wpc w) eqn:Hw; try (by left); try case_bool_decide; simplify_eq/=; rewrite ?Ew in Ew'; simplify_eq/=; auto;
    destruct (is_fiber w); simplify_eq/=; rewrite Ew in Ew'; by simplify_eq/=.
Qed.

Lemma group_event_ginv r e x :
  GInv g r -> group_step g (GGroup e) r = Some x ->
  exists s', x = Ok (with_group s' r) /\ wg_step e (group r) = Some (Ok s') /\ GInv g (with_group s' r) /\
    (abs (with_group s' r) = abs r \/ exists j, dag_step g j (abs r) = Some (Ok (abs (with_group s' r)))).
Proof.
  intros HI Hx. destruct (g_waiter g r HI) as [w Ew]. pose proof (g_group g r HI) as Hr.
  cbn [group_step] in Hx. destruct e as [n|d|n|k|d]; try done.
  - destruct (bool_decide (n = 0) && existsb in_wait (tasks r)) eqn:Hb; [|done].
    apply andb_true_iff in Hb as [->%bool_decide_eq_true Hm].
    destruct (wg_step (EWait 0) (group r)) as [y|] eqn:E; [|done]. injection Hx as <-.
    cbn [wg_step] in E. destruct (wait_step 0 (group r)) as [s'|] eqn:Es; [|done]. injection E as <-.
    destruct (wait_step_work 0 _ _ Es) as (_ & Hdo & Hl & Hcr & _). rewrite Ew in Hl.
    destruct (waiters s') as [|w' [|]] eqn:Ew'; try done.
    assert (wg_reach s') as Hr' by (apply (group_reach_wg (EWait 0) (group r)); [done|cbn; by rewrite Es]).
    exists s'. split; [done|]. split; [done|].
    destruct (waiter_ginv r s' w w' HI Ew Ew' Hr' Hdo (wait_step_count _ _ _ Es) Hcr) as [H1 H2]; [|by right|by split; [|left]].
    by apply (wait_step_past _ s').
  - destruct (wg_step (EDone d) (group r)) as [y|] eqn:E; [|done]. injection Hx as <-. cbn [wg_step] in E.
    destruct (done_ginv r d y HI E) as (s' & -> & H1 & H2). by exists s'.
  - cbn [wg_step] in Hx. rewrite Ew in Hx. destruct n as [|n]; [|done]. cbn [lookup list_lookup mbind option_bind] in Hx.
    destruct (negb (is_fiber w) && bool_decide (wpc w = WAsleep)) eqn:Hb; [|done]. injection Hx as <-.
    set (s' := WaitGroup.set_waiter 0 w WWoken (group r)).
    assert (wg_step (ESpurious 0) (group r) = Some (Ok s')) as E by (cbn [wg_step]; rewrite Ew; cbn; by rewrite Hb).
    apply andb_true_iff in Hb as [_ Hz%bool_decide_eq_true]. exists s'. split; [done|]. split; [done|].
    destruct (waiter_ginv r s' w (mkWaiter (is_fiber w) WWoken) HI Ew) as [H1 H2]; try done.
    + cbn [s' WaitGroup.set_waiter waiters]. by rewrite Ew.
    + by apply (group_reach_wg (ESpurious 0) (group r)).
    + left. by rewrite Hz.
    + by split; [|left].
Qed.

(** Every step of the composition succeeds, and is a step of Dag.v or none. *)
Lemma group_step_ginv r y x :
  GInv g r -> group_step g y r = Some x ->
  exists r', x = Ok r' /\ GInv g r' /\ (abs r' = abs r \/ exists j, dag_step g j (abs r) = Some (Ok (abs r'))).
Proof.
  intros HI Hx. destruct y as [i|e]; [|destruct (group_event_ginv r e x HI Hx) as (s' & -> & _ & H); by eexists].
  cbn [group_step] in Hx. destruct (tasks r !! i) as [[m p]|] eqn:Hi; [|done]. cbn [mbind option_bind place who] in Hx.
  destruct p as [v|v|v rest t|v t idx rest|v].
  1-3: match type of Hx with context [invoke_step g ?p ?a ?b ?c] => destruct (invoke_step g p a b c) as [z|] eqn:E end; [|done];
    destruct (invoke_ginv r i _ z HI Hi E) as (p' & cs & st & fin & j & -> & H1 & H2); injection Hx as <-; eexists; split; [done|]; eauto.
  - destruct (spawn_ginv r i m v t idx rest HI Hi) as (Ha & H1 & H2). rewrite Ha in Hx. injection Hx as <-. eexists. split; [done|]. eauto.
  - destruct m as [d|].
    + destruct (doers (group r) !! d) as [p|] eqn:Hd; [|done]. destruct p as [| | | | | |b]; try done.
      * destruct (call_ginv r i d v HI Hi Hd) as (s' & E & H1 & H2). rewrite E in Hx. injection Hx as <-. eexists. split; [done|]. auto.
      * injection Hx as <-. destruct (end_ginv r i d v b HI Hi Hd) as [H1 H2]. eexists. split; [done|]. auto.
    + case_bool_decide as Hw; [|done]. injection Hx as <-. destruct (return_ginv r i v HI Hi Hw) as [H1 H2].
      eexists. split; [done|]. auto.
Qed.

Lemma group_reach_ginv fiber r : group_reach fiber g r -> GInv g r.
Proof.
  induction 1 as [|r y r' _ IH E]; [by apply start_ginv|].
  destruct (group_step_ginv r y _ IH E) as (r1 & [= <-] & H & _). done.
Qed.

(** ** The run comes to its end *)
Definition spurious (y : GStep) : bool := match y with GGroup (ESpurious _) => true | _ => false end.

Definition group_work (r : GroupRun) : nat := 2 * measure g (abs r) + wg_work (group r) + length (tasks r).

Lemma abs_measure r r' :
  GInv g r -> (abs r' = abs r \/ exists j, dag_step g j (abs r) = Some (Ok (abs r'))) ->
  measure g (abs r') <= measure g (abs r).
Proof.
  intros HI [->|[j Hj]]; [done|]. pose proof (dag_step_measure g j _ _ (abs_inv r HI) Hj). lia.
Qed.

Lemma delete_length {A} (l : list A) i a : l !! i = Some a -> length l = S (length (delete i l)).
Proof. intros Hi. rewrite length_delete by eauto. pose proof (lookup_lt_Some _ _ _ Hi). lia. Qed.

Lemma group_step_work r y r' :
  GInv g r -> spurious y = false -> group_step g y r = Some (Ok r') -> group_work r' < group_work r.
Proof.
  intros HI Hsp Hx. unfold group_work. destruct y as [i|e].
  - cbn [group_step] in Hx. destruct (tasks r !! i) as [[m p]|] eqn:Hi; [|done]. cbn [mbind option_bind place who] in Hx.
    destruct p as [v|v|v rest t|v t idx rest|v].
    1-3: match type of Hx with context [invoke_step g ?p ?a ?b ?c] => destruct (invoke_step g p a b c) as [z|] eqn:E end; [|done];
      destruct (invoke_ginv r i _ z HI Hi E) as (p' & cs & st & fin & j & -> & H1 & H2); injection Hx as <-;
      pose proof (dag_step_measure g j _ _ (abs_inv r HI) H2); cbn [group tasks who] in *; rewrite length_insert; lia.
    + destruct (spawn_ginv r i m v t idx rest HI Hi) as (Ha & H1 & j & H2). rewrite Ha in Hx. injection Hx as <-. fold (spawned r i m v t idx rest).
      pose proof (dag_step_measure g j _ _ (abs_inv r HI) H2). cbn [group tasks spawned]. rewrite length_app, length_insert.
      change (wg_work (added (group r))) with (wg_work (group r)). simpl. lia.
    + destruct m as [d|].
      * destruct (doers (group r) !! d) as [p|] eqn:Hd; [|done]. destruct p as [| | | | | |b]; try done.
        -- destruct (call_ginv r i d v HI Hi Hd) as (s' & E & H1 & H2). rewrite E in Hx. injection Hx as <-.
           fold (with_group s' r). rewrite H2. pose proof (wg_call_work d _ _ E). cbn [group tasks with_group]. lia.
        -- injection Hx as <-. destruct (end_ginv r i d v b HI Hi Hd) as [H1 H2]. rewrite H2. cbn [group tasks].
           pose proof (delete_length _ _ _ Hi). lia.
      * case_bool_decide as Hw; [|done]. injection Hx as <-. destruct (return_ginv r i v HI Hi Hw) as (H1 & j & H2).
        pose proof (dag_step_measure g j _ _ (abs_inv r HI) H2). cbn [group tasks]. pose proof (delete_length _ _ _ Hi). lia.
  - destruct (group_event_ginv r e _ HI Hx) as (s' & [= ->] & E & H1 & H2). pose proof (abs_measure r _ HI H2).
    destruct (g_waiter g r HI) as [w Ew].
    assert (internal e = true) as Hint by (destruct e; try done; cbn in Hx; done).
    destruct (internal_step e _ _ w Hint Ew E) as (Hlt & _). cbn [group tasks with_group] in *. lia.
Qed.

(** A wait group whose count is zero can go on until its waiter is released. *)
Lemma group_progress s w :
  Inv s -> waiters s = [w] -> count s = 0%Z -> wpc w <> WReturn ->
  exists e s', internal e = true /\ wg_step e s = Some (Ok s').
Proof.
  intros HI Ew Hz Hne.
  assert (forall d p, doers s !! d = Some p -> passed p = true -> ddone p = false -> (p = DLock -> mutex s = None) ->
    exists e s', internal e = true /\ wg_step e s = Some (Ok s')) as Hgo.
  { intros d p Hd Hp Hdd Hl. exists (EDone d). cbn [wg_step]. unfold done_step. rewrite Hd. cbn [mbind option_bind].
    destruct p; try done; eauto. rewrite bool_decide_eq_true_2 by auto. eauto. }
  destruct (decide (Exists (fun p => p ∈ [DLock; DNotify; DUnlock]) (doers s))) as [(p & [d Hd]%list_elem_of_lookup_1 & Hin)%Exists_exists|Hno].
  - destruct (mutex s) as [[n|d']|] eqn:Hm.
    + pose proof (i_who s HI) as Hwho. rewrite Hm in Hwho. destruct Hwho as [u Hu].
      assert (holding (wpc u) = true) as Hh by (by apply (i_waiter s HI n u Hu)). exists (EWait n). cbn [wg_step].
      unfold wait_step. rewrite Hu. cbn [mbind option_bind]. destruct (wpc u); try done; try destruct (pred s); eauto.
    + pose proof (i_who s HI) as Hwho. rewrite Hm in Hwho. destruct Hwho as [q Hq].
      assert (dholding q = true) as Hh by (by apply (i_doer s HI d' q Hq)). apply (Hgo d' q Hq); by destruct q.
    + rewrite !elem_of_cons, elem_of_nil in Hin. destruct Hin as [->|[->|[->|[]]]]; by apply (Hgo d _ Hd).
  - assert (settled s) as Hs.
    { split; [done|]. intros d p Hp. destruct (decide (p = DIdle)) as [|Hi]; [by left|right].
      assert (dpending p = false) as Hdp.
      { destruct (i_count s HI) as (Hc & Hcr & _). eapply (cnt_zero dpending); [exact Hp|].
        pose proof (cnt_nonneg dpending (doers s)). lia. }
      destruct p as [| | | | | |b]; try done; [..|by exists b]; exfalso; apply Hno;
        apply Exists_exists; eexists; (split; [by eapply list_elem_of_lookup_2|set_solver]). }
    destruct (settled_progress s 0 w HI Hs) as (k & s' & E); [by rewrite Ew|done|].
    exists (EWait k), s'. cbn [wg_step]. by rewrite E.
Qed.

(** An activation that is not at its end can go on. *)
Lemma task_enabled r i a :
  GInv g r -> tasks r !! i = Some a -> is_leave (place a) = false -> exists r', group_step g (GTask i) r = Some (Ok r').
Proof.
  intros HI Hi Hl. destruct (group_step g (GTask i) r) as [x|] eqn:E.
  - destruct (group_step_ginv r _ x HI E) as (r' & -> & _). eauto.
  - exfalso. cbn [group_step] in E. rewrite Hi in E. cbn [mbind option_bind] in E. destruct a as [m p]. cbn [place who] in *.
    destruct p as [v|v|v [|idx rest] [t|]|v t idx rest|v]; try done.
    destruct (spawn_ginv r i m v t idx rest HI Hi) as (Ha & _). by rewrite Ha in E.
Qed.

Lemma cnt_pos {A} (f : A -> bool) l : (0 < cnt f l)%Z -> exists i a, l !! i = Some a /\ f a = true.
Proof.
  induction l as [|x l IH]; simpl; [lia|]. destruct (f x) eqn:Hf; [intros _; by exists 0, x|].
  intros H. destruct IH as (i & a & Hi & Ha); [simpl in H; lia|]. by exists (S i), a.
Qed.

Lemma main_task r : GInv g r -> over_ r = false -> exists i p, tasks r !! i = Some (mkTask None p).
Proof.
  intros HI Ho. pose proof (d_main _ _ _ _ _ _ _ (abs_inv r HI)) as Hm. cbn [returned abs] in Hm. rewrite Ho in Hm.
  destruct (filter_pos_Some (fun a => main a = true) (acts (abs r))) as (j & b & Hj & Hb); [unfold mains in Hm; lia|].
  cbn [acts abs] in Hj. unfold abs_tasks in Hj. rewrite list_lookup_fmap in Hj.
  destruct (filter _ _ !! j) as [[m p]|] eqn:Ef; [|done]. injection Hj as <-. cbn in Hb. apply bool_decide_eq_true in Hb as ->.
  apply list_elem_of_lookup_2, list_elem_of_filter in Ef as [_ [i Hi]%list_elem_of_lookup_1]. eauto.
Qed.

Lemma group_run_progress r :
  GInv g r -> over_ r = false -> exists y r', spurious y = false /\ group_step g y r = Some (Ok r').
Proof.
  intros HI Ho. destruct (main_task r HI Ho) as (i & p & Hi).
  assert (forall k a, tasks r !! k = Some a -> is_leave (place a) = false -> exists y r', spurious y = false /\ group_step g y r = Some (Ok r')) as Hrun.
  { intros k a Hk Hl. destruct (task_enabled r k a HI Hk Hl) as [r' Hr']. by exists (GTask k), r'. }
  destruct (is_leave p) eqn:Hl; [|by apply (Hrun i _ Hi)]. destruct p as [| | | |v]; try done.
  pose proof (wg_reach_inv _ (g_group g r HI)) as HW. destruct (g_waiter g r HI) as [w Ew].
  destruct (decide (0 < credits (group r))%Z) as [Hcr|Hcr].
  { rewrite (g_credits g r HI) in Hcr. apply cnt_pos in Hcr as (k & [[d|] q] & Hk & Hid); [|done].
    destruct (is_leave q) eqn:Hlq; [|by apply (Hrun k _ Hk)]. destruct q as [| | | |u]; try done.
    unfold idle in Hid. cbn in Hid. apply bool_decide_eq_true in Hid.
    destruct (call_ginv r k d u HI Hk Hid) as (s' & E & _). exists (GTask k). eexists. split; [done|].
    cbn [group_step]. rewrite Hk. cbn [mbind option_bind place who]. rewrite Hid, E. done. }
  destruct (decide (0 < cnt dpending (doers (group r)))%Z) as [(d & q & Hd & Hq)%cnt_pos|Hpe].
  { destruct (group_step g (GGroup (EDone d)) r) as [x|] eqn:E.
    - destruct (group_step_ginv r _ x HI E) as (r' & -> & _). by exists (GGroup (EDone d)), r'.
    - exfalso. cbn [group_step wg_step] in E. unfold done_step in E. rewrite Hd in E. by destruct q. }
  assert (count (group r) = 0%Z) as Hz.
  { destruct (i_count _ HW) as (-> & ? & _). pose proof (cnt_nonneg dpending (doers (group r))). lia. }
  destruct (decide (wpc w = WReturn)) as [Hw|Hw].
  - exists (GTask i). eexists. split; [done|]. cbn [group_step]. rewrite Hi. cbn [mbind option_bind place who].
    unfold waiter_pc. rewrite Ew. cbn. rewrite Hw. by rewrite bool_decide_eq_true_2.
  - destruct (group_progress (group r) w HW Ew Hz Hw) as (e & s' & Hint & E). exists (GGroup e). eexists.
    split; [by destruct e|]. cbn [group_step]. rewrite E. destruct e as [n|d| | |]; try done.
    assert (existsb in_wait (tasks r) = true) as Hex by (apply existsb_lookup; by exists i, (mkTask None (Leave v))).
    rewrite Hex. destruct n as [|n]; [done|]. cbn [wg_step] in E. unfold wait_step in E. by rewrite Ew in E.
Qed.
End steps.

(** C15. [DAG::run] on a well-formed graph, with the wait group it really uses and
    in every interleaving of its tasks, their calls of [done()], the caller's wait
    and wake-ups for no reason: every step succeeds and is a step of the abstract
    run of Dag.v or invisible there, so that nodes run once and in order; each step
    but the wake-ups brings the run nearer to its end, and until [run] has
    returned one is possible, so it returns; and when it has, every node has been
    run and a task that is still there is inside [done()], behind its use of the
    run context that [run] is about to destroy. *)
Theorem dag_run_on_wait_group fiber g r :
  GraphWf g -> group_reach fiber g r ->
  (exists n, dag_reach g n (abs r)) /\
  (forall y x, group_step g y r = Some x ->
     exists r', x = Ok r' /\ (abs r' = abs r \/ exists j, dag_step g j (abs r) = Some (Ok (abs r')))) /\
  (forall y r', spurious y = false -> group_step g y r = Some (Ok r') -> group_work g r' < group_work g r) /\
  (over_ r = false -> exists y r', spurious y = false /\ group_step g y r = Some (Ok r')) /\
  (over_ r = true ->
     ended r ≡ₚ seq 0 (length (nodes g)) /\
     forall i a, tasks r !! i = Some a ->
       exists d p, who a = Some d /\ doers (group r) !! d = Some p /\ passed p = true).
Proof.
  intros Hg Hr. pose proof (group_reach_ginv g Hg fiber r Hr) as HI. destruct (g_dag g r HI) as [n Hn]. split_and!.
  - by exists n.
  - intros y x Hx. destruct (group_step_ginv g Hg r y x HI Hx) as (r' & -> & _ & H). eauto.
  - intros y r'. by apply group_step_work.
  - by apply group_run_progress.
  - intros Ho. split; [by apply (returned_all_finished g n (abs r) Hg Hn)|].
    pose proof (returned_no_acts g n (abs r) Hg Hn Ho) as Ha. cbn [acts abs] in Ha. unfold abs_tasks in Ha.
    apply fmap_nil_inv in Ha. intros i a Hi.
    assert (counts (group r) a = false) as Hc.
    { destruct (counts (group r) a) eqn:E; [|done]. exfalso. apply (elem_of_nil a). rewrite <- Ha.
      apply list_elem_of_filter. split; [done|by eapply list_elem_of_lookup_2]. }
    unfold counts in Hc. destruct (who a) as [d|]; [|done]. destruct (doers (group r) !! d) as [p|] eqn:Hd; [|done].
    exists d, p. split_and!; [done|done|by destruct (passed p)].
Qed.

(** The diamond of DagProps.v, run on a fiber until it returns. *)
Fixpoint group_exec (g : DAG) (ys : list GStep) (r : GroupRun) : option GroupRun :=
  match ys with
  | [] => Some r
  | y :: ys => match group_step g y r with Some (Ok r') => group_exec g ys r' | _ => None end
  end.

Lemma group_exec_reach fiber g ys r r' : group_reach fiber g r -> group_exec g ys r = Some r' -> group_reach fiber g r'.
Proof.
  revert r. induction ys as [|y ys IH]; cbn; intros r Hr H; [by simplify_eq|].
  destruct (group_step g y r) as [[r1| |]|] eqn:E; try done. apply (IH r1); [|done]. by eapply group_reach_step.
Qed.

(** The task ends its call of [done()] only after [run] has returned. *)
Definition diamond_steps : list GStep :=
  replicate 10 (GTask 0) ++ replicate 8 (GTask 1) ++ [GGroup (EDone 1); GGroup (EDone 1); GGroup (EWait 0); GGroup (EWait 0); GTask 0].

Lemma dag_run_on_wait_group_witness :
  exists r, group_exec diamond_dag diamond_steps (DAG_run true diamond_dag) = Some r /\ length (tasks r) = 1 /\
    ended r ≡ₚ seq 0 4 /\ forall i a, tasks r !! i = Some a ->
      exists d p, who a = Some d /\ doers (group r) !! d = Some p /\ passed p = true.
Proof.
  destruct (group_exec diamond_dag diamond_steps (DAG_run true diamond_dag)) as [r|] eqn:E; [|vm_compute in E; discriminate].
  exists r. split; [reflexivity|].
  assert (length (tasks r) = 1 /\ over_ r = true) as [Hl Ho] by (vm_compute in E; injection E as <-; split; reflexivity).
  split; [exact Hl|].
  apply (dag_run_on_wait_group true diamond_dag r diamond_dag_wf
    (group_exec_reach true diamond_dag _ _ _ (group_start true diamond_dag) E)). exact Ho.
Defined.
