(* ===== verification/BlockingCall.v ===== *)
(** [marl::blocking_call] (src/include/marl/blocking_call.hpp): a function runs
    on a new thread, bound to the caller's scheduler if there is one, while the
    caller waits with a [WaitGroup] and then joins the thread.

    [OnNewThread<ReturnType>] and [OnNewThread<void>] differ in the result only;
    the second is the first with [unit] as type. *)
From stdpp Require Import base numbers strings relations list.
From S2P Require Import Prelude WaitGroup Parallel.

Local Open Scope Z_scope.

(** The new thread: [scheduler->bind()], [result = f(args...)],
    [Scheduler::unbind()] and the call of [wg.done()], its steps, the end. *)
Inductive TPc := TBind | TCall | TUnbind | TDone | TExit.

(** The caller: [wg.wait()], [thread.join()], [return result]. *)
Inductive CallerPc (A : Type) := BWait | BJoin | BReturn (a : A).
Arguments BWait {A}.
Arguments BJoin {A}.
Arguments BReturn {A} a.

Record Call (A : Type) := mkCall {
  caller : CallerPc A;
  thread : TPc;
  thread_bound : bool;           (* Scheduler::bound of the new thread *)
  result : option A;             (* result, unset before the assignment *)
  call_wg : State
}.
Arguments mkCall {A} _ _ _ _ _.
Arguments caller {A} _.
Arguments thread {A} _.
Arguments thread_bound {A} _.
Arguments result {A} _.
Arguments call_wg {A} _.

Inductive BStep := BMain | BThread | BWg (e : Event).

Section blocking_call.
Context {A : Type} (value : A).     (* what f(args...) returns *)
Context (scheduler : bool).         (* Scheduler::get() of the caller is not null *)

(** [WaitGroup wg(1)]; the caller is in a fiber where a scheduler is bound. *)
Definition blocking_call : Call A :=
  mkCall BWait TBind false None (wg_new 1 [scheduler] 1).

Definition thread_step (c : Call A) : option (Result (Call A)) :=
  match thread c with
  | TBind =>
      Some (if scheduler
            then _ ← MARL_ASSERT (negb (thread_bound c)) "Scheduler already bound";
                 Ok (mkCall (caller c) TCall true (result c) (call_wg c))
            else Ok (mkCall (caller c) TCall (thread_bound c) (result c) (call_wg c)))
  | TCall => Some (Ok (mkCall (caller c) TUnbind (thread_bound c) (Some value) (call_wg c)))
  | TUnbind =>
      r ← wg_step (ECall 0) (call_wg c);
      Some (_ ← (if scheduler then MARL_ASSERT (thread_bound c) "No scheduler bound" else Ok ());
            s ← r;
            Ok (mkCall (caller c) TDone (if scheduler then false else thread_bound c) (result c) s))
  | TDone =>
      match doers (call_wg c) !! 0%nat with
      | Some (DDone _) => Some (Ok (mkCall (caller c) TExit (thread_bound c) (result c) (call_wg c)))
      | _ => None
      end
  | TExit => None
  end.

Definition caller_step (c : Call A) : option (Result (Call A)) :=
  match caller c with
  | BWait =>
      if bool_decide (waiter_pc (call_wg c) = Some WReturn)
      then Some (Ok (mkCall BJoin (thread c) (thread_bound c) (result c) (call_wg c))) else None
  | BJoin =>
      match thread c with
      | TExit =>
          Some (a ← deref (result c) "result read before it was set";
                Ok (mkCall (BReturn a) (thread c) (thread_bound c) (result c) (call_wg c)))
      | _ => None
      end
  | BReturn _ => None
  end.

Definition call_step (y : BStep) (c : Call A) : option (Result (Call A)) :=
  match y with
  | BMain => caller_step c
  | BThread => thread_step c
  | BWg e =>
      match e with
      | EAdd _ | ECall _ => None
      | _ => r ← wg_step e (call_wg c);
             Some (s ← r; Ok (mkCall (caller c) (thread c) (thread_bound c) (result c) s))
      end
  end.

Inductive call_reach : Call A -> Prop :=
| call_start : call_reach blocking_call
| call_reach_step c y c' : call_reach c -> call_step y c = Some (Ok c') -> call_reach c'.

(** ** The invariant *)
Definition before_done (t : TPc) : bool := match t with TBind | TCall | TUnbind => true | _ => false end.
Definition inside (t : TPc) : bool := match t with TCall | TUnbind => true | _ => false end.
Definition has_result (t : TPc) : bool := match t with TUnbind | TDone | TExit => true | _ => false end.

Record CInv (c : Call A) : Prop := {
  b_wg : wg_reach (call_wg c);
  b_one : exists w, waiters (call_wg c) = [w];
  b_grown : grown (call_wg c) = false;
  b_doer : exists d, doers (call_wg c) = [d] /\ (d = DIdle <-> before_done (thread c) = true) /\
             (thread c = TExit -> ddone d = true);
  b_credits : credits (call_wg c) = b2z (before_done (thread c));
  b_bound : thread_bound c = scheduler && inside (thread c);
  b_result : result c = if has_result (thread c) then Some value else None;
  b_caller : caller c <> BWait -> waiter_pc (call_wg c) = Some WReturn;
  b_return a : caller c = BReturn a -> thread c = TExit /\ a = value
}.

Lemma blocking_call_inv : CInv blocking_call.
Proof.
  split; simpl; try done.
  - apply wg_start. lia.
  - eauto.
  - by exists DIdle.
  - by destruct scheduler.
Qed.

Lemma call_thread_inv c r : CInv c -> thread_step c = Some r -> exists c', r = Ok c' /\ CInv c'.
Proof.
  intros HI. destruct (b_doer c HI) as (d & Hd & Hidle & Hexit). pose proof (b_bound c HI) as Hb.
  assert (forall a, caller c = BReturn a -> thread c = TExit) as Hne by (intros a Ha; by apply (b_return c HI a)).
  unfold thread_step. destruct (thread c) eqn:Ht; simpl in Hb, Hidle, Hexit.
  - intros E. exists (mkCall (caller c) TCall scheduler (result c) (call_wg c)). split.
    { destruct scheduler; simpl in Hb; rewrite Hb in E; simpl in E; congruence. }
    split; simpl; try apply HI; rewrite ?(b_credits c HI), ?(b_result c HI), ?Ht; try done; [by exists d|..].
    all: solve [by rewrite andb_true_r | intros a Ha; by specialize (Hne a Ha)].
  - intros [= <-]. eexists. split; [done|].
    split; simpl; try apply HI; rewrite ?(b_credits c HI), ?(b_result c HI), ?Ht; try done; [by exists d|..].
    all: solve [done | intros a Ha; by specialize (Hne a Ha)].
  - destruct (wg_step (ECall 0) (call_wg c)) as [r'|] eqn:E; [|done]. cbn [mbind option_bind].
    destruct (wg_step_inv _ _ _ (wg_reach_inv _ (b_wg c HI)) E) as (s' & -> & _).
    destruct (wg_call 0 _ _ E) as (_ & Ed & Ew & Ec & Eg).
    intros [= <-]. exists (mkCall (caller c) TDone false (result c) s'). split.
    { rewrite Hb. destruct scheduler; done. }
    split; simpl; rewrite ?Ew, ?Eg, ?Ec, ?(b_credits c HI), ?(b_result c HI), ?Ht; try apply HI; try done.
    + by eapply wg_reach_step; [apply HI|].
    + exists DAssert. by rewrite Ed, Hd.
    + by rewrite andb_false_r.
    + intros Hc. unfold waiter_pc. rewrite Ew. by apply (b_caller c HI).
    + intros a Ha. by specialize (Hne a Ha).
  - rewrite Hd. simpl. destruct d as [| | | | | |b]; try done. intros [= <-]. eexists. split; [done|].
    split; simpl; try apply HI; rewrite ?(b_credits c HI), ?(b_result c HI), ?Ht; try done; [by exists (DDone b)|..].
    all: solve [done | intros a Ha; by specialize (Hne a Ha)].
  - done.
Qed.

Lemma call_caller_inv c r : CInv c -> caller_step c = Some r -> exists c', r = Ok c' /\ CInv c'.
Proof.
  intros HI. unfold caller_step. destruct (caller c) eqn:Hc; [| |done].
  - case_bool_decide as Hw; [|done]. intros [= <-]. eexists. split; [done|]. split; simpl; try apply HI; done.
  - destruct (thread c) eqn:Ht; try done. intros [= <-]. rewrite (b_result c HI), Ht. simpl. eexists. split; [done|].
    pose proof (b_doer c HI) as Hd. pose proof (b_credits c HI) as Hcr. pose proof (b_bound c HI) as Hb.
    rewrite Ht in Hd, Hcr, Hb.
    split; simpl; rewrite ?Ht; try done.
    all: try solve [apply HI | by intros a [= <-]].
    intros _. apply (b_caller c HI). by rewrite Hc.
Qed.

Lemma call_step_inv c y r : CInv c -> call_step y c = Some r -> exists c', r = Ok c' /\ CInv c'.
Proof.
  intros HI. destruct y as [| |e]; [by apply call_caller_inv|by apply call_thread_inv|]. cbn [call_step].
  destruct (b_one c HI) as [w Hw].
  assert (forall r0, wg_step e (call_wg c) = Some r0 -> (internal e = true \/ exists k, e = ESpurious k) ->
    exists c', (s ← r0; Ok (mkCall (caller c) (thread c) (thread_bound c) (result c) s)) = Ok c' /\ CInv c') as Hgo.
  { intros r0 E He. destruct (wg_step_inv _ _ _ (wg_reach_inv _ (b_wg c HI)) E) as (s' & -> & _).
    eexists. split; [done|]. destruct (client_step e (call_wg c) s' w Hw He E) as (H1 & H2 & H3 & H4 & H5).
    split; simpl; rewrite ?H4, ?H5; try apply HI; try done.
    - by eapply wg_reach_step; [apply HI|].
    - destruct (b_doer c HI) as (d & Hd & Hidle & Hexit). rewrite Hd in H2, H3.
      destruct (doers s') as [|q [|]] eqn:Eq; try done. destruct (H3 0%nat q eq_refl) as (p0 & [= <-] & Hl1 & Hl2).
      exists q. rewrite Hl1. split_and!; try done; apply Hidle || auto.
    - intros Hc. pose proof (b_caller c HI Hc) as Hr. unfold waiter_pc in *. rewrite Hw in Hr. simpl in Hr. injection Hr as Hr.
      rewrite (returned_stays e (call_wg c) s' w); try done; [simpl; by rewrite Hr|apply HI]. }
  destruct e as [k|d|k|k|d]; try done;
    (destruct (wg_step _ (call_wg c)) as [r0|] eqn:E; [|done]); cbn [mbind option_bind]; intros [= <-]; apply Hgo; eauto.
Qed.

Lemma call_reach_inv c : call_reach c -> CInv c.
Proof.
  induction 1 as [|c y c' _ IH E]; [apply blocking_call_inv|].
  destruct (call_step_inv c y _ IH E) as (c1 & [= <-] & ?). done.
Qed.

(** ** Termination *)
Definition trank (t : TPc) : nat := match t with TBind => 4 | TCall => 3 | TUnbind => 2 | TDone => 1 | TExit => 0 end.
Definition crank (p : CallerPc A) : nat := match p with BWait => 2 | BJoin => 1 | BReturn _ => 0 end.
Definition call_work (c : Call A) : nat := trank (thread c) + crank (caller c) + wg_work (call_wg c).

(** Every step but a wake-up for no reason. *)
Definition call_moves (c c' : Call A) : Prop :=
  exists y, call_step y c = Some (Ok c') /\ match y with BWg (ESpurious _) => False | _ => True end.

Lemma call_moves_work c c' : CInv c -> call_moves c c' -> (call_work c' < call_work c)%nat.
Proof.
  intros HI (y & E & Hy). destruct (b_one c HI) as [w Hw]. unfold call_work.
  destruct y as [| |e]; cbn [call_step] in E.
  - unfold caller_step in E. destruct (caller c) eqn:Hc; [| |done].
    + case_bool_decide; [|done]. injection E as <-. simpl. lia.
    + destruct (thread c) eqn:Ht; try done. rewrite (b_result c HI), Ht in E. injection E as <-. simpl. lia.
  - unfold thread_step in E. destruct (thread c) eqn:Ht; [..|done].
    + unfold MARL_ASSERT in E. repeat case_match; simplify_eq/=; lia.
    + injection E as <-. simpl. lia.
    + destruct (wg_step (ECall 0) (call_wg c)) as [r|] eqn:Ec; [|done]. cbn [mbind option_bind] in E. injection E as E.
      inv_ok E. inv_ok E. injection E as <-. subst r. pose proof (wg_call_work 0 _ _ Ec). simpl. lia.
    + repeat case_match; simplify_eq/=; lia.
  - assert (forall s', internal e = true -> wg_step e (call_wg c) = Some (Ok s') -> (wg_work s' < wg_work (call_wg c))%nat) as Hgo.
    { intros s' He Hs. by apply (internal_step e (call_wg c) s' w). }
    destruct e as [k|d|k|k|d]; try done;
      (destruct (wg_step _ (call_wg c)) as [[s'| |]|] eqn:Es; simplify_eq/=); specialize (Hgo s' eq_refl eq_refl); lia.
Qed.

Lemma call_moved c y : CInv c -> is_Some (call_step y c) ->
  match y with BWg (ESpurious _) => False | _ => True end -> exists c', call_moves c c'.
Proof.
  intros HI [r E] Hy. destruct (call_step_inv c y r HI E) as (c' & -> & _). exists c', y. done.
Qed.

Lemma call_progress c : CInv c -> (forall a, caller c <> BReturn a) -> exists c', call_moves c c'.
Proof.
  intros HI Hret. destruct (b_one c HI) as [w Hw]. destruct (b_doer c HI) as (d & Hd & Hidle & Hexit).
  destruct (before_done (thread c)) eqn:Hbd.
  { apply (call_moved c BThread HI); [|done]. cbn [call_step]. unfold thread_step. destruct (thread c) eqn:Ht; try done.
    cbn [wg_step]. rewrite Hd, (b_credits c HI), Ht. assert (d = DIdle) as -> by (by apply Hidle). done. }
  assert (forall e s', internal e = true -> wg_step e (call_wg c) = Some (Ok s') -> exists c', call_moves c c') as Hwg.
  { intros e s' He E. apply (call_moved c (BWg e) HI); [|by destruct e]. cbn [call_step]. destruct e; try done; rewrite E; by eexists. }
  assert (d <> DIdle) as Hnd by (intros ->; specialize (proj1 Hidle eq_refl); done).
  destruct (decide (wpc w = WReturn)) as [Hr|Hr].
  - destruct (caller c) as [| |a] eqn:Hc; [| |by destruct (Hret a)].
    + apply (call_moved c BMain HI); [|done]. cbn [call_step]. unfold caller_step. rewrite Hc.
      rewrite bool_decide_eq_true_2 by (unfold waiter_pc; rewrite Hw; simpl; by rewrite Hr). by eexists.
    + destruct (thread c) eqn:Ht; try done; cycle 1.
      { apply (call_moved c BMain HI); [|done]. cbn [call_step]. unfold caller_step. rewrite Hc, Ht. by eexists. }
      destruct (ddone d) eqn:Hdd.
      { apply (call_moved c BThread HI); [|done]. cbn [call_step]. unfold thread_step. rewrite Ht, Hd. simpl.
        by destruct d. }
      assert (mutex (call_wg c) = None \/ dholding d = true) as Hfree.
      { pose proof (wg_reach_inv _ (b_wg c HI)) as HW. pose proof (i_who _ HW) as Hwho.
        destruct (mutex (call_wg c)) as [[n|k]|] eqn:Hm; [..|by left].
        - rewrite Hw in Hwho. destruct n as [|n]; [|by destruct Hwho]. exfalso.
          pose proof (proj2 (i_waiter _ HW 0%nat w ltac:(by rewrite Hw)) Hm) as Hh. by rewrite Hr in Hh.
        - rewrite Hd in Hwho. destruct k as [|k]; [|by destruct Hwho]. right. by apply (i_doer _ HW 0%nat d); [rewrite Hd|]. }
      destruct (done_step 0 (call_wg c)) as [r|] eqn:E.
      { destruct (done_step_inv _ 0 r (wg_reach_inv _ (b_wg c HI)) E) as (s' & -> & _). by apply (Hwg (EDone 0) s'). }
      exfalso. unfold done_step in E. rewrite Hd in E. cbn [lookup list_lookup mbind option_bind] in E.
      destruct d; try done. destruct Hfree as [Hf|?]; [|done]. by rewrite bool_decide_eq_true_2 in E.
  - destruct (wg_progress (call_wg c) w) as (e & s' & He & E); try done; [apply HI| | |by apply (Hwg e s')].
    + by rewrite (b_credits c HI), Hbd.
    + intros i q. rewrite Hd. destruct i; simpl; [by intros [= <-]|done].
Qed.

(** C25. [blocking_call(f, args...)]: no assertion fails; when it returns, it
    returns what [f(args...)] returned, the new thread is joined and no longer
    bound to the scheduler; and it does return: it takes at most [call_work]
    steps and can always make one until it has returned. *)
Theorem blocking_call_returns c :
  call_reach c ->
  (forall y, match call_step y c with Some (Fatal _) | Some (Undefined _) => False | _ => True end) /\
  (forall a, caller c = BReturn a -> a = value /\ thread c = TExit /\ thread_bound c = false) /\
  ((forall a, caller c <> BReturn a) -> exists c', call_moves c c') /\
  (forall c', call_moves c c' -> (call_work c' < call_work c)%nat).
Proof.
  intros Hr. pose proof (call_reach_inv c Hr) as HI. split_and!.
  - intros y. destruct (call_step y c) as [r|] eqn:E; [|done]. by destruct (call_step_inv c y r HI E) as (c' & -> & _).
  - intros a Ha. destruct (b_return c HI a Ha) as [Ht ->]. rewrite (b_bound c HI), Ht, andb_false_r. done.
  - apply (call_progress c HI).
  - intros c'. by apply call_moves_work.
Qed.

Fixpoint call_run (ys : list BStep) (c : Call A) : option (Call A) :=
  match ys with [] => Some c | y :: ys => match call_step y c with Some (Ok c') => call_run ys c' | _ => None end end.

Lemma call_run_reach ys c c' : call_reach c -> call_run ys c = Some c' -> call_reach c'.
Proof.
  revert c. induction ys as [|y ys IH]; simpl; intros c Hr H; [by simplify_eq|].
  destruct (call_step y c) as [[c1| |]|] eqn:E; try done. by eapply IH; [eapply call_reach_step|].
Qed.
End blocking_call.

(** [OnNewThread<void>::call]: there is no result. *)
Definition blocking_call_void (scheduler : bool) : Call unit := blocking_call scheduler.
Definition call_step_void (scheduler : bool) (y : BStep) (c : Call unit) : option (Result (Call unit)) :=
  call_step () scheduler y c.

(** The caller, on a scheduler, sleeps while the thread computes 42. *)
Lemma blocking_call_returns_witness :
  exists c, call_run 42 true (replicate 5 (BWg (EWait 0)) ++ replicate 3 BThread ++ replicate 5 (BWg (EDone 0)) ++
                              [BThread] ++ replicate 4 (BWg (EWait 0)) ++ [BMain; BMain]) (blocking_call true) = Some c /\
    caller c = BReturn 42 /\ thread_bound c = false.
Proof.
  destruct (call_run 42 true _ (blocking_call true)) as [c|] eqn:E; [|vm_compute in E; discriminate].
  exists c. split; [reflexivity|]. assert (caller c = BReturn 42) as Hc by (vm_compute in E; injection E as <-; reflexivity).
  split; [exact Hc|].
  refine (proj2 (proj2 (proj1 (proj2 (blocking_call_returns 42 true c _)) 42 Hc))).
  eapply call_run_reach; [apply call_start|exact E].
Defined.
