(* ===== verification/Finally.v ===== *)
(** [marl::FinallyImpl], [make_finally], [make_shared_finally]
    (src/include/marl/finally.hpp) and [defer] (src/include/marl/defer.hpp):
    functions that are called when an object is destroyed.

    The state has every guard object that was made; an object of
    [make_shared_finally] has as many owners as there are [std::shared_ptr]s to
    it, any other has one.  The functions are opaque values and a call is an
    entry in a log. *)
From stdpp Require Import base numbers strings list.
From S2P Require Import Prelude.

Section finally.
Context {F : Type}.
(** What a move of [func_] leaves behind; left open by the language. *)
Context (moved_from : F -> F).

Record FinallyImpl := mkFinally { func_ : F; valid_ : bool; owners : nat }.

Record State := mkState {
  guards : list FinallyImpl;      (* [owners] is 0 for a destroyed one *)
  calls : list F
}.

Inductive Op :=
| Make (f : F)                    (* FinallyImpl(func), make_finally, make_shared_finally, defer *)
| Move (i : nat)                  (* FinallyImpl(FinallyImpl &&other) *)
| Share (i : nat)                 (* a copy of a shared_ptr *)
| Drop (i : nat).                 (* an owner goes: ~FinallyImpl for the last one *)

(** The destructor. *)
Definition destroy (g : FinallyImpl) (log : list F) : list F := if valid_ g then log ++ [func_ g] else log.

Definition live (s : State) (i : nat) : Result FinallyImpl :=
  g ← deref (guards s !! i) "no such object";
  if bool_decide (owners g = 0) then Undefined "use of a destroyed object" else Ok g.

Definition finally_step (op : Op) (s : State) : Result State :=
  match op with
  | Make f => Ok (mkState (guards s ++ [mkFinally f true 1]) (calls s))
  | Move i =>
      g ← live s i;
      Ok (mkState (<[i := mkFinally (moved_from (func_ g)) false (owners g)]> (guards s)
                     ++ [mkFinally (func_ g) true 1]) (calls s))
  | Share i =>
      g ← live s i;
      Ok (mkState (<[i := mkFinally (func_ g) (valid_ g) (S (owners g))]> (guards s)) (calls s))
  | Drop i =>
      g ← live s i;
      let n := pred (owners g) in
      Ok (mkState (<[i := mkFinally (func_ g) (valid_ g) n]> (guards s))
                  (if bool_decide (n = 0) then destroy g (calls s) else calls s))
  end.

Fixpoint finally_run (ops : list Op) (s : State) : Result State :=
  match ops with [] => Ok s | op :: ops => s' ← finally_step op s; finally_run ops s' end.

Definition nothing : State := mkState [] [].

(** The functions that were handed over. *)
Definition made (ops : list Op) : list F := omap (fun op => match op with Make f => Some f | _ => None end) ops.

(** No object is moved from twice. *)
Definition moves_valid (op : Op) (s : State) : Prop :=
  forall i g, op = Move i -> guards s !! i = Some g -> valid_ g = true.
Fixpoint moves_once (ops : list Op) (s : State) : Prop :=
  match ops with
  | [] => True
  | op :: ops => moves_valid op s /\ forall s', finally_step op s = Ok s' -> moves_once ops s'
  end.

(** ** The functions that are still to be called *)
Definition pending1 (g : FinallyImpl) : list F :=
  if valid_ g && negb (bool_decide (owners g = 0)) then [func_ g] else [].
Definition pending (s : State) : list F := flat_map pending1 (guards s).

Lemma pending_insert (l : list FinallyImpl) i g g' :
  l !! i = Some g -> flat_map pending1 (<[i := g']> l) ++ pending1 g ≡ₚ flat_map pending1 l ++ pending1 g'.
Proof.
  revert i. induction l as [|h l IH]; intros [|i] Hi; simplify_eq/=.
  - solve_Permutation.
  - rewrite <- !app_assoc. by rewrite (IH i Hi).
Qed.

Lemma live_inv s i g : live s i = Ok g -> guards s !! i = Some g /\ owners g <> 0.
Proof.
  unfold live. destruct (guards s !! i) as [h|]; [|done]. cbn [deref mbind result_bind].
  case_bool_decide; [done|]. by intros [= <-].
Qed.

(** Each step moves functions between those made, pending and called. *)
Lemma finally_step_conserves op s s' :
  finally_step op s = Ok s' -> moves_valid op s ->
  calls s' ++ pending s' ≡ₚ made [op] ++ calls s ++ pending s.
Proof.
  unfold pending. destruct op as [f|i|i|i]; cbn [finally_step made omap list_omap app].
  - intros [= <-] _. cbn [calls guards]. rewrite flat_map_app. simpl. rewrite app_assoc, (Permutation_app_comm _ [f]). done.
  - intros E Hm. inv_ok E. destruct (live_inv s i a E0) as [Hi Ho]. injection E as <-. cbn [calls guards].
    pose proof (pending_insert (guards s) i a (mkFinally (moved_from (func_ a)) false (owners a)) Hi) as Hp.
    rewrite flat_map_app. cbn [flat_map]. unfold pending1 in Hp at 2 4 |- * . simpl in *.
    rewrite (Hm i a eq_refl Hi), (bool_decide_eq_false_2 (owners a = 0)) in Hp by done. simpl in Hp.
    rewrite app_nil_r in Hp. by rewrite Hp.
  - intros E Hm. inv_ok E. destruct (live_inv s i a E0) as [Hi Ho]. injection E as <-. cbn [calls guards].
    pose proof (pending_insert (guards s) i a (mkFinally (func_ a) (valid_ a) (S (owners a))) Hi) as Hp.
    unfold pending1 in Hp at 2 4. simpl in Hp. rewrite (bool_decide_eq_false_2 (owners a = 0)) in Hp by done.
    apply Permutation_app_inv_r in Hp. by rewrite Hp.
  - intros E Hm. inv_ok E. destruct (live_inv s i a E0) as [Hi Ho]. injection E as <-. cbn [calls guards].
    pose proof (pending_insert (guards s) i a (mkFinally (func_ a) (valid_ a) (pred (owners a))) Hi) as Hp.
    unfold pending1 in Hp at 2 4. simpl in Hp. rewrite (bool_decide_eq_false_2 (owners a = 0)) in Hp by done.
    unfold destroy. case_bool_decide; simpl in Hp; [|apply Permutation_app_inv_r in Hp; by rewrite Hp].
    rewrite andb_false_r in Hp. destruct (valid_ a); simpl in Hp; rewrite !app_nil_r in Hp; [|by rewrite Hp].
    rewrite <- Hp. solve_Permutation.
Qed.

Lemma finally_run_conserves ops s s' :
  finally_run ops s = Ok s' -> moves_once ops s -> calls s' ++ pending s' ≡ₚ made ops ++ calls s ++ pending s.
Proof.
  revert s. induction ops as [|op ops IH]; cbn [finally_run moves_once]; intros s E Hm; [by injection E as <-|].
  inv_ok E. destruct Hm as [Hv Hm]. rewrite (IH a E (Hm a E0)), (finally_step_conserves op s a E0 Hv).
  change (made (op :: ops)) with (made ([op] ++ ops)). unfold made. rewrite omap_app. solve_Permutation.
Qed.

Lemma pending_none s : (forall i g, guards s !! i = Some g -> owners g = 0) -> pending s = [].
Proof.
  unfold pending. destruct s as [l c]. simpl. induction l as [|g l IH]; [done|]. intros H. simpl.
  rewrite IH by (intros i h Hh; apply (H (S i) h Hh)). unfold pending1.
  rewrite (bool_decide_eq_true_2 (owners g = 0)) by (by apply (H 0 g)). by rewrite andb_false_r.
Qed.

(** Every function handed to [make_finally], [make_shared_finally] or
    [defer] is called exactly once: those called and those whose object still
    has an owner are together the ones that were handed over, and when every
    object is destroyed all have been called.  This needs that no object is
    moved from twice: the moving constructor makes the new object valid even
    when the old one is not, and its function is then called again. *)
Theorem finally_runs_once ops s :
  finally_run ops nothing = Ok s ->
  (moves_once ops nothing ->
     calls s ++ pending s ≡ₚ made ops /\
     ((forall i g, guards s !! i = Some g -> owners g = 0) -> calls s ≡ₚ made ops)) /\
  (forall f, exists s', finally_run [Make f; Move 0; Move 0; Drop 0; Drop 1; Drop 2] nothing = Ok s' /\
     calls s' = [f; moved_from f]).
Proof.
  intros E. split.
  - intros Hm. pose proof (finally_run_conserves ops nothing s E Hm) as Hc. simpl in Hc. rewrite app_nil_r in Hc.
    split; [done|]. intros Hall. by rewrite (pending_none s Hall), app_nil_r in Hc.
  - intros f. eexists. split; reflexivity.
Qed.
End finally.

(** A guard is moved once, another one is shared by two owners. *)
Lemma finally_runs_once_witness :
  exists s, finally_run id [Make 1; Move 0; Drop 0; Make 2; Share 2; Drop 2; Drop 1; Drop 2] nothing = Ok s /\
    calls s = [1; 2] /\ calls s ++ pending s ≡ₚ [1; 2].
Proof.
  eexists. split; [reflexivity|]. split; [reflexivity|].
  refine (proj1 (proj1 (finally_runs_once id [Make 1; Move 0; Drop 0; Make 2; Share 2; Drop 2; Drop 1; Drop 2] _ eq_refl) _)).
  repeat (split; [intros i g Hop Hi; try discriminate Hop; injection Hop as <-; injection Hi as <-; reflexivity|
                  intros s' E; injection E as <-]).
  exact I.
Defined.
