(* ===== verification/Format.v ===== *)
(** Formatted text: the [printf] directives of the code base, and the functions
    that print with them ([marl::fatal], [marl::warn] and the macros over them,
    src/src/debug.cpp and src/include/marl/debug.hpp).

    The formatting functions of the C library are part of the language: a
    directive takes the next argument and asks for its type, and anything else
    (no argument left, an argument of another type, a conversion that does not
    exist, a [%] at the end) is undefined.  The model has the conversions the
    sources use: [%d], [%x], [%s], [%p] and [%%], with a precision. *)
From Stdlib Require Import Ascii.
From stdpp Require Import base numbers strings pretty gmap list.
From S2P Require Import Prelude Worker.
Local Open Scope string_scope.

(** ** Arguments and conversions *)

(** An argument as it is passed: an [int], a C string that is not null, a
    pointer. *)
Inductive Arg := AInt (z : Z) | AStr (s : string) | APtr (p : Z).
Inductive ArgType := TInt | TStr | TPtr.

Definition type_of (a : Arg) : ArgType :=
  match a with AInt _ => TInt | AStr _ => TStr | APtr _ => TPtr end.

Global Instance ArgType_eq_dec : EqDecision ArgType.
Proof. solve_decision. Defined.

Definition hex_digit (n : Z) : Ascii.ascii :=
  default "f"%char (String.get (Z.to_nat n) "0123456789abcdef").

(** Digits of [n] in base 16, in front of [acc]; a 64-bit number has at most 16
    of them. *)
Fixpoint hex_digits (fuel : nat) (n : Z) (acc : string) : string :=
  match fuel with
  | O => acc
  | S fuel =>
      if bool_decide (n <= 0)%Z then acc
      else hex_digits fuel (n / 16)%Z (String (hex_digit (n mod 16)%Z) acc)
  end.

Fixpoint zeros (n : nat) : string :=
  match n with O => "" | S n => String "0" (zeros n) end.

(** A number printed with at least [prec] digits (one, when the precision is
    not given); with precision 0, the number 0 has none. *)
Definition with_precision (prec : option nat) (is_zero : bool) (digits : string) : string :=
  match prec with
  | None => digits
  | Some p => if is_zero && bool_decide (p = 0%nat) then ""
              else zeros (p - String.length digits) +:+ digits
  end.

Definition print_d (prec : option nat) (z : Z) : string :=
  (if bool_decide (z < 0)%Z then "-" else "") +:+ with_precision prec (bool_decide (z = 0)%Z) (pretty (Z.abs z)).

(** [%x] reads its [int] as an [unsigned int]. *)
Definition print_x (prec : option nat) (z : Z) : string :=
  with_precision prec (bool_decide (u32 z = 0)%Z)
    (if bool_decide (u32 z = 0)%Z then "0" else hex_digits 8 (u32 z) "").

Definition print_p (p : Z) : string :=
  if bool_decide (p = 0)%Z then "(nil)" else "0x" +:+ hex_digits 16 (u64 p) "".

Definition print_s (prec : option nat) (s : string) : string :=
  match prec with None => s | Some p => String.substring 0 p s end.

(** The conversion [c] with precision [prec], on the next argument. *)
Definition convert (c : Ascii.ascii) (prec : option nat) (a : Arg) : Result string :=
  match c, a with
  | "d"%char, AInt z => Ok (print_d prec z)
  | "x"%char, AInt z => Ok (print_x prec z)
  | "s"%char, AStr s => Ok (print_s prec s)
  | "p"%char, APtr p => match prec with None => Ok (print_p p) | _ => Undefined "precision of %p" end
  | _, _ => Undefined "conversion specification"
  end.

(** ** Formatting *)

(** Where the reader of the format is: in text, after a [%], or in the digits
    of a precision. *)
Inductive Scan := Text | Directive | Precision (p : nat).

Definition digit (c : Ascii.ascii) : option nat :=
  let n := Ascii.nat_of_ascii c in
  if (48 <=? n)%nat && (n <=? 57)%nat then Some (n - 48)%nat else None.

Fixpoint vformat (st : Scan) (fmt : string) (args : list Arg) : Result string :=
  match fmt with
  | "" => match st with Text => Ok "" | _ => Undefined "incomplete conversion specification" end
  | String c fmt =>
      let conversion prec :=
        match args with
        | [] => Undefined "no argument for a conversion"
        | a :: args => t ← convert c prec a; s ← vformat Text fmt args; Ok (t +:+ s)
        end in
      match st with
      | Text =>
          if bool_decide (c = "%"%char) then vformat Directive fmt args
          else s ← vformat Text fmt args; Ok (String c s)
      | Directive =>
          if bool_decide (c = "%"%char) then s ← vformat Text fmt args; Ok (String "%" s)
          else if bool_decide (c = "."%char) then vformat (Precision 0) fmt args
          else conversion None
      | Precision p =>
          match digit c with
          | Some d => vformat (Precision (10 * p + d)) fmt args
          | None => conversion (Some p)
          end
      end
  end.

Definition vfprintf (fmt : string) (args : list Arg) : Result string := vformat Text fmt args.

(** [vsnprintf]: the string left in the buffer of [size] characters, the last
    of which ends it. *)
Definition vsnprintf (size : nat) (fmt : string) (args : list Arg) : Result string :=
  s ← vformat Text fmt args; Ok (String.substring 0 (size - 1) s).

(** ** debug.cpp and debug.hpp: what reaches [stderr] *)
Definition newline : string := String "010" "".

(** [marl::fatal] prints and aborts; [marl::warn] prints. *)
Definition fatalf {A} (msg : string) (args : list Arg) : Result A :=
  text ← vfprintf msg args; Fatal text.

Definition warn (msg : string) (args : list Arg) : Result string := vfprintf msg args.

Definition MARL_FATAL {A} (msg : string) (args : list Arg) : Result A := fatalf (msg +:+ newline) args.

Definition MARL_ASSERTF (cond : bool) (msg : string) (args : list Arg) : Result unit :=
  if negb cond then MARL_FATAL ("ASSERT: " +:+ msg) args else Ok ().

Definition MARL_UNREACHABLE {A} : Result A := MARL_FATAL "UNREACHABLE" [].

Definition MARL_WARN (msg : string) (args : list Arg) : Result string :=
  warn ("WARNING: " +:+ msg +:+ newline) args.

Definition assert_has_bound_schedulerf (bound : bool) (feature : string) : Result unit :=
  MARL_ASSERTF bound "%s requires a marl::Scheduler to be bound" [AStr feature].

(** ** The messages of the code base that have arguments *)

(** [int(n)] of a [size_t] or an [unsigned int]. *)
Definition int_of (n : Z) : Z :=
  let m := u32 n in if bool_decide (m < 2 ^ 31)%Z then m else (m - 2 ^ 32)%Z.

Definition ASSERT_FIBER_STATE (id : Z) (state expected : State) : Result unit :=
  MARL_ASSERTF (bool_decide (state = expected)) "fiber %d was in state %s, but expected %s"
    [AInt (int_of id); AStr (State_toString state); AStr (State_toString expected)].

Definition allocatePages_check (mapping_failed : bool) (count : Z) : Result unit :=
  MARL_ASSERTF (negb mapping_failed) "Failed to allocate %d pages" [AInt (int_of count)].

Definition freePages_check (res count : Z) : Result unit :=
  MARL_ASSERTF (bool_decide (res = 0)%Z) "Failed to free %d pages" [AInt (int_of count)].

Definition protectPage_check (res addr : Z) : Result unit :=
  MARL_ASSERTF (bool_decide (res = 0)%Z) "Failed to protect page at %p" [APtr addr].

Definition pagedMalloc_check (alignment pageSize : Z) : Result unit :=
  MARL_ASSERTF (bool_decide (alignment < pageSize)%Z)
    "alignment (0x%x) must be less than the page size (0x%x)"
    [AInt (int_of alignment); AInt (int_of pageSize)].

Definition getcontext_check (res : Z) : Result unit :=
  MARL_ASSERTF (bool_decide (res = 0)%Z) "getcontext() returned %d" [AInt res].

Definition swapcontext_check (res : Z) : Result unit :=
  MARL_ASSERTF (bool_decide (res = 0)%Z) "swapcontext() returned %d" [AInt res].

Definition unknown_mode (mode : Z) : Result unit := MARL_ASSERTF false "Unknown mode: %d" [AInt mode].

Definition index_check (i count : Z) : Result unit :=
  MARL_ASSERTF (bool_decide (i < count)%Z) "index %d exceeds vector size %d"
    [AInt (int_of i); AInt (int_of count)].

(** ** When formatting is defined *)

(** The type a conversion asks for, and those a format asks for in order. *)
Definition conversion_type (c : Ascii.ascii) (prec : option nat) : option ArgType :=
  match c, prec with
  | "d"%char, _ | "x"%char, _ => Some TInt
  | "s"%char, _ => Some TStr
  | "p"%char, None => Some TPtr
  | _, _ => None
  end.

Fixpoint directives (st : Scan) (fmt : string) : option (list ArgType) :=
  match fmt with
  | "" => match st with Text => Some [] | _ => None end
  | String c fmt =>
      let conversion prec := t ← conversion_type c prec; ts ← directives Text fmt; Some (t :: ts) in
      match st with
      | Text => directives (if bool_decide (c = "%"%char) then Directive else Text) fmt
      | Directive =>
          if bool_decide (c = "%"%char) then directives Text fmt
          else if bool_decide (c = "."%char) then directives (Precision 0) fmt
          else conversion None
      | Precision p =>
          match digit c with
          | Some d => directives (Precision (10 * p + d)) fmt
          | None => conversion (Some p)
          end
      end
  end.

(** The arguments suffice for the format; more of them do no harm. *)
Definition well_typed (fmt : string) (args : list Arg) : Prop :=
  exists ts, directives Text fmt = Some ts /\ ts `prefix_of` (type_of <$> args).

Lemma convert_type c prec a t :
  conversion_type c prec = Some t -> type_of a = t -> exists s, convert c prec a = Ok s.
Proof.
  intros Hc Ha. destruct c as [[] [] [] [] [] [] [] []]; try discriminate Hc;
    destruct prec, a; simplify_eq/=; eauto.
Qed.

Lemma convert_Ok c prec a s :
  convert c prec a = Ok s -> conversion_type c prec = Some (type_of a).
Proof.
  intros Hc. destruct c as [[] [] [] [] [] [] [] []]; try discriminate Hc;
    destruct prec, a; try discriminate Hc; reflexivity.
Qed.

Lemma bind_is_ok {A B} (r : Result A) (k : A -> Result B) :
  is_ok (r ≫= k) = true <-> exists a, r = Ok a /\ is_ok (k a) = true.
Proof. destruct r; simpl; naive_solver. Qed.

Lemma vformat_ok st fmt args :
  is_ok (vformat st fmt args) = true <->
  exists ts, directives st fmt = Some ts /\ ts `prefix_of` (type_of <$> args).
Proof.
  revert st args. induction fmt as [|c fmt IH]; intros st args.
  { destruct st; simpl; split; try done; [intros _; exists []; split; [done|apply prefix_nil]|naive_solver..]. }
  assert (forall prec,
    is_ok (match args with [] => Undefined "no argument for a conversion"
           | a :: args => t ← convert c prec a; s ← vformat Text fmt args; Ok (t +:+ s) end) = true <->
    exists ts, (t ← conversion_type c prec; ts ← directives Text fmt; Some (t :: ts)) = Some ts /\
      ts `prefix_of` (type_of <$> args)) as Hconv.
  { intros prec. destruct args as [|a args].
    - split; [done|]. intros (ts & Hts & Hp%prefix_nil_inv). subst ts.
      destruct (conversion_type c prec), (directives Text fmt); discriminate Hts.
    - rewrite bind_is_ok. setoid_rewrite bind_is_ok. split.
      + intros (s & Hs & s' & Hs' & _). apply convert_Ok in Hs. rewrite Hs. simpl.
        destruct (proj1 (IH Text args)) as (ts & -> & Hp); [by rewrite Hs'|].
        eexists. split; [done|]. by apply prefix_cons.
      + intros (ts & Hts & Hp). destruct (conversion_type c prec) as [t|] eqn:Ht; [|done].
        destruct (directives Text fmt) as [ts'|] eqn:Hd; [|done]. simplify_eq/=.
        pose proof (prefix_cons_inv_1 _ _ _ _ Hp) as ->. apply prefix_cons_inv_2 in Hp.
        destruct (convert_type c prec a _ Ht eq_refl) as [s Hs].
        destruct (proj1 (is_ok_spec _) (proj2 (IH Text args) ltac:(eauto))) as [s' Hs'].
        eauto 6. }
  assert (forall (f : string -> string) args', is_ok (s ← vformat Text fmt args'; Ok (f s)) = is_ok (vformat Text fmt args')) as Hmap.
  { intros f args'. by destruct (vformat Text fmt args'). }
  destruct st; cbn [vformat directives]; repeat case_bool_decide; rewrite ?Hmap, ?IH; try done.
  destruct (digit c); rewrite ?IH; done.
Qed.

(** ** Text without directives *)
Fixpoint plain (s : string) : bool :=
  match s with "" => true | String c s => negb (bool_decide (c = "%"%char)) && plain s end.

Lemma append_cons c (s t : string) : String c s +:+ t = String c (s +:+ t).
Proof. done. Qed.

Lemma append_empty (s : string) : "" +:+ s = s.
Proof. done. Qed.

Lemma append_nil (s : string) : s +:+ "" = s.
Proof. induction s as [|c s IH]; [done|]. by rewrite ?append_cons, IH. Qed.

Lemma append_assoc (s t u : string) : (s +:+ t) +:+ u = s +:+ t +:+ u.
Proof. induction s as [|c s IH]; [done|]. by rewrite ?append_cons, IH. Qed.

Lemma vformat_text p fmt args :
  plain p = true -> vformat Text (p +:+ fmt) args = (s ← vformat Text fmt args; Ok (p +:+ s)).
Proof.
  induction p as [|c p IH]; intros Hp.
  - change ("" +:+ fmt) with fmt. by destruct (vformat Text fmt args).
  - cbn in Hp. apply andb_true_iff in Hp as [Hc%negb_true_iff Hp]. rewrite append_cons. cbn [vformat].
    rewrite Hc, IH by done. by destruct (vformat Text fmt args).
Qed.

Lemma vformat_plain p args : plain p = true -> vformat Text p args = Ok p.
Proof. intros Hp. rewrite <- (append_nil p) at 1. rewrite vformat_text by done. cbn. by rewrite append_nil. Qed.

(** Text after a format is kept. *)
Lemma vformat_app st fmt p args s :
  plain p = true -> vformat st fmt args = Ok s -> vformat st (fmt +:+ p) args = Ok (s +:+ p).
Proof.
  intros Hp. revert st args s. induction fmt as [|c fmt IH]; intros st args s Hs.
  - destruct st; try discriminate Hs. injection Hs as <-. by apply vformat_plain.
  - assert (forall (f : string -> string) args' s',
      (forall t, f (t +:+ p) = f t +:+ p) -> (t ← vformat Text fmt args'; Ok (f t)) = Ok s' ->
      (t ← vformat Text (fmt +:+ p) args'; Ok (f t)) = Ok (s' +:+ p)) as Hmap.
    { intros f args' s' Hf Ht. inv_ok Ht. rewrite (IH _ _ _ E). simplify_eq/=. by rewrite Hf. }
    rewrite append_cons. cbn [vformat] in *.
    assert (forall prec,
      match args with [] => Undefined "no argument for a conversion"
      | a :: args => t ← convert c prec a; s ← vformat Text fmt args; Ok (t +:+ s) end = Ok s ->
      match args with [] => Undefined "no argument for a conversion"
      | a :: args => t ← convert c prec a; s ← vformat Text (fmt +:+ p) args; Ok (t +:+ s) end = Ok (s +:+ p)) as Hconv.
    { intros prec. destruct args as [|a args]; [done|]. destruct (convert c prec a) as [t| |]; try done.
      apply Hmap. intros u. by rewrite append_assoc. }
    destruct st; repeat case_bool_decide; eauto.
    destruct (digit c); eauto.
Qed.

Lemma convert_not_fatal c prec a m : convert c prec a <> Fatal m.
Proof. destruct c as [[] [] [] [] [] [] [] []], prec, a; discriminate. Qed.

Lemma bind_not_fatal {A B} (r : Result A) (k : A -> Result B) m :
  r <> Fatal m -> (forall a, k a <> Fatal m) -> r ≫= k <> Fatal m.
Proof. destruct r; simpl; try done. congruence. Qed.

Lemma vformat_not_fatal st fmt args m : vformat st fmt args <> Fatal m.
Proof.
  revert st args. induction fmt as [|c fmt IH]; intros st args; [by destruct st|].
  cbn [vformat]. destruct st; repeat case_match; try done;
    repeat (apply bind_not_fatal; [|intros ?]); auto using convert_not_fatal.
Qed.

(** A newline completes no directive. *)
Lemma directives_newline st fmt : directives st (fmt +:+ newline) = directives st fmt.
Proof.
  revert st. induction fmt as [|c fmt IH]; intros st; [by destruct st|].
  rewrite append_cons. cbn [directives]. destruct st; [apply IH|by rewrite !IH|]. destruct (digit c); by rewrite IH.
Qed.

Lemma directives_text p fmt : plain p = true -> directives Text (p +:+ fmt) = directives Text fmt.
Proof.
  induction p as [|c p IH]; [done|]. intros [Hc%negb_true_iff Hp]%andb_true_iff.
  rewrite append_cons. cbn [directives]. rewrite Hc. by apply IH.
Qed.

(** What an assertion that fails prints, for any format that suits its
    arguments. *)
Lemma assertf_prints msg args :
  well_typed msg args ->
  exists text, vformat Text msg args = Ok text /\
    MARL_ASSERTF false msg args = Fatal ("ASSERT: " +:+ text +:+ newline).
Proof.
  intros [text Hs]%vformat_ok%is_ok_spec. exists text. split; [done|].
  unfold MARL_ASSERTF, MARL_FATAL, fatalf, vfprintf. cbn [negb].
  rewrite (vformat_app Text ("ASSERT: " +:+ msg) newline args ("ASSERT: " +:+ text)).
  - cbn [mbind result_bind]. by rewrite append_assoc.
  - reflexivity.
  - rewrite vformat_text by reflexivity. by rewrite Hs.
Qed.

Lemma assertf_well_typed msg args :
  (exists text, MARL_ASSERTF false msg args = Fatal text) -> well_typed msg args.
Proof.
  unfold well_typed, MARL_ASSERTF, MARL_FATAL, fatalf, vfprintf. cbn [negb]. intros [text Ht].
  rewrite <- (directives_text "ASSERT: "), <- directives_newline by done.
  apply (vformat_ok Text). destruct (vformat _ _ _) eqn:E; [done| |discriminate Ht].
  exfalso. by eapply vformat_not_fatal.
Qed.

(** [MARL_ASSERT] returns exactly when its condition holds; when it does
    not, the program ends with the message, its arguments put in, between
    "ASSERT: " and a newline, provided that the arguments have the types the
    format asks for, and every assertion of the sources that passes arguments
    does provide them: none of the messages about fibers, pages, contexts, modes,
    indices and bound schedulers is itself undefined behaviour. *)
Theorem assertions_print :
  (forall cond msg args, is_ok (MARL_ASSERTF cond msg args) = cond) /\
  (forall msg args, well_typed msg args <->
     exists text, MARL_ASSERTF false msg args = Fatal text) /\
  (forall id state expected, state <> expected ->
     ASSERT_FIBER_STATE id state expected =
     Fatal ("ASSERT: fiber " +:+ print_d None (int_of id) +:+ " was in state " +:+ State_toString state +:+
            ", but expected " +:+ State_toString expected +:+ newline)) /\
  (forall count, allocatePages_check true count =
     Fatal ("ASSERT: Failed to allocate " +:+ print_d None (int_of count) +:+ " pages" +:+ newline)) /\
  (forall res count, res <> 0%Z -> freePages_check res count =
     Fatal ("ASSERT: Failed to free " +:+ print_d None (int_of count) +:+ " pages" +:+ newline)) /\
  (forall res addr, res <> 0%Z -> protectPage_check res addr =
     Fatal ("ASSERT: Failed to protect page at " +:+ print_p addr +:+ newline)) /\
  (forall alignment pageSize, (pageSize <= alignment)%Z -> pagedMalloc_check alignment pageSize =
     Fatal ("ASSERT: alignment (0x" +:+ print_x None (int_of alignment) +:+
            ") must be less than the page size (0x" +:+ print_x None (int_of pageSize) +:+ ")" +:+ newline)) /\
  (forall res, res <> 0%Z ->
     getcontext_check res = Fatal ("ASSERT: getcontext() returned " +:+ print_d None res +:+ newline) /\
     swapcontext_check res = Fatal ("ASSERT: swapcontext() returned " +:+ print_d None res +:+ newline)) /\
  (forall mode, unknown_mode mode = Fatal ("ASSERT: Unknown mode: " +:+ print_d None mode +:+ newline)) /\
  (forall i count, (count <= i)%Z -> index_check i count =
     Fatal ("ASSERT: index " +:+ print_d None (int_of i) +:+ " exceeds vector size " +:+
            print_d None (int_of count) +:+ newline)) /\
  (forall feature, assert_has_bound_schedulerf false feature =
     Fatal ("ASSERT: " +:+ feature +:+ " requires a marl::Scheduler to be bound" +:+ newline)).
Proof.
  assert (forall msg args text, vformat Text msg args = Ok text ->
    MARL_ASSERTF false msg args = Fatal ("ASSERT: " +:+ text +:+ newline)) as Hp.
  { intros msg args text Ht. destruct (assertf_prints msg args) as (text' & Ht' & H);
      [apply vformat_ok; by rewrite Ht|]. congruence. }
  split; [|split].
  { intros [] msg args; [done|]. unfold MARL_ASSERTF, MARL_FATAL, fatalf. cbn [negb].
    by destruct (vfprintf _ _). }
  { intros msg args. split; [intros (t & _ & H)%assertf_prints; eauto|]. apply assertf_well_typed. }
  unfold ASSERT_FIBER_STATE, allocatePages_check, freePages_check, protectPage_check, pagedMalloc_check,
    getcontext_check, swapcontext_check, unknown_mode, index_check, assert_has_bound_schedulerf.
  repeat split; intros; try (rewrite bool_decide_eq_false_2 by lia || done); cbn [negb].
  all: erewrite Hp by (cbv -[print_d print_x print_p State_toString int_of String.append]; reflexivity).
  all: by repeat rewrite ?append_assoc, ?append_cons, ?append_empty.
Qed.
