(* ===== verification/Trace.v ===== *)
(** Trace events (src/include/marl/trace.hpp) and the names of threads
    ([Thread::setName], src/src/thread.cpp).

    The sources declare the member functions of [Trace] and do not define them
    (src/src/trace.cpp is empty), so the model records the calls they get, in
    order, with their format and arguments.  [enabled] is [MARL_TRACE_ENABLED],
    without which the macros are empty, and [trace] tells that [Trace::get()] is
    not null. *)
From Stdlib Require Import Ascii.
From stdpp Require Import base numbers strings pretty gmap list.
From S2P Require Import Prelude Worker Format.
Local Open Scope string_scope.
Local Open Scope list_scope.

(** ** The calls a [Trace] gets *)
Inductive TraceCall :=
| nameThread (fmt : string) (args : list Arg)
| beginEvent (fmt : string) (args : list Arg)
| endEvent
| beginAsyncEvent (id : Z) (fmt : string) (args : list Arg)
| endAsyncEvent (id : Z) (fmt : string) (args : list Arg).

(** The format and the arguments of a call suit each other. *)
Definition call_defined (c : TraceCall) : Prop :=
  match c with
  | nameThread fmt args | beginEvent fmt args
  | beginAsyncEvent _ fmt args | endAsyncEvent _ fmt args => well_typed fmt args
  | endEvent => True
  end.

Definition MaxEventNameLength : nat := 64.

(** ** Guards *)
Record ScopedEvent := { trace_ : bool }.

Definition ScopedEvent_new (trace : bool) (fmt : string) (args : list Arg) : Result (ScopedEvent * list TraceCall) :=
  if trace then
    name ← vsnprintf MaxEventNameLength fmt args;
    Ok ({| trace_ := trace |}, [beginEvent name []])
  else Ok ({| trace_ := trace |}, []).

Definition ScopedEvent_dtor (e : ScopedEvent) : list TraceCall :=
  if trace_ e then [endEvent] else [].

Record ScopedAsyncEvent := { atrace_ : bool; aid_ : Z; name_ : string }.

Definition ScopedAsyncEvent_new (trace : bool) (id : Z) (fmt : string) (args : list Arg) :
    Result (ScopedAsyncEvent * list TraceCall) :=
  if trace then
    buf ← vsnprintf MaxEventNameLength fmt args;
    Ok ({| atrace_ := trace; aid_ := id; name_ := buf |}, [beginAsyncEvent id "%s" [AStr buf]])
  else Ok ({| atrace_ := trace; aid_ := id; name_ := "" |}, []).

Definition ScopedAsyncEvent_dtor (e : ScopedAsyncEvent) : list TraceCall :=
  if atrace_ e then [endAsyncEvent (aid_ e) "%s" [AStr (name_ e)]] else [].

(** ** The macros *)
Definition MARL_BEGIN_ASYNC_EVENT (enabled trace : bool) (id : Z) (fmt : string) (args : list Arg) : list TraceCall :=
  if enabled && trace then [beginAsyncEvent id fmt args] else [].

Definition MARL_END_ASYNC_EVENT (enabled trace : bool) (id : Z) (fmt : string) (args : list Arg) : list TraceCall :=
  if enabled && trace then [endAsyncEvent id fmt args] else [].

Definition MARL_NAME_THREAD (enabled trace : bool) (fmt : string) (args : list Arg) : list TraceCall :=
  if enabled && trace then [nameThread fmt args] else [].

(** A guard declared by a macro lives for the rest of its block: [body] is what
    runs there. *)
Definition MARL_SCOPED_EVENT (enabled trace : bool) (fmt : string) (args : list Arg)
    (body : Result (list TraceCall)) : Result (list TraceCall) :=
  if enabled then
    '(e, l) ← ScopedEvent_new trace fmt args; l' ← body; Ok (l ++ l' ++ ScopedEvent_dtor e)
  else body.

Definition MARL_SCOPED_ASYNC_EVENT (enabled trace : bool) (id : Z) (fmt : string) (args : list Arg)
    (body : Result (list TraceCall)) : Result (list TraceCall) :=
  if enabled then
    '(e, l) ← ScopedAsyncEvent_new trace id fmt args; l' ← body; Ok (l ++ l' ++ ScopedAsyncEvent_dtor e)
  else body.

(** ** Names of threads *)

(** [pthread_setname_np] refuses a name of more than 15 characters; nobody
    looks at its answer. *)
Definition pthread_setname_np (name old : string) : string :=
  if (String.length name <=? 15)%nat then name else old.

Definition setName (enabled trace : bool) (fmt : string) (args : list Arg) (old : string) :
    Result (string * list TraceCall) :=
  name ← vsnprintf 1024 fmt args;
  Ok (pthread_setname_np name old, MARL_NAME_THREAD enabled trace "%s" [AStr name]).

(** What a worker thread does first in [Worker::start]. *)
Definition worker_setName (enabled trace : bool) (id : Z) (old : string) : Result (string * list TraceCall) :=
  setName enabled trace "Thread<%.2d>" [AInt (int_of id)] old.

(** ** Events *)
Inductive EventType :=
| Begin | End | Complete | Instant | Counter | AsyncStart | AsyncInstant | AsyncEnd | FlowStart | FlowStep
| FlowEnd | Sample | ObjectCreated | ObjectSnapshot | ObjectDestroyed | Metadata | GlobalMemoryDump
| ProcessMemoryDump | Mark | ClockSync | ContextEnter | ContextLeave | Shutdown.

Definition event_type_code (t : EventType) : ascii :=
  match t with
  | Begin => "B" | End => "E" | Complete => "X" | Instant => "i" | Counter => "C"
  | AsyncStart => "b" | AsyncInstant => "n" | AsyncEnd => "e" | FlowStart => "s" | FlowStep => "t"
  | FlowEnd => "f" | Sample => "P" | ObjectCreated => "N" | ObjectSnapshot => "O" | ObjectDestroyed => "D"
  | Metadata => "M" | GlobalMemoryDump => "V" | ProcessMemoryDump => "v" | Mark => "R"
  | ClockSync => "c" | ContextEnter => "(" | ContextLeave => ")" | Shutdown => "S"
  end%char.

(** The classes that can be instantiated, and the [type()] each one has or
    inherits. *)
Inductive EventClass :=
| BeginEvent | EndEvent | MetadataEvent | ShutdownEvent | AsyncStartEvent | AsyncEndEvent | NameThreadEvent.

Definition event_type (c : EventClass) : EventType :=
  match c with
  | BeginEvent => Begin | EndEvent => End | MetadataEvent => Metadata | ShutdownEvent => Shutdown
  | AsyncStartEvent => AsyncStart | AsyncEndEvent => AsyncEnd | NameThreadEvent => Metadata
  end.

Global Instance event_type_code_inj : Inj (=) (=) event_type_code.
Proof. intros [] [] H; vm_compute in H; try reflexivity; discriminate H. Qed.

(** ** Guards nest *)

(** Code as far as tracing sees it: blocks that declare guards. *)
Inductive Block :=
| Skip
| Seq (b1 b2 : Block)
| Scoped (fmt : string) (args : list Arg) (b : Block)
| ScopedAsync (id : Z) (fmt : string) (args : list Arg) (b : Block).

Fixpoint run_block (enabled trace : bool) (b : Block) : Result (list TraceCall) :=
  match b with
  | Skip => Ok []
  | Seq b1 b2 => l1 ← run_block enabled trace b1; l2 ← run_block enabled trace b2; Ok (l1 ++ l2)
  | Scoped fmt args b => MARL_SCOPED_EVENT enabled trace fmt args (run_block enabled trace b)
  | ScopedAsync id fmt args b => MARL_SCOPED_ASYNC_EVENT enabled trace id fmt args (run_block enabled trace b)
  end.

(** Reading a log against the events that are open, the innermost first: an end
    closes the innermost one, an asynchronous end with its id and name. *)
Inductive Open := OSync | OAsync (id : Z) (name : string).

Definition close (c : TraceCall) (open : list Open) : option (list Open) :=
  match c, open with
  | nameThread _ _, _ => Some open
  | beginEvent _ _, _ => Some (OSync :: open)
  | endEvent, OSync :: open => Some open
  | beginAsyncEvent id "%s" [AStr name], _ => Some (OAsync id name :: open)
  | endAsyncEvent id "%s" [AStr name], OAsync id' name' :: open =>
      if bool_decide (id = id') && bool_decide (name = name') then Some open else None
  | _, _ => None
  end.

Fixpoint read (log : list TraceCall) (open : list Open) : option (list Open) :=
  match log with [] => Some open | c :: log => open ← close c open; read log open end.

Lemma read_app l1 l2 open : read (l1 ++ l2) open = (open ← read l1 open; read l2 open).
Proof. revert open. induction l1 as [|c l1 IH]; intros open; simpl; [done|]. destruct (close c open); simpl; auto. Qed.

(** The calls of a guard enclose those of its block. *)
Lemma scoped_event_Ok enabled trace fmt args body log :
  MARL_SCOPED_EVENT enabled trace fmt args body = Ok log ->
  exists l, body = Ok l /\
    (log = l \/ exists name, vsnprintf MaxEventNameLength fmt args = Ok name /\ enabled = true /\ trace = true /\
       log = beginEvent name [] :: l ++ [endEvent]).
Proof.
  unfold MARL_SCOPED_EVENT, ScopedEvent_new. destruct enabled; [|eauto].
  destruct trace; [destruct (vsnprintf _ _ _) as [name| |]; try done|]; destruct body as [l| |]; try done;
    intros [= <-]; exists l; (split; [done|]); [right; eauto 6|left]. apply app_nil_r.
Qed.

Lemma scoped_async_Ok enabled trace id fmt args body log :
  MARL_SCOPED_ASYNC_EVENT enabled trace id fmt args body = Ok log ->
  exists l, body = Ok l /\
    (log = l \/ exists name, vsnprintf MaxEventNameLength fmt args = Ok name /\ enabled = true /\ trace = true /\
       log = beginAsyncEvent id "%s" [AStr name] :: l ++ [endAsyncEvent id "%s" [AStr name]]).
Proof.
  unfold MARL_SCOPED_ASYNC_EVENT, ScopedAsyncEvent_new. destruct enabled; [|eauto].
  destruct trace; [destruct (vsnprintf _ _ _) as [name| |]; try done|]; destruct body as [l| |]; try done;
    intros [= <-]; exists l; (split; [done|]); [right; eauto 6|left]. apply app_nil_r.
Qed.

Lemma run_balanced enabled trace b log open :
  run_block enabled trace b = Ok log -> read log open = Some open.
Proof.
  revert log open. induction b as [|b1 IH1 b2 IH2|fmt args b IH|id fmt args b IH]; intros log open H; simpl in H.
  - by simplify_eq.
  - inv_ok H. inv_ok H. simplify_eq. rewrite read_app, (IH1 _ _ E). simpl. by apply IH2.
  - apply scoped_event_Ok in H as (l & Hl & [->|(name & _ & _ & _ & ->)]); [eauto|].
    simpl. by rewrite read_app, (IH _ _ Hl).
  - apply scoped_async_Ok in H as (l & Hl & [->|(name & _ & _ & _ & ->)]); [eauto|].
    simpl. rewrite read_app, (IH _ _ Hl). simpl. by rewrite !bool_decide_true.
Qed.

(** Every format of a block suits its arguments. *)
Fixpoint formats_ok (b : Block) : Prop :=
  match b with
  | Skip => True
  | Seq b1 b2 => formats_ok b1 /\ formats_ok b2
  | Scoped fmt args b | ScopedAsync _ fmt args b => well_typed fmt args /\ formats_ok b
  end.

Lemma vsnprintf_ok size fmt args : well_typed fmt args -> exists name, vsnprintf size fmt args = Ok name.
Proof. intros [s Hs]%vformat_ok%is_ok_spec. unfold vsnprintf. rewrite Hs. simpl. eauto. Qed.

Lemma run_total enabled trace b : formats_ok b -> exists log, run_block enabled trace b = Ok log.
Proof.
  induction b as [|b1 IH1 b2 IH2|fmt args b IH|id fmt args b IH]; simpl; [eauto|..].
  - intros [[l1 ->]%IH1 [l2 ->]%IH2]. simpl. eauto.
  - intros [[name Hn]%(vsnprintf_ok MaxEventNameLength) [l ->]%IH].
    unfold MARL_SCOPED_EVENT, ScopedEvent_new. rewrite Hn. destruct enabled, trace; simpl; eauto.
  - intros [[name Hn]%(vsnprintf_ok MaxEventNameLength) [l ->]%IH].
    unfold MARL_SCOPED_ASYNC_EVENT, ScopedAsyncEvent_new. rewrite Hn. destruct enabled, trace; simpl; eauto.
Qed.

Lemma run_disabled enabled trace b log : enabled && trace = false -> run_block enabled trace b = Ok log -> log = [].
Proof.
  intros Hoff. revert log. induction b as [|b1 IH1 b2 IH2|fmt args b IH|id fmt args b IH]; intros log H; simpl in H.
  - by simplify_eq.
  - inv_ok H. inv_ok H. simplify_eq. by rewrite (IH1 _ E), (IH2 _ E0).
  - apply scoped_event_Ok in H as (l & Hl & [->|(name & _ & -> & -> & _)]); [eauto|done].
  - apply scoped_async_Ok in H as (l & Hl & [->|(name & _ & -> & -> & _)]); [eauto|done].
Qed.

(** No name of a scoped event has a [%]. *)
Fixpoint names_plain (b : Block) : Prop :=
  match b with
  | Skip => True
  | Seq b1 b2 => names_plain b1 /\ names_plain b2
  | Scoped fmt args b =>
      (forall name, vsnprintf MaxEventNameLength fmt args = Ok name -> plain name = true) /\ names_plain b
  | ScopedAsync _ fmt args b => names_plain b
  end.

Lemma plain_defined name : plain name = true -> well_typed name [].
Proof. intros Hp. apply vformat_ok. by rewrite vformat_plain. Qed.

Lemma string_defined name : well_typed "%s" [AStr name].
Proof. exists [TStr]. by split. Qed.

Lemma run_defined enabled trace b log :
  names_plain b -> run_block enabled trace b = Ok log -> Forall call_defined log.
Proof.
  revert log. induction b as [|b1 IH1 b2 IH2|fmt args b IH|id fmt args b IH]; intros log Hb H; simpl in H, Hb.
  - by simplify_eq.
  - inv_ok H. inv_ok H. simplify_eq. apply Forall_app. split; [eapply IH1|eapply IH2]; tauto || eauto.
  - destruct Hb as [Hname Hb]. apply scoped_event_Ok in H as (l & Hl & [->|(name & Hn & _ & _ & ->)]); [eauto|].
    apply Forall_cons. split; [by apply plain_defined, Hname|]. apply Forall_app. split; [eauto|by repeat constructor].
  - apply scoped_async_Ok in H as (l & Hl & [->|(name & Hn & _ & _ & ->)]); [eauto|].
    apply Forall_cons. split; [apply string_defined|]. apply Forall_app. split; [eauto|].
    repeat constructor. apply string_defined.
Qed.

(** Trace events nest.  Code whose formats suit their arguments runs to its
    end, and in the calls its guards have made every event is ended, the
    innermost first, an asynchronous one with the id and the name it began with;
    nothing is recorded when tracing is compiled out or there is no [Trace].
    Asynchronous events always pass a format that suits its arguments.  A scoped
    event does so when its name has no [%], but not otherwise: the constructor
    passes the text it has just formatted as the format of [beginEvent], so an
    event named after a string with a directive in it is undefined behaviour. *)
Theorem scoped_events_nest :
  (forall enabled trace b, formats_ok b ->
     exists log, run_block enabled trace b = Ok log /\
       (forall open, read log open = Some open) /\
       (enabled && trace = false -> log = []) /\
       (names_plain b -> Forall call_defined log)) /\
  (exists b log, formats_ok b /\ run_block true true b = Ok log /\ ~ Forall call_defined log).
Proof.
  split.
  - intros enabled trace b Hb. destruct (run_total enabled trace b Hb) as [log Hlog].
    exists log. split; [done|]. split; [intros open; by eapply run_balanced|].
    split; intros; [by eapply run_disabled|by eapply run_defined].
  - exists (Scoped "load %s" [AStr "100%s.txt"] Skip), [beginEvent "load 100%s.txt" []; endEvent].
    split; [split; [by exists [TStr]|done]|]. split; [vm_compute; done|].
    intros [(ts & Hts & Hp) _]%Forall_cons. vm_compute in Hts. injection Hts as <-. by apply prefix_nil_inv in Hp.
Qed.

(** ** Names of worker threads *)
Definition thread_name (id : Z) : string := "Thread<" +:+ print_d (Some 2%nat) id +:+ ">".

Definition worker_ids : list Z := seqZ 0 256.

Lemma thread_names_short :
  Forall (fun i => String.length (thread_name i) <= 15 /\ int_of i = i)%nat worker_ids.
Proof. apply (bool_decide_unpack _). vm_compute. exact I. Qed.

Lemma thread_names_distinct : NoDup (thread_name <$> worker_ids).
Proof. apply (bool_decide_unpack _). vm_compute. exact I. Qed.

Lemma substring_all s n : (String.length s <= n)%nat -> String.substring 0 n s = s.
Proof.
  revert n. induction s as [|c s IH]; intros [|n] Hn; simpl in *; try done; [lia|]. rewrite IH by lia. done.
Qed.

Lemma worker_setName_eq enabled trace id old :
  id ∈ worker_ids ->
  worker_setName enabled trace id old =
  Ok (thread_name id, MARL_NAME_THREAD enabled trace "%s" [AStr (thread_name id)]).
Proof.
  intros [Hl Hi]%(proj1 (Forall_forall _ _) thread_names_short). unfold worker_setName, setName, vsnprintf. rewrite Hi.
  assert (vformat Text "Thread<%.2d>" [AInt id] = Ok (thread_name id)) as ->.
  { cbv -[print_d String.append]. by repeat rewrite ?append_assoc, ?append_cons, ?append_empty. }
  cbn [mbind result_bind]. rewrite substring_all by lia. unfold pthread_setname_np.
  by rewrite (proj2 (Nat.leb_le _ _) Hl).
Qed.

(** Each of the 256 workers a scheduler can have gives its thread a name of
    its own, "Thread<" and the id with at least two digits: the name fits in the
    buffer and in the 15 characters of the operating system, so it is never cut
    or refused, and two workers never have the same. *)
Theorem worker_threads_named enabled trace i j old old' :
  (0 <= i < 256)%Z -> (0 <= j < 256)%Z ->
  exists name name' log log',
    worker_setName enabled trace i old = Ok (name, log) /\ Forall call_defined log /\
    worker_setName enabled trace j old' = Ok (name', log') /\
    name = "Thread<" +:+ print_d (Some 2%nat) i +:+ ">" /\ (name = name' <-> i = j).
Proof.
  intros Hi Hj. rewrite !worker_setName_eq by (apply elem_of_seqZ; lia).
  exists (thread_name i), (thread_name j), (MARL_NAME_THREAD enabled trace "%s" [AStr (thread_name i)]),
    (MARL_NAME_THREAD enabled trace "%s" [AStr (thread_name j)]).
  split; [done|]. split.
  { unfold MARL_NAME_THREAD. destruct (enabled && trace); repeat constructor. apply string_defined. }
  split; [done|]. split; [done|]. split; [|by intros ->].
  intros Hn. pose proof (proj1 (NoDup_alt _) thread_names_distinct (Z.to_nat i) (Z.to_nat j) (thread_name i)) as Hd.
  unfold worker_ids in Hd. rewrite !list_lookup_fmap, !lookup_seqZ_lt in Hd by lia.
  rewrite !Z2Nat.id in Hd by lia. specialize (Hd eq_refl). simpl in Hd. rewrite Hn in Hd. specialize (Hd eq_refl). lia.
Qed.

Lemma worker_threads_named_witness :
  exists name name' log log',
    worker_setName true true 7 "a.out" = Ok (name, log) /\ Forall call_defined log /\
    worker_setName true true 123 "a.out" = Ok (name', log') /\
    name = "Thread<" +:+ print_d (Some 2%nat) 7 +:+ ">" /\ (name = name' <-> 7 = 123)%Z.
Proof. apply (worker_threads_named true true 7 123 "a.out" "a.out"); lia. Defined.
