(* ===== verification/Mutex.v ===== *)
(** [marl::mutex] and [marl::lock] (src/include/marl/mutex.hpp), used by any
    number of threads at once on one mutex and one [std::condition_variable].

    A [std::mutex] is the thread that owns it; locking it blocks while another
    thread does, and locking it twice or unlocking it from elsewhere is
    undefined.  A [std::unique_lock] is a flag for its association with the mutex
    and one for ownership.  A wait gives the mutex up, blocks, can be woken at
    any time (notified, timed out or for no reason) and takes the mutex again
    before it looks at its predicate.  [D] is the data the mutex protects. *)
From stdpp Require Import base numbers strings list.
From S2P Require Import Prelude.

(** ** The mutex and the lock of the standard library *)
Abbreviation Tid := nat.

(** [None]: the calling thread blocks. *)
Abbreviation Blocking A := (option (Result A)).

Definition std_lock (t : Tid) (owner : option Tid) : Blocking (option Tid) :=
  match owner with
  | None => Some (Ok (Some t))
  | Some u => if bool_decide (u = t) then Some (Undefined "mutex locked twice by one thread") else None
  end.

Definition std_unlock (t : Tid) (owner : option Tid) : Result (option Tid) :=
  if bool_decide (owner = Some t) then Ok None else Undefined "mutex unlocked by a thread that does not own it".

Definition std_try_lock (t : Tid) (owner : option Tid) : Result (bool * option Tid) :=
  match owner with
  | None => Ok (true, Some t)
  | Some u => if bool_decide (u = t) then Undefined "mutex locked twice by one thread" else Ok (false, owner)
  end.

Record unique_lock := UL { device : bool; owns : bool }.

Global Instance unique_lock_eq_dec : EqDecision unique_lock.
Proof. solve_decision. Defined.

Definition unique_lock_new (t : Tid) (owner : option Tid) : Blocking (unique_lock * option Tid) :=
  r ← std_lock t owner; Some (o ← r; Ok (UL true true, o)).

Definition unique_lock_adopt : unique_lock := UL true true.
Definition unique_lock_release (ul : unique_lock) : unique_lock := UL false false.

Definition unique_lock_lock (t : Tid) (ul : unique_lock) (owner : option Tid) : Blocking (unique_lock * option Tid) :=
  if negb (device ul) then Some (fatal "std::system_error: operation not permitted")
  else if owns ul then Some (fatal "std::system_error: resource deadlock would occur")
  else r ← std_lock t owner; Some (o ← r; Ok (UL true true, o)).

Definition unique_lock_unlock (t : Tid) (ul : unique_lock) (owner : option Tid) : Result (unique_lock * option Tid) :=
  if negb (owns ul) then fatal "std::system_error: operation not permitted"
  else o ← std_unlock t owner; Ok (UL (device ul) false, o).

Definition unique_lock_dtor (t : Tid) (ul : unique_lock) (owner : option Tid) : Result (option Tid) :=
  if owns ul then '(_, o) ← unique_lock_unlock t ul owner; Ok o else Ok owner.

(** ** [marl::mutex] and [marl::lock], up to their waits *)
Definition mutex_lock (t : Tid) (owner : option Tid) : Blocking (option Tid) := std_lock t owner.
Definition mutex_unlock (t : Tid) (owner : option Tid) : Result (option Tid) := std_unlock t owner.
Definition mutex_try_lock (t : Tid) (owner : option Tid) : Result (bool * option Tid) := std_try_lock t owner.

Definition lock_new (t : Tid) (owner : option Tid) : Blocking (unique_lock * option Tid) := unique_lock_new t owner.
Definition lock_dtor (t : Tid) (l : unique_lock) (owner : option Tid) : Result (option Tid) :=
  unique_lock_dtor t l owner.
Definition owns_lock (l : unique_lock) : bool := owns l.
Definition lock_no_tsa (t : Tid) (l : unique_lock) (owner : option Tid) : Blocking (unique_lock * option Tid) :=
  unique_lock_lock t l owner.
Definition unlock_no_tsa (t : Tid) (l : unique_lock) (owner : option Tid) : Result (unique_lock * option Tid) :=
  unique_lock_unlock t l owner.

(** ** Threads *)
Section Machine.
Context {D : Type}.
Implicit Types (d : D) (t u : Tid) (owner : option Tid).

(** The [unique_lock] a wait works on: the one inside the [i]-th lock of the
    thread, or the local one of [wait_locked] and [wait_until_locked]. *)
Inductive Target := InLock (i : nat) | Local (ul : unique_lock).

(** Where a wait is: about to evaluate its predicate, blocked, about to take
    the mutex again ([timeout] if the deadline has passed), about to evaluate
    the predicate for the last time. *)
Inductive Stage := SPred | SBlocked | SLock (timeout : bool) | SFinal.

Inductive Pc :=
| Running
| Waiting (target : Target) (timed : bool) (p : D -> bool) (stage : Stage).

(** A thread: its locks on the mutex, the newest first; whether it called
    [mutex::lock] without a matching [unlock]; where it is; what the last
    [try_lock] or wait returned. *)
Record Thread := mkThread { locks : list unique_lock; raw : bool; pc : Pc; result : bool }.

Record State := mkState { owner : option Tid; data : D; threads : list Thread }.

Inductive Action :=
| ALock | AUnlock | ATryLock
| ANew | ADrop | ALockNoTsa (i : nat) | AUnlockNoTsa (i : nat)
| AWait (i : nat) (timed : bool) (p : D -> bool)
| AWaitLocked (timed : bool) (p : D -> bool)
| AWake (timeout : bool) | AGoOn
| AWrite (d : D).

Definition set_locks (l : list unique_lock) (th : Thread) : Thread := mkThread l (raw th) (pc th) (result th).
Definition set_raw (b : bool) (th : Thread) : Thread := mkThread (locks th) b (pc th) (result th).
Definition set_pc (c : Pc) (th : Thread) : Thread := mkThread (locks th) (raw th) c (result th).
Definition set_result (b : bool) (th : Thread) : Thread := mkThread (locks th) (raw th) (pc th) b.

(** The lock a wait works on, and its update. *)
Definition target_lock (th : Thread) (g : Target) : Result unique_lock :=
  match g with InLock i => deref (locks th !! i) "no such lock" | Local ul => Ok ul end.

Definition put_target (g : Target) (ul : unique_lock) (timed : bool) (p : D -> bool) (st : Stage) (th : Thread) : Thread :=
  match g with
  | InLock i => set_pc (Waiting g timed p st) (set_locks (<[i := ul]> (locks th)) th)
  | Local _ => set_pc (Waiting (Local ul) timed p st) th
  end.

(** The end of a wait: [wait] and [wait_until] return, [wait_locked] and
    [wait_until_locked] release and destroy their local lock first. *)
Definition wait_returns (t : Tid) (g : Target) (r : bool) (th : Thread) (owner : option Tid) :
    Result (Thread * option Tid) :=
  match g with
  | InLock _ => Ok (set_result r (set_pc Running th), owner)
  | Local ul =>
      o ← unique_lock_dtor t (unique_lock_release ul) owner;
      Ok (set_result r (set_pc Running th), o)
  end.

(** One step of [cv.wait(ul, p)] or [cv.wait_until(ul, time, p)], not counting
    the wake-up. *)
Definition wait_step (t : Tid) (g : Target) (timed : bool) (p : D -> bool) (st : Stage)
    (d : D) (th : Thread) (owner : option Tid) : Blocking (Thread * option Tid) :=
  match st with
  | SPred =>
      Some (if p d then wait_returns t g true th owner
            else ul ← target_lock th g;
                 '(ul, o) ← unique_lock_unlock t ul owner;
                 Ok (put_target g ul timed p SBlocked th, o))
  | SBlocked => None
  | SLock timeout =>
      match target_lock th g with
      | Ok ul =>
          r ← unique_lock_lock t ul owner;
          Some ('(ul, o) ← r; Ok (put_target g ul timed p (if timeout then SFinal else SPred) th, o))
      | Fatal m => Some (Fatal m)
      | Undefined m => Some (Undefined m)
      end
  | SFinal => Some (wait_returns t g (p d) th owner)
  end.

(** [lock::wait], [lock::wait_until], [mutex::wait_locked] and
    [mutex::wait_until_locked] up to the first look at the predicate. *)
Definition lock_wait (i : nat) (timed : bool) (p : D -> bool) (th : Thread) : Result Thread :=
  _ ← target_lock th (InLock i); Ok (set_pc (Waiting (InLock i) timed p SPred) th).

Definition mutex_wait_locked (timed : bool) (p : D -> bool) (th : Thread) : Thread :=
  set_pc (Waiting (Local unique_lock_adopt) timed p SPred) th.

(** What thread [t], in state [th], does; [None]: it blocks, or cannot do this
    now. *)
Definition act (t : Tid) (a : Action) (th : Thread) (o : option Tid) (d : D) : Blocking (Thread * option Tid * D) :=
  match pc th with
  | Running =>
      match a with
      | ALock => r ← mutex_lock t o; Some (o ← r; Ok (set_raw true th, o, d))
      | AUnlock => Some (o ← mutex_unlock t o; Ok (set_raw false th, o, d))
      | ATryLock => Some ('(b, o) ← mutex_try_lock t o; Ok (set_result b (set_raw (raw th || b) th), o, d))
      | ANew => r ← lock_new t o; Some ('(ul, o) ← r; Ok (set_locks (ul :: locks th) th, o, d))
      | ADrop =>
          match locks th with
          | [] => None
          | ul :: ls => Some (o ← lock_dtor t ul o; Ok (set_locks ls th, o, d))
          end
      | ALockNoTsa i =>
          ul ← locks th !! i;
          r ← lock_no_tsa t ul o; Some ('(ul, o) ← r; Ok (set_locks (<[i := ul]> (locks th)) th, o, d))
      | AUnlockNoTsa i =>
          ul ← locks th !! i;
          Some ('(ul, o) ← unlock_no_tsa t ul o; Ok (set_locks (<[i := ul]> (locks th)) th, o, d))
      | AWait i timed p => Some (th ← lock_wait i timed p th; Ok (th, o, d))
      | AWaitLocked timed p => Some (Ok (mutex_wait_locked timed p th, o, d))
      | AWrite d' => Some (Ok (th, o, d'))
      | AWake _ | AGoOn => None
      end
  | Waiting g timed p st =>
      match a, st with
      | AWake timeout, SBlocked =>
          if timeout && negb timed then None
          else Some (Ok (set_pc (Waiting g timed p (SLock timeout)) th, o, d))
      | AGoOn, _ => r ← wait_step t g timed p st d th o; Some ('(th, o) ← r; Ok (th, o, d))
      | _, _ => None
      end
  end.

Definition step (t : Tid) (a : Action) (s : State) : Blocking State :=
  th ← threads s !! t;
  r ← act t a th (owner s) (data s);
  Some ('(th, o, d) ← r; Ok (mkState o d (<[t := th]> (threads s)))).

(** ** The discipline the annotations ask a thread to keep *)

Definition owned (ls : list unique_lock) : nat := length (filter (fun ul => owns ul = true) ls).

(** How often the thread itself thinks it holds the mutex. *)
Definition holdings (th : Thread) : nat := owned (locks th) + (if raw th then 1 else 0).

(** [ACQUIRE], [RELEASE], [REQUIRES] and the use of the functions outside the
    analysis, in terms of the state of the thread alone; the data is written
    under the mutex. *)
Definition legal (a : Action) (th : Thread) : Prop :=
  match a with
  | ALock | ATryLock | ANew => holdings th = 0%nat
  | ALockNoTsa _ => holdings th = 0%nat
  | AUnlock => raw th = true
  | AUnlockNoTsa i | AWait i _ _ => owns <$> locks th !! i = Some true
  | AWaitLocked _ _ | AWrite _ => holdings th = 1%nat
  | ADrop | AWake _ | AGoOn => True
  end.

Definition initial (d : D) (n : nat) : State := mkState None d (replicate n (mkThread [] false Running true)).

Inductive reachable (d : D) (n : nat) : State -> Prop :=
| reach_init : reachable d n (initial d n)
| reach_step s t th a s' :
    reachable d n s -> threads s !! t = Some th -> (pc th = Running -> legal a th) ->
    step t a s = Some (Ok s') -> reachable d n s'.

(** ** The invariant *)
Definition stage_holds (st : Stage) : bool :=
  match st with SPred | SFinal => true | SBlocked | SLock _ => false end.

(** Whether a thread is the owner of the mutex, seen from the thread. *)
Definition holds (th : Thread) : bool :=
  match pc th with Running => bool_decide (holdings th = 1%nat) | Waiting _ _ _ st => stage_holds st end.

Record thread_ok (th : Thread) : Prop := {
  ok_devices : Forall (fun ul => device ul = true) (locks th);
  ok_pc : match pc th with
          | Running => (holdings th <= 1)%nat
          | Waiting (InLock i) timed p st =>
              locks th !! i = Some (UL true (stage_holds st)) /\ holdings th = if stage_holds st then 1%nat else 0%nat
          | Waiting (Local ul) timed p st => ul = UL true (stage_holds st) /\ holdings th = 1%nat
          end;
  ok_timed g timed p st : pc th = Waiting g timed p st -> st = SFinal \/ st = SLock true -> timed = true;
}.

Record inv (s : State) : Prop := {
  inv_thread t th : threads s !! t = Some th -> thread_ok th /\ (owner s = Some t <-> holds th = true);
  inv_owner t : owner s = Some t -> (t < length (threads s))%nat;
}.

(** A step of thread [t] changes the owner only from or to [t]. *)
Definition hand_over (t : Tid) (o o' : option Tid) : Prop :=
  o' = o \/ (o = None /\ o' = Some t) \/ (o = Some t /\ o' = None).

Lemma owned_insert ls i ul ul' :
  ls !! i = Some ul ->
  (owned (<[i := ul']> ls) + (if owns ul then 1 else 0) = owned ls + if owns ul' then 1 else 0)%nat.
Proof.
  unfold owned. revert i. induction ls as [|x ls IH]; intros [|i] Hi; simplify_eq/=; rewrite ?filter_cons.
  - destruct (owns ul), (owns ul'); simpl; lia.
  - specialize (IH i Hi). destruct (owns x); simpl; lia.
Qed.

Lemma owned_cons ul ls : owned (ul :: ls) = ((if owns ul then 1 else 0) + owned ls)%nat.
Proof. unfold owned. rewrite filter_cons. by destruct (owns ul). Qed.

Lemma owned_lookup ls i ul : ls !! i = Some ul -> owns ul = true -> (1 <= owned ls)%nat.
Proof. intros Hi Ho. pose proof (owned_insert ls i ul ul Hi). pose proof (owned_insert ls i ul (UL true false) Hi). rewrite Ho in *. simpl in *. lia. Qed.

(** Operations of the standard library, for a thread that keeps the
    discipline. *)
Lemma std_lock_free t o o' :
  o <> Some t -> std_lock t o = Some o' -> o = None /\ o' = Ok (Some t).
Proof.
  unfold std_lock. destruct o as [u|]; [|by intros _ [= <-]]. case_bool_decide; [|done]. intros Hne. congruence.
Qed.

Lemma std_unlock_owner t : std_unlock t (Some t) = Ok None.
Proof. unfold std_unlock. by rewrite bool_decide_true. Qed.

Definition good (t : Tid) (o : option Tid) (d : D) (r : Result (Thread * option Tid * D)) : Prop :=
  exists th' o' d', r = Ok (th', o', d') /\ thread_ok th' /\ (o' = Some t <-> holds th' = true) /\
    hand_over t o o' /\ (d' = d \/ (o = Some t /\ o' = Some t)).

(** The mutex between two actions of a running thread: [n] is how often the
    thread thinks it holds it, [n'] the same afterwards. *)
Definition count (ls : list unique_lock) (b : bool) : nat := owned ls + (if b then 1 else 0).

Lemma running_good t o o' d d' ls b r :
  Forall (fun ul => device ul = true) ls -> (count ls b <= 1)%nat -> (o' = Some t <-> count ls b = 1%nat) ->
  hand_over t o o' -> (d' = d \/ (o = Some t /\ o' = Some t)) ->
  good t o d (Ok (mkThread ls b Running r, o', d')).
Proof.
  intros Hls Hn Ho Hh Hd. eexists _, _, _. split; [done|]. split; [by split|]. split; [|done].
  rewrite Ho. unfold holds. cbn. by rewrite bool_decide_eq_true.
Qed.

Lemma waiting_good t o d ls b r g timed p st :
  thread_ok (mkThread ls b (Waiting g timed p st) r) -> (o = Some t <-> stage_holds st = true) ->
  good t o d (Ok (mkThread ls b (Waiting g timed p st) r, o, d)).
Proof. intros Hok Ho. eexists _, _, _. unfold hand_over. eauto 8. Qed.

Section Running.
Context (t : Tid) (o : option Tid) (d : D) (ls : list unique_lock) (b r : bool).
Hypothesis Hls : Forall (fun ul => device ul = true) ls.
Hypothesis Hn : (count ls b <= 1)%nat.
Hypothesis Ho : o = Some t <-> count ls b = 1%nat.

Lemma not_held : count ls b = 0%nat -> o <> Some t.
Proof. intros H0 H1%Ho. lia. Qed.

Lemma lock_good x ls' b' r' :
  count ls b = 0%nat -> std_lock t o = Some x -> Forall (fun ul => device ul = true) ls' -> count ls' b' = 1%nat ->
  exists o', x = Ok o' /\ good t o d (Ok (mkThread ls' b' Running r', o', d)).
Proof.
  intros H0 Hx Hls' H1. apply std_lock_free in Hx as [-> ->]; [|by apply not_held].
  eexists. split; [done|]. apply running_good; unfold hand_over; auto; [lia|]. by rewrite H1.
Qed.

Lemma unlock_good ls' b' r' :
  count ls b = 1%nat -> Forall (fun ul => device ul = true) ls' -> count ls' b' = 0%nat ->
  std_unlock t o = Ok None /\ good t o d (Ok (mkThread ls' b' Running r', None, d)).
Proof.
  intros H1 Hls' H0. rewrite (proj2 Ho H1). split; [apply std_unlock_owner|].
  apply running_good; unfold hand_over; auto; [lia|]. by rewrite H0.
Qed.

Lemma try_lock_good :
  count ls b = 0%nat -> exists x o', std_try_lock t o = Ok (x, o') /\
    good t o d (Ok (mkThread ls (b || x) Running x, o', d)).
Proof.
  intros H0. pose proof (not_held H0) as Hne. unfold std_try_lock. destruct o as [u|].
  - rewrite bool_decide_false by congruence. eexists _, _. split; [done|]. rewrite orb_false_r.
    apply running_good; unfold hand_over; auto.
  - eexists _, _. split; [done|]. unfold count in *.
    apply running_good; unfold hand_over, count; auto; destruct b; simpl in *; lia || (split; [lia|done]).
Qed.

(** Where the [i]-th lock is the owner, it is the only one; the thread can give
    the mutex up through it. *)
Lemma count_insert i ul ul' :
  ls !! i = Some ul -> (count (<[i := ul']> ls) b + (if owns ul then 1 else 0) = count ls b + if owns ul' then 1 else 0)%nat.
Proof. intros Hi. unfold count. pose proof (owned_insert ls i ul ul' Hi). lia. Qed.

Lemma lock_device i ul : ls !! i = Some ul -> ul = UL true (owns ul).
Proof. intros Hi. pose proof (proj1 (Forall_lookup _ _) Hls i ul Hi) as Hd. destruct ul. simpl in *. by subst. Qed.

Lemma held_count i ul : ls !! i = Some ul -> owns ul = true -> count ls b = 1%nat.
Proof. intros Hi Hu. pose proof (owned_lookup ls i ul Hi Hu). unfold count in *. destruct b; lia. Qed.

Lemma free_lock i ul : ls !! i = Some ul -> count ls b = 0%nat -> ul = UL true false.
Proof.
  intros Hi H0. rewrite (lock_device i ul Hi). f_equal. destruct (owns ul) eqn:E; [|done].
  pose proof (held_count i ul Hi E). lia.
Qed.

Lemma devices_insert i x : Forall (fun ul => device ul = true) (<[i := UL true x]> ls).
Proof. by apply Forall_insert. Qed.
End Running.

Lemma drop_good t o d ls b r x :
  Forall (fun ul => device ul = true) ls -> (count ls b <= 1)%nat -> (o = Some t <-> count ls b = 1%nat) ->
  act t ADrop (mkThread ls b Running r) o d = Some x -> good t o d x.
Proof.
  intros Hls Hn Ho. cbn. destruct ls as [|ul ls']; [done|]. intros [= <-]. apply Forall_cons in Hls as [Hd Hls'].
  unfold count in *. rewrite owned_cons in *. unfold lock_dtor, unique_lock_dtor, unique_lock_unlock.
  destruct (owns ul) eqn:Eu; rewrite ?Eu in *; cbn [negb].
  - rewrite (proj2 Ho) by lia. rewrite std_unlock_owner. cbn.
    apply running_good; unfold hand_over, count; simpl in *; auto; [lia|split; [done|lia]].
  - cbn. apply running_good; unfold hand_over, count; simpl in *; auto.
Qed.

(** Every action of a thread that keeps the discipline. *)
Lemma act_running t a o d ls b r x :
  Forall (fun ul => device ul = true) ls -> (count ls b <= 1)%nat -> (o = Some t <-> count ls b = 1%nat) ->
  legal a (mkThread ls b Running r) -> act t a (mkThread ls b Running r) o d = Some x -> good t o d x.
Proof.
  intros Hls Hn Ho Hleg Hact.
  assert (holdings (mkThread ls b Running r) = count ls b) as Hc by done.
  destruct a as [| | | | |i|i|i timed p|timed p|?| |d']; cbn [legal raw locks] in Hleg; rewrite ?Hc in Hleg; cbn in Hact; try done.
  - destruct (mutex_lock t o) as [y|] eqn:E; simplify_eq/=.
    edestruct lock_good with (r' := r) (t := t) (o := o) (d := d) (ls := ls) (ls' := ls) (b' := true) as (o' & -> & Hg); try done.
    unfold count in *. destruct b; lia.
  - subst b. assert (count ls true = 1 /\ count ls false = 0)%nat as [H1 H0] by (unfold count in *; simpl in *; lia).
    destruct (unlock_good t o d ls true Hn Ho ls false r H1 Hls H0) as [E Hg].
    injection Hact as <-. unfold mutex_unlock. rewrite E. apply Hg.
  - edestruct try_lock_good with (t := t) (o := o) (d := d) (ls := ls) as (x' & o' & E & Hg); try done. simplify_eq/=.
    unfold mutex_try_lock. by rewrite E.
  - unfold lock_new, unique_lock_new in Hact. destruct (std_lock t o) as [y|] eqn:E; simplify_eq/=.
    assert (count (UL true true :: ls) b = 1%nat) as H1 by (unfold count in *; rewrite owned_cons; simpl; lia).
    destruct (lock_good t o d ls b Hn Ho y (UL true true :: ls) b r Hleg E) as (o' & -> & Hg); [by constructor|done|].
    apply Hg.
  - eapply (drop_good t o d ls b r); try done.
  - destruct (ls !! i) as [ul|] eqn:Ei; [|done]. pose proof (free_lock t o ls b Hls Hn Ho i ul Ei Hleg) as ->.
    cbn in Hact. unfold lock_no_tsa, unique_lock_lock in Hact. cbn in Hact.
    destruct (std_lock t o) as [y|] eqn:E; simplify_eq/=.
    pose proof (count_insert t o ls b Hn Ho i _ (UL true true) Ei) as Hi. simpl in Hi.
    destruct (lock_good t o d ls b Hn Ho y (<[i := UL true true]> ls) b r Hleg E) as (o' & -> & Hg);
      [by apply devices_insert|lia|]. apply Hg.
  - destruct (ls !! i) as [ul|] eqn:Ei; [|done]. injection Hleg as Hu. cbn in Hact. injection Hact as <-.
    pose proof (held_count t o ls b Hn Ho i ul Ei Hu) as H1.
    pose proof (count_insert t o ls b Hn Ho i _ (UL true false) Ei) as Hi. rewrite Hu in Hi. simpl in Hi.
    destruct (unlock_good t o d ls b Hn Ho (<[i := UL true false]> ls) b r H1) as [E Hg]; [by apply devices_insert|lia|].
    rewrite (lock_device ls Hls i ul Ei), Hu. unfold unlock_no_tsa, unique_lock_unlock. simpl. rewrite E. apply Hg.
  - destruct (ls !! i) as [ul|] eqn:Ei; [|done]. injection Hleg as Hu. unfold lock_wait in Hact. cbn in Hact.
    rewrite ?Ei in Hact. simplify_eq/=. pose proof (held_count t o ls b Hn Ho i ul Ei Hu) as H1.
    apply waiting_good; [|naive_solver]. split; cbn; [done| |naive_solver].
    split; [by rewrite Ei, (lock_device ls Hls i ul Ei), Hu|done].
  - simplify_eq/=. apply waiting_good; [|naive_solver]. split; cbn; [done|done|naive_solver].
  - simplify_eq/=. apply running_good; auto; [by left|]. right. by rewrite Ho.
Qed.

(** How a wait ends: under the mutex, with the answer of the predicate on the
    data as it is, false only for a wait with a deadline, and with the locks the
    thread had. *)
Definition wait_result (t : Tid) (timed : bool) (p : D -> bool) (d : D) (th th' : Thread) (o' : option Tid) : Prop :=
  o' = Some t /\ result th' = p d /\ (result th' = false -> timed = true) /\
  locks th' = locks th /\ raw th' = raw th /\ holdings th' = 1%nat.

Definition good_wait (t : Tid) (timed : bool) (p : D -> bool) (d : D) (th : Thread) (o : option Tid)
    (x : Result (Thread * option Tid)) : Prop :=
  exists th' o', x = Ok (th', o') /\ thread_ok th' /\ (o' = Some t <-> holds th' = true) /\ hand_over t o o' /\
    (pc th' = Running -> wait_result t timed p d th th' o').

Section Wait.
Context (t : Tid) (timed : bool) (p : D -> bool) (st : Stage) (d : D) (g : Target).
Context (ls : list unique_lock) (b r : bool).
Let th := mkThread ls b (Waiting g timed p st) r.
Hypothesis Hok : thread_ok th.

(** The lock a wait works on is in order, and holds the mutex when the stage
    says so. *)
Lemma target_ok : target_lock th g = Ok (UL true (stage_holds st)).
Proof.
  pose proof (ok_pc th Hok) as Hp. cbn in Hp. destruct g as [i|ul]; cbn.
  - by destruct Hp as [-> _].
  - by destruct Hp as [-> _].
Qed.

Lemma held_one : stage_holds st = true -> count ls b = 1%nat.
Proof. intros Hs. pose proof (ok_pc th Hok) as Hp. cbn in Hp. rewrite Hs in Hp. by destruct g, Hp. Qed.

Lemma wait_returns_good res :
  stage_holds st = true -> res = p d -> (res = false -> timed = true) ->
  good_wait t timed p d th (Some t) (wait_returns t g res th (Some t)).
Proof.
  intros Hs Hres Hf. pose proof (held_one Hs) as H1.
  exists (mkThread ls b Running res), (Some t). split; [by destruct g|]. split.
  { split; [apply (ok_devices th Hok)|change (count ls b <= 1)%nat; lia|done]. }
  split; [|split; [by left|done]]. unfold holds. cbn. by rewrite bool_decide_true by apply H1.
Qed.

Lemma put_target_ok x st' :
  x = stage_holds st' -> stage_holds st = negb x -> (st' = SFinal \/ st' = SLock true -> timed = true) ->
  thread_ok (put_target g (UL true x) timed p st' th) /\ holds (put_target g (UL true x) timed p st' th) = x /\
  pc (put_target g (UL true x) timed p st' th) <> Running.
Proof.
  intros -> Hs Ht. pose proof (ok_devices th Hok) as Hd. pose proof (ok_pc th Hok) as Hp. cbn in Hp, Hd.
  destruct g as [i|ul]; (split; [|done]); split; cbn; try done; try (intros; simplify_eq; auto).
  - by apply Forall_insert.
  - destruct Hp as [Hi Hn]. split; [apply list_lookup_insert_eq; by eapply lookup_lt_Some|].
    change (count (<[i := UL true (stage_holds st')]> ls) b = if stage_holds st' then 1 else 0)%nat.
    change (count ls b = if stage_holds st then 1 else 0)%nat in Hn.
    unfold count in *. pose proof (owned_insert ls i _ (UL true (stage_holds st')) Hi) as H.
    simpl in H. rewrite Hs in *. destruct (stage_holds st'); simpl in *; lia.
  - split; [done|]. by destruct Hp.
Qed.
End Wait.

Lemma good_wait_goes_on t timed p d th o th' o' x :
  thread_ok th' /\ holds th' = x /\ pc th' <> Running -> (o' = Some t <-> x = true) -> hand_over t o o' ->
  good_wait t timed p d th o (Ok (th', o')).
Proof. intros (Hok & <- & Hpc) Ho Hh. exists th', o'. repeat split; try done; apply Ho || apply Hok. Qed.

Lemma wait_step_good t g timed p st d ls b r o x :
  let th := mkThread ls b (Waiting g timed p st) r in
  thread_ok th -> (o = Some t <-> stage_holds st = true) ->
  wait_step t g timed p st d th o = Some x -> good_wait t timed p d th o x.
Proof.
  intros th Hok Ho Hx. pose proof (target_ok timed p st g ls b r Hok) as Htgt. destruct st as [| |timeout|]; cbn [wait_step] in Hx.
  - rewrite (proj2 Ho eq_refl) in *. injection Hx as <-. destruct (p d) eqn:Ep.
    { by apply wait_returns_good. }
    fold th in Htgt. rewrite Htgt. cbn [mbind result_bind]. unfold unique_lock_unlock. cbn [owns negb stage_holds].
    rewrite std_unlock_owner. eapply (good_wait_goes_on _ _ _ _ _ _ _ _ false); [|done|right; by right].
    apply (put_target_ok timed p SPred g ls b r Hok false SBlocked); [done..|naive_solver].
  - done.
  - fold th in Htgt. rewrite Htgt in Hx. cbn [stage_holds] in *. unfold unique_lock_lock in Hx. cbn [device owns negb] in Hx.
    destruct (std_lock t o) as [y|] eqn:E; [|done]. apply std_lock_free in E as [-> ->]; [|naive_solver].
    injection Hx as <-. eapply (good_wait_goes_on _ _ _ _ _ _ _ _ true); [|done|right; by left].
    apply (put_target_ok timed p (SLock timeout) g ls b r Hok true); [by destruct timeout|done|].
    intros Hst. apply (ok_timed _ Hok g timed p (SLock timeout)); [done|]. destruct timeout; [by right|]. by destruct Hst.
  - rewrite (proj2 Ho eq_refl) in *. injection Hx as <-. apply wait_returns_good; [done..|].
    intros _. apply (ok_timed _ Hok g timed p SFinal); auto.
Qed.

Lemma act_good t a th o d x :
  thread_ok th -> (o = Some t <-> holds th = true) -> (pc th = Running -> legal a th) ->
  act t a th o d = Some x -> good t o d x.
Proof.
  intros Hok Ho Hleg Hx. destruct th as [ls b c r]. destruct c as [|g timed p st].
  - pose proof (ok_devices _ Hok) as Hd. pose proof (ok_pc _ Hok) as Hn. cbn in Hd, Hn.
    eapply act_running; [done|exact Hn| |by apply Hleg|exact Hx].
    rewrite Ho. unfold holds. cbn [pc]. by rewrite bool_decide_eq_true.
  - unfold act in Hx. cbn [pc] in Hx. destruct a as [| | | | |?|?|???|??|timeout| |?]; try done.
    + destruct st; try done. destruct (timeout && negb timed) eqn:E; [done|]. injection Hx as <-.
      apply waiting_good; [|done]. destruct Hok as [Hd Hp Ht]. split; cbn in *; [done|by destruct g|].
      intros ???? [= <- <- <- <-] [?|[= ->]]; [done|]. by destruct timed.
    + destruct (wait_step t g timed p st d _ o) as [y|] eqn:E; [|by destruct st]. 
      assert (x = ('(th, o) ← y; Ok (th, o, d))) as -> by (destruct st; by injection Hx).
      eapply wait_step_good in E as (th' & o' & -> & ? & ? & ? & _); [|done|done].
      exists th', o', d. by auto 7.
Qed.

Lemma mutex_initial_inv d n : inv (initial d n).
Proof.
  split; [|done]. intros t th [-> _]%lookup_replicate. split; [|done]. split; cbn; [constructor|lia|done].
Qed.

Lemma step_good t a s th x :
  inv s -> threads s !! t = Some th -> (pc th = Running -> legal a th) -> step t a s = Some x ->
  exists s', x = Ok s' /\ inv s' /\ (data s' = data s \/ (owner s = Some t /\ owner s' = Some t)).
Proof.
  intros Hinv Ht Hleg Hx. unfold step in Hx. rewrite Ht in Hx. cbn in Hx.
  destruct (act t a th (owner s) (data s)) as [y|] eqn:E; [|done]. injection Hx as <-.
  destruct (inv_thread s Hinv t th Ht) as [Hok Ho].
  destruct (act_good _ _ _ _ _ _ Hok Ho Hleg E) as (th' & o' & d' & -> & Hok' & Ho' & Hh & Hd).
  eexists. split; [done|]. split; [|done]. pose proof (lookup_lt_Some _ _ _ Ht) as Hlt.
  split; cbn [owner data threads].
  - intros u thu [[-> ->]|[Hne Hu]]%lookup_insert_cases; [done|].
    destruct (inv_thread s Hinv u thu Hu) as [Hoku Hou]. split; [done|]. rewrite <- Hou.
    destruct Hh as [->|[[-> ->]|[-> ->]]]; [done|split; congruence..].
  - intros u Hu. rewrite length_insert. destruct Hh as [->|[[_ ->]|[_ ->]]]; simplify_eq; [by apply (inv_owner s Hinv)|done].
Qed.

Lemma mutex_reachable_inv d n s : reachable d n s -> inv s.
Proof.
  induction 1 as [|s t th a s' _ IH Ht Hleg Hs]; [apply mutex_initial_inv|].
  destruct (step_good t a s th _ IH Ht Hleg Hs) as (s'' & [= <-] & ? & _). done.
Qed.

(** The actions that need the mutex. *)
Definition wants_mutex (a : Action) (th : Thread) : Prop :=
  match pc th, a with
  | Running, (ALock | ANew) => True
  | Running, ALockNoTsa i => is_Some (locks th !! i)
  | Waiting _ _ _ (SLock _), AGoOn => True
  | _, _ => False
  end.

Lemma std_lock_blocked t o : std_lock t o = None -> exists u, u <> t /\ o = Some u.
Proof. unfold std_lock. destruct o as [u|]; [|done]. case_bool_decide; [done|]. eauto. Qed.

Lemma blocked_by_other t a s th :
  inv s -> threads s !! t = Some th -> wants_mutex a th -> step t a s = None ->
  exists u, u <> t /\ owner s = Some u.
Proof.
  intros Hinv Ht Hw Hs. unfold step in Hs. rewrite Ht in Hs. cbn in Hs.
  destruct (act t a th (owner s) (data s)) as [|] eqn:E; [done|]. clear Hs. apply std_lock_blocked.
  destruct (inv_thread s Hinv t th Ht) as [Hok _]. destruct th as [ls b c r]. unfold act, wants_mutex in *. cbn [pc locks] in *.
  destruct c as [|g timed p [| |timeout|]]; destruct a as [| | | | |i|?|???|??|?| |?]; try done.
  - unfold mutex_lock in E. by destruct (std_lock t (owner s)).
  - unfold lock_new, unique_lock_new in E. by destruct (std_lock t (owner s)).
  - destruct Hw as [ul Hi]. rewrite Hi in E. cbn in E. unfold lock_no_tsa, unique_lock_lock in E.
    destruct (device ul), (owns ul), (std_lock t (owner s)); done.
  - cbn [wait_step] in E. rewrite (target_ok timed p (SLock timeout) g ls b r Hok) in E.
    unfold unique_lock_lock in E. cbn in E. by destruct (std_lock t (owner s)).
Qed.

(** A wait that is woken when the mutex is free and its predicate holds returns
    in two steps of its thread. *)
Lemma woken_wait_returns t s th g timed p timeout :
  inv s -> threads s !! t = Some th -> pc th = Waiting g timed p (SLock timeout) ->
  owner s = None -> p (data s) = true ->
  exists s1 s2 th2, step t AGoOn s = Some (Ok s1) /\ step t AGoOn s1 = Some (Ok s2) /\
    threads s2 !! t = Some th2 /\ pc th2 = Running /\ result th2 = true /\ owner s2 = Some t.
Proof.
  intros Hinv Ht Hpc Ho Hp. destruct (inv_thread s Hinv t th Ht) as [Hok _].
  destruct th as [ls b c r]. cbn in Hpc. subst c. set (th := mkThread _ _ _ _) in *.
  pose proof (target_ok timed p (SLock timeout) g ls b r Hok) as Htgt. fold th in Htgt.
  set (th1 := put_target g (UL true true) timed p (if timeout then SFinal else SPred) th).
  assert (step t AGoOn s = Some (Ok (mkState (Some t) (data s) (<[t := th1]> (threads s))))) as H1.
  { unfold step. rewrite Ht. cbn [mbind option_bind]. unfold act. cbn [pc th]. cbn [wait_step]. fold th. rewrite Htgt.
    unfold unique_lock_lock. cbn [device owns negb stage_holds]. rewrite Ho. done. }
  exists (mkState (Some t) (data s) (<[t := th1]> (threads s))). set (s1 := mkState _ _ _) in *.
  destruct (step_good t AGoOn s th _ Hinv Ht ltac:(done) H1) as (? & [= <-] & Hinv1 & _).
  assert (threads s1 !! t = Some th1) as Ht1 by (apply list_lookup_insert_eq; by eapply lookup_lt_Some).
  assert (exists g', pc th1 = Waiting g' timed p (if timeout then SFinal else SPred)) as [g' Hpc1]
    by (destruct g; eexists; done).
  set (th2 := set_result true (set_pc Running th1)). exists (mkState (Some t) (data s) (<[t := th2]> (threads s1))), th2.
  split; [done|]. split; [|split; [apply list_lookup_insert_eq; by eapply lookup_lt_Some|done]].
  unfold step. rewrite Ht1. cbn [mbind option_bind]. unfold act. rewrite Hpc1. cbn [owner data s1].
  destruct timeout; cbn [wait_step]; rewrite Hp; destruct g'; done.
Qed.
End Machine.

(** C26. Threads that keep the discipline of the annotations, each looking at its
    own locks only, never meet an error: no mutex is locked twice by a thread or
    unlocked by another one, no lock throws.  At most one thread holds the mutex,
    it is the one the mutex says, and only that thread changes the data.  A
    thread that has to wait for the mutex waits for another one that holds it. *)
Theorem lock_discipline_safe {D} (d : D) n s t th a :
  reachable d n s -> threads s !! t = Some th -> (pc th = Running -> legal a th) ->
  (forall x, step t a s = Some x -> exists s', x = Ok s' /\
     (data s' = data s \/ (owner s = Some t /\ owner s' = Some t))) /\
  (step t a s = None -> wants_mutex a th -> exists u, u <> t /\ owner s = Some u) /\
  (forall u thu, threads s !! u = Some thu -> (holds thu = true <-> owner s = Some u)) /\
  (forall u, owner s = Some u -> exists thu, threads s !! u = Some thu /\ holds thu = true).
Proof.
  intros Hr%mutex_reachable_inv Ht Hleg. split; [|split; [|split]].
  - intros x Hx. destruct (step_good t a s th x Hr Ht Hleg Hx) as (s' & -> & _ & Hd). eauto.
  - intros Hn Hw. by eapply blocked_by_other.
  - intros u thu Hu. symmetry. apply (inv_thread s Hr u thu Hu).
  - intros u Hu. destruct (lookup_lt_is_Some_2 _ _ (inv_owner s Hr u Hu)) as [thu Hthu].
    exists thu. split; [done|]. by apply (inv_thread s Hr u thu Hthu).
Qed.

(** C27. Every wait, of a [lock] or of a locked [mutex], with or without a
    deadline, looks at its predicate and returns with the mutex held by its
    thread, all locks of the thread as they were (the lock that [wait_locked]
    adopts lets the mutex go on being held), and with the value of the predicate
    on the data as it is at that moment: true, unless there was a deadline.  A
    wait that is woken when the mutex is free and the predicate holds returns
    after two more steps of its thread. *)
Theorem waits_return_locked {D} (d : D) n s t th g timed p st :
  reachable d n s -> threads s !! t = Some th -> pc th = Waiting g timed p st ->
  (forall s' th', step t AGoOn s = Some (Ok s') -> threads s' !! t = Some th' -> pc th' = Running ->
     owner s = Some t /\ owner s' = Some t /\ data s' = data s /\
     result th' = p (data s) /\ (result th' = false -> timed = true) /\
     locks th' = locks th /\ raw th' = raw th /\ holdings th' = 1%nat) /\
  (forall timeout, st = SLock timeout -> owner s = None -> p (data s) = true ->
     exists s1 s2 th2, step t AGoOn s = Some (Ok s1) /\ step t AGoOn s1 = Some (Ok s2) /\
       threads s2 !! t = Some th2 /\ pc th2 = Running /\ result th2 = true /\ owner s2 = Some t).
Proof.
  intros Hr%mutex_reachable_inv Ht Hpc. split; [|intros timeout -> Ho Hp; by eapply woken_wait_returns].
  intros s' th' Hs Ht' Hrun. unfold step in Hs. rewrite Ht in Hs. cbn [mbind option_bind] in Hs.
  destruct (inv_thread s Hr t th Ht) as [Hok Ho]. unfold holds in Ho. rewrite Hpc in Ho.
  destruct th as [ls b c r]. cbn in Hpc. subst c. unfold act in Hs. cbn [pc] in Hs.
  destruct (wait_step t g timed p st (data s) _ (owner s)) as [x|] eqn:E; [|by destruct st].
  pose proof (wait_step_good _ _ _ _ _ _ _ _ _ _ _ Hok Ho E) as (th1 & o1 & -> & _ & _ & Hh & Hres).
  assert (s' = mkState o1 (data s) (<[t := th1]> (threads s))) as -> by (destruct st; by injection Hs).
  cbn [threads owner data] in *. rewrite list_lookup_insert_eq in Ht' by (by eapply lookup_lt_Some).
  injection Ht' as ->. destruct (Hres Hrun) as (-> & ?). split; [|done].
  destruct st; cbn in E; [by apply Ho|done| |by apply Ho].
  rewrite (target_ok timed p (SLock timeout) g ls b r Hok) in E. unfold unique_lock_lock in E. cbn in E.
  destruct (std_lock t (owner s)); [|done]. injection E as E. exfalso.
  destruct r0; try done. injection E as <- _. by destruct g.
Qed.

(** ** A run *)
Global Instance legal_dec {D} (a : @Action D) th : Decision (legal a th).
Proof. destruct a; cbn; apply _. Defined.

Definition running {D} (th : @Thread D) : bool := match pc th with Running => true | _ => false end.

(** The steps [l], as long as they are legal and possible. *)
Fixpoint run_steps {D} (l : list (Tid * @Action D)) (s : @State D) : option (@State D) :=
  match l with
  | [] => Some s
  | (t, a) :: l =>
      th ← threads s !! t;
      if negb (running th) || bool_decide (legal a th) then
        match step t a s with Some (Ok s') => run_steps l s' | _ => None end
      else None
  end.

Lemma run_steps_reachable {D} (d : D) n l s s' :
  reachable d n s -> run_steps l s = Some s' -> reachable d n s'.
Proof.
  revert s. induction l as [|[t a] l IH]; intros s Hr H; cbn in H; [by simplify_eq|].
  destruct (threads s !! t) as [th|] eqn:Ht; [|done]. cbn in H.
  destruct (negb (running th) || bool_decide (legal a th)) eqn:Hleg; [|done].
  destruct (step t a s) as [[s1| |]|] eqn:Hs; try done. eapply IH; [|done]. eapply reach_step; [done|done| |done].
  intros Hrun. unfold running in Hleg. rewrite Hrun in Hleg. cbn in Hleg. by apply bool_decide_eq_true in Hleg.
Qed.

(** Two threads: the first waits with a deadline for the data to be 1, the
    second writes it under a lock of its own and waits for it to be 2 with the
    mutex locked; the first is woken. *)
Definition sample_steps : list (Tid * @Action nat) :=
  [(0, ANew); (0, AWait 0 true (Nat.eqb 1)); (0, AGoOn); (1, ALock); (1, AWrite 1);
   (1, AWaitLocked false (Nat.eqb 2)); (1, AGoOn); (0, AWake true)]%nat.

Definition sample : @State nat := default (initial 0%nat 2) (run_steps sample_steps (initial 0%nat 2)).

Lemma mutex_sample_reachable : reachable 0%nat 2 sample.
Proof. apply (run_steps_reachable _ _ sample_steps (initial 0%nat 2)); [constructor|reflexivity]. Qed.

Definition sample_thread (t : Tid) : @Thread nat := default (mkThread [] false Running true) (threads sample !! t).

Lemma lock_discipline_safe_witness :
  (forall x, step 0 AGoOn sample = Some x -> exists s', x = Ok s' /\
     (data s' = data sample \/ (owner sample = Some 0%nat /\ owner s' = Some 0%nat))) /\
  (step 0 AGoOn sample = None -> wants_mutex AGoOn (sample_thread 0) -> exists u, u <> 0%nat /\ owner sample = Some u) /\
  (forall u thu, threads sample !! u = Some thu -> (holds thu = true <-> owner sample = Some u)) /\
  (forall u, owner sample = Some u -> exists thu, threads sample !! u = Some thu /\ holds thu = true).
Proof.
  apply (lock_discipline_safe 0%nat 2 sample 0 (sample_thread 0) AGoOn); [apply mutex_sample_reachable|reflexivity|].
  intros _. exact I.
Defined.

Lemma waits_return_locked_witness :
  exists s1 s2 th2, step 0 AGoOn sample = Some (Ok s1) /\ step 0 AGoOn s1 = Some (Ok s2) /\
    threads s2 !! 0%nat = Some th2 /\ pc th2 = Running /\ result th2 = true /\ owner s2 = Some 0%nat.
Proof.
  apply (proj2 (waits_return_locked 0%nat 2 sample 0 (sample_thread 0) (InLock 0) true (Nat.eqb 1) (SLock true)
    mutex_sample_reachable eq_refl eq_refl) true); reflexivity.
Defined.
